(* ===== verification/_CoqProject ===== *)
-Q . S2P
Prelude.v
Abi.v
Kernel.v
Demo.v
SealCore.v
Hooks.v
SealSpec.v
SealRefine.v
HookSpec.v
HookRefine.v
HookProps.v
Subtree.v
StrictLaunch.v
CLib.v
Config.v
ConfigProps.v
Seccomp.v
Profile.v
ProfileProps.v
EnvAudit.v
Landlock.v
Loader.v
LoaderProps.v
LoaderRun.v
LoaderDry.v
LoaderSafety.v
ObserveBpf.v
ObserveSpec.v
Observe.v
ObserveMain.v
ObserveSetup.v
ObserveText.v
ObserveProps.v
ObserveLoad.v
Wrapper.v
WrapperProps.v
User.v
UserProps.v
UserDemo.v
Root.v
RootMain.v
RootProps.v
RootSafety.v
RootSync.v
Numerals.v
UserDump.v
Pin.v
Unpin.v
PinMain.v
PinProps.v
UnpinProps.v
PinSafety.v
PinArmed.v
PinDemo.v
AbiWire.v
AuditLine.v
AuditDir.v
ObserveRun.v
Inet.v
ShellGuard.v
ShellGuardProps.v
Resources.v
Hardening.v
DryRun.v
LoaderRelease.v
Diagnostics.v
