(* ===== verification/Prelude.v ===== *)
(** * A verification development for compartment

    compartment confines processes on Linux.  It has two halves.  The
    per-process tools ([src/compartment-user.c], [src/compartment-root.c], on
    the shared [src/compartment.h]) read a policy profile and apply Landlock,
    seccomp, environment sanitising and namespaces to one command.  The
    host-wide module ([src/compartment-bpf/]) seals files and directories with
    BPF LSM programs ([compartment.bpf.c]) that a loader ([compartment-bpf.c])
    fills with policy and pins.

    ** Files

    - [Prelude]: machine integers with explicit wrap-around, bit tests, list
      lemmas, hint databases [comp_db] and [comp], tactics.
    - [Abi]: the structures and constants of [compartment-abi.h] the programs
      use.
    - [Kernel]: the kernel objects the programs read (inodes, dentries, files,
      tasks, mounts as finite maps; a failed probe read gives zero), the frozen
      policy maps, the dynamic state (counters, audit ring, per-task markers)
      and a state monad [M] with the stack-allocated identity cache, then the
      counter, audit and identity helpers of [compartment.bpf.c].
    - [SealCore]: its decision helpers: actor allow-list, strict launch, seal
      decision, bounded ancestor walks, depth cap, alias rules, pins.
    - [Hooks]: its thirty programs, one definition each.
    - [SealSpec], [HookSpec]: the abstract specification: an outcome is a
      verdict, counter bumps and at most one audit emission, computed from the
      list of seals that cover an object; the relation [implements].
    - [SealRefine], [HookRefine]: every helper and every program implements its
      outcome.
    - [HookProps]: what follows for the programs: refinement, deference to
      earlier modules, the audit discipline, and exactly when each class of
      operation is refused.
    - [Subtree]: namespace operations as a step relation on directory trees;
      the depth bound is an invariant, so a sealed subtree stays sealed; and
      the case of nested seals in which it does not.
    - [StrictLaunch]: exec, fork, exit and hook calls as a step relation on
      the marker storage; the lineage invariant.
    - [Demo]: a small concrete host for the witnesses.
    - [CLib]: the C string, number and stream routines the tools call.
    - [Config], [ConfigProps]: [Config] with its bounded arrays, the appends,
      name tables and value parsers of [compartment.h]; bounds and the one-way
      order [retains].
    - [Seccomp]: the filter builder, a machine for classic BPF, the installed
      policy and the built-in deny-list.
    - [Profile], [ProfileProps]: the profile loader: trust checks, lines,
      directives, inheritance, transaction, search; what a load guarantees.
    - [EnvAudit]: environment sanitising and audit records.
    - [Landlock]: the ruleset construction, the additivity check, path
      containment and the audit-directory warning.
    - [Loader]: the part of [compartment-bpf.c] that turns a profile into map
      contents: grammar, path resolution and its refusals, the scan of sealed
      directories, the merge rule, map updates, the strict-mode passes and
      [load_conf] in its three modes.
    - [LoaderProps]: the invariant of the loader's state while no error was
      counted (recorded seals and maps agree, groups are resolved, values are
      well formed) and what the final passes add.
    - [LoaderRun]: seals only grow, and every [seal] line of an accepted
      profile is in force.
    - [LoaderDry]: the dry run follows the real load.
    - [LoaderSafety]: the loader composed with the hooks: the binaries a loaded
      policy trusts cannot be changed by anyone, the hooks it arms, the dry
      run, the ELF check, flag printing.
    - [ObserveBpf], [ObserveSpec]: the observer's twelve in-kernel programs
      ([compartment-observe.bpf.c]) with their maps, and what they record: the
      attribution of an operation to an actor as a function of the history of
      execs and forks, and the table of observed files as the set of attributed
      operations.
    - [Observe], [ObserveMain], [ObserveSetup], [ObserveText], [ObserveProps],
      [ObserveLoad]: the observer's user side ([compartment-observe.c]): options,
      actors, path resolution, event text, the stop of the observed child, the
      rules it derives and the profile it writes; that profile read by the
      loader of [Loader].
    - [Wrapper], [WrapperProps]: both builds of the actor wrapper
      ([tools/compartment-actor-wrapper.c]): target checks, environment,
      descriptors, filter.
    - [User], [UserProps], [UserDemo]: [compartment-user.c]: built-in profiles,
      preflight, mechanisms in order, the shell mode and the normal mode; when
      the command starts, every mechanism is in force.
    - [Root], [RootMain]: [compartment-root.c] as programs in a monad that
      records system calls with the kernel's answers: the child up to [execvp],
      the options and checks of [main], the parent, process 1 of the container.
    - [RootProps], [RootSafety]: a logic for the order of calls in a trace; the
      command starts only in the finished container.
    - [RootSync]: the calls of the parent and of [child_func] as a step relation
      over the pipe between them; every interleaving is finite, the child waits for
      its set-up and no process is left waiting; what the
      parent writes; the reaper; the traversal guard.
    - [Numerals]: printed numbers are read back.
    - [UserDump]: [--dump-profile] and its round trip through the profile
      loader: the same policy and the same enforcement.
    - [Pin], [Unpin], [PinMain]: the rest of [compartment-bpf.c]: pinning links
      and counter maps with their roll-back, [--unpin] (lock, passphrase, path
      check, sweep, drain), [--stats], [--self-protect] in its two phases, the
      probes, the options and [main].
    - [PinProps]: a Hoare logic with crash conditions over those actions: what
      holds at the end, and at every moment a kill can leave behind.
    - [UnpinProps], [PinSafety]: nothing is unpinned without the passphrase, only
      known names are removed, 0 means drained; pinning is all or nothing, no
      moment leaves links without their passphrase, unpinning undoes pinning.
    - [PinArmed]: programs are attached only under a complete, frozen policy; a
      self-protected pin tree is refused to everyone but the loader by the hooks
      of [Hooks].
    - [PinDemo]: the witnesses of these, and the runs in which the code does less
      than its comments say.
    - [AbiWire]: the layout and the bytes of the structures of
      [compartment-abi.h], as a class of codecs; writing and reading is a round
      trip.
    - [AuditLine]: [action_name] and [audit_handler]: what the loader prints for
      the bytes of a record; every refusal of a hook is printed on one line.
    - [AuditDir]: the parent chain, the choice and the checks of the audit
      directory; the confined process cannot write to a default one.
    - [ObserveRun]: the rest of [observe_main], from loading to the output and
      provenance files; the written profile says exactly what was done.
    - [Inet]: [inet_pton], [inet_ntop] and [ip_in_cidr]; a range is its leading
      bits.
    - [ShellGuard], [ShellGuardProps]: the archived [shell-guard.c] in both
      builds; what a shell it starts has passed, and what its checks miss.
    - [Resources]: the strings of a [Config] as owned or borrowed pointers, what
      every option and directive allocates and frees, [config_free_oneshot], and
      the loader's list of held descriptors; each owned string is freed once.
    - [Hardening]: [apply_hardening], which runs under the installed filter, and
      what is left of it there.
    - [DryRun]: the [--dry-run] listings of both drivers; what is announced
      happens.
    - [LoaderRelease]: what the loader's parser allocates, with any allocation
      failing; the profile is released exactly.
    - [Diagnostics]: the reports that look something up: where a profile was
      searched, a refused [--unpin], live programs without pins, hard links, and
      binaries of more than one actor.

    ** How the model corresponds to the code

    Names are the code's.  An [int] result is [0] or a negated errno in the
    in-kernel part; in [compartment.h] [-1] is [None] (the diagnostics are
    left out) and a function that writes through a pointer returns the new
    value.  An array with a count is a list; the bound is checked where the
    code checks it.  What is outside the repository is a parameter: the
    kernel's objects and the helpers' answers ([env]), the file system,
    environment and syscall numbers ([world]), the Landlock and seccomp
    answers, the file system and map updates of the loader ([lworld]), what the
    two drivers ask of the system ([uworld], [rworld], [rkernel], whose answers
    may depend on the whole trace so far), and what it answers to the loader
    ([pkernel], whose refusals may depend on the position and the state; a pin
    that exists, a file that does not and a frozen map are answered as documented).
    Two assumptions on [pkernel] are named: [UnpinProps.honest], that [ENOENT]
    means absent, and [PinSafety.removable], that the process may list its pin
    directories and remove its own pins.  The one
    assumption on [lworld], [LoaderProps.inodes_stable], says that a (device,
    inode) pair is or is not a directory whatever path it is reached by.

    ** Bounds and fuel

    The ancestor walks take [COMPARTMENT_MAX_DIR_ANCESTORS] (8) steps, as the
    code's bounded loops do.  A BPF program jumps forward only, so its length
    is enough fuel ([Seccomp.run_insns]); [fgets] and [expand_var] consume a
    character per step and [unsetenv] removes an entry per step, so lengths
    are enough ([CLib.fgets_loop_concat], [ProfileProps.expand_loop_complete],
    [EnvAudit.sanitize_loop_spec]).  The observer polls its child at most twenty
    times.  The drain of [--unpin] polls every 100 ms up to its timeout, so [Unpin.drain_fuel]
    is enough ([UnpinProps.wait_program_drain_spec]).  The reaper's loop runs over the list of [wait]'s answers.  Profile inheritance is structural in the
    remaining depth (2 at the start).

    ** What is not modelled

    The usage and help texts, the verification text of compartment-root, and verbose
    and error messages, which change no state; the option lists are what
    [getopt_long] returns. *)

From stdpp Require Export prelude gmap strings list.
From Stdlib Require Export ZArith Lia.

#[export] Set Default Goal Selector "!".

Declare Scope comp_scope.
Delimit Scope comp_scope with comp.
#[global] Open Scope Z_scope.

(** ** Machine integers

    A [w]-bit unsigned integer is a [Z]; the operations that can leave the
    range wrap explicitly. *)

Definition u32_mod : Z := 2 ^ 32.
Definition u64_mod : Z := 2 ^ 64.
Definition wrap32 (z : Z) : Z := z mod u32_mod.
Definition wrap64 (z : Z) : Z := z mod u64_mod.

(** [hasbit a m] is the C condition [a & m], read as a truth value. *)
Definition hasbit (a m : Z) : bool := negb (Z.land a m =? 0).

Notation "a '&?' m" := (hasbit a m) (at level 40, no associativity) : comp_scope.

Lemma wrap64_range z : 0 <= wrap64 z < u64_mod.
Proof. apply Z.mod_pos_bound. reflexivity. Qed.

Lemma wrap64_small z : 0 <= z < u64_mod -> wrap64 z = z.
Proof. apply Z.mod_small. Qed.

Lemma hasbit_lor_r (a m n : Z) : hasbit a (Z.lor m n) = hasbit a m || hasbit a n.
Proof.
  unfold hasbit. rewrite Z.land_lor_distr_r.
  destruct (Z.eqb_spec (Z.land a m) 0) as [E1|E1]; destruct (Z.eqb_spec (Z.land a n) 0) as [E2|E2];
    cbn; try (rewrite negb_true_iff; apply Z.eqb_neq; rewrite Z.lor_eq_0_iff; tauto).
  rewrite E1, E2. reflexivity.
Qed.

Lemma hasbit_comm a m : hasbit a m = hasbit m a.
Proof. unfold hasbit. by rewrite Z.land_comm. Qed.

Lemma hasbit_lor_l (a b m : Z) : hasbit (Z.lor a b) m = hasbit a m || hasbit b m.
Proof. by rewrite hasbit_comm, hasbit_lor_r, !(hasbit_comm m). Qed.

Lemma land_lor_absorb a b : Z.land a (Z.lor a b) = a.
Proof. apply Z.bits_inj'. intros n _. rewrite Z.land_spec, Z.lor_spec. by destruct (Z.testbit a n). Qed.

(** ** Generic helpers on booleans, options and lists *)

Lemma hasbit_0_r a : hasbit a 0 = false.
Proof. unfold hasbit. by rewrite Z.land_0_r. Qed.

(** The first element of a list that satisfies a boolean test, with its index. *)
Fixpoint find_index {A} (f : A -> bool) (l : list A) : option (nat * A) :=
  match l with
  | [] => None
  | x :: l' => if f x then Some (0%nat, x)
               else match find_index f l' with
                    | Some (n, y) => Some (S n, y)
                    | None => None
                    end
  end.

Lemma find_index_Some {A} (f : A -> bool) l n x :
  find_index f l = Some (n, x) ->
  l !! n = Some x /\ f x = true /\ forall m y, (m < n)%nat -> l !! m = Some y -> f y = false.
Proof.
  revert n. induction l as [|a l IH]; intros n; cbn; [done|].
  destruct (f a) eqn:Ea.
  - intros [= <- <-]. repeat split; [done|]. intros; lia.
  - destruct (find_index f l) as [[k z]|]; [|done]. intros [= <- <-].
    destruct (IH k eq_refl) as (H1 & H2 & H3). repeat split; [done..|].
    intros [|m] y Hm Hy; cbn in Hy; [by simplify_eq|]. eapply H3; [|done]. lia.
Qed.

Lemma find_index_None {A} (f : A -> bool) l :
  find_index f l = None <-> Forall (fun x => f x = false) l.
Proof.
  induction l as [|a l IH]; cbn; [by split|]. rewrite Forall_cons.
  destruct (f a) eqn:Ea; [naive_solver|].
  destruct (find_index f l) as [[k z]|]; naive_solver.
Qed.

Lemma elem_of_cons_bool (x y : Z) l :
  bool_decide (x ∈ y :: l) = (x =? y) || bool_decide (x ∈ l).
Proof.
  destruct (Z.eqb_spec x y) as [->|Hn]; cbn.
  - apply bool_decide_eq_true. left.
  - apply bool_decide_ext. rewrite elem_of_cons. naive_solver.
Qed.

Lemma bool_decide_nil (x : Z) : bool_decide (x ∈ []) = false.
Proof. apply bool_decide_eq_false, not_elem_of_nil. Qed.

(** A list splits at the first occurrence of a separator in one way. *)
Lemma split_unique {A} (x : A) a b a' b' :
  x ∉ a -> x ∉ a' -> a ++ x :: b = a' ++ x :: b' -> a = a' /\ b = b'.
Proof.
  revert a'. induction a as [|c a IH]; intros [|d a'] Ha Ha' H; cbn in H; simplify_eq; try set_solver.
  destruct (IH a') as (-> & ->); set_solver.
Qed.

(** An inductive invariant holds on every reachable state. *)
Lemma rtc_invariant {A} (R : relation A) (P : A -> Prop) x y :
  (forall a b, R a b -> P a -> P b) -> rtc R x y -> P x -> P y.
Proof. intros H. induction 1; eauto. Qed.

(** ** Automation

    [comp] collects the rewriting rules of the components, [comp_db] their
    resolution hints. *)
Create HintDb comp_db.
Create Rewrite HintDb comp.

Ltac bool_cases :=
  repeat match goal with
         | |- context [if ?b then _ else _] => let E := fresh "E" in destruct b eqn:E
         end.

Ltac inv_eq := repeat (simplify_eq/=; try case_match).
