(* ===== verification/Abi.v ===== *)
(** * The wire ABI shared by the BPF programs and the loader

    Models [src/compartment-bpf/compartment-abi.h]: the seal flags, the
    audit action codes, and the structures stored in the BPF maps and in the
    audit ring buffer.  A [__u32] / [__u64] field is a [Z]; a [char[16]]
    field is the list of its bytes. *)

From S2P Require Import Prelude.

(** ** Constants *)

Definition COMPARTMENT_ABI_VERSION : Z := 0x0008.
Definition COMPARTMENT_MAX_DIR_ANCESTORS : nat := 8.
Definition COMPARTMENT_MAX_ACTORS_PER_SEAL : nat := 4.

Definition SEAL_NO_UNLINK : Z := Z.shiftl 1 0.
Definition SEAL_NO_RENAME : Z := Z.shiftl 1 1.
Definition SEAL_NO_WRITE : Z := Z.shiftl 1 2.
Definition SEAL_NO_CHMOD : Z := Z.shiftl 1 3.
Definition SEAL_STRICT_LAUNCH : Z := Z.shiftl 1 5.
Definition SEAL_FULL : Z :=
  Z.lor (Z.lor (Z.lor SEAL_NO_UNLINK SEAL_NO_RENAME) SEAL_NO_WRITE) SEAL_NO_CHMOD.

Definition ACTION_DENY_UNLINK : Z := 1.
Definition ACTION_DENY_RENAME : Z := 2.
Definition ACTION_DENY_WRITE : Z := 3.
Definition ACTION_DENY_ACTOR_MISMATCH : Z := 4.
Definition ACTION_DENY_CHMOD : Z := 5.
Definition ACTION_DENY_CREATE : Z := 6.
Definition ACTION_DENY_UNPIN_AUTH_FAIL : Z := 7.
Definition ACTION_DENY_STRICT_LAUNCH_MISSING : Z := 8.
Definition ACTION_DENY_WRITE_PARENT_DIR : Z := 9.
Definition ACTION_DENY_CHMOD_PARENT_DIR : Z := 10.
Definition ACTION_DENY_PRCTL_SET_MM : Z := 11.
Definition ACTION_DENY_PTRACE_ACCESS : Z := 12.
Definition ACTION_DENY_PTRACE_TRACEME : Z := 13.
Definition ACTION_DENY_MOUNT : Z := 14.
Definition ACTION_DENY_UMOUNT : Z := 15.
Definition ACTION_DENY_BPF_SELF : Z := 16.
Definition ACTION_DENY_PIN_TAMPER : Z := 17.

Definition COMPARTMENT_MAX_LOADER_IDS : nat := 8.

(** ** Structures *)

Record inode_key := InodeKey { key_dev : Z; key_ino : Z }.

#[export] Instance inode_key_eq_dec : EqDecision inode_key.
Proof. solve_decision. Defined.

#[export] Instance inode_key_countable : Countable inode_key.
Proof.
  apply (inj_countable' (fun k => (key_dev k, key_ino k)) (fun p => InodeKey p.1 p.2)).
  by intros [].
Defined.

(** A [char[16]] buffer. *)
Abbreviation name16 := (list Z).
Definition name16_zero : name16 := replicate 16 0.

Record audit_event := AuditEvent {
  ev_version : Z;
  ev_pad0 : Z;
  ev_ts_ns : Z;
  ev_pid : Z;
  ev_ppid : Z;
  ev_uid : Z;
  ev_action : Z;
  ev_dev : Z;
  ev_ino : Z;
  ev_caller_dev : Z;
  ev_caller_ino : Z;
  ev_comm : name16;
  ev_actor_name : name16
}.

Record actor_id := ActorId { actor_dev : Z; actor_ino : Z }.

Record seal_value := SealValue {
  sv_flags : Z;
  sv_actor_count : Z;
  sv_actor : list actor_id;        (* [actor[COMPARTMENT_MAX_ACTORS_PER_SEAL]] *)
  sv_actor_name : name16;
  sv_strict_actor_slot : Z;
  sv_strict_generation : Z
}.

Record launcher_actor := LauncherActor {
  la_target : inode_key;
  la_actor_slot : Z;
  la_policy_generation : Z
}.

Record actor_marker := ActorMarker {
  am_target : inode_key;
  am_actor_slot : Z;
  am_policy_generation : Z;
  am_state : Z;
  am_pad : Z
}.

Record policy_state := PolicyState {
  ps_generation : Z;
  ps_strict_loaded : Z
}.

Record self_protect_cfg := SelfProtectCfg {
  cfg_pin_dev : Z;
  cfg_enabled : Z
}.

#[export] Instance actor_id_eq_dec : EqDecision actor_id.
Proof. solve_decision. Defined.
#[export] Instance seal_value_eq_dec : EqDecision seal_value.
Proof. solve_decision. Defined.
#[export] Instance actor_marker_eq_dec : EqDecision actor_marker.
Proof. solve_decision. Defined.
#[export] Instance audit_event_eq_dec : EqDecision audit_event.
Proof. solve_decision. Defined.

(** A seal as the loader writes it: the inline array has exactly
    [COMPARTMENT_MAX_ACTORS_PER_SEAL] slots and the count fits a [__u8]. *)
Definition seal_value_wf (sv : seal_value) : Prop :=
  length (sv_actor sv) = COMPARTMENT_MAX_ACTORS_PER_SEAL
  /\ 0 <= sv_actor_count sv < 256
  /\ 0 <= sv_flags sv < u32_mod.
