(* ===== verification/Kernel.v ===== *)
(** * Kernel objects, the program environment and the BPF state monad

    The BPF programs of [src/compartment-bpf/compartment.bpf.c] read kernel
    structures through [BPF_CORE_READ], look up BPF maps the loader filled
    and froze, and write counters, the audit ring buffer and per-task marker
    storage.  This file fixes those three kinds of state:

    - [kernel]: the kernel objects a program dereferences.  A pointer is an
      optional address and a read through [NULL] or a dangling address yields
      zero, which is what [bpf_probe_read_kernel] stores on a fault;
    - [env]: what one hook invocation sees and cannot change (the kernel, the
      frozen maps, the current task, the clock, and whether a ring buffer
      reservation or a storage allocation succeeds);
    - [dyn]: what a hook can change, threaded by the state monad [M] together
      with the hook's on-stack [struct caller_id]. *)

From S2P Require Import Prelude Abi.

(** ** Kernel objects *)

Abbreviation ptr := (option positive).
Abbreviation NULL := (@None positive).

Record inode := Inode { i_ino : Z; i_sb : ptr; i_mode : Z; i_nlink : Z }.
Record super_block := SuperBlock { s_dev : Z; s_root : ptr }.
Record dentry := Dentry { d_inode : ptr; d_parent : ptr }.
Record file := File { f_inode : ptr; f_path_dentry : ptr; f_mode : Z }.
Record mm_struct := MmStruct { exe_file : ptr }.
Record task_struct := TaskStruct { t_mm : ptr; t_tgid : Z; t_real_parent : ptr }.
Record vm_area_struct := VmArea { vm_flags : Z; vm_file : ptr }.
Record vfsmount := VfsMount { mnt_sb : ptr; mnt_root : ptr }.

Record kernel := Kernel {
  k_inodes : gmap positive inode;
  k_sbs : gmap positive super_block;
  k_dentries : gmap positive dentry;
  k_files : gmap positive file;
  k_mms : gmap positive mm_struct;
  k_tasks : gmap positive task_struct;
  k_vmas : gmap positive vm_area_struct;
  k_mounts : gmap positive vfsmount
}.

(** [read_val] and [read_ptr] are [BPF_CORE_READ] of an integer and of a
    pointer field. *)
Definition read_val {A} (m : gmap positive A) (f : A -> Z) (p : ptr) : Z :=
  match p ≫= (fun a => m !! a) with Some x => f x | None => 0 end.

Definition read_ptr {A} (m : gmap positive A) (f : A -> ptr) (p : ptr) : ptr :=
  match p ≫= (fun a => m !! a) with Some x => f x | None => NULL end.

Definition is_null (p : ptr) : bool := match p with None => true | Some _ => false end.
Definition ptr_eqb (p q : ptr) : bool := bool_decide (p = q).

(** ** The frozen policy maps *)

Record policy := Policy {
  sealed_inodes : gmap inode_key seal_value;
  sealed_dirs : gmap inode_key seal_value;
  sealed_devs : gmap Z Z;
  launcher_to_actor : gmap inode_key launcher_actor;
  policy_state_map : option policy_state;
  protected_map_ids : gmap Z Z;
  loader_ids : gmap inode_key Z;
  protected_pins : gmap inode_key Z;
  self_protect_cfg_map : option self_protect_cfg
}.

(** ** The environment of one hook invocation *)

Record env := Env {
  e_kernel : kernel;
  e_policy : policy;
  e_current : ptr;                            (* bpf_get_current_task_btf() *)
  e_ktime : Z;                                (* bpf_ktime_get_ns() *)
  e_pid_tgid : Z;                             (* bpf_get_current_pid_tgid() *)
  e_uid_gid : Z;                              (* bpf_get_current_uid_gid() *)
  e_comm : name16;                            (* bpf_get_current_comm() *)
  e_reserve : list audit_event -> bool;       (* bpf_ringbuf_reserve() != NULL *)
  e_storage_alloc : bool                      (* task storage F_CREATE succeeds *)
}.

(** ** Mutable state: counters, ring buffer, task storage *)

Inductive counter :=
  | deny_total
  | audit_drop_total
  | actor_mismatch_total
  | strict_launch_missing_total
  | strict_launch_allowed_total
  | marker_set_total
  | marker_set_fail_total
  | marker_clear_foreign_exec_total
  | marker_copy_fork_total
  | marker_stale_generation_total
  | prctl_set_mm_exe_file_denied_total
  | ptrace_access_denied_total
  | ptrace_traceme_denied_total
  | bpf_self_denied_total
  | pin_tamper_denied_total.

#[export] Instance counter_eq_dec : EqDecision counter.
Proof. solve_decision. Defined.

Record dyn := Dyn {
  d_counters : counter -> Z;
  audit_rb : list audit_event;
  actor_marker_map : gmap positive actor_marker
}.

(** The on-stack identity cache of a hook. *)
Record caller_id := CallerId {
  cid_dev : Z;
  cid_ino : Z;
  cid_resolved : bool;
  cid_valid : bool
}.

Definition caller_id_zero : caller_id := CallerId 0 0 false false.

Record hstate := HState { hs_dyn : dyn; hs_cid : caller_id }.

(** ** The monad of hook code *)

Definition M (A : Type) : Type := hstate -> A * hstate.

#[export] Instance M_ret : MRet M := fun A x s => (x, s).
#[export] Instance M_bind : MBind M :=
  fun A B k m s => let '(x, s') := m s in k x s'.

(** [m ;;? k]: [r = m; if (r) return r; k]. *)
Definition mguard (m k : M Z) : M Z :=
  r ← m; if r =? 0 then k else mret r.

(** [mguard_as m rc k]: [if (m) return rc; k]. *)
Definition mguard_as (m : M Z) (rc : Z) (k : M Z) : M Z :=
  r ← m; if r =? 0 then k else mret rc.

Notation "m ';;?' k" := (mguard m k)
  (at level 100, k at level 200, right associativity) : comp_scope.
Open Scope comp_scope.

Definition gets {A} (f : hstate -> A) : M A := fun s => (f s, s).
Definition upd_dyn (f : dyn -> dyn) : M unit :=
  fun s => (tt, HState (f (hs_dyn s)) (hs_cid s)).
Definition set_cid (c : caller_id) : M unit := fun s => (tt, HState (hs_dyn s) c).

Definition EACCES : Z := 13.
Definition EPERM : Z := 1.

(** ** Helpers of compartment.bpf.c *)

(** Counters are per-CPU [__u64] cells, so an increment wraps. *)
Definition counter_incr (c : counter) (d : dyn) : dyn :=
  Dyn (fun c' => if decide (c' = c) then wrap64 (d_counters d c' + 1) else d_counters d c')
      (audit_rb d) (actor_marker_map d).

Definition bump_counter (c : counter) : M unit := upd_dyn (counter_incr c).

Definition ring_push (e : audit_event) (d : dyn) : dyn :=
  Dyn (d_counters d) (audit_rb d ++ [e]) (actor_marker_map d).

Definition marker_put (t : positive) (m : actor_marker) (d : dyn) : dyn :=
  Dyn (d_counters d) (audit_rb d) (<[t := m]> (actor_marker_map d)).

Definition marker_del (t : positive) (d : dyn) : dyn :=
  Dyn (d_counters d) (audit_rb d) (delete t (actor_marker_map d)).

Section Helpers.
Context (E : env).
Local Abbreviation K := (e_kernel E).

Definition inode_key_of (i : ptr) : inode_key :=
  if is_null i then InodeKey 0 0
  else
    let ino := read_val (k_inodes K) i_ino i in
    let sb := read_ptr (k_inodes K) i_sb i in
    let dev := if is_null sb then 0 else read_val (k_sbs K) s_dev sb in
    InodeKey dev ino.

(** What [caller_id_resolve_locked] stores: the (dev, ino) of
    [current->mm->exe_file], or an invalid identity. *)
Definition caller_id_of_current : caller_id :=
  let none := CallerId 0 0 true false in
  if is_null (e_current E) then none
  else
    let mm := read_ptr (k_tasks K) t_mm (e_current E) in
    let exe := read_ptr (k_mms K) exe_file mm in
    if is_null exe then none
    else
      let einode := read_ptr (k_files K) f_inode exe in
      if is_null einode then none
      else
        let ino := read_val (k_inodes K) i_ino einode in
        let esb := read_ptr (k_inodes K) i_sb einode in
        let dev := if is_null esb then 0 else read_val (k_sbs K) s_dev esb in
        CallerId dev ino true true.

Definition caller_id_resolve_locked : M unit := set_cid caller_id_of_current.

(** The audit record of a deny, every field written. *)
Definition build_event (action dev ino cdev cino : Z) (src : option name16) : audit_event :=
  AuditEvent COMPARTMENT_ABI_VERSION 0 (e_ktime E)
    (Z.shiftr (e_pid_tgid E) 32)
    (if is_null (e_current E) then 0
     else read_val (k_tasks K) t_tgid (read_ptr (k_tasks K) t_real_parent (e_current E)))
    (Z.land (e_uid_gid E) 0xffffffff)
    action dev ino cdev cino (e_comm E)
    (match src with Some n => n | None => name16_zero end).

Definition emit_audit_actor (action dev ino cdev cino : Z) (src : option name16) : M unit :=
  bump_counter deny_total ;;
  rb ← gets (fun s => audit_rb (hs_dyn s)) ;
  if e_reserve E rb
  then upd_dyn (ring_push (build_event action dev ino cdev cino src))
  else bump_counter audit_drop_total.

Definition emit_audit (action dev ino : Z) : M unit :=
  emit_audit_actor action dev ino 0 0 None.

(** [bpf_task_storage_get(&actor_marker_map, t, NULL, 0)]. *)
Definition task_storage_get (t : ptr) : M (option actor_marker) :=
  gets (fun s => t ≫= (fun a => actor_marker_map (hs_dyn s) !! a)).

Definition cur_strict_generation : Z :=
  match policy_state_map (e_policy E) with Some ps => ps_generation ps | None => 0 end.

Definition cur_strict_loaded : Z :=
  match policy_state_map (e_policy E) with Some ps => ps_strict_loaded ps | None => 0 end.
End Helpers.

(** ** Running a hook: a zeroed identity cache on the stack *)
Definition run_hook {A} (m : M A) (d : dyn) : A * dyn :=
  let '(r, s) := m (HState d caller_id_zero) in (r, hs_dyn s).
