(* ===== verification/Demo.v ===== *)
(** * A small concrete kernel for evaluating the definitions

    One filesystem (device 8) with [/] (inode 2), [/etc] (inode 100, sealed),
    [/etc/conf] (inode 101), [/etc/sub] (inode 102), [/tmp] (inode 300),
    [/tmp/x] (inode 301) and the executables [/bin/editor] (inode 200),
    [/bin/launch] (inode 201).  Task 1 runs the editor; task 2 is a kernel
    thread.  Used by the witnesses of the theorems. *)

From S2P Require Import Prelude Abi Kernel.

Definition demo_dir_mode : Z := 0x41ED.   (* 040755 *)
Definition demo_reg_mode : Z := 0x81A4.   (* 0100644 *)

Definition demo_kernel : kernel := {|
  k_inodes := list_to_map [
    (2%positive, Inode 2 (Some 1%positive) demo_dir_mode 4);
    (100%positive, Inode 100 (Some 1%positive) demo_dir_mode 2);
    (101%positive, Inode 101 (Some 1%positive) demo_reg_mode 1);
    (102%positive, Inode 102 (Some 1%positive) demo_dir_mode 2);
    (200%positive, Inode 200 (Some 1%positive) demo_reg_mode 1);
    (201%positive, Inode 201 (Some 1%positive) demo_reg_mode 1);
    (300%positive, Inode 300 (Some 1%positive) demo_dir_mode 2);
    (301%positive, Inode 301 (Some 1%positive) demo_reg_mode 1)];
  k_sbs := {[ 1%positive := SuperBlock 8 (Some 1%positive) ]};
  k_dentries := list_to_map [
    (1%positive, Dentry (Some 2%positive) (Some 1%positive));
    (10%positive, Dentry (Some 100%positive) (Some 1%positive));
    (11%positive, Dentry (Some 101%positive) (Some 10%positive));
    (12%positive, Dentry (Some 102%positive) (Some 10%positive));
    (13%positive, Dentry NULL (Some 12%positive));
    (30%positive, Dentry (Some 300%positive) (Some 1%positive));
    (31%positive, Dentry (Some 301%positive) (Some 30%positive))];
  k_files := list_to_map [
    (1%positive, File (Some 101%positive) (Some 11%positive) 3);
    (2%positive, File (Some 200%positive) NULL 1);
    (3%positive, File (Some 201%positive) NULL 1);
    (4%positive, File (Some 301%positive) (Some 31%positive) 3)];
  k_mms := list_to_map [(1%positive, MmStruct (Some 2%positive)); (3%positive, MmStruct (Some 3%positive))];
  k_tasks := list_to_map [
    (1%positive, TaskStruct (Some 1%positive) 4242 (Some 1%positive));
    (2%positive, TaskStruct NULL 2 (Some 2%positive));
    (3%positive, TaskStruct (Some 3%positive) 4243 (Some 1%positive))];
  k_vmas := {[ 1%positive := VmArea 0xB (Some 1%positive) ]};
  k_mounts := list_to_map [
    (1%positive, VfsMount (Some 1%positive) (Some 1%positive));
    (2%positive, VfsMount (Some 1%positive) (Some 30%positive))]
|}.

Definition demo_name : name16 := [101; 100; 0; 0; 0; 0; 0; 0; 0; 0; 0; 0; 0; 0; 0; 0].

(** A uniform seal, a seal bound to the editor, and its strict version. *)
Definition demo_uniform : seal_value := SealValue SEAL_FULL 0 (replicate 4 (ActorId 0 0)) name16_zero 0 0.
Definition demo_actor : seal_value :=
  SealValue SEAL_FULL 1 (ActorId 8 200 :: replicate 3 (ActorId 0 0)) demo_name 0 0.
Definition demo_strict : seal_value :=
  SealValue (Z.lor SEAL_FULL SEAL_STRICT_LAUNCH) 1 (ActorId 8 200 :: replicate 3 (ActorId 0 0))
    demo_name 1 7.

Definition demo_policy (sv : seal_value) : policy := {|
  sealed_inodes := ∅;
  sealed_dirs := {[ InodeKey 8 100 := sv ]};
  sealed_devs := {[ 8 := 1 ]};
  launcher_to_actor := {[ InodeKey 8 201 := LauncherActor (InodeKey 8 200) 1 7 ]};
  policy_state_map := Some (PolicyState 7 1);
  protected_map_ids := {[ 55 := 1 ]};
  loader_ids := {[ InodeKey 8 201 := 1 ]};
  protected_pins := ∅;
  self_protect_cfg_map := Some (SelfProtectCfg 9 1)
|}.

Definition demo_env (sv : seal_value) (cur : ptr) : env := {|
  e_kernel := demo_kernel;
  e_policy := demo_policy sv;
  e_current := cur;
  e_ktime := 123456789;
  e_pid_tgid := Z.shiftl 4242 32;
  e_uid_gid := 1000;
  e_comm := demo_name;
  e_reserve := fun rb => (length rb <? 2500)%nat;
  e_storage_alloc := true
|}.

Definition demo_dyn : dyn := Dyn (fun _ => 0) [] ∅.

(** Task 1 after the launcher handed over to the editor. *)
Definition demo_dyn_marked : dyn :=
  Dyn (fun _ => 0) [] {[ 1%positive := ActorMarker (InodeKey 8 200) 1 7 1 0 ]}.
