(* ===== verification/SealCore.v ===== *)
(** * Seal decisions

    Models the decision helpers of [src/compartment-bpf/compartment.bpf.c]:
    the actor allow-list check, the strict-launch marker check, the decision
    for one seal, the direct inode check, the bounded ancestor walks, the
    subtree depth-cap and alias helpers, and the self-protection helpers.
    [int] results are [0] or a negated errno, as in the C code. *)

From S2P Require Import Prelude Abi Kernel.

Definition S_IFMT : Z := 0xF000.   (* 00170000 *)
Definition S_IFDIR : Z := 0x4000.  (* 0040000 *)
Definition S_IFLNK : Z := 0xA000.  (* 0120000 *)

(** [struct dir_seal_hit]. *)
Record dir_seal_hit := DirSealHit { hit_dev : Z; hit_ino : Z; hit_depth : nat }.

Section SealCore.
Context (E : env).
Local Abbreviation K := (e_kernel E).
Local Abbreviation P := (e_policy E).

(** ** Actor allow-list *)

Definition deny_actor_mismatch (sv : option seal_value) (dev ino cdev cino : Z) : M Z :=
  bump_counter actor_mismatch_total ;;
  emit_audit_actor E ACTION_DENY_ACTOR_MISMATCH dev ino cdev cino (sv_actor_name <$> sv) ;;
  mret (- EACCES).

(** The bounded scan: stops at the first index [>= n] or at a match. *)
Fixpoint actor_scan (cid : caller_id) (n i : Z) (actors : list actor_id) : bool :=
  match actors with
  | [] => false
  | a :: rest =>
      if n <=? i then false
      else if (cid_dev cid =? actor_dev a) && (cid_ino cid =? actor_ino a) then true
      else actor_scan cid n (i + 1) rest
  end.

Definition actor_check_or_deny (sv : option seal_value) (action dev ino : Z) : M Z :=
  match sv with
  | None => deny_actor_mismatch None dev ino 0 0
  | Some v =>
      if sv_actor_count v =? 0
      then emit_audit E action dev ino ;; mret (- EACCES)
      else
        c0 ← gets hs_cid ;
        (if cid_resolved c0 then mret tt else caller_id_resolve_locked E) ;;
        cid ← gets hs_cid ;
        if negb (cid_valid cid) then deny_actor_mismatch sv dev ino 0 0
        else
          let n := if Z.of_nat COMPARTMENT_MAX_ACTORS_PER_SEAL <? sv_actor_count v
                   then Z.of_nat COMPARTMENT_MAX_ACTORS_PER_SEAL
                   else sv_actor_count v in
          if actor_scan cid n 0 (take COMPARTMENT_MAX_ACTORS_PER_SEAL (sv_actor v))
          then mret 0
          else deny_actor_mismatch sv dev ino (cid_dev cid) (cid_ino cid)
  end.

(** ** Strict launch *)

Definition deny_strict (sv : seal_value) (dev ino cdev cino : Z) : M Z :=
  bump_counter strict_launch_missing_total ;;
  emit_audit_actor E ACTION_DENY_STRICT_LAUNCH_MISSING dev ino cdev cino
    (Some (sv_actor_name sv)) ;;
  mret (- EACCES).

Definition strict_launch_check_or_deny (sv : seal_value) (dev ino : Z) : M Z :=
  c0 ← gets hs_cid ;
  (if cid_resolved c0 then mret tt else caller_id_resolve_locked E) ;;
  cid ← gets hs_cid ;
  if negb (cid_valid cid) then deny_strict sv dev ino 0 0
  else if is_null (e_current E) then deny_strict sv dev ino 0 0
  else
    am ← task_storage_get (e_current E) ;
    match am with
    | None => deny_strict sv dev ino (cid_dev cid) (cid_ino cid)
    | Some m =>
        if am_state m =? 0 then deny_strict sv dev ino (cid_dev cid) (cid_ino cid)
        else if negb (key_dev (am_target m) =? cid_dev cid)
                || negb (key_ino (am_target m) =? cid_ino cid)
        then deny_strict sv dev ino (cid_dev cid) (cid_ino cid)
        else if negb (am_actor_slot m =? sv_strict_actor_slot sv)
        then deny_strict sv dev ino (cid_dev cid) (cid_ino cid)
        else if negb (am_policy_generation m =? cur_strict_generation E)
                || negb (am_policy_generation m =? sv_strict_generation sv)
        then bump_counter strict_launch_missing_total ;;
             bump_counter marker_stale_generation_total ;;
             emit_audit_actor E ACTION_DENY_STRICT_LAUNCH_MISSING dev ino
               (cid_dev cid) (cid_ino cid) (Some (sv_actor_name sv)) ;;
             mret (- EACCES)
        else bump_counter strict_launch_allowed_total ;; mret 0
    end.

(** ** One seal *)

Definition seal_decision (sv : option seal_value) (mask action dev ino : Z) : M Z :=
  match sv with
  | None => mret 0
  | Some v =>
      if negb (sv_flags v &? mask) then mret 0
      else
        r ← actor_check_or_deny sv action dev ino ;
        if negb (r =? 0) then mret r
        else if sv_flags v &? SEAL_STRICT_LAUNCH
        then strict_launch_check_or_deny v dev ino
        else mret 0
  end.

(** [lookup_inode_seals]: the key, and the file and directory seals on it;
    [None] when the function returns 0 without a seal to check. *)
Definition lookup_inode_seals (i : ptr)
  : option (inode_key * option seal_value * option seal_value) :=
  let k := inode_key_of E i in
  if is_null i then None
  else if (key_dev k =? 0) && (key_ino k =? 0) then None
  else
    let isv := sealed_inodes P !! k in
    let dsv := sealed_dirs P !! k in
    match isv, dsv with
    | None, None => None
    | _, _ => Some (k, isv, dsv)
    end.

Definition deny_inode_action (i : ptr) (mask action : Z) : M Z :=
  match lookup_inode_seals i with
  | None => mret 0
  | Some (k, isv, dsv) =>
      seal_decision isv mask action (key_dev k) (key_ino k) ;;?
      (seal_decision dsv mask action (key_dev k) (key_ino k) ;;?
      mret 0)
  end.

(** ** Bounded ancestor walks

    Both loops run [fuel] = [COMPARTMENT_MAX_DIR_ANCESTORS] iterations and
    leave early at a [NULL] or self-parented dentry. *)

Fixpoint find_nearest_loop (fuel depth : nat) (cur : ptr) (mask : Z) : option dir_seal_hit :=
  match fuel with
  | O => None
  | S fuel' =>
      if is_null cur then None
      else
        let next :=
          let parent := read_ptr (k_dentries K) d_parent cur in
          if is_null parent || ptr_eqb parent cur then None
          else find_nearest_loop fuel' (S depth) parent mask in
        let dir_inode := read_ptr (k_dentries K) d_inode cur in
        if is_null dir_inode then next
        else
          let dk := inode_key_of E dir_inode in
          if negb (key_dev dk =? 0) || negb (key_ino dk =? 0) then
            match sealed_dirs P !! dk with
            | Some sv => if sv_flags sv &? mask
                         then Some (DirSealHit (key_dev dk) (key_ino dk) depth)
                         else next
            | None => next
            end
          else next
  end.

Definition find_nearest_dir_seal_hit_from_dir_dentry (dir : ptr) (mask : Z)
  : option dir_seal_hit :=
  find_nearest_loop COMPARTMENT_MAX_DIR_ANCESTORS 0 dir mask.

Definition dir_seal_hit_same (a b : dir_seal_hit) : bool :=
  (hit_dev a =? hit_dev b) && (hit_ino a =? hit_ino b).

Fixpoint deny_ancestor_loop (fuel : nat) (cur : ptr) (mask action : Z) : M Z :=
  match fuel with
  | O => mret 0
  | S fuel' =>
      if is_null cur then mret 0
      else
        let dir_inode := read_ptr (k_dentries K) d_inode cur in
        (if is_null dir_inode then mret 0
         else
           let dk := inode_key_of E dir_inode in
           if negb (key_dev dk =? 0) || negb (key_ino dk =? 0)
           then seal_decision (sealed_dirs P !! dk) mask action (key_dev dk) (key_ino dk)
           else mret 0) ;;?
        let parent := read_ptr (k_dentries K) d_parent cur in
        if is_null parent || ptr_eqb parent cur then mret 0
        else deny_ancestor_loop fuel' parent mask action
  end.

Definition deny_dir_ancestor_action_from_dir_dentry (dir : ptr) (mask action : Z) : M Z :=
  deny_ancestor_loop COMPARTMENT_MAX_DIR_ANCESTORS dir mask action.

(** ** Depth cap and alias invariants of a recursive [no-write] seal *)

Definition deny_runtime_subtree_depth_cap (action : Z) (hit : option dir_seal_hit) : M Z :=
  match hit with
  | None => mret 0
  | Some h => emit_audit E action (hit_dev h) (hit_ino h) ;; mret (- EACCES)
  end.

(** The parent of a child dentry, when it is a real parent. *)
Definition real_parent_of (d : ptr) : ptr :=
  if is_null d then NULL
  else
    let parent := read_ptr (k_dentries K) d_parent d in
    if is_null parent || ptr_eqb parent d then NULL else parent.

Definition deny_subtree_invariant_on_child_dentry (d : ptr) (action : Z) : M Z :=
  let parent := real_parent_of d in
  if is_null parent then mret 0
  else deny_runtime_subtree_depth_cap action
         (find_nearest_dir_seal_hit_from_dir_dentry parent SEAL_NO_WRITE).

Definition deny_mkdir_subtree_depth_cap (d : ptr) : M Z :=
  let parent := real_parent_of d in
  if is_null parent then mret 0
  else
    match find_nearest_dir_seal_hit_from_dir_dentry parent SEAL_NO_WRITE with
    | None => mret 0
    | Some hit =>
        if (COMPARTMENT_MAX_DIR_ANCESTORS <=? hit_depth hit + 1)%nat
        then deny_runtime_subtree_depth_cap ACTION_DENY_CREATE (Some hit)
        else mret 0
    end.

Definition deny_dir_rename_subtree_depth_cap (old_dentry new_dentry : ptr) : M Z :=
  if is_null old_dentry || is_null new_dentry then mret 0
  else
    let old_target := read_ptr (k_dentries K) d_inode old_dentry in
    if is_null old_target then mret 0
    else if negb (Z.land (read_val (k_inodes K) i_mode old_target) S_IFMT =? S_IFDIR) then mret 0
    else
      let new_parent := real_parent_of new_dentry in
      if is_null new_parent then mret 0
      else
        match find_nearest_dir_seal_hit_from_dir_dentry new_parent SEAL_NO_WRITE with
        | None => mret 0
        | Some new_hit =>
            let deny := deny_runtime_subtree_depth_cap ACTION_DENY_RENAME (Some new_hit) in
            if (COMPARTMENT_MAX_DIR_ANCESTORS <=? hit_depth new_hit + 1)%nat then deny
            else
              let old_parent := real_parent_of old_dentry in
              if is_null old_parent then deny
              else
                match find_nearest_dir_seal_hit_from_dir_dentry old_parent SEAL_NO_WRITE with
                | None => deny
                | Some old_hit =>
                    if negb (dir_seal_hit_same old_hit new_hit) then deny
                    else if (hit_depth old_hit <? hit_depth new_hit)%nat then deny
                    else mret 0
                end
        end.

Definition deny_hardlink_subtree_alias_invariants (old_dentry new_dentry : ptr) : M Z :=
  deny_subtree_invariant_on_child_dentry old_dentry ACTION_DENY_WRITE_PARENT_DIR ;;?
  deny_subtree_invariant_on_child_dentry new_dentry ACTION_DENY_CREATE.

Definition deny_non_dir_rename_subtree_alias_invariants (old_dentry new_dentry : ptr) : M Z :=
  if is_null old_dentry || is_null new_dentry then mret 0
  else
    let old_target := read_ptr (k_dentries K) d_inode old_dentry in
    if is_null old_target then mret 0
    else
      let mode := read_val (k_inodes K) i_mode old_target in
      if Z.land mode S_IFMT =? S_IFDIR then mret 0
      else
        let new_parent := real_parent_of new_dentry in
        if is_null new_parent then mret 0
        else
          match find_nearest_dir_seal_hit_from_dir_dentry new_parent SEAL_NO_WRITE with
          | None => mret 0
          | Some new_hit =>
              if Z.land mode S_IFMT =? S_IFLNK
              then deny_runtime_subtree_depth_cap ACTION_DENY_RENAME (Some new_hit)
              else if 1 <? read_val (k_inodes K) i_nlink old_target
              then deny_runtime_subtree_depth_cap ACTION_DENY_RENAME (Some new_hit)
              else mret 0
          end.

(** ** Parent-directory checks *)

Definition deny_file_parent_dir_action (f : ptr) (mask action : Z) : M Z :=
  let d := read_ptr (k_files K) f_path_dentry f in
  if is_null d then mret 0
  else
    let parent := read_ptr (k_dentries K) d_parent d in
    if is_null parent || ptr_eqb parent d then mret 0
    else deny_dir_ancestor_action_from_dir_dentry parent mask action.

Definition deny_dentry_parent_dir_action (d : ptr) (mask action : Z) : M Z :=
  if is_null d then mret 0
  else
    let parent := read_ptr (k_dentries K) d_parent d in
    if is_null parent || ptr_eqb parent d then mret 0
    else deny_dir_ancestor_action_from_dir_dentry parent mask action.

Definition deny_file_write (f : ptr) : M Z :=
  if is_null f then mret 0
  else
    let i := read_ptr (k_files K) f_inode f in
    deny_inode_action i SEAL_NO_WRITE ACTION_DENY_WRITE ;;?
    deny_file_parent_dir_action f SEAL_NO_WRITE ACTION_DENY_WRITE_PARENT_DIR.

(** ** Self-protection *)

Definition self_protect : option self_protect_cfg :=
  match self_protect_cfg_map P with
  | Some c => if cfg_enabled c =? 0 then None else Some c
  | None => None
  end.

Definition caller_is_loader : M bool :=
  c0 ← gets hs_cid ;
  (if cid_resolved c0 then mret tt else caller_id_resolve_locked E) ;;
  cid ← gets hs_cid ;
  if negb (cid_valid cid) then mret false
  else mret (bool_decide (is_Some (loader_ids P !! InodeKey (cid_dev cid) (cid_ino cid)))).

Definition deny_self_protect (action : Z) (c : counter) (dev ino err : Z) : M Z :=
  bump_counter c ;;
  cid ← gets hs_cid ;
  emit_audit_actor E action dev ino
    (if cid_valid cid then cid_dev cid else 0)
    (if cid_valid cid then cid_ino cid else 0) None ;;
  mret err.

Definition deny_pin_tamper (i : ptr) : M Z :=
  match self_protect with
  | None => mret 0
  | Some cfg =>
      if is_null i then mret 0
      else
        let k := inode_key_of E i in
        if (key_dev k =? 0) || negb (key_dev k =? cfg_pin_dev cfg) then mret 0
        else if bool_decide (protected_pins P !! k = None) then mret 0
        else
          l ← caller_is_loader ;
          if (l : bool) then mret 0
          else deny_self_protect ACTION_DENY_PIN_TAMPER pin_tamper_denied_total
                 (key_dev k) (key_ino k) (- EACCES)
  end.

Definition deny_pin_tamper_dentry (d : ptr) : M Z :=
  if is_null d then mret 0 else deny_pin_tamper (read_ptr (k_dentries K) d_inode d).
End SealCore.

Arguments seal_decision : simpl never.
Arguments actor_check_or_deny : simpl never.
Arguments strict_launch_check_or_deny : simpl never.
Arguments deny_inode_action : simpl never.
Arguments deny_dentry_parent_dir_action : simpl never.
Arguments deny_file_parent_dir_action : simpl never.
Arguments deny_pin_tamper : simpl never.
Arguments deny_runtime_subtree_depth_cap : simpl never.
