(* ===== verification/Hooks.v ===== *)
(** * The LSM hooks

    One definition per [SEC("lsm/...")] program of
    [src/compartment-bpf/compartment.bpf.c].  [ret] is the verdict of the
    LSM modules that ran before; the arguments a program discards with a
    [(void)] cast are not arguments here.  The strict-launch marker hooks
    change task storage and are at the end. *)

From S2P Require Import Prelude Abi Kernel SealCore.

Definition FMODE_WRITE : Z := 0x2.
Definition MAY_WRITE : Z := 0x2.
Definition PROT_WRITE : Z := 0x2.
Definition MAP_SHARED : Z := 0x01.
Definition VM_SHARED : Z := 0x8.
Definition ATTR_MODE : Z := 1.
Definition ATTR_UID : Z := 2.
Definition ATTR_GID : Z := 4.
Definition ATTR_SIZE : Z := 8.
Definition ATTR_ATIME : Z := 16.
Definition ATTR_MTIME : Z := 32.
Definition COMP_FS_IOC_SETFLAGS : Z := 0x40086602.
Definition COMP_FS_IOC32_SETFLAGS : Z := 0x40046602.
Definition COMP_FS_IOC_FSSETXATTR : Z := 0x401c5820.
Definition COMP_FS_IOC_SETVERSION : Z := 0x40087602.
Definition COMP_FS_IOC32_SETVERSION : Z := 0x40047602.
Definition MS_REMOUNT : Z := 0x20.
Definition MS_BIND : Z := 0x1000.
Definition MS_UNBINDABLE : Z := Z.shiftl 1 17.
Definition MS_PRIVATE : Z := Z.shiftl 1 18.
Definition MS_SLAVE : Z := Z.shiftl 1 19.
Definition MS_SHARED : Z := Z.shiftl 1 20.
Definition PR_SET_MM : Z := 35.

(** [if (ret != 0) return ret;] *)
Definition after (ret : Z) (m : M Z) : M Z := if ret =? 0 then m else mret ret.

Section Hooks.
Context (E : env).
Local Abbreviation K := (e_kernel E).
Local Abbreviation P := (e_policy E).

(** ** Directory entry hooks *)

Definition comp_inode_unlink (dentry : ptr) (ret : Z) : M Z :=
  after ret (
    mguard_as (deny_pin_tamper_dentry E dentry) (- EACCES) (
    mguard_as (deny_dentry_parent_dir_action E dentry SEAL_NO_UNLINK ACTION_DENY_UNLINK)
      (- EACCES) (
    let target := read_ptr (k_dentries K) d_inode dentry in
    mguard_as (deny_inode_action E target SEAL_NO_UNLINK ACTION_DENY_UNLINK) (- EACCES)
    (mret 0)))).

Definition comp_inode_rename (old_dentry new_dentry : ptr) (ret : Z) : M Z :=
  after ret (
    mguard_as (deny_pin_tamper_dentry E old_dentry) (- EACCES) (
    mguard_as (deny_pin_tamper_dentry E new_dentry) (- EACCES) (
    deny_dentry_parent_dir_action E old_dentry
      (Z.lor SEAL_NO_RENAME SEAL_NO_UNLINK) ACTION_DENY_RENAME ;;?
    deny_dentry_parent_dir_action E old_dentry SEAL_NO_WRITE ACTION_DENY_WRITE_PARENT_DIR ;;?
    deny_dentry_parent_dir_action E new_dentry SEAL_NO_RENAME ACTION_DENY_RENAME ;;?
    deny_dentry_parent_dir_action E new_dentry SEAL_NO_WRITE ACTION_DENY_WRITE_PARENT_DIR ;;?
    deny_non_dir_rename_subtree_alias_invariants E old_dentry new_dentry ;;?
    deny_dir_rename_subtree_depth_cap E old_dentry new_dentry ;;?
    let old_target := read_ptr (k_dentries K) d_inode old_dentry in
    mguard_as (deny_inode_action E old_target (Z.lor SEAL_NO_RENAME SEAL_NO_UNLINK)
                 ACTION_DENY_RENAME) (- EACCES) (
    let new_target := read_ptr (k_dentries K) d_inode new_dentry in
    mguard_as (deny_inode_action E new_target
                 (Z.lor (Z.lor SEAL_NO_RENAME SEAL_NO_UNLINK) SEAL_NO_WRITE)
                 ACTION_DENY_RENAME) (- EACCES) (mret 0))))).

Definition comp_inode_rmdir (dentry : ptr) (ret : Z) : M Z :=
  after ret (
    mguard_as (deny_pin_tamper_dentry E dentry) (- EACCES) (
    mguard_as (deny_dentry_parent_dir_action E dentry SEAL_NO_UNLINK ACTION_DENY_UNLINK)
      (- EACCES) (
    let target := read_ptr (k_dentries K) d_inode dentry in
    mguard_as (deny_inode_action E target SEAL_NO_UNLINK ACTION_DENY_UNLINK) (- EACCES)
    (mret 0)))).

Definition comp_inode_create (dentry : ptr) (ret : Z) : M Z :=
  after ret (deny_dentry_parent_dir_action E dentry SEAL_NO_WRITE ACTION_DENY_CREATE).

Definition comp_inode_mkdir (dentry : ptr) (ret : Z) : M Z :=
  after ret (
    deny_dentry_parent_dir_action E dentry SEAL_NO_WRITE ACTION_DENY_CREATE ;;?
    deny_mkdir_subtree_depth_cap E dentry).

Definition comp_inode_mknod (dentry : ptr) (ret : Z) : M Z :=
  after ret (deny_dentry_parent_dir_action E dentry SEAL_NO_WRITE ACTION_DENY_CREATE).

Definition comp_inode_symlink (dentry : ptr) (ret : Z) : M Z :=
  after ret (
    deny_dentry_parent_dir_action E dentry SEAL_NO_WRITE ACTION_DENY_CREATE ;;?
    deny_subtree_invariant_on_child_dentry E dentry ACTION_DENY_CREATE).

Definition comp_inode_link (old_dentry new_dentry : ptr) (ret : Z) : M Z :=
  after ret (
    let src := read_ptr (k_dentries K) d_inode old_dentry in
    (if is_null src then mret 0
     else deny_inode_action E src SEAL_NO_WRITE ACTION_DENY_CREATE) ;;?
    deny_dentry_parent_dir_action E old_dentry SEAL_NO_WRITE ACTION_DENY_WRITE_PARENT_DIR ;;?
    deny_dentry_parent_dir_action E new_dentry SEAL_NO_WRITE ACTION_DENY_CREATE ;;?
    deny_hardlink_subtree_alias_invariants E old_dentry new_dentry).

(** ** Data write hooks *)

Definition comp_file_open (f : ptr) (ret : Z) : M Z :=
  after ret (
    if negb (read_val (k_files K) f_mode f &? FMODE_WRITE) then mret 0
    else if is_null (read_ptr (k_files K) f_inode f) then mret 0
    else deny_file_write E f).

Definition comp_file_permission (f : ptr) (mask ret : Z) : M Z :=
  after ret (if negb (mask &? MAY_WRITE) then mret 0 else deny_file_write E f).

Definition comp_file_truncate (f : ptr) (ret : Z) : M Z :=
  after ret (deny_file_write E f).

Definition comp_mmap_file (f : ptr) (reqprot prot flags ret : Z) : M Z :=
  after ret (
    if is_null f then mret 0
    else if negb (Z.lor prot reqprot &? PROT_WRITE) then mret 0
    else if negb (flags &? MAP_SHARED) then mret 0
    else deny_file_write E f).

Definition comp_file_mprotect (vma : ptr) (prot ret : Z) : M Z :=
  after ret (
    if negb (prot &? PROT_WRITE) then mret 0
    else if negb (read_val (k_vmas K) vm_flags vma &? VM_SHARED) then mret 0
    else
      let f := read_ptr (k_vmas K) vm_file vma in
      if is_null f then mret 0 else deny_file_write E f).

(** ** Metadata hooks *)

Definition comp_inode_setattr_impl (dentry : ptr) (ia_valid ret : Z) : M Z :=
  after ret (
    let i := read_ptr (k_dentries K) d_inode dentry in
    (match lookup_inode_seals E i with
     | None => mret 0
     | Some (k, isv, dsv) =>
         (if ia_valid &? ATTR_SIZE then
            seal_decision E isv SEAL_NO_WRITE ACTION_DENY_WRITE (key_dev k) (key_ino k) ;;?
            seal_decision E dsv SEAL_NO_WRITE ACTION_DENY_WRITE (key_dev k) (key_ino k)
          else mret 0) ;;?
         (if (ia_valid &? Z.lor (Z.lor ATTR_MODE ATTR_UID) ATTR_GID)
             || (negb (ia_valid &? ATTR_SIZE) && (ia_valid &? Z.lor ATTR_ATIME ATTR_MTIME))
          then
            seal_decision E isv SEAL_NO_CHMOD ACTION_DENY_CHMOD (key_dev k) (key_ino k) ;;?
            seal_decision E dsv SEAL_NO_CHMOD ACTION_DENY_CHMOD (key_dev k) (key_ino k)
          else mret 0)
     end) ;;?
    (if ia_valid &? ATTR_SIZE
     then deny_dentry_parent_dir_action E dentry SEAL_NO_WRITE ACTION_DENY_WRITE_PARENT_DIR
     else mret 0) ;;?
    (if ia_valid &? Z.ldiff 0xffffffff ATTR_SIZE
     then deny_dentry_parent_dir_action E dentry SEAL_NO_CHMOD ACTION_DENY_CHMOD_PARENT_DIR
     else mret 0)).

Definition comp_inode_setattr := comp_inode_setattr_impl.
Definition comp_inode_setattr_legacy := comp_inode_setattr_impl.

Definition comp_inode_setxattr (dentry : ptr) (ret : Z) : M Z :=
  after ret (
    let i := read_ptr (k_dentries K) d_inode dentry in
    mguard_as (deny_inode_action E i SEAL_NO_CHMOD ACTION_DENY_CHMOD) (- EACCES) (
    mguard_as (deny_dentry_parent_dir_action E dentry SEAL_NO_CHMOD ACTION_DENY_CHMOD_PARENT_DIR)
      (- EACCES) (mret 0))).

Definition comp_inode_removexattr (dentry : ptr) (ret : Z) : M Z :=
  after ret (
    let i := read_ptr (k_dentries K) d_inode dentry in
    mguard_as (deny_inode_action E i SEAL_NO_CHMOD ACTION_DENY_CHMOD) (- EACCES) (
    mguard_as (deny_dentry_parent_dir_action E dentry SEAL_NO_CHMOD ACTION_DENY_CHMOD_PARENT_DIR)
      (- EACCES) (mret 0))).

Definition comp_inode_set_acl (dentry : ptr) (ret : Z) : M Z :=
  after ret (
    let i := read_ptr (k_dentries K) d_inode dentry in
    mguard_as (deny_inode_action E i SEAL_NO_CHMOD ACTION_DENY_CHMOD) (- EACCES) (
    mguard_as (deny_dentry_parent_dir_action E dentry SEAL_NO_CHMOD ACTION_DENY_CHMOD_PARENT_DIR)
      (- EACCES) (mret 0))).

Definition comp_inode_remove_acl (dentry : ptr) (ret : Z) : M Z :=
  after ret (
    let i := read_ptr (k_dentries K) d_inode dentry in
    mguard_as (deny_inode_action E i SEAL_NO_CHMOD ACTION_DENY_CHMOD) (- EACCES) (
    mguard_as (deny_dentry_parent_dir_action E dentry SEAL_NO_CHMOD ACTION_DENY_CHMOD_PARENT_DIR)
      (- EACCES) (mret 0))).

Definition comp_file_ioctl_impl (f : ptr) (cmd ret : Z) : M Z :=
  after ret (
    if negb (cmd =? COMP_FS_IOC_SETFLAGS) && negb (cmd =? COMP_FS_IOC32_SETFLAGS)
       && negb (cmd =? COMP_FS_IOC_FSSETXATTR)
       && negb (cmd =? COMP_FS_IOC_SETVERSION) && negb (cmd =? COMP_FS_IOC32_SETVERSION)
    then mret 0
    else
      let i := read_ptr (k_files K) f_inode f in
      if is_null i then mret 0
      else
        mguard_as (deny_inode_action E i SEAL_NO_CHMOD ACTION_DENY_CHMOD) (- EACCES) (
        mguard_as (deny_file_parent_dir_action E f SEAL_NO_CHMOD ACTION_DENY_CHMOD_PARENT_DIR)
          (- EACCES) (mret 0))).

Definition comp_file_ioctl := comp_file_ioctl_impl.
Definition comp_file_ioctl_compat := comp_file_ioctl_impl.

(** ** Mount hooks *)

Definition deny_mount_on_dentry (mp : ptr) : M Z :=
  if is_null mp then mret 0
  else
    let i := read_ptr (k_dentries K) d_inode mp in
    mguard_as (deny_pin_tamper E i) (- EACCES) (
    mguard_as (deny_inode_action E i SEAL_FULL ACTION_DENY_MOUNT) (- EACCES) (
    deny_dentry_parent_dir_action E mp SEAL_FULL ACTION_DENY_MOUNT)).

Definition comp_sb_mount (path_dentry : ptr) (flags ret : Z) : M Z :=
  after ret (
    if flags &? MS_REMOUNT then mret 0
    else if negb (flags &? MS_BIND)
            && (flags &? Z.lor (Z.lor (Z.lor MS_SHARED MS_PRIVATE) MS_SLAVE) MS_UNBINDABLE)
    then mret 0
    else deny_mount_on_dentry path_dentry).

Definition deny_umount_of_sealed_dev (mnt : ptr) : M Z :=
  if is_null mnt then mret 0
  else
    let sb := read_ptr (k_mounts K) mnt_sb mnt in
    if is_null sb then mret 0
    else
      let dev := read_val (k_sbs K) s_dev sb in
      let exempt :=
        match sealed_devs P !! dev with
        | Some _ => false
        | None => match self_protect E with
                  | None => true
                  | Some cfg => (cfg_pin_dev cfg =? 0) || negb (cfg_pin_dev cfg =? dev)
                  end
        end in
      if (exempt : bool) then mret 0
      else
        let root := read_ptr (k_mounts K) mnt_root mnt in
        let sroot := read_ptr (k_sbs K) s_root sb in
        if is_null root || negb (ptr_eqb root sroot) then mret 0
        else
          caller_id_resolve_locked E ;;
          cid ← gets hs_cid ;
          emit_audit_actor E ACTION_DENY_UMOUNT dev 0
            (if cid_valid cid then cid_dev cid else 0)
            (if cid_valid cid then cid_ino cid else 0) None ;;
          mret (- EACCES).

Definition comp_sb_umount (mnt : ptr) (ret : Z) : M Z :=
  after ret (deny_umount_of_sealed_dev mnt).

(** The two [struct path] arguments are given by their fields.  The
    [to]-side check runs with an identity cache of its own. *)
Definition comp_move_mount (from_mnt from_dentry to_dentry : ptr) (ret : Z) : M Z :=
  after ret (
    (if negb (is_null from_mnt) && negb (is_null from_dentry)
        && ptr_eqb from_dentry (read_ptr (k_mounts K) mnt_root from_mnt)
     then deny_umount_of_sealed_dev from_mnt
     else mret 0) ;;?
    set_cid caller_id_zero ;;
    deny_mount_on_dentry to_dentry).

(** ** Self-protection hook; [map] is the id field of the BPF map object *)

Definition comp_bpf_map (map : option Z) (ret : Z) : M Z :=
  after ret (
    match self_protect E, map with
    | None, _ => mret 0
    | Some _, None => mret 0
    | Some _, Some id =>
        if bool_decide (protected_map_ids P !! id = None) then mret 0
        else
          l ← caller_is_loader E ;
          if (l : bool) then mret 0
          else deny_self_protect E ACTION_DENY_BPF_SELF bpf_self_denied_total 0 id (- EPERM)
    end).

(** ** Strict-launch hooks *)

(** [bprm_file] is [bprm->file].  [bpf_task_storage_get] with
    [F_CREATE] returns the existing storage, or new zeroed storage when the
    allocation succeeds. *)
Definition comp_bprm_committed_creds (bprm_file : ptr) : M Z :=
  if cur_strict_loaded E =? 0 then mret 0
  else
    match e_current E with
    | None => mret 0
    | Some t =>
        let ino_p := if is_null bprm_file then NULL
                     else read_ptr (k_files K) f_inode bprm_file in
        if is_null ino_p then upd_dyn (marker_del t) ;; mret 0
        else
          let sb := read_ptr (k_inodes K) i_sb ino_p in
          let exec_id := InodeKey (if is_null sb then 0 else read_val (k_sbs K) s_dev sb)
                                  (read_val (k_inodes K) i_ino ino_p) in
          let gen := cur_strict_generation E in
          match launcher_to_actor P !! exec_id with
          | Some la =>
              am ← task_storage_get (Some t) ;
              if negb (bool_decide (am = None)) || e_storage_alloc E
              then
                upd_dyn (marker_put t
                  (ActorMarker (la_target la) (la_actor_slot la) gen 1 0)) ;;
                bump_counter marker_set_total ;; mret 0
              else bump_counter marker_set_fail_total ;; mret 0
          | None =>
              am ← task_storage_get (Some t) ;
              match am with
              | None => mret 0
              | Some m =>
                  if am_state m =? 0 then mret 0
                  else if (key_dev (am_target m) =? key_dev exec_id)
                          && (key_ino (am_target m) =? key_ino exec_id) then mret 0
                  else
                    bump_counter marker_clear_foreign_exec_total ;;
                    upd_dyn (marker_del t) ;; mret 0
              end
          end
    end.

Definition comp_task_alloc (task : positive) (ret : Z) : M Z :=
  after ret (
    if cur_strict_loaded E =? 0 then mret 0
    else if is_null (e_current E) then mret 0
    else
      p_am ← task_storage_get (e_current E) ;
      match p_am with
      | None => mret 0
      | Some pm =>
          if am_state pm =? 0 then mret 0
          else
            c_am ← task_storage_get (Some task) ;
            if negb (bool_decide (c_am = None)) || e_storage_alloc E
            then
              upd_dyn (marker_put task
                (ActorMarker (am_target pm) (am_actor_slot pm)
                   (am_policy_generation pm) (am_state pm) 0)) ;;
              bump_counter marker_copy_fork_total ;; mret 0
            else mret 0
      end).

Definition comp_task_prctl (option ret : Z) : M Z :=
  after ret (
    if cur_strict_loaded E =? 0 then mret 0
    else if option =? PR_SET_MM then
      bump_counter prctl_set_mm_exe_file_denied_total ;;
      emit_audit_actor E ACTION_DENY_PRCTL_SET_MM 0 0 0 0 None ;;
      mret (- EPERM)
    else mret 0).

Definition comp_ptrace_access_check (child : ptr) (ret : Z) : M Z :=
  after ret (
    if cur_strict_loaded E =? 0 then mret 0
    else
      am ← task_storage_get child ;
      match am with
      | None => mret 0
      | Some m =>
          if am_state m =? 0 then mret 0
          else
            bump_counter ptrace_access_denied_total ;;
            emit_audit_actor E ACTION_DENY_PTRACE_ACCESS 0 0 0 0 None ;;
            mret (- EPERM)
      end).

Definition comp_ptrace_traceme (ret : Z) : M Z :=
  after ret (
    if cur_strict_loaded E =? 0 then mret 0
    else if is_null (e_current E) then mret 0
    else
      am ← task_storage_get (e_current E) ;
      match am with
      | None => mret 0
      | Some m =>
          if am_state m =? 0 then mret 0
          else
            bump_counter ptrace_traceme_denied_total ;;
            emit_audit_actor E ACTION_DENY_PTRACE_TRACEME 0 0 0 0 None ;;
            mret (- EPERM)
      end).
End Hooks.
