(* ===== verification/SealSpec.v ===== *)
(** * An abstract specification of seal decisions, and its refinement

    The hook code is a sequence of seal checks with a lazily filled identity
    cache, counters and audit emission interleaved.  Here a check has a pure
    [outcome] (verdict, counters to bump, event to emit) computed from the
    caller's real identity, outcomes compose by [o_seq], and [implements]
    relates hook code to an outcome: it returns the verdict, performs exactly
    the outcome's effects, and keeps the identity cache coherent. *)

From S2P Require Import Prelude Abi Kernel SealCore.

(** ** Outcomes *)

Record emission := Emission {
  em_action : Z; em_dev : Z; em_ino : Z; em_cdev : Z; em_cino : Z; em_name : option name16
}.

Record outcome := Outcome { o_rc : Z; o_bumps : list counter; o_emit : option emission }.

Definition o_pass : outcome := Outcome 0 [] None.

Definition o_seq (o1 o2 : outcome) : outcome :=
  if o_rc o1 =? 0 then Outcome (o_rc o2) (o_bumps o1 ++ o_bumps o2) (o_emit o2) else o1.

Definition o_seqs (l : list outcome) : outcome := foldr o_seq o_pass l.

(** A deny always emits one event, and a pass emits none. *)
Definition outcome_ok (o : outcome) : Prop := o_rc o = 0 <-> o_emit o = None.

(** A verdict of path-operation hooks. *)
Definition outcome_eacces (o : outcome) : Prop := o_rc o = 0 \/ o_rc o = - EACCES.

(** ** Effects of an outcome on the mutable state *)

Definition bump_all (l : list counter) (d : dyn) : dyn :=
  fold_left (fun d c => counter_incr c d) l d.

Definition emit_dyn (E : env) (em : emission) (d : dyn) : dyn :=
  let d1 := counter_incr deny_total d in
  if e_reserve E (audit_rb d1)
  then ring_push (build_event E (em_action em) (em_dev em) (em_ino em)
                    (em_cdev em) (em_cino em) (em_name em)) d1
  else counter_incr audit_drop_total d1.

Definition apply_outcome (E : env) (o : outcome) (d : dyn) : dyn :=
  let d' := bump_all (o_bumps o) d in
  match o_emit o with Some em => emit_dyn E em d' | None => d' end.

(** ** Cache coherence and refinement *)

Definition coherent (E : env) (c : caller_id) : Prop :=
  cid_resolved c = true -> c = caller_id_of_current E.

Definition implements (E : env) (mk : gmap positive actor_marker) (m : M Z) (o : outcome) : Prop :=
  forall s, actor_marker_map (hs_dyn s) = mk -> coherent E (hs_cid s) ->
    exists c', m s = (o_rc o, HState (apply_outcome E o (hs_dyn s)) c') /\ coherent E c'.

(** ** The pure decision *)

Section Spec.
Context (E : env) (mk : gmap positive actor_marker).
Local Abbreviation K := (e_kernel E).
Local Abbreviation P := (e_policy E).
Local Abbreviation me := (caller_id_of_current E).

(** The caller's executable is one of the first [min(actor_count, 4)]
    entries of the seal's actor array. *)
Definition actor_listed (sv : seal_value) : bool :=
  bool_decide (ActorId (cid_dev me) (cid_ino me) ∈
    take (Z.to_nat (sv_actor_count sv) `min` COMPARTMENT_MAX_ACTORS_PER_SEAL)%nat (sv_actor sv)).

Definition current_marker : option actor_marker :=
  e_current E ≫= (fun t => mk !! t).

Definition marker_identity_ok (sv : seal_value) (m : actor_marker) : bool :=
  negb (am_state m =? 0)
  && bool_decide (am_target m = InodeKey (cid_dev me) (cid_ino me))
  && (am_actor_slot m =? sv_strict_actor_slot sv).

Definition marker_generation_ok (sv : seal_value) (m : actor_marker) : bool :=
  (am_policy_generation m =? cur_strict_generation E)
  && (am_policy_generation m =? sv_strict_generation sv).

Definition strict_ok (sv : seal_value) : bool :=
  match current_marker with
  | Some m => marker_identity_ok sv m && marker_generation_ok sv m
  | None => false
  end.

(** The caller may operate on an object under this seal. *)
Definition satisfies (sv : seal_value) : bool :=
  negb (sv_actor_count sv =? 0) && cid_valid me && actor_listed sv
  && (negb (sv_flags sv &? SEAL_STRICT_LAUNCH) || strict_ok sv).

Definition strict_outcome (sv : seal_value) (dev ino : Z) : outcome :=
  let deny bumps := Outcome (- EACCES) bumps
    (Some (Emission ACTION_DENY_STRICT_LAUNCH_MISSING dev ino (cid_dev me) (cid_ino me)
             (Some (sv_actor_name sv)))) in
  match current_marker with
  | None => deny [strict_launch_missing_total]
  | Some m =>
      if negb (marker_identity_ok sv m) then deny [strict_launch_missing_total]
      else if negb (marker_generation_ok sv m)
      then deny [strict_launch_missing_total; marker_stale_generation_total]
      else Outcome 0 [strict_launch_allowed_total] None
  end.

Definition seal_outcome (sv : option seal_value) (mask action dev ino : Z) : outcome :=
  match sv with
  | None => o_pass
  | Some v =>
      if negb (sv_flags v &? mask) then o_pass
      else if sv_actor_count v =? 0
      then Outcome (- EACCES) [] (Some (Emission action dev ino 0 0 None))
      else if negb (cid_valid me && actor_listed v)
      then Outcome (- EACCES) [actor_mismatch_total]
             (Some (Emission ACTION_DENY_ACTOR_MISMATCH dev ino (cid_dev me) (cid_ino me)
                      (Some (sv_actor_name v))))
      else if sv_flags v &? SEAL_STRICT_LAUNCH then strict_outcome v dev ino
      else o_pass
  end.

(** *** The seals an operation meets *)

Record check := Check { ck_seal : seal_value; ck_mask : Z; ck_action : Z; ck_key : inode_key }.

Definition check_outcome (c : check) : outcome :=
  seal_outcome (Some (ck_seal c)) (ck_mask c) (ck_action c) (key_dev (ck_key c)) (key_ino (ck_key c)).

(** The check applies to the operation, and the caller does not satisfy it. *)
Definition check_denies (c : check) : bool :=
  (sv_flags (ck_seal c) &? ck_mask c) && negb (satisfies (ck_seal c)).

Definition opt_check (sv : option seal_value) (mask action : Z) (k : inode_key) : list check :=
  match sv with Some v => [Check v mask action k] | None => [] end.

Definition key_set (k : inode_key) : bool := negb (key_dev k =? 0) || negb (key_ino k =? 0).

(** Seals placed directly on an inode. *)
Definition inode_checks (i : ptr) (mask action : Z) : list check :=
  let k := inode_key_of E i in
  if is_null i || negb (key_set k) then []
  else opt_check (sealed_inodes P !! k) mask action k
       ++ opt_check (sealed_dirs P !! k) mask action k.

(** The chain of dentries from [cur] upwards, at most [fuel] of them. *)
Fixpoint ancestor_chain (fuel : nat) (cur : ptr) : list positive :=
  match fuel, cur with
  | S fuel', Some d =>
      let parent := read_ptr (k_dentries K) d_parent cur in
      d :: (if is_null parent || ptr_eqb parent cur then [] else ancestor_chain fuel' parent)
  | _, _ => []
  end.

(** The directory seal on a dentry's inode. *)
Definition dir_seal_at (d : positive) : option (inode_key * seal_value) :=
  let i := read_ptr (k_dentries K) d_inode (Some d) in
  let k := inode_key_of E i in
  if is_null i || negb (key_set k) then None
  else (fun sv => (k, sv)) <$> sealed_dirs P !! k.

Definition dir_checks (mask action : Z) (d : positive) : list check :=
  match dir_seal_at d with Some (k, sv) => [Check sv mask action k] | None => [] end.

Definition ancestor_checks (cur : ptr) (mask action : Z) : list check :=
  mjoin (dir_checks mask action <$> ancestor_chain COMPARTMENT_MAX_DIR_ANCESTORS cur).

(** Seals on the directories above a dentry. *)
Definition parent_checks (d : ptr) (mask action : Z) : list check :=
  ancestor_checks (real_parent_of E d) mask action.

Definition checks_outcome (l : list check) : outcome := o_seqs (check_outcome <$> l).

(** *** Structural denies of a recursive [no-write] seal *)

Definition dir_hit (mask : Z) (d : positive) : bool :=
  match dir_seal_at d with Some (_, sv) => sv_flags sv &? mask | None => false end.

(** The nearest directory of a chain that carries a seal matching [mask]. *)
Definition nearest_hit (mask : Z) (chain : list positive) : option dir_seal_hit :=
  match find_index (dir_hit mask) chain with
  | Some (n, d) =>
      match dir_seal_at d with
      | Some (k, _) => Some (DirSealHit (key_dev k) (key_ino k) n)
      | None => None
      end
  | None => None
  end.

Definition nearest_from (dir : ptr) : option dir_seal_hit :=
  nearest_hit SEAL_NO_WRITE (ancestor_chain COMPARTMENT_MAX_DIR_ANCESTORS dir).

Definition hit_outcome (action : Z) (h : option dir_seal_hit) : outcome :=
  match h with
  | Some h => Outcome (- EACCES) [] (Some (Emission action (hit_dev h) (hit_ino h) 0 0 None))
  | None => o_pass
  end.

(** *** Self-protection *)

Definition is_loader : bool :=
  cid_valid me && bool_decide (is_Some (loader_ids P !! InodeKey (cid_dev me) (cid_ino me))).

Definition protected_pin (i : ptr) : bool :=
  match self_protect E with
  | None => false
  | Some cfg =>
      let k := inode_key_of E i in
      negb (is_null i) && negb (key_dev k =? 0) && (key_dev k =? cfg_pin_dev cfg)
      && bool_decide (is_Some (protected_pins P !! k))
  end.

Definition pin_outcome (i : ptr) : outcome :=
  if protected_pin i && negb is_loader
  then Outcome (- EACCES) [pin_tamper_denied_total]
         (Some (Emission ACTION_DENY_PIN_TAMPER (key_dev (inode_key_of E i))
                  (key_ino (inode_key_of E i)) (cid_dev me) (cid_ino me) None))
  else o_pass.
End Spec.

Arguments checks_outcome : simpl never.
Arguments seal_outcome : simpl never.
Arguments pin_outcome : simpl never.
Arguments inode_key_of : simpl never.

(** ** Algebra of outcomes *)

Lemma o_seq_pass_l o : o_seq o_pass o = o.
Proof. by destruct o. Qed.

Lemma o_seq_pass_r o : outcome_ok o -> o_seq o o_pass = o.
Proof.
  destruct o as [rc b e]; unfold o_seq, outcome_ok; cbn. intros H.
  destruct (Z.eqb_spec rc 0) as [->|]; [|done].
  rewrite app_nil_r. by rewrite (proj1 H eq_refl).
Qed.

Lemma o_seq_assoc o1 o2 o3 : o_seq (o_seq o1 o2) o3 = o_seq o1 (o_seq o2 o3).
Proof.
  destruct o1 as [r1 b1 e1], o2 as [r2 b2 e2], o3 as [r3 b3 e3]; unfold o_seq; cbn.
  destruct (Z.eqb_spec r1 0); cbn; [|by destruct (Z.eqb_spec r1 0)].
  destruct (Z.eqb_spec r2 0); cbn; by rewrite ?app_assoc.
Qed.

Lemma o_seqs_singleton o : outcome_ok o -> o_seqs [o] = o.
Proof. apply o_seq_pass_r. Qed.

Lemma o_seqs_cons o l : o_seqs (o :: l) = o_seq o (o_seqs l).
Proof. done. Qed.

Lemma o_seqs_app l1 l2 : o_seqs (l1 ++ l2) = o_seq (o_seqs l1) (o_seqs l2).
Proof.
  induction l1 as [|o l1 IH]; [symmetry; apply o_seq_pass_l|].
  rewrite <- app_comm_cons, !o_seqs_cons, IH. symmetry. apply o_seq_assoc.
Qed.

Lemma o_seq_ok o1 o2 : outcome_ok o1 -> outcome_ok o2 -> outcome_ok (o_seq o1 o2).
Proof. unfold outcome_ok, o_seq. intros. by destruct (Z.eqb_spec (o_rc o1) 0). Qed.

Lemma o_seqs_ok l : Forall outcome_ok l -> outcome_ok (o_seqs l).
Proof. induction 1; [done|]. by apply o_seq_ok. Qed.

Lemma o_seq_eacces o1 o2 : outcome_eacces o1 -> outcome_eacces o2 -> outcome_eacces (o_seq o1 o2).
Proof. unfold outcome_eacces, o_seq. intros. by destruct (Z.eqb_spec (o_rc o1) 0). Qed.

Lemma o_seqs_eacces l : Forall outcome_eacces l -> outcome_eacces (o_seqs l).
Proof. induction 1; [by left|]. by apply o_seq_eacces. Qed.

Lemma o_seqs_rc_0 l : o_rc (o_seqs l) = 0 <-> Forall (fun o => o_rc o = 0) l.
Proof.
  induction l as [|o l IH]; [done|]. rewrite o_seqs_cons, Forall_cons, <- IH.
  unfold o_seq. destruct (Z.eqb_spec (o_rc o) 0); cbn; naive_solver.
Qed.

(** ** Effects preserve what they do not mention *)

Lemma counter_incr_markers c d : actor_marker_map (counter_incr c d) = actor_marker_map d.
Proof. done. Qed.

Lemma bump_all_markers l d : actor_marker_map (bump_all l d) = actor_marker_map d.
Proof. revert d. induction l as [|c l IH]; intros d; cbn; [done|]. by rewrite IH. Qed.

Lemma bump_all_ring l d : audit_rb (bump_all l d) = audit_rb d.
Proof. revert d. induction l as [|c l IH]; intros d; cbn; [done|]. by rewrite IH. Qed.

Lemma bump_all_app l1 l2 d : bump_all (l1 ++ l2) d = bump_all l2 (bump_all l1 d).
Proof. apply fold_left_app. Qed.

Lemma emit_dyn_markers E em d : actor_marker_map (emit_dyn E em d) = actor_marker_map d.
Proof. unfold emit_dyn. by destruct (e_reserve E _). Qed.

Lemma apply_outcome_markers E o d : actor_marker_map (apply_outcome E o d) = actor_marker_map d.
Proof.
  unfold apply_outcome. destruct (o_emit o); [rewrite emit_dyn_markers|]; apply bump_all_markers.
Qed.

Lemma apply_outcome_seq E o1 o2 d :
  outcome_ok o1 -> o_rc o1 = 0 ->
  apply_outcome E (o_seq o1 o2) d = apply_outcome E o2 (apply_outcome E o1 d).
Proof.
  intros Hok H0. unfold apply_outcome, o_seq. rewrite H0; cbn.
  rewrite (proj1 Hok H0), bump_all_app. done.
Qed.

#[export] Hint Rewrite counter_incr_markers bump_all_markers emit_dyn_markers
  apply_outcome_markers : comp.

(** ** Composition rules of [implements] *)

Section Rules.
Context (E : env) (mk : gmap positive actor_marker).
Local Abbreviation impl := (implements E mk).

Lemma implements_ret : impl (mret 0) o_pass.
Proof. intros [d c] _ Hc. exists c. split; [|done]. reflexivity. Qed.

Lemma implements_guard m1 m2 o1 o2 :
  impl m1 o1 -> outcome_ok o1 -> impl m2 o2 -> impl (mguard m1 m2) (o_seq o1 o2).
Proof.
  intros H1 Hok H2 s Hs Hc. destruct (H1 s Hs Hc) as (c1 & E1 & Hc1).
  unfold mguard, mbind, M_bind. rewrite E1. unfold o_seq.
  destruct (Z.eqb_spec (o_rc o1) 0) as [H0|H0]; [|by exists c1].
  destruct (H2 (HState (apply_outcome E o1 (hs_dyn s)) c1)) as (c2 & E2 & Hc2).
  { by rewrite <- Hs; apply apply_outcome_markers. }
  { done. }
  exists c2. split; [|done]. rewrite E2. cbn. do 2 f_equal.
  rewrite <- (apply_outcome_seq E o1 o2 (hs_dyn s) Hok H0).
  unfold o_seq. by rewrite H0.
Qed.

Lemma implements_guard_as m1 m2 o1 o2 rc :
  impl m1 o1 -> outcome_ok o1 -> (o_rc o1 = 0 \/ o_rc o1 = rc) ->
  impl m2 o2 -> impl (mguard_as m1 rc m2) (o_seq o1 o2).
Proof.
  intros H1 Hok Hrc H2 s Hs Hc.
  destruct (implements_guard m1 m2 o1 o2 H1 Hok H2 s Hs Hc) as (c & Ec & Hc').
  exists c. split; [|done]. rewrite <- Ec.
  destruct (H1 s Hs Hc) as (c1 & E1 & _).
  unfold mguard_as, mguard, mbind, M_bind. rewrite E1.
  destruct (Z.eqb_spec (o_rc o1) 0) as [H0|H0]; [done|].
  destruct Hrc as [?|<-]; [lia|done].
Qed.

Lemma implements_bind_gets {A} (f : hstate -> A) k o :
  (forall s, actor_marker_map (hs_dyn s) = mk -> coherent E (hs_cid s) ->
     exists c', k (f s) s = (o_rc o, HState (apply_outcome E o (hs_dyn s)) c') /\ coherent E c') ->
  impl (x ← gets f ; k x) o.
Proof. intros H s Hs Hc. exact (H s Hs Hc). Qed.
End Rules.
