(* ===== verification/SealRefine.v ===== *)
(** * The seal checks refine their specification

    Every helper of [SealCore] implements the outcome [SealSpec] gives it:
    the identity cache is transparent, the bounded actor scan is membership
    in the allow-list, and the ancestor loops visit exactly the bounded
    ancestor chain. *)

From S2P Require Import Prelude Abi Kernel SealCore SealSpec.

(** ** Equations of the monadic primitives *)

Lemma bump_counter_eq c s : bump_counter c s = (tt, HState (counter_incr c (hs_dyn s)) (hs_cid s)).
Proof. done. Qed.

Lemma emit_audit_actor_eq E action dev ino cdev cino src s :
  emit_audit_actor E action dev ino cdev cino src s =
  (tt, HState (emit_dyn E (Emission action dev ino cdev cino src) (hs_dyn s)) (hs_cid s)).
Proof.
  unfold emit_audit_actor, emit_dyn, mbind, M_bind. cbn.
  by destruct (e_reserve E _).
Qed.

Lemma M_bind_eq {A B} (m : M A) (k : A -> M B) s : (m ≫= k) s = let '(x, s') := m s in k x s'.
Proof. done. Qed.

Lemma task_storage_get_current E mk s :
  actor_marker_map (hs_dyn s) = mk -> task_storage_get (e_current E) s = (current_marker E mk, s).
Proof. intros <-. done. Qed.

Lemma caller_resolved E : cid_resolved (caller_id_of_current E) = true.
Proof. unfold caller_id_of_current. by bool_cases. Qed.

Lemma caller_invalid_zero E :
  cid_valid (caller_id_of_current E) = false ->
  cid_dev (caller_id_of_current E) = 0 /\ cid_ino (caller_id_of_current E) = 0.
Proof. unfold caller_id_of_current. by bool_cases. Qed.

Lemma caller_valid_task E : cid_valid (caller_id_of_current E) = true -> is_null (e_current E) = false.
Proof. unfold caller_id_of_current. by bool_cases. Qed.

Lemma coherent_current E : coherent E (caller_id_of_current E).
Proof. by intros _. Qed.

Lemma coherent_zero E : coherent E caller_id_zero.
Proof. done. Qed.

#[export] Hint Resolve coherent_current coherent_zero caller_resolved : comp_db.

(** Lazy resolution always leaves the real identity in the cache. *)
Lemma ensure_resolved E (A : Type) (k : caller_id -> M A) s :
  coherent E (hs_cid s) ->
  (c0 ← gets hs_cid ;
   (if cid_resolved c0 then mret tt else caller_id_resolve_locked E) ;;
   cid ← gets hs_cid ; k cid) s
  = k (caller_id_of_current E) (HState (hs_dyn s) (caller_id_of_current E)).
Proof.
  intros Hc. unfold mbind, M_bind, gets; cbn.
  destruct (cid_resolved (hs_cid s)) eqn:Hr; [|done].
  rewrite <- (Hc Hr). by destruct s.
Qed.

(** ** The actor scan is membership *)

Lemma actor_scan_spec cid n i l :
  actor_scan cid n i l =
  bool_decide (ActorId (cid_dev cid) (cid_ino cid) ∈ take (Z.to_nat (n - i)) l).
Proof.
  revert i. induction l as [|[ad ai] l IH]; intros i; cbn.
  { symmetry. apply bool_decide_eq_false. rewrite take_nil. apply not_elem_of_nil. }
  destruct (Z.leb_spec n i) as [Hn|Hn].
  { replace (Z.to_nat (n - i)) with 0%nat by lia. by rewrite bool_decide_eq_false_2 by apply not_elem_of_nil. }
  replace (Z.to_nat (n - i)) with (S (Z.to_nat (n - (i + 1)))) by lia. cbn.
  destruct (Z.eqb_spec (cid_dev cid) ad) as [<-|Hd], (Z.eqb_spec (cid_ino cid) ai) as [<-|Hi]; cbn;
    rewrite ?IH; [symmetry; apply bool_decide_eq_true; left|..];
    apply bool_decide_ext; rewrite elem_of_cons; (split; [by right|intros [?|?]; [congruence|done]]).
Qed.

Lemma actor_scan_listed E sv :
  actor_scan (caller_id_of_current E)
    (if Z.of_nat COMPARTMENT_MAX_ACTORS_PER_SEAL <? sv_actor_count sv
     then Z.of_nat COMPARTMENT_MAX_ACTORS_PER_SEAL else sv_actor_count sv) 0
    (take COMPARTMENT_MAX_ACTORS_PER_SEAL (sv_actor sv))
  = actor_listed E sv.
Proof.
  rewrite actor_scan_spec, take_take. unfold actor_listed, COMPARTMENT_MAX_ACTORS_PER_SEAL.
  match goal with |- context [take ?a _] => replace a with (Z.to_nat (sv_actor_count sv) `min` 4)%nat end;
    [done|]. destruct (Z.ltb_spec (Z.of_nat 4) (sv_actor_count sv)); lia.
Qed.

(** ** Well-formedness of the outcomes *)

Lemma strict_outcome_ok E mk sv dev ino :
  outcome_ok (strict_outcome E mk sv dev ino) /\ outcome_eacces (strict_outcome E mk sv dev ino).
Proof.
  unfold strict_outcome, outcome_ok, outcome_eacces.
  destruct (current_marker E mk) as [m|]; bool_cases; cbn; split; try split; intros; (done || auto).
Qed.

Lemma seal_outcome_ok E mk sv mask action dev ino :
  outcome_ok (seal_outcome E mk sv mask action dev ino)
  /\ outcome_eacces (seal_outcome E mk sv mask action dev ino).
Proof.
  unfold seal_outcome. destruct sv as [v|]; bool_cases;
    try apply strict_outcome_ok; unfold outcome_ok, outcome_eacces; cbn; split; try split; (done || auto).
Qed.

Lemma checks_outcome_ok E mk l :
  outcome_ok (checks_outcome E mk l) /\ outcome_eacces (checks_outcome E mk l).
Proof.
  unfold checks_outcome. split; [apply o_seqs_ok|apply o_seqs_eacces];
    apply Forall_fmap, Forall_true; intros c; apply seal_outcome_ok.
Qed.

(** ** The decision for one seal *)

Lemma key_set_negb k : negb (key_set k) = (key_dev k =? 0) && (key_ino k =? 0).
Proof. unfold key_set. by destruct (key_dev k =? 0), (key_ino k =? 0). Qed.

Section Refine.
Context (E : env) (mk : gmap positive actor_marker).
Local Abbreviation K := (e_kernel E).
Local Abbreviation P := (e_policy E).
Local Abbreviation impl := (implements E mk).

(** Strict-launch check, once the caller's identity is valid. *)
Lemma strict_launch_implements v dev ino :
  cid_valid (caller_id_of_current E) = true ->
  impl (strict_launch_check_or_deny E v dev ino) (strict_outcome E mk v dev ino).
Proof.
  intros Hv s Hs Hc. exists (caller_id_of_current E). split; [|auto with comp_db].
  unfold strict_launch_check_or_deny. rewrite (ensure_resolved E) by done.
  rewrite Hv, (caller_valid_task E Hv).
  unfold negb at 1. cbn iota. rewrite M_bind_eq, (task_storage_get_current E mk) by done.
  unfold strict_outcome, marker_identity_ok, marker_generation_ok, deny_strict.
  destruct (current_marker E mk) as [m|]; unfold mbind, M_bind; cbn;
    [|by rewrite emit_audit_actor_eq].
  destruct (am_state m =? 0); [by rewrite emit_audit_actor_eq|].
  destruct (am_target m) as [td ti]; cbn.
  destruct (Z.eqb_spec td (cid_dev (caller_id_of_current E))) as [->|];
    destruct (Z.eqb_spec ti (cid_ino (caller_id_of_current E))) as [->|]; cbn;
    [rewrite bool_decide_eq_true_2 by done|rewrite bool_decide_eq_false_2 by congruence..];
    cbn; [|by rewrite emit_audit_actor_eq..].
  destruct (am_actor_slot m =? _); cbn; [|by rewrite emit_audit_actor_eq].
  destruct (am_policy_generation m =? cur_strict_generation E); cbn;
    [|by rewrite emit_audit_actor_eq].
  destruct (am_policy_generation m =? sv_strict_generation v); cbn; [done|by rewrite emit_audit_actor_eq].
Qed.

Lemma seal_decision_implements sv mask action dev ino :
  impl (seal_decision E sv mask action dev ino) (seal_outcome E mk sv mask action dev ino).
Proof.
  destruct sv as [v|]; [|apply implements_ret]. unfold seal_decision, seal_outcome.
  destruct (sv_flags v &? mask); [cbn|apply implements_ret].
  intros s Hs Hc. unfold actor_check_or_deny.
  destruct (Z.eqb_spec (sv_actor_count v) 0) as [H0|H0].
  { exists (hs_cid s). split; [|done]. unfold emit_audit, mbind, M_bind.
    by rewrite emit_audit_actor_eq. }
  unfold mbind at 1, M_bind at 1. rewrite (ensure_resolved E) by done.
  rewrite actor_scan_listed. unfold deny_actor_mismatch, mbind, M_bind.
  destruct (cid_valid (caller_id_of_current E)) eqn:Hv; cbn.
  - destruct (actor_listed E v); cbn.
    + destruct (sv_flags v &? SEAL_STRICT_LAUNCH).
      * destruct (strict_launch_implements v dev ino Hv (HState (hs_dyn s) (caller_id_of_current E)))
          as (c' & He & Hc'); [done|auto with comp_db|]. exists c'. split; [exact He|done].
      * exists (caller_id_of_current E). split; [done|auto with comp_db].
    + rewrite emit_audit_actor_eq. exists (caller_id_of_current E). split; [done|auto with comp_db].
  - destruct (caller_invalid_zero E Hv) as [-> ->].
    rewrite emit_audit_actor_eq. exists (caller_id_of_current E). split; [done|auto with comp_db].
Qed.

Lemma checks_outcome_app l1 l2 :
  checks_outcome E mk (l1 ++ l2) = o_seq (checks_outcome E mk l1) (checks_outcome E mk l2).
Proof. unfold checks_outcome. by rewrite fmap_app, o_seqs_app. Qed.

Lemma checks_outcome_opt sv mask action k :
  checks_outcome E mk (opt_check sv mask action k)
  = seal_outcome E mk sv mask action (key_dev k) (key_ino k).
Proof. destruct sv; [|done]. apply o_seqs_singleton, seal_outcome_ok. Qed.

(** *** Direct seals *)

Lemma deny_inode_action_implements i mask action :
  impl (deny_inode_action E i mask action) (checks_outcome E mk (inode_checks E i mask action)).
Proof.
  unfold deny_inode_action, lookup_inode_seals, inode_checks.
  destruct (is_null i); [apply implements_ret|]. cbn [orb].
  rewrite key_set_negb. destruct (_ && _); [apply implements_ret|].
  rewrite checks_outcome_app, !checks_outcome_opt.
  destruct (sealed_inodes P !! _) as [isv|], (sealed_dirs P !! _) as [dsv|];
    [..|apply implements_ret];
    (apply implements_guard; [apply seal_decision_implements|apply seal_outcome_ok|]);
    rewrite <- (o_seq_pass_r (seal_outcome E mk _ _ _ _ _)) by apply seal_outcome_ok;
    (apply implements_guard; [apply seal_decision_implements|apply seal_outcome_ok|apply implements_ret]).
Qed.

(** *** Seals on ancestors *)

Lemma dir_check_implements d mask action :
  impl (let dir_inode := read_ptr (k_dentries K) d_inode (Some d) in
        if is_null dir_inode then mret 0
        else let dk := inode_key_of E dir_inode in
             if negb (key_dev dk =? 0) || negb (key_ino dk =? 0)
             then seal_decision E (sealed_dirs P !! dk) mask action (key_dev dk) (key_ino dk)
             else mret 0)
       (checks_outcome E mk (dir_checks E mask action d)).
Proof.
  unfold dir_checks, dir_seal_at. cbn zeta.
  generalize (read_ptr (k_dentries (e_kernel E)) d_inode (Some d)) as i; intros i.
  destruct (is_null i); [apply implements_ret|]. fold (key_set (inode_key_of E i)).
  destruct (key_set _); cbn; [|apply implements_ret].
  destruct (sealed_dirs _ !! _) as [sv|] eqn:Esv; cbn; [|apply implements_ret].
  pose proof (checks_outcome_opt (Some sv) mask action (inode_key_of E i)) as Ho.
  cbn [opt_check] in Ho. rewrite Ho. apply seal_decision_implements.
Qed.

Lemma deny_ancestor_loop_implements fuel cur mask action :
  impl (deny_ancestor_loop E fuel cur mask action)
       (checks_outcome E mk (mjoin (dir_checks E mask action <$> ancestor_chain E fuel cur))).
Proof.
  revert cur. induction fuel as [|fuel IH]; intros [d|]; try apply implements_ret.
  cbn [deny_ancestor_loop ancestor_chain is_null fmap list_fmap mjoin list_join].
  rewrite checks_outcome_app. apply implements_guard;
    [apply dir_check_implements|apply checks_outcome_ok|].
  destruct (is_null _ || _); [apply implements_ret|apply IH].
Qed.

Lemma deny_dentry_parent_implements d mask action :
  impl (deny_dentry_parent_dir_action E d mask action)
       (checks_outcome E mk (parent_checks E d mask action)).
Proof.
  unfold deny_dentry_parent_dir_action, parent_checks, ancestor_checks, real_parent_of.
  destruct (is_null d); [apply implements_ret|].
  destruct (is_null _ || _); [apply implements_ret|apply deny_ancestor_loop_implements].
Qed.

Lemma deny_file_parent_implements f mask action :
  impl (deny_file_parent_dir_action E f mask action)
       (checks_outcome E mk (parent_checks E (read_ptr (k_files K) f_path_dentry f) mask action)).
Proof. apply deny_dentry_parent_implements. Qed.
End Refine.

(** ** Depth cap, aliases and pins *)

Section Structural.
Context (E : env) (mk : gmap positive actor_marker).
Local Abbreviation impl := (implements E mk).

Lemma find_nearest_loop_step fuel depth d mask :
  find_nearest_loop E (S fuel) depth (Some d) mask =
  let parent := read_ptr (k_dentries (e_kernel E)) d_parent (Some d) in
  let next := if is_null parent || ptr_eqb parent (Some d) then None
              else find_nearest_loop E fuel (S depth) parent mask in
  match dir_seal_at E d with
  | Some (k, sv) => if sv_flags sv &? mask
                    then Some (DirSealHit (key_dev k) (key_ino k) depth) else next
  | None => next
  end.
Proof.
  cbn [find_nearest_loop is_null]. cbn zeta. unfold dir_seal_at.
  generalize (read_ptr (k_dentries (e_kernel E)) d_inode (Some d)) as i; intros i.
  destruct (is_null i); [done|]. fold (key_set (inode_key_of E i)).
  destruct (key_set _); [|done]. cbn. by destruct (sealed_dirs _ !! _).
Qed.

(** The search loop returns the first matching directory of the chain. *)
Lemma find_nearest_loop_spec fuel depth cur mask :
  find_nearest_loop E fuel depth cur mask =
  (fun h => DirSealHit (hit_dev h) (hit_ino h) (depth + hit_depth h)%nat)
    <$> nearest_hit E mask (ancestor_chain E fuel cur).
Proof.
  revert depth cur. induction fuel as [|fuel IH]; intros depth [d|]; try done.
  rewrite find_nearest_loop_step. cbn [ancestor_chain]. cbn zeta.
  generalize (read_ptr (k_dentries (e_kernel E)) d_parent (Some d)) as parent; intros parent.
  rewrite IH. unfold nearest_hit. cbn [find_index].
  assert (Hh : dir_hit E mask d = match dir_seal_at E d with
                                  | Some (_, sv) => sv_flags sv &? mask | None => false end) by done.
  destruct (dir_seal_at E d) as [[k sv]|] eqn:Hd; [destruct (sv_flags sv &? mask)|]; rewrite Hh.
  { rewrite Hd; cbn. do 2 f_equal. lia. }
  all: destruct (is_null parent || _); [done|].
  all: destruct (find_index _ _) as [[n x]|]; [|done].
  all: destruct (dir_seal_at E x) as [[k' ?]|]; [|done].
  all: cbn; do 2 f_equal; lia.
Qed.

Lemma find_nearest_spec dir :
  find_nearest_dir_seal_hit_from_dir_dentry E dir SEAL_NO_WRITE = nearest_from E dir.
Proof.
  unfold find_nearest_dir_seal_hit_from_dir_dentry, nearest_from.
  rewrite find_nearest_loop_spec. by destruct (nearest_hit _ _ _) as [[]|].
Qed.

Lemma depth_cap_implements action h :
  impl (deny_runtime_subtree_depth_cap E action h) (hit_outcome action h).
Proof.
  destruct h as [h|]; [|apply implements_ret]. intros s Hs Hc. exists (hs_cid s).
  split; [|done]. unfold deny_runtime_subtree_depth_cap, emit_audit. rewrite M_bind_eq.
  by rewrite emit_audit_actor_eq.
Qed.

Lemma hit_outcome_ok action h :
  outcome_ok (hit_outcome action h) /\ outcome_eacces (hit_outcome action h).
Proof. unfold outcome_ok, outcome_eacces. destruct h; cbn; split; try split; auto; done. Qed.

Lemma pin_outcome_ok i : outcome_ok (pin_outcome E i) /\ outcome_eacces (pin_outcome E i).
Proof.
  unfold pin_outcome, outcome_ok, outcome_eacces. bool_cases; cbn; split; try split; auto; done.
Qed.

(** The loader test resolves the identity and answers [is_loader]. *)
Lemma caller_is_loader_eq s :
  coherent E (hs_cid s) ->
  caller_is_loader E s = (is_loader E, HState (hs_dyn s) (caller_id_of_current E)).
Proof.
  intros Hc. unfold caller_is_loader. rewrite (ensure_resolved E) by done.
  unfold is_loader. by destruct (cid_valid _).
Qed.

Lemma deny_self_protect_eq action c dev ino err d :
  deny_self_protect E action c dev ino err (HState d (caller_id_of_current E)) =
  (err, HState (emit_dyn E (Emission action dev ino (cid_dev (caller_id_of_current E))
           (cid_ino (caller_id_of_current E)) None) (counter_incr c d)) (caller_id_of_current E)).
Proof.
  unfold deny_self_protect, gets, mbind, M_bind; cbn. rewrite emit_audit_actor_eq; cbn.
  destruct (cid_valid (caller_id_of_current E)) eqn:Hv; [done|].
  by destruct (caller_invalid_zero E Hv) as [-> ->].
Qed.

Lemma deny_pin_tamper_implements i : impl (deny_pin_tamper E i) (pin_outcome E i).
Proof.
  unfold deny_pin_tamper, pin_outcome, protected_pin.
  destruct (self_protect E) as [cfg|]; [|apply implements_ret].
  destruct (is_null i); [apply implements_ret|]. cbn.
  destruct (key_dev (inode_key_of E i) =? 0); [apply implements_ret|]. cbn.
  destruct (key_dev (inode_key_of E i) =? cfg_pin_dev cfg); [|apply implements_ret]. cbn.
  destruct (protected_pins _ !! _) as [z|]; cbn; [|apply implements_ret].
  intros s Hs Hc. exists (caller_id_of_current E). split; [|auto with comp_db].
  rewrite M_bind_eq, caller_is_loader_eq by done.
  destruct (is_loader E); cbn; [done|]. by rewrite deny_self_protect_eq.
Qed.

Lemma deny_pin_tamper_dentry_implements d :
  impl (deny_pin_tamper_dentry E d)
       (pin_outcome E (read_ptr (k_dentries (e_kernel E)) d_inode d)).
Proof.
  unfold deny_pin_tamper_dentry. destruct d as [d|]; [apply deny_pin_tamper_implements|].
  unfold pin_outcome, protected_pin. cbn. destruct (self_protect E); apply implements_ret.
Qed.
End Structural.
