(* ===== verification/HookRefine.v ===== *)
(** * Every hook refines its specification

    One lemma per program shows that its code implements its
    [hook_outcome]; the refinement theorem for all hooks and its
    consequences (audit discipline, chaining, transparency of the policy)
    follow from the rules of [implements]. *)

From S2P Require Import Prelude Abi Kernel SealCore Hooks SealSpec SealRefine HookSpec.

Section Rules.
Context (E : env) (mk : gmap positive actor_marker).
Local Abbreviation impl := (implements E mk).
Local Abbreviation checks := (checks_outcome E mk).

Lemma implements_last m o : impl m o -> outcome_ok o -> impl m (o_seqs [o]).
Proof. intros H Hok. by rewrite o_seqs_singleton. Qed.

Lemma implements_seq m1 m2 o l :
  impl m1 o -> outcome_ok o -> impl m2 (o_seqs l) -> impl (mguard m1 m2) (o_seqs (o :: l)).
Proof. apply implements_guard. Qed.

Lemma implements_seq_as m1 m2 o l :
  impl m1 o -> outcome_ok o -> outcome_eacces o -> impl m2 (o_seqs l) ->
  impl (mguard_as m1 (- EACCES) m2) (o_seqs (o :: l)).
Proof. apply implements_guard_as. Qed.

Lemma implements_nil : impl (mret 0) (o_seqs []).
Proof. apply implements_ret. Qed.

Lemma implements_checks_app m1 m2 a b :
  impl m1 (checks a) -> impl m2 (checks b) -> impl (mguard m1 m2) (checks (a ++ b)).
Proof.
  intros. rewrite checks_outcome_app. apply implements_guard; [done|apply checks_outcome_ok|done].
Qed.

Lemma implements_checks_app_as m1 m2 a b :
  impl m1 (checks a) -> impl m2 (checks b) ->
  impl (mguard_as m1 (- EACCES) m2) (checks (a ++ b)).
Proof.
  intros. rewrite checks_outcome_app.
  apply implements_guard_as; [done|apply checks_outcome_ok|apply checks_outcome_ok|done].
Qed.

Lemma implements_checks_end m a :
  impl m (checks a) -> impl (mguard_as m (- EACCES) (mret 0)) (checks a).
Proof.
  intros H. rewrite <- (app_nil_r a). by apply implements_checks_app_as; [|apply implements_ret].
Qed.

Lemma implements_checks_end0 m a :
  impl m (checks a) -> impl (mguard m (mret 0)) (checks a).
Proof.
  intros H. rewrite <- (app_nil_r a). by apply implements_checks_app; [|apply implements_ret].
Qed.

Lemma implements_checks_if (b : bool) m a :
  impl m (checks a) -> impl (if b then m else mret 0) (checks (if b then a else [])).
Proof. intros. destruct b; [done|apply implements_ret]. Qed.

Lemma o_seqs_checks_app a b l :
  o_seqs (checks (a ++ b) :: l) = o_seqs (checks a :: checks b :: l).
Proof. by rewrite !o_seqs_cons, checks_outcome_app, o_seq_assoc. Qed.

Lemma parent_checks_null mask action : parent_checks E NULL mask action = [].
Proof. done. Qed.

Lemma inode_checks_null mask action : inode_checks E NULL mask action = [].
Proof. done. Qed.

Lemma pin_outcome_null : pin_outcome E NULL = o_pass.
Proof. unfold pin_outcome, protected_pin. by destruct (self_protect E). Qed.

Lemma checks_ok a : outcome_ok (checks a).
Proof. apply checks_outcome_ok. Qed.

Lemma checks_eacces a : outcome_eacces (checks a).
Proof. apply checks_outcome_ok. Qed.
End Rules.

Lemma o_pass_ok : outcome_ok o_pass.
Proof. done. Qed.

#[export] Hint Resolve o_pass_ok implements_nil implements_ret checks_ok checks_eacces
  deny_inode_action_implements deny_dentry_parent_implements deny_file_parent_implements
  deny_pin_tamper_implements deny_pin_tamper_dentry_implements depth_cap_implements
  implements_checks_app implements_checks_app_as implements_checks_end implements_checks_end0 : comp_db.
#[export] Hint Extern 2 (outcome_ok (pin_outcome _ _)) => apply pin_outcome_ok : comp_db.
#[export] Hint Extern 2 (outcome_eacces (pin_outcome _ _)) => apply pin_outcome_ok : comp_db.
#[export] Hint Extern 2 (outcome_ok (hit_outcome _ _)) => apply hit_outcome_ok : comp_db.

(** One step of a refinement proof along the program's sequence of checks. *)
Ltac impl_seq :=
  rewrite ?o_seqs_checks_app; (apply implements_seq || apply implements_seq_as); [solve [auto with comp_db]..|].
Ltac impl_last := apply implements_last; [|auto with comp_db].

Section Hooks.
Context (E : env) (mk : gmap positive actor_marker).
Local Abbreviation K := (e_kernel E).
Local Abbreviation impl := (implements E mk).
Local Abbreviation checks := (checks_outcome E mk).
Local Abbreviation spec := (hook_outcome E mk).

(** ** Shared bodies *)

Lemma deny_file_write_implements f : impl (deny_file_write E f) (checks (write_checks E f)).
Proof.
  unfold deny_file_write, write_checks. destruct f as [f|]; [|apply implements_ret].
  cbn [is_null]. auto with comp_db.
Qed.

Lemma unlink_body d :
  impl (mguard_as (deny_pin_tamper_dentry E d) (- EACCES) (
        mguard_as (deny_dentry_parent_dir_action E d SEAL_NO_UNLINK ACTION_DENY_UNLINK) (- EACCES) (
        mguard_as (deny_inode_action E (inode_of E d) SEAL_NO_UNLINK ACTION_DENY_UNLINK) (- EACCES)
        (mret 0)))) (spec (HInodeUnlink d)).
Proof.
  cbn [hook_outcome]. impl_seq. impl_last. unfold unlink_checks. auto with comp_db.
Qed.

Lemma chmod_body i d :
  impl (mguard_as (deny_inode_action E i SEAL_NO_CHMOD ACTION_DENY_CHMOD) (- EACCES) (
        mguard_as (deny_dentry_parent_dir_action E d SEAL_NO_CHMOD ACTION_DENY_CHMOD_PARENT_DIR)
          (- EACCES) (mret 0))) (checks (chmod_checks E i d)).
Proof. unfold chmod_checks. auto with comp_db. Qed.

Lemma child_invariant_implements d action :
  impl (deny_subtree_invariant_on_child_dentry E d action)
       (hit_outcome action (nearest_from E (real_parent_of E d))).
Proof.
  unfold deny_subtree_invariant_on_child_dentry. rewrite find_nearest_spec.
  destruct (real_parent_of E d) as [p|]; [apply depth_cap_implements|apply implements_ret].
Qed.

Lemma mkdir_cap_implements d :
  impl (deny_mkdir_subtree_depth_cap E d) (hit_outcome ACTION_DENY_CREATE (mkdir_cap_hit E d)).
Proof.
  unfold deny_mkdir_subtree_depth_cap, mkdir_cap_hit. rewrite find_nearest_spec.
  destruct (real_parent_of E d) as [p|]; [|apply implements_ret]. cbn [is_null].
  destruct (nearest_from E (Some p)) as [h|]; [|apply implements_ret].
  destruct (_ <=? _)%nat; auto with comp_db.
Qed.

Lemma rename_cap_implements o n :
  impl (deny_dir_rename_subtree_depth_cap E o n)
       (hit_outcome ACTION_DENY_RENAME (rename_cap_hit E o n)).
Proof.
  unfold deny_dir_rename_subtree_depth_cap, rename_cap_hit, dir_move_ok, is_dir.
  rewrite !find_nearest_spec. fold (inode_of E o).
  destruct (is_null o); [apply implements_ret|]. cbn [orb].
  destruct (is_null (inode_of E o)).
  { destruct (is_null n); apply implements_ret. }
  destruct (Z.eqb_spec (Z.land (read_val (k_inodes (e_kernel E)) i_mode (inode_of E o)) S_IFMT) S_IFDIR);
    cbn [negb orb]; [|destruct (is_null n); apply implements_ret].
  destruct n as [n|]; [|apply implements_ret]. cbn [is_null].
  destruct (real_parent_of E (Some n)) as [np|]; [|apply implements_ret]. cbn [is_null].
  destruct (nearest_from E (Some np)) as [h|]; [|apply implements_ret].
  destruct (_ <=? _)%nat; cbn [orb]; [auto with comp_db|].
  destruct (real_parent_of E o) as [op|]; cbn [is_null]; [|auto with comp_db].
  destruct (nearest_from E (Some op)) as [oh|]; [|auto with comp_db].
  destruct (dir_seal_hit_same oh h); cbn [negb andb]; [|auto with comp_db].
  rewrite Nat.ltb_antisym. destruct (_ <=? _)%nat; cbn [negb]; auto with comp_db.
Qed.

Lemma rename_alias_implements o n :
  impl (deny_non_dir_rename_subtree_alias_invariants E o n)
       (hit_outcome ACTION_DENY_RENAME (rename_alias_hit E o n)).
Proof.
  unfold deny_non_dir_rename_subtree_alias_invariants, rename_alias_hit, is_dir, is_symlink.
  rewrite !find_nearest_spec. fold (inode_of E o).
  destruct (is_null o); [apply implements_ret|]. cbn [orb].
  destruct (is_null (inode_of E o)).
  { destruct (is_null n); apply implements_ret. }
  cbn [orb]. destruct (_ =? S_IFDIR); [destruct (is_null n); apply implements_ret|].
  destruct n as [n|]; cbn [is_null].
  - destruct (real_parent_of E (Some n)) as [np|]; cbn [is_null];
      [|by destruct (_ || _); apply implements_ret].
    destruct (nearest_from E (Some np)) as [h|]; [|by destruct (_ || _); apply implements_ret].
    destruct (_ =? S_IFLNK); cbn [orb]; [auto with comp_db|].
    destruct (1 <? _); auto with comp_db.
  - by destruct (_ || _); apply implements_ret.
Qed.

Lemma mount_implements mp : impl (deny_mount_on_dentry E mp) (mount_outcome E mk mp).
Proof.
  unfold deny_mount_on_dentry, mount_outcome. destruct mp as [mp|]; cbn [is_null].
  - fold (inode_of E (Some mp)). impl_seq. impl_last.
    unfold mount_checks. auto with comp_db.
  - unfold mount_checks. change (inode_of E NULL) with NULL. rewrite pin_outcome_null.
    apply implements_ret.
Qed.

Lemma umount_implements m : impl (deny_umount_of_sealed_dev E m) (umount_outcome E m).
Proof.
  unfold deny_umount_of_sealed_dev, umount_outcome, umount_protected.
  destruct (is_null m); [apply implements_ret|]. cbn [negb andb].
  destruct (is_null (read_ptr _ mnt_sb m)); [apply implements_ret|]. cbn [negb andb].
  set (dev := read_val _ s_dev _).
  assert (Hex : match sealed_devs (e_policy E) !! dev with
     | Some _ => false
     | None => match self_protect E with
               | Some cfg => (cfg_pin_dev cfg =? 0) || negb (cfg_pin_dev cfg =? dev)
               | None => true end end
    = negb (bool_decide (is_Some (sealed_devs (e_policy E) !! dev))
      || match self_protect E with
         | Some cfg => negb (cfg_pin_dev cfg =? 0) && (cfg_pin_dev cfg =? dev)
         | None => false end)).
  { destruct (sealed_devs _ !! _) as [z|]; [by rewrite bool_decide_eq_true_2 by eauto|].
    rewrite bool_decide_eq_false_2 by (by intros [? ?]). cbn.
    destruct (self_protect E); [|done]. by rewrite negb_andb, negb_involutive. }
  rewrite Hex. destruct (bool_decide _ || _); cbn [negb andb]; [|apply implements_ret].
  destruct (is_null (read_ptr _ mnt_root m)); cbn [negb andb orb]; [apply implements_ret|].
  destruct (ptr_eqb _ _); cbn [negb andb orb]; [|apply implements_ret].
  intros s Hs Hc. exists (caller_id_of_current E). split; [|auto with comp_db].
  unfold mbind, M_bind, gets; cbn. rewrite emit_audit_actor_eq.
  destruct (cid_valid (caller_id_of_current E)) eqn:Hv; [done|].
  by destruct (caller_invalid_zero E Hv) as [-> ->].
Qed.

Lemma umount_outcome_ok m : outcome_ok (umount_outcome E m) /\ outcome_eacces (umount_outcome E m).
Proof.
  unfold umount_outcome, outcome_ok, outcome_eacces.
  destruct (umount_protected E m); cbn; split; try split; auto; done.
Qed.

(** ** The programs *)

Lemma rename_implements o n : impl (comp_inode_rename E o n 0) (spec (HInodeRename o n)).
Proof.
  unfold comp_inode_rename, after. cbn [Z.eqb hook_outcome]. unfold rename_dir_checks.
  do 6 impl_seq.
  apply implements_seq; [apply rename_alias_implements|auto with comp_db|].
  apply implements_seq; [apply rename_cap_implements|auto with comp_db|].
  impl_last. unfold rename_inode_checks. auto with comp_db.
Qed.

Lemma link_implements o n : impl (comp_inode_link E o n 0) (spec (HInodeLink o n)).
Proof.
  unfold comp_inode_link, after. cbn [Z.eqb hook_outcome]. unfold link_checks.
  rewrite !o_seqs_checks_app. apply implements_seq; [|auto with comp_db|].
  { destruct (read_ptr _ _ o) eqn:Hi; cbn [is_null]; unfold inode_of; rewrite Hi; auto with comp_db. }
  do 2 impl_seq. apply implements_seq; [apply child_invariant_implements|auto with comp_db|].
  apply implements_last; [apply child_invariant_implements|auto with comp_db].
Qed.

Lemma setattr_implements d ia : impl (comp_inode_setattr E d ia 0) (spec (HInodeSetattr d ia)).
Proof.
  unfold comp_inode_setattr, comp_inode_setattr_impl, after. cbn [Z.eqb hook_outcome].
  unfold setattr_checks. rewrite app_assoc. apply implements_checks_app.
  2:{ apply implements_checks_app; apply implements_checks_if; auto with comp_db. }
  fold (inode_of E d). fold (size_change ia). fold (meta_change ia).
  destruct (lookup_inode_seals E (inode_of E d)) as [[[k isv] dsv]|] eqn:Hl.
  - assert (Hik : forall mask action, inode_checks E (inode_of E d) mask action
              = opt_check isv mask action k ++ opt_check dsv mask action k).
    { intros mask action. unfold lookup_inode_seals in Hl. unfold inode_checks.
      destruct (is_null (inode_of E d)); [done|]. cbn [orb]. rewrite key_set_negb.
      destruct (_ && _); [done|].
      destruct (sealed_inodes _ !! _), (sealed_dirs _ !! _); by simplify_eq. }
    rewrite !Hik. apply implements_checks_app; apply implements_checks_if;
      apply implements_checks_app; rewrite checks_outcome_opt; apply seal_decision_implements.
  - assert (Hik : forall mask action, inode_checks E (inode_of E d) mask action = []).
    { intros mask action. unfold lookup_inode_seals in Hl. unfold inode_checks.
      destruct (is_null (inode_of E d)); [done|]. cbn [orb]. rewrite key_set_negb.
      destruct (_ && _); [done|].
      destruct (sealed_inodes _ !! _), (sealed_dirs _ !! _); by simplify_eq. }
    rewrite !Hik. destruct (size_change ia), (meta_change ia); apply implements_ret.
Qed.

Lemma ioctl_implements f cmd : impl (comp_file_ioctl E f cmd 0) (spec (HFileIoctl f cmd)).
Proof.
  unfold comp_file_ioctl, comp_file_ioctl_impl, after. cbn [Z.eqb hook_outcome].
  match goal with |- context [bool_decide ?Q] => set (B := Q) end.
  match goal with |- context [if ?b then mret 0 else _] =>
    assert (Hb : b = negb (bool_decide B)) end.
  { unfold B. rewrite !elem_of_cons_bool. by rewrite !negb_orb, bool_decide_nil, andb_true_r, !andb_assoc. }
  rewrite Hb. destruct (bool_decide B); cbn [negb andb]; [|apply implements_ret].
  destruct (is_null (read_ptr _ _ f)); cbn [negb]; [apply implements_ret|].
  unfold chmod_checks. auto with comp_db.
Qed.

Lemma bpf_map_implements m : impl (comp_bpf_map E m 0) (spec (HBpfMap m)).
Proof.
  unfold comp_bpf_map, after. cbn [Z.eqb hook_outcome]. unfold bpf_map_outcome.
  destruct (self_protect E) as [cfg|]; [|apply implements_ret].
  destruct m as [id|]; [|apply implements_ret].
  destruct (protected_map_ids _ !! id) as [z|].
  2:{ rewrite bool_decide_eq_true_2 by done. rewrite bool_decide_eq_false_2 by (by intros [? ?]).
      apply implements_ret. }
  rewrite bool_decide_eq_false_2 by done. rewrite bool_decide_eq_true_2 by eauto. cbn [andb].
  intros s Hs Hc. exists (caller_id_of_current E). split; [|auto with comp_db].
  rewrite M_bind_eq, caller_is_loader_eq by done.
  destruct (is_loader E); cbn [negb]; [done|]. by rewrite deny_self_protect_eq.
Qed.

Lemma prctl_implements o : impl (comp_task_prctl E o 0) (spec (HTaskPrctl o)).
Proof.
  unfold comp_task_prctl, after. cbn [Z.eqb hook_outcome]. unfold side_deny.
  destruct (cur_strict_loaded E =? 0); [apply implements_ret|]. cbn [negb andb].
  destruct (o =? PR_SET_MM); [|apply implements_ret].
  intros s Hs Hc. exists (hs_cid s). split; [|done]. rewrite !M_bind_eq, bump_counter_eq.
  rewrite M_bind_eq. by rewrite emit_audit_actor_eq.
Qed.

Lemma marker_deny_implements t c action :
  impl (am ← task_storage_get t ;
        match am with
        | None => mret 0
        | Some m =>
            if am_state m =? 0 then mret 0
            else bump_counter c ;; emit_audit_actor E action 0 0 0 0 None ;; mret (- EPERM)
        end)
       (if marked mk t then Outcome (- EPERM) [c] (Some (Emission action 0 0 0 0 None)) else o_pass).
Proof.
  intros s Hs Hc. exists (hs_cid s). split; [|done]. rewrite M_bind_eq.
  unfold task_storage_get, gets, marked. rewrite Hs.
  destruct (t ≫= (fun a => mk !! a)) as [m|]; [|by destruct s].
  destruct (am_state m =? 0); cbn [negb]; [by destruct s|].
  rewrite M_bind_eq, bump_counter_eq, M_bind_eq. by rewrite emit_audit_actor_eq.
Qed.

Lemma ptrace_access_implements c :
  impl (comp_ptrace_access_check E c 0) (spec (HPtraceAccessCheck c)).
Proof.
  unfold comp_ptrace_access_check, after. cbn [Z.eqb hook_outcome]. unfold side_deny.
  destruct (cur_strict_loaded E =? 0); [apply implements_ret|]. apply marker_deny_implements.
Qed.

Lemma ptrace_traceme_implements : impl (comp_ptrace_traceme E 0) (spec HPtraceTraceme).
Proof.
  unfold comp_ptrace_traceme, after. cbn [Z.eqb hook_outcome]. unfold side_deny.
  destruct (cur_strict_loaded E =? 0); [apply implements_ret|].
  destruct (e_current E) as [t|]; [|apply implements_ret]. apply marker_deny_implements.
Qed.

Lemma move_mount_implements m fd td :
  impl (comp_move_mount E m fd td 0) (spec (HMoveMount m fd td)).
Proof.
  unfold comp_move_mount, after. cbn [Z.eqb hook_outcome].
  apply implements_seq.
  - destruct (negb _ && _ && _); [apply umount_implements|apply implements_ret].
  - destruct (negb _ && _ && _); [apply umount_outcome_ok|done].
  - apply implements_last.
    + intros s Hs Hc. rewrite M_bind_eq. unfold set_cid.
      apply (mount_implements td (HState (hs_dyn s) caller_id_zero)); auto with comp_db.
    + unfold mount_outcome. repeat apply o_seq_ok; auto with comp_db.
Qed.

(** Every program implements its specification. *)
Lemma hook_implements h : impl (hook_code E h 0) (spec h).
Proof.
  destruct h; cbn [hook_code];
    [apply unlink_body|apply rename_implements|apply unlink_body|..
    |apply bpf_map_implements|apply prctl_implements|apply ptrace_access_implements
    |apply ptrace_traceme_implements].
  - apply deny_dentry_parent_implements.
  - apply implements_seq; [apply deny_dentry_parent_implements|auto with comp_db|].
    apply implements_last; [apply mkdir_cap_implements|auto with comp_db].
  - apply deny_dentry_parent_implements.
  - apply implements_seq; [apply deny_dentry_parent_implements|auto with comp_db|].
    apply implements_last; [apply child_invariant_implements|auto with comp_db].
  - apply link_implements.
  - unfold comp_file_open, after. cbn [Z.eqb hook_outcome].
    destruct (_ &? _), (is_null (read_ptr _ _ f)); cbn [negb andb];
      try apply implements_ret; apply deny_file_write_implements.
  - unfold comp_file_permission, after. cbn [Z.eqb hook_outcome].
    destruct (_ &? _); try apply implements_ret; apply deny_file_write_implements.
  - apply deny_file_write_implements.
  - unfold comp_mmap_file, after. cbn [Z.eqb hook_outcome].
    destruct f as [f|]; cbn [is_null]; [|by destruct (_ && _); apply implements_ret].
    destruct (_ &? _), (_ &? _); cbn [negb andb];
      try apply implements_ret; apply deny_file_write_implements.
  - unfold comp_file_mprotect, after. cbn [Z.eqb hook_outcome].
    destruct (_ &? _), (_ &? _); cbn [negb andb]; try apply implements_ret.
    destruct (read_ptr _ _ vma) as [f|]; [apply deny_file_write_implements|apply implements_ret].
  - apply setattr_implements.
  - apply chmod_body.
  - apply chmod_body.
  - apply chmod_body.
  - apply chmod_body.
  - apply ioctl_implements.
  - unfold comp_sb_mount, after. cbn [Z.eqb hook_outcome]. unfold mount_exempt.
    destruct (_ &? MS_REMOUNT); cbn [orb]; [apply implements_ret|].
    destruct (_ && _); [apply implements_ret|apply mount_implements].
  - apply move_mount_implements.
  - apply umount_implements.
Qed.
End Hooks.
