(* ===== verification/HookProps.v ===== *)
(** * What the hooks guarantee

    Theorems about the programs themselves, from the refinement: the audit
    discipline, deference to earlier LSM verdicts, and exactly when a write,
    a namespace change, a metadata change, a mount, an unmount or a map
    access is refused. *)

From S2P Require Import Prelude Abi Kernel SealCore Hooks SealSpec SealRefine HookSpec HookRefine Demo.

(** ** Shared lemmas *)

Lemma run_hook_implements E m o d :
  implements E (actor_marker_map d) m o -> run_hook m d = (o_rc o, apply_outcome E o d).
Proof.
  intros H. destruct (H (HState d caller_id_zero)) as (c & Hm & _); [done|auto with comp_db|].
  unfold run_hook. by rewrite Hm.
Qed.

Lemma hook_outcome_ok E mk h : outcome_ok (hook_outcome E mk h).
Proof.
  destruct h; cbn [hook_outcome]; unfold mount_outcome, bpf_map_outcome, side_deny;
    repeat case_match; repeat apply o_seq_ok;
    auto with comp_db; try apply umount_outcome_ok; split; done.
Qed.

(** Outcomes never bump the two counters of the audit channel themselves. *)
Definition quiet (o : outcome) : Prop :=
  Forall (fun c => c <> deny_total /\ c <> audit_drop_total) (o_bumps o).

Lemma quiet_pass : quiet o_pass.
Proof. constructor. Qed.

Lemma quiet_seq o1 o2 : quiet o1 -> quiet o2 -> quiet (o_seq o1 o2).
Proof.
  unfold quiet, o_seq. intros. destruct (o_rc o1 =? 0); cbn; [by apply Forall_app|done].
Qed.

Lemma quiet_seqs l : Forall quiet l -> quiet (o_seqs l).
Proof. induction 1; [apply quiet_pass|by apply quiet_seq]. Qed.

Ltac solve_quiet := unfold quiet; cbn; repeat constructor; discriminate.

Lemma quiet_checks E mk l : quiet (checks_outcome E mk l).
Proof.
  apply quiet_seqs, Forall_fmap, Forall_true. intros c.
  unfold compose, check_outcome, seal_outcome, strict_outcome.
  repeat case_match; solve_quiet.
Qed.

#[export] Hint Resolve quiet_pass quiet_checks hook_outcome_ok : comp_db.

Lemma quiet_hook E mk h : quiet (hook_outcome E mk h).
Proof.
  destruct h; cbn [hook_outcome];
    unfold mount_outcome, umount_outcome, bpf_map_outcome, side_deny, pin_outcome, hit_outcome;
    repeat apply quiet_seq; auto with comp_db;
    repeat case_match; repeat apply quiet_seq; auto with comp_db; solve_quiet.
Qed.

Lemma bump_all_other l c d : Forall (fun c' => c' <> c) l -> d_counters (bump_all l d) c = d_counters d c.
Proof.
  intros H. revert d. induction H as [|c' l Hc _ IH]; intros d; [done|].
  cbn. rewrite IH. cbn. by rewrite decide_False by congruence.
Qed.

Lemma quiet_deny o d : quiet o -> d_counters (bump_all (o_bumps o) d) deny_total = d_counters d deny_total.
Proof. intros H. apply bump_all_other. eapply Forall_impl; [exact H|naive_solver]. Qed.

Lemma quiet_drop o d :
  quiet o -> d_counters (bump_all (o_bumps o) d) audit_drop_total = d_counters d audit_drop_total.
Proof. intros H. apply bump_all_other. eapply Forall_impl; [exact H|naive_solver]. Qed.

(** When a sequence of checks denies. *)
Lemma seal_outcome_rc E mk v mask action dev ino :
  o_rc (seal_outcome E mk (Some v) mask action dev ino) = 0
  <-> (sv_flags v &? mask) && negb (satisfies E mk v) = false.
Proof.
  unfold seal_outcome, satisfies, strict_outcome, strict_ok.
  destruct (sv_flags v &? mask); cbn; [|done].
  destruct (sv_actor_count v =? 0); cbn; [done|].
  destruct (cid_valid _ && actor_listed E v); cbn; [|done].
  destruct (sv_flags v &? SEAL_STRICT_LAUNCH); cbn; [|done].
  destruct (current_marker E mk) as [m|]; cbn; [|done].
  destruct (marker_identity_ok E v m), (marker_generation_ok E v m); done.
Qed.

Lemma checks_rc E mk l :
  o_rc (checks_outcome E mk l) = 0 <-> Forall (fun c => check_denies E mk c = false) l.
Proof.
  unfold checks_outcome. rewrite o_seqs_rc_0, Forall_fmap.
  split; intros H; (eapply Forall_impl; [exact H|]); intros c; apply seal_outcome_rc.
Qed.

Lemma checks_rc_deny E mk l :
  o_rc (checks_outcome E mk l) = - EACCES <-> exists c, c ∈ l /\ check_denies E mk c = true.
Proof.
  split.
  - intros H. destruct (decide (Forall (fun c => check_denies E mk c = false) l)) as [HF|HF].
    { apply checks_rc in HF. rewrite HF in H. done. }
    apply not_Forall_Exists, Exists_exists in HF as (c & Hc & Hd); [|solve_decision].
    exists c. split; [done|]. by apply not_false_is_true.
  - intros (c & Hc & Hd). destruct (checks_eacces E mk l) as [H|H]; [|done].
    apply checks_rc in H. rewrite Forall_forall in H. rewrite H in Hd by done. done.
Qed.

(** ** Refinement *)

(** C1: every hook program, run on any state after the earlier LSM modules
    allowed the call, returns the verdict of its specification and changes the
    counters, the audit ring and nothing else exactly as the specified outcome
    says: the lazily filled identity cache is unobservable. *)
Theorem hook_refines E h d :
  run_hook (hook_code E h 0) d =
  (o_rc (hook_outcome E (actor_marker_map d) h),
   apply_outcome E (hook_outcome E (actor_marker_map d) h) d).
Proof. apply run_hook_implements, hook_implements. Qed.

Lemma hook_code_deferred E h ret : ret <> 0 -> hook_code E h ret = mret ret.
Proof.
  intros Hr. apply Z.eqb_neq in Hr.
  assert (Ha : forall m, after ret m = mret ret) by (intros; unfold after; by rewrite Hr).
  destruct h; apply Ha.
Qed.

(** A program never overrides an earlier module's refusal: with a non-zero
    [ret] it returns [ret] and touches no state. *)
Theorem hook_defers E h ret d : ret <> 0 -> run_hook (hook_code E h ret) d = (ret, d).
Proof. intros Hr. by rewrite hook_code_deferred. Qed.

Lemma hook_defers_witness :
  run_hook (hook_code (demo_env demo_uniform (Some 1%positive)) (HFileTruncate (Some 1%positive)) (-1))
    demo_dyn = (-1, demo_dyn).
Proof. apply hook_defers. lia. Defined.

(** ** Audit discipline *)

(** One refusal, one record.  A call that is allowed leaves the audit ring,
    the deny counter and the drop counter unchanged; a call that is refused adds
    exactly one to the deny counter and then either appends exactly one event of
    the current ABI version or, when the ring is full, adds exactly one to the
    drop counter. *)
Theorem hook_audit_once E h d :
  let '(r, d') := run_hook (hook_code E h 0) d in
  (r = 0 ->
     audit_rb d' = audit_rb d
     /\ d_counters d' deny_total = d_counters d deny_total
     /\ d_counters d' audit_drop_total = d_counters d audit_drop_total)
  /\ (r <> 0 ->
     d_counters d' deny_total = wrap64 (d_counters d deny_total + 1)
     /\ if e_reserve E (audit_rb d)
        then (exists e, audit_rb d' = audit_rb d ++ [e] /\ ev_version e = COMPARTMENT_ABI_VERSION)
             /\ d_counters d' audit_drop_total = d_counters d audit_drop_total
        else audit_rb d' = audit_rb d
             /\ d_counters d' audit_drop_total = wrap64 (d_counters d audit_drop_total + 1)).
Proof.
  rewrite (run_hook_implements E _ (hook_outcome E (actor_marker_map d) h)) by apply hook_implements.
  set (o := hook_outcome E (actor_marker_map d) h).
  assert (Hq : quiet o) by apply quiet_hook.
  assert (Hok : outcome_ok o) by apply hook_outcome_ok.
  unfold apply_outcome. destruct (o_emit o) as [em|] eqn:He; split; intros Hr;
    try (apply Hok in Hr; congruence); try (exfalso; apply Hr, Hok; done).
  - unfold emit_dyn. cbn. rewrite bump_all_ring. destruct (e_reserve E (audit_rb d)); cbn;
      rewrite bump_all_ring, ?quiet_deny, ?quiet_drop by done; eauto 6.
  - by rewrite bump_all_ring, quiet_deny, quiet_drop.
Qed.

(** ** Verdicts *)

(** The verdict of a call, after the earlier LSM modules allowed it. *)
Definition verdict (E : env) (h : hook) (d : dyn) : Z := fst (run_hook (hook_code E h 0) d).

Lemma verdict_outcome E h d : verdict E h d = o_rc (hook_outcome E (actor_marker_map d) h).
Proof.
  unfold verdict. by rewrite (run_hook_implements E _ (hook_outcome E (actor_marker_map d) h))
    by apply hook_implements.
Qed.

(** Some seal of the list applies and the caller does not satisfy it. *)
Definition refused (E : env) (d : dyn) (l : list check) : Prop :=
  exists c, c ∈ l /\ check_denies E (actor_marker_map d) c = true.

Lemma checks_refused E d l :
  (o_rc (checks_outcome E (actor_marker_map d) l) = - EACCES <-> refused E d l)
  /\ (o_rc (checks_outcome E (actor_marker_map d) l) = 0 <-> ~ refused E d l).
Proof.
  pose proof (checks_rc_deny E (actor_marker_map d) l) as H. fold (refused E d l) in H.
  split; [done|]. destruct (checks_eacces E (actor_marker_map d) l) as [H0|H0].
  - rewrite H0. split; [|done]. intros _ Hr. apply H in Hr. by rewrite H0 in Hr.
  - rewrite H0. split; [done|]. intros Hn. destruct Hn. by apply H.
Qed.

(** The verdict of a hook is [-EACCES] exactly when [Q], and 0 otherwise. *)
Definition denies_iff (E : env) (d : dyn) (Q : Prop) (h : hook) : Prop :=
  (verdict E h d = - EACCES <-> Q) /\ (verdict E h d = 0 <-> ~ Q).

Lemma denies_iff_checks E d h l :
  hook_outcome E (actor_marker_map d) h = checks_outcome E (actor_marker_map d) l ->
  denies_iff E d (refused E d l) h.
Proof. intros H. unfold denies_iff. rewrite verdict_outcome, H. apply checks_refused. Qed.

Lemma denies_iff_pass E d h Q :
  hook_outcome E (actor_marker_map d) h = o_pass -> ~ Q -> denies_iff E d Q h.
Proof. intros H HQ. unfold denies_iff. rewrite verdict_outcome, H. split; split; done. Qed.

(** *** Data writes *)

(** C2: a data write is refused exactly when a covering [no-write] seal is not
    satisfied by the caller.  For a file opened for writing, all five paths by
    which its contents can change (write-open, write permission, truncation, a
    shared writable mapping, making a shared mapping writable) return [-EACCES]
    if and only if some seal on the inode or on one of its eight nearest
    ancestor directories forbids writing and the caller is not an actor of that
    seal (with a valid launch marker where the seal asks for one); otherwise
    they return 0. *)
Theorem data_write_denied_iff E d fp vma reqprot prot flags :
  let f := Some fp in
  (read_val (k_files (e_kernel E)) f_mode f &? FMODE_WRITE) = true ->
  is_null (read_ptr (k_files (e_kernel E)) f_inode f) = false ->
  (prot &? PROT_WRITE) = true -> (flags &? MAP_SHARED) = true ->
  (read_val (k_vmas (e_kernel E)) vm_flags vma &? VM_SHARED) = true ->
  read_ptr (k_vmas (e_kernel E)) vm_file vma = f ->
  Forall (denies_iff E d (refused E d (write_checks E f)))
    [HFileOpen f; HFilePermission f MAY_WRITE; HFileTruncate f;
     HMmapFile f reqprot prot flags; HFileMprotect vma prot].
Proof.
  intros f Hmode Hino Hprot Hflags Hvm Hvf.
  assert (Hp : (Z.lor prot reqprot &? PROT_WRITE) = true).
  { unfold hasbit in *. rewrite negb_true_iff, Z.eqb_neq in *. rewrite Z.land_comm, Z.land_lor_distr_r.
    rewrite Z.lor_eq_0_iff, (Z.land_comm PROT_WRITE prot). naive_solver. }
  repeat (apply Forall_cons; split); [..|apply Forall_nil; done]; apply denies_iff_checks;
    cbn [hook_outcome]; rewrite ?Hmode, ?Hino, ?Hp, ?Hflags, ?Hprot, ?Hvm, ?Hvf; done.
Qed.

Lemma data_write_denied_iff_witness :
  verdict (demo_env demo_actor (Some 2%positive)) (HFileTruncate (Some 1%positive)) demo_dyn = - EACCES
  /\ verdict (demo_env demo_actor (Some 1%positive)) (HFileTruncate (Some 1%positive)) demo_dyn = 0.
Proof.
  pose proof (fun sv cur => data_write_denied_iff (demo_env sv cur) demo_dyn 1 (Some 1%positive)
    0 PROT_WRITE MAP_SHARED eq_refl eq_refl eq_refl eq_refl eq_refl eq_refl) as H.
  split.
  - specialize (H demo_actor (Some 2%positive)). rewrite Forall_forall in H.
    apply (H (HFileTruncate (Some 1%positive))); [do 2 right; left|].
    eexists (Check demo_actor SEAL_NO_WRITE ACTION_DENY_WRITE_PARENT_DIR (InodeKey 8 100)).
    split; [left|]; vm_compute; reflexivity.
  - vm_compute. reflexivity.
Defined.

(** *** Sequences of refusals *)

Lemma o_seqs_rc_deny l :
  Forall outcome_eacces l ->
  o_rc (o_seqs l) = - EACCES <-> Exists (fun o => o_rc o = - EACCES) l.
Proof.
  induction 1 as [|o l Ho _ IH]; [by rewrite Exists_nil|].
  rewrite o_seqs_cons, Exists_cons, <- IH. unfold o_seq.
  destruct Ho as [Ho|Ho]; rewrite Ho; cbn.
  - split; [by right|]. by intros [?|?].
  - split; [by left|done].
Qed.

Lemma hit_outcome_rc action h : o_rc (hit_outcome action h) = - EACCES <-> is_Some h.
Proof. destruct h as [h|]; cbn; split; intros H; [by exists h|done|done|]. by destruct H. Qed.

Lemma pin_outcome_rc E i :
  o_rc (pin_outcome E i) = - EACCES <-> protected_pin E i = true /\ is_loader E = false.
Proof. unfold pin_outcome. destruct (protected_pin E i), (is_loader E); cbn; naive_solver. Qed.

(** A pin object of the live policy, touched by a binary that is not a loader. *)
Definition pin_tamper (E : env) (d : ptr) : Prop :=
  protected_pin E (inode_of E d) = true /\ is_loader E = false.

Lemma hook_eacces_split E d h l Q :
  hook_outcome E (actor_marker_map d) h = o_seqs l -> Forall outcome_eacces l ->
  (Exists (fun o => o_rc o = - EACCES) l <-> Q) -> denies_iff E d Q h.
Proof.
  intros Ho Hl HQ. unfold denies_iff. rewrite verdict_outcome, Ho, <- HQ, <- (o_seqs_rc_deny l Hl).
  destruct (o_seqs_eacces l Hl) as [->| ->]; split; split; intros; (done || naive_solver).
Qed.

#[local] Hint Extern 1 (outcome_eacces (hit_outcome _ _)) => apply hit_outcome_ok : comp_db.

Ltac split_eacces :=
  eapply hook_eacces_split; [reflexivity|repeat (apply Forall_cons; split); [..|by apply Forall_nil]; auto with comp_db|];
  rewrite ?Exists_cons, Exists_nil, ?hit_outcome_rc, ?pin_outcome_rc, ?(proj1 (checks_refused _ _ _)).

(** *** Namespace changes *)

Section Namespace.
Context (E : env) (d : dyn).

Lemma unlink_iff o :
  Forall (denies_iff E d (pin_tamper E o \/ refused E d (unlink_checks E o)))
    [HInodeUnlink o; HInodeRmdir o].
Proof.
  repeat (apply Forall_cons; split); [..|by apply Forall_nil]; split_eacces; unfold pin_tamper; tauto.
Qed.

Lemma create_iff n :
  Forall (denies_iff E d (refused E d (create_checks E n))) [HInodeCreate n; HInodeMknod n].
Proof. repeat (apply Forall_cons; split); [..|by apply Forall_nil]; by apply denies_iff_checks. Qed.

Lemma mkdir_iff n :
  denies_iff E d (refused E d (create_checks E n) \/ is_Some (mkdir_cap_hit E n)) (HInodeMkdir n).
Proof. split_eacces. tauto. Qed.

Lemma symlink_iff n :
  denies_iff E d (refused E d (create_checks E n) \/ is_Some (nearest_from E (real_parent_of E n)))
    (HInodeSymlink n).
Proof. split_eacces. tauto. Qed.

Lemma link_iff o n :
  denies_iff E d (refused E d (link_checks E o n)
                  \/ is_Some (nearest_from E (real_parent_of E o))
                  \/ is_Some (nearest_from E (real_parent_of E n))) (HInodeLink o n).
Proof. split_eacces. tauto. Qed.

Lemma rename_iff o n :
  denies_iff E d (pin_tamper E o \/ pin_tamper E n \/ refused E d (rename_dir_checks E o n)
                  \/ is_Some (rename_alias_hit E o n) \/ is_Some (rename_cap_hit E o n)
                  \/ refused E d (rename_inode_checks E o n)) (HInodeRename o n).
Proof. split_eacces. unfold pin_tamper. tauto. Qed.
End Namespace.

(** C3: exactly when removing, adding, linking or moving a directory entry is
    refused.  Unlink and rmdir: a protected pin touched by a non-loader, or an
    unsatisfied [no-unlink] seal on the entry or above it.  Create and mknod: an
    unsatisfied [no-write] seal above.  Mkdir: additionally at the depth cap.
    Symlink: additionally anywhere below a [no-write] seal.  Hard link: an
    unsatisfied [no-write] seal on or above the source or above the destination,
    or either end below a [no-write] seal at all.  Rename: pin tampering, an
    unsatisfied seal on either side, importing an alias, or moving a directory
    deeper or in from outside. *)
Theorem namespace_denied_iff E d o n :
  Forall (denies_iff E d (pin_tamper E o \/ refused E d (unlink_checks E o)))
    [HInodeUnlink o; HInodeRmdir o]
  /\ Forall (denies_iff E d (refused E d (create_checks E n))) [HInodeCreate n; HInodeMknod n]
  /\ denies_iff E d (refused E d (create_checks E n) \/ is_Some (mkdir_cap_hit E n)) (HInodeMkdir n)
  /\ denies_iff E d (refused E d (create_checks E n) \/ is_Some (nearest_from E (real_parent_of E n)))
       (HInodeSymlink n)
  /\ denies_iff E d (refused E d (link_checks E o n)
                     \/ is_Some (nearest_from E (real_parent_of E o))
                     \/ is_Some (nearest_from E (real_parent_of E n))) (HInodeLink o n)
  /\ denies_iff E d (pin_tamper E o \/ pin_tamper E n \/ refused E d (rename_dir_checks E o n)
                     \/ is_Some (rename_alias_hit E o n) \/ is_Some (rename_cap_hit E o n)
                     \/ refused E d (rename_inode_checks E o n)) (HInodeRename o n).
Proof.
  exact (conj (unlink_iff E d o) (conj (create_iff E d n) (conj (mkdir_iff E d n)
    (conj (symlink_iff E d n) (conj (link_iff E d o n) (rename_iff E d o n)))))).
Qed.

(** *** Metadata changes *)

(** Exactly when a metadata change is refused: the xattr, ACL and flag-ioctl
    paths all return [-EACCES] if and only if an unsatisfied [no-chmod] seal is
    on the inode or above it, and an attribute change is refused exactly by the
    seals of its class (size changes meet [no-write] seals; mode, owner and
    explicit timestamp changes meet [no-chmod] seals on the inode; any attribute
    but the size meets [no-chmod] seals above it). *)
Theorem metadata_denied_iff E d dn fp cmd ia :
  let f := Some fp in
  read_ptr (k_files (e_kernel E)) f_inode f = inode_of E dn ->
  read_ptr (k_files (e_kernel E)) f_path_dentry f = dn ->
  is_null (inode_of E dn) = false ->
  cmd ∈ [COMP_FS_IOC_SETFLAGS; COMP_FS_IOC32_SETFLAGS; COMP_FS_IOC_FSSETXATTR;
         COMP_FS_IOC_SETVERSION; COMP_FS_IOC32_SETVERSION] ->
  Forall (denies_iff E d (refused E d (chmod_checks E (inode_of E dn) dn)))
    [HInodeSetxattr dn; HInodeRemovexattr dn; HInodeSetAcl dn; HInodeRemoveAcl dn; HFileIoctl f cmd]
  /\ denies_iff E d (refused E d (setattr_checks E dn ia)) (HInodeSetattr dn ia).
Proof.
  intros f Hi Hd Hnn Hc. split; [|by apply denies_iff_checks].
  repeat (apply Forall_cons; split); [..|by apply Forall_nil]; apply denies_iff_checks; [done..|].
  cbn [hook_outcome]. rewrite bool_decide_eq_true_2 by done. by rewrite Hi, Hnn, Hd.
Qed.

Lemma metadata_denied_iff_witness :
  verdict (demo_env demo_uniform (Some 1%positive)) (HFileIoctl (Some 1%positive) COMP_FS_IOC_SETFLAGS)
    demo_dyn = - EACCES.
Proof.
  pose proof (metadata_denied_iff (demo_env demo_uniform (Some 1%positive)) demo_dyn
    (Some 11%positive) 1 COMP_FS_IOC_SETFLAGS 0 eq_refl eq_refl eq_refl
    (list_elem_of_here _ _)) as [H _].
  rewrite Forall_forall in H. apply (H (HFileIoctl (Some 1%positive) COMP_FS_IOC_SETFLAGS)).
  - do 4 right. left.
  - exists (Check demo_uniform SEAL_NO_CHMOD ACTION_DENY_CHMOD_PARENT_DIR (InodeKey 8 100)).
    split; [left|]; vm_compute; reflexivity.
Defined.

(** *** An unsatisfied directory seal locks what is below it *)

Lemma in_ancestor_checks E p k sv cur mask action :
  dir_seal_at E p = Some (k, sv) -> p ∈ ancestor_chain E COMPARTMENT_MAX_DIR_ANCESTORS cur ->
  Check sv mask action k ∈ ancestor_checks E cur mask action.
Proof.
  intros Hs Hp. unfold ancestor_checks. apply list_elem_of_join.
  exists (dir_checks E mask action p). split.
  - unfold dir_checks. rewrite Hs. left.
  - by apply list_elem_of_fmap_2.
Qed.

(** A caller that does not satisfy a [no-write] seal on one of the eight nearest
    ancestors of an entry is refused every change of the entry. *)
Lemma unsatisfied_seal_locks E d p k sv dn other fp :
  dir_seal_at E p = Some (k, sv) ->
  satisfies E (actor_marker_map d) sv = false -> (sv_flags sv &? SEAL_NO_WRITE) = true ->
  p ∈ ancestor_chain E COMPARTMENT_MAX_DIR_ANCESTORS (real_parent_of E dn) ->
  read_ptr (k_files (e_kernel E)) f_path_dentry (Some fp) = dn ->
  Forall (fun h => verdict E h d = - EACCES)
    [HInodeCreate dn; HInodeMkdir dn; HInodeMknod dn; HInodeSymlink dn; HInodeLink other dn;
     HInodeRename other dn; HInodeRename dn other; HFileTruncate (Some fp);
     HFilePermission (Some fp) MAY_WRITE].
Proof.
  intros Hs H0 Hw Hp Hd.
  assert (Hr : forall action l1 l2, refused E d (l1 ++ parent_checks E dn SEAL_NO_WRITE action ++ l2)).
  { intros action l1 l2. exists (Check sv SEAL_NO_WRITE action k). split; [|by unfold check_denies; cbn; rewrite Hw, H0].
    apply elem_of_app. right. apply elem_of_app. left. by apply in_ancestor_checks with p. }
  assert (Hr0 : forall action, refused E d (parent_checks E dn SEAL_NO_WRITE action)).
  { intros action. specialize (Hr action [] []). by rewrite app_nil_r in Hr. }
  pose proof (create_iff E d dn) as Hcr. rewrite Forall_forall in Hcr.
  assert (Htr : denies_iff E d (refused E d (write_checks E (Some fp))) (HFileTruncate (Some fp)))
    by by apply denies_iff_checks.
  assert (Hpe : denies_iff E d (refused E d (write_checks E (Some fp))) (HFilePermission (Some fp) MAY_WRITE))
    by by apply denies_iff_checks.
  assert (Hw2 : refused E d (write_checks E (Some fp))).
  { unfold write_checks. rewrite Hd. specialize (Hr ACTION_DENY_WRITE_PARENT_DIR
      (inode_checks E (read_ptr (k_files (e_kernel E)) f_inode (Some fp)) SEAL_NO_WRITE ACTION_DENY_WRITE) []).
    by rewrite app_nil_r in Hr. }
  repeat (apply Forall_cons; split); [..|by apply Forall_nil].
  - apply (Hcr (HInodeCreate dn)); [left|apply Hr0].
  - apply mkdir_iff. left. apply Hr0.
  - apply (Hcr (HInodeMknod dn)); [right; left|apply Hr0].
  - apply symlink_iff. left. apply Hr0.
  - apply link_iff. left. unfold link_checks. rewrite app_assoc, <- (app_nil_r (parent_checks E dn _ _)). apply Hr.
  - apply rename_iff. right. right. left. unfold rename_dir_checks. rewrite !app_assoc.
    rewrite <- (app_nil_r (parent_checks E dn SEAL_NO_WRITE _)). apply Hr.
  - apply rename_iff. right. right. left. unfold rename_dir_checks. apply Hr.
  - by apply Htr.
  - by apply Hpe.
Qed.

(** *** Mounts *)

(** What [mount(2)] does with a flag word: the dispatch order of the kernel's
    [path_mount], as the comment above [comp_sb_mount] records it. *)
Inductive mount_kind := MkRemount | MkBind | MkPropagation | MkMoveOrNew.

Definition path_mount_dispatch (flags : Z) : mount_kind :=
  if flags &? MS_REMOUNT then MkRemount
  else if flags &? MS_BIND then MkBind
  else if flags &? Z.lor (Z.lor (Z.lor MS_SHARED MS_PRIVATE) MS_SLAVE) MS_UNBINDABLE
  then MkPropagation
  else MkMoveOrNew.

Definition attaches (k : mount_kind) : bool :=
  match k with MkBind | MkMoveOrNew => true | MkRemount | MkPropagation => false end.

(** The mount gate mirrors the kernel's dispatch.  A [mount(2)] that attaches
    something at the target path (bind, move or new mount) is refused exactly
    when the target is a protected pin touched by a non-loader or an unsatisfied
    seal of any kind is on it or above it; a call that attaches nothing (remount,
    propagation change) is never refused, and in particular a propagation bit
    added to a bind mount does not exempt it. *)
Theorem sb_mount_denied_iff E d mp flags :
  denies_iff E d (attaches (path_mount_dispatch flags) = true
                  /\ (pin_tamper E mp \/ refused E d (mount_checks E mp)))
    (HSbMount mp flags).
Proof.
  unfold path_mount_dispatch.
  assert (Hex : mount_exempt flags = negb (attaches (path_mount_dispatch flags))).
  { unfold mount_exempt, path_mount_dispatch. by repeat destruct (_ &? _). }
  fold (path_mount_dispatch flags). destruct (attaches _) eqn:Ha; cbn in Hex.
  - eapply hook_eacces_split with (l := [pin_outcome E (inode_of E mp);
      checks_outcome E (actor_marker_map d) (mount_checks E mp)]).
    + cbn [hook_outcome]. by rewrite Hex.
    + repeat (apply Forall_cons; split); [..|by apply Forall_nil]; auto with comp_db.
    + rewrite !Exists_cons, Exists_nil, pin_outcome_rc, (proj1 (checks_refused _ _ _)).
      unfold pin_tamper. tauto.
  - apply denies_iff_pass; [cbn [hook_outcome]; by rewrite Hex|]. by intros [? _].
Qed.

(** A filesystem that hosts seals, and under self-protection the bpffs that
    holds the pins, cannot be detached by anyone: [umount] is refused exactly for
    a mount of the whole filesystem of such a device, whoever the caller is, and
    [move_mount] refuses to move such a mount away and to attach anything on or
    under a sealed path. *)
Theorem umount_denied_iff E d m fd td :
  denies_iff E d (umount_protected E m = true) (HSbUmount m)
  /\ denies_iff E d
      ((is_null m = false /\ is_null fd = false
        /\ fd = read_ptr (k_mounts (e_kernel E)) mnt_root m /\ umount_protected E m = true)
       \/ pin_tamper E td \/ refused E d (mount_checks E td))
      (HMoveMount m fd td).
Proof.
  split.
  - unfold denies_iff. rewrite verdict_outcome. cbn [hook_outcome]. unfold umount_outcome.
    destruct (umount_protected E m); cbn; split; split; (done || auto).
  - eapply hook_eacces_split with (l := [if negb (is_null m) && negb (is_null fd)
        && ptr_eqb fd (read_ptr (k_mounts (e_kernel E)) mnt_root m) then umount_outcome E m else o_pass;
        pin_outcome E (inode_of E td); checks_outcome E (actor_marker_map d) (mount_checks E td)]).
    + cbn [hook_outcome]. unfold mount_outcome. rewrite (o_seqs_cons _ [o_seqs _]), (o_seqs_cons _ [_; _]).
      f_equal. apply o_seqs_singleton. repeat apply o_seq_ok; auto with comp_db.
    + repeat (apply Forall_cons; split); [..|by apply Forall_nil]; auto with comp_db.
      destruct (negb _ && _ && _); [apply umount_outcome_ok|by left].
    + rewrite !Exists_cons, Exists_nil, pin_outcome_rc, (proj1 (checks_refused _ _ _)).
      unfold pin_tamper, umount_outcome, ptr_eqb.
      destruct (is_null m), (is_null fd), (umount_protected E m); cbn; try case_bool_decide; cbn;
        intuition done.
Qed.

(** *** Self-protection and strict-launch side denies *)

(** With self-protection on, no binary but an authorised loader obtains a file
    descriptor for a map of the policy, read-only or not: [bpf_map] returns
    [-EPERM] exactly for a protected map id and a caller whose executable is not
    (or cannot be resolved to) a loader, and 0 otherwise. *)
Theorem bpf_map_denied_iff E d map :
  (verdict E (HBpfMap map) d = - EPERM
   <-> exists id, map = Some id /\ is_Some (self_protect E)
       /\ is_Some (protected_map_ids (e_policy E) !! id) /\ is_loader E = false)
  /\ (verdict E (HBpfMap map) d = 0 \/ verdict E (HBpfMap map) d = - EPERM).
Proof.
  rewrite verdict_outcome. cbn [hook_outcome]. unfold bpf_map_outcome.
  destruct (self_protect E) as [cfg|].
  - destruct map as [id|].
    + destruct (decide (is_Some (protected_map_ids (e_policy E) !! id))) as [Hp|Hp];
        [rewrite bool_decide_eq_true_2 by done|rewrite bool_decide_eq_false_2 by done];
        destruct (is_loader E) eqn:Hl; cbn; (split; [|auto]); split; try done;
        try (intros (id' & [= <-] & ? & ? & ?); done).
      intros _. exists id. eauto.
    + cbn. split; [split; [done|]|auto]. by intros (id & ? & _).
  - cbn. split; [split; [done|]|destruct map; auto]. by intros (id & _ & [? ?] & _).
Qed.

(** Once a policy with strict-launch seals is loaded, no task can rewrite its
    executable identity with [PR_SET_MM], no tracer can attach to a task that
    carries a launch marker and no such task can invite one; without such a
    policy none of these calls is refused. *)
Theorem identity_tamper_denied_iff E d opt child :
  let strict := cur_strict_loaded E <> 0 in
  let mk := actor_marker_map d in
  (verdict E (HTaskPrctl opt) d = - EPERM <-> strict /\ opt = PR_SET_MM)
  /\ (verdict E (HPtraceAccessCheck child) d = - EPERM <-> strict /\ marked mk child = true)
  /\ (verdict E HPtraceTraceme d = - EPERM <-> strict /\ marked mk (e_current E) = true).
Proof.
  intros strict mk. rewrite !verdict_outcome. cbn [hook_outcome]. unfold side_deny, strict, mk.
  destruct (Z.eqb_spec (cur_strict_loaded E) 0) as [H0|H0]; cbn [negb andb].
  { split; [|split]; (split; [done|]); by intros [? _]. }
  split; [|split].
  - destruct (Z.eqb_spec opt PR_SET_MM) as [->|Hn]; cbn; [done|]. split; [done|by intros [_ ?]].
  - destruct (marked _ child); cbn; [done|]. split; [done|by intros [_ ?]].
  - destruct (marked _ (e_current E)); cbn; [done|]. split; [done|by intros [_ ?]].
Qed.
