(* ===== verification/Subtree.v ===== *)
(** * Recursive [no-write] seals stay complete while the tree changes

    The ancestor walks of the programs are bounded by
    [COMPARTMENT_MAX_DIR_ANCESTORS], so a seal protects its whole subtree only
    while no directory below it lies deeper than the bound.  The loader checks
    that when it installs the policy; the mkdir and rename programs keep it
    true afterwards ([deny_mkdir_subtree_depth_cap],
    [deny_dir_rename_subtree_depth_cap] in
    [src/compartment-bpf/compartment.bpf.c]).  Here the directory tree is a
    state machine whose steps are the namespace operations the programs
    approved, whoever performs them, and the bound is its invariant. *)

From S2P Require Import Prelude Abi Kernel Demo SealCore Hooks SealSpec SealRefine HookSpec HookRefine HookProps.

(** ** The tree *)

(** [x] is a directory entry below [y]. *)
Definition below (E : env) (x y : positive) : Prop := real_parent_of E (Some x) = Some y.

Definition dir_dentry (E : env) (x : positive) : Prop :=
  is_null (inode_of E (Some x)) = false /\ is_dir E (inode_of E (Some x)) = true.

Definition no_write_hit (E : env) : positive -> bool := dir_hit E SEAL_NO_WRITE.

(** [p] is the nearest [no-write]-sealed directory at or above [x], [n] levels
    up, with no bound on [n]. *)
Inductive first_hit (E : env) : positive -> nat -> positive -> Prop :=
  | fh_here p : no_write_hit E p = true -> first_hit E p 0 p
  | fh_up x y n p : no_write_hit E x = false -> below E x y -> first_hit E y n p ->
      first_hit E x (S n) p.

(** [old] is [m] levels above [x] and no directory on the way, [old] included,
    is sealed. *)
Inductive clear_path (E : env) : positive -> nat -> positive -> Prop :=
  | cp_here x : no_write_hit E x = false -> clear_path E x 0 x
  | cp_up x y m z : no_write_hit E x = false -> below E x y -> clear_path E y m z ->
      clear_path E x (S m) z.

(** ** The invariant *)

(** Only directories have children. *)
Definition tree_wf (E : env) : Prop := forall x y, below E x y -> dir_dentry E y.

(** Every directory below a recursive [no-write] seal is within the walk bound. *)
Definition depth_bounded (E : env) : Prop :=
  forall x n p, dir_dentry E x -> first_hit E x n p -> (n < COMPARTMENT_MAX_DIR_ANCESTORS)%nat.

(** ** Steps of the tree *)

Definition set_dentries (f : gmap positive dentry -> gmap positive dentry) (K : kernel) : kernel :=
  Kernel (k_inodes K) (k_sbs K) (f (k_dentries K)) (k_files K) (k_mms K) (k_tasks K) (k_vmas K)
    (k_mounts K).

Definition childless (E : env) (x : positive) : Prop := forall z, ~ below E z x.

(** [under E np old]: [np] is [old] or lies below it. *)
Inductive under (E : env) : positive -> positive -> Prop :=
  | un_refl x : under E x x
  | un_up x y z : below E x y -> under E y z -> under E x z.

Inductive fs_step (E E' : env) : Prop :=
  (** An approved mkdir of the negative dentry [d]: it gets a new directory
      inode, whose key carries no seal (a sealed inode is held open, so its
      number is not reused). *)
  | fs_mkdir d p i s :
      verdict E (HInodeMkdir (Some d)) s = 0 ->
      k_dentries (e_kernel E) !! d = Some (Dentry NULL (Some p)) -> p <> d ->
      dir_dentry E p -> childless E d ->
      is_dir E (Some i) = true -> sealed_dirs (e_policy E) !! inode_key_of E (Some i) = None ->
      e_policy E' = e_policy E ->
      e_kernel E' = set_dentries <[d := Dentry (Some i) (Some p)]> (e_kernel E) ->
      fs_step E E'
  (** An approved rename: [old] takes the place of [new]; the kernel refuses to
      move a directory below itself. *)
  | fs_rename old new np di od s :
      verdict E (HInodeRename (Some old) (Some new)) s = 0 ->
      k_dentries (e_kernel E) !! old = Some od -> d_inode od = di ->
      below E new np -> dir_dentry E np -> ~ under E np old ->
      e_policy E' = e_policy E ->
      e_kernel E' = set_dentries <[old := Dentry di (Some np)]> (e_kernel E) ->
      fs_step E E'
  (** A new entry that is not a directory, or the removal of a childless entry. *)
  | fs_leaf d p di i :
      k_dentries (e_kernel E) !! d = Some (Dentry di (Some p)) -> childless E d ->
      (is_null i = true \/ is_dir E i = false) ->
      e_policy E' = e_policy E ->
      e_kernel E' = set_dentries <[d := Dentry i (Some p)]> (e_kernel E) ->
      fs_step E E'
  (** Anything that leaves the tree alone: scheduling, opens, forks, time. *)
  | fs_other :
      e_policy E' = e_policy E ->
      k_dentries (e_kernel E') = k_dentries (e_kernel E) ->
      k_inodes (e_kernel E') = k_inodes (e_kernel E) -> k_sbs (e_kernel E') = k_sbs (e_kernel E) ->
      fs_step E E'.

Definition fs_steps : env -> env -> Prop := rtc fs_step.

(** ** Reading the tree *)

Lemma real_parent_below E x y : below E x y <->
  read_ptr (k_dentries (e_kernel E)) d_parent (Some x) = Some y /\ y <> x.
Proof.
  unfold below, real_parent_of. cbn [is_null].
  destruct (read_ptr _ _ _) as [z|]; cbn [is_null orb]; [|naive_solver].
  unfold ptr_eqb. case_bool_decide as Hz; naive_solver.
Qed.

Lemma ancestor_chain_step E f x :
  ancestor_chain E (S f) (Some x) =
  x :: match real_parent_of E (Some x) with Some y => ancestor_chain E f (Some y) | None => [] end.
Proof.
  cbn [ancestor_chain]. unfold real_parent_of. cbn [is_null].
  destruct (read_ptr _ _ _) as [z|]; cbn [is_null orb]; [|done]. by destruct (ptr_eqb _ _).
Qed.

Lemma first_hit_index E f x n p :
  first_hit E x n p -> (n < f)%nat ->
  find_index (no_write_hit E) (ancestor_chain E f (Some x)) = Some (n, p).
Proof.
  intros H. revert f. induction H as [p Hp|x y n p Hx Hxy _ IH]; intros [|f] Hf; try lia;
    rewrite ancestor_chain_step; cbn [find_index].
  - by rewrite Hp.
  - rewrite Hx, Hxy, IH by lia. done.
Qed.

Lemma index_first_hit E f x n p :
  find_index (no_write_hit E) (ancestor_chain E f (Some x)) = Some (n, p) -> first_hit E x n p.
Proof.
  revert x n. induction f as [|f IH]; intros x n; [done|].
  rewrite ancestor_chain_step. cbn [find_index].
  destruct (no_write_hit E x) eqn:Hx; [intros [= <- <-]; by constructor|].
  destruct (real_parent_of E (Some x)) as [y|] eqn:Hy; [|done].
  destruct (find_index _ _) as [[m q]|] eqn:Hi; [|done]. intros [= <- <-].
  apply fh_up with y; auto.
Qed.

(** A bounded directory sees its nearest seal. *)
Lemma bounded_nearest E x n p :
  first_hit E x n p -> (n < COMPARTMENT_MAX_DIR_ANCESTORS)%nat ->
  exists k sv, dir_seal_at E p = Some (k, sv) /\ (sv_flags sv &? SEAL_NO_WRITE) = true
    /\ nearest_from E (Some x) = Some (DirSealHit (key_dev k) (key_ino k) n)
    /\ p ∈ ancestor_chain E COMPARTMENT_MAX_DIR_ANCESTORS (Some x).
Proof.
  intros H Hn. pose proof (first_hit_index E _ x n p H Hn) as Hi.
  pose proof (find_index_Some _ _ _ _ Hi) as (Hp & Hhit & _).
  unfold no_write_hit, dir_hit in Hhit. destruct (dir_seal_at E p) as [[k sv]|] eqn:Hs; [|done].
  exists k, sv. repeat split; [done| |by eapply list_elem_of_lookup_2].
  unfold nearest_from, nearest_hit. unfold no_write_hit in Hi. by rewrite Hi, Hs.
Qed.

Lemma nearest_first_hit E x h :
  nearest_from E (Some x) = Some h -> exists p, first_hit E x (hit_depth h) p.
Proof.
  unfold nearest_from, nearest_hit. destruct (find_index _ _) as [[n p]|] eqn:Hi; [|done].
  destruct (dir_seal_at E p) as [[k sv]|]; [|done]. intros [= <-]. exists p.
  by eapply index_first_hit.
Qed.

Lemma clear_path_hit E x m z y n p :
  clear_path E x m z -> below E z y -> first_hit E y n p -> first_hit E x (m + 1 + n) p.
Proof.
  induction 1 as [x Hx|x w m z Hx Hw _ IH]; intros Hzy Hp; cbn.
  - by apply fh_up with y.
  - apply fh_up with w; auto.
Qed.

(** ** Frame lemmas: what a change of one dentry leaves alone *)

Definition globals_agree (E E' : env) : Prop :=
  e_policy E' = e_policy E /\ k_inodes (e_kernel E') = k_inodes (e_kernel E)
  /\ k_sbs (e_kernel E') = k_sbs (e_kernel E).

Lemma agree_key E E' i : globals_agree E E' -> inode_key_of E' i = inode_key_of E i.
Proof. intros (_ & Hi & Hs). unfold inode_key_of. by rewrite Hi, Hs. Qed.

Lemma agree_is_dir E E' i : globals_agree E E' -> is_dir E' i = is_dir E i.
Proof. intros (_ & Hi & _). unfold is_dir. by rewrite Hi. Qed.

Section Frame.
Context (E E' : env) (Hg : globals_agree E E').

Section At.
Context (x : positive)
  (Hx : k_dentries (e_kernel E') !! x = k_dentries (e_kernel E) !! x).

Lemma frame_read {A} (f : dentry -> option A) :
  match Some x ≫= (fun a => k_dentries (e_kernel E') !! a) with Some y => f y | None => None end
  = match Some x ≫= (fun a => k_dentries (e_kernel E) !! a) with Some y => f y | None => None end.
Proof. cbn. by rewrite Hx. Qed.

Lemma frame_inode : inode_of E' (Some x) = inode_of E (Some x).
Proof. apply frame_read. Qed.

Lemma frame_below y : below E' x y <-> below E x y.
Proof. rewrite !real_parent_below. unfold read_ptr. by rewrite frame_read. Qed.

Lemma frame_hit : no_write_hit E' x = no_write_hit E x.
Proof.
  unfold no_write_hit, dir_hit, dir_seal_at. fold (inode_of E' (Some x)) (inode_of E (Some x)).
  rewrite frame_inode, (agree_key E E') by done. destruct Hg as (-> & _). done.
Qed.

Lemma frame_dir : dir_dentry E' x <-> dir_dentry E x.
Proof. unfold dir_dentry. by rewrite frame_inode, (agree_is_dir E E'). Qed.
End At.

(** A walk that never reads the changed dentry [d] is the same in both. *)
Lemma frame_first_hit d x n p :
  (forall y, y <> d -> k_dentries (e_kernel E') !! y = k_dentries (e_kernel E) !! y) ->
  childless E d -> x <> d -> first_hit E' x n p -> first_hit E x n p.
Proof.
  intros Hsame Hch Hxd H. revert Hxd. induction H as [p Hp|x y n p Hx Hxy _ IH]; intros Hxd.
  - constructor. by rewrite <- frame_hit by auto.
  - rewrite frame_hit in Hx by auto. rewrite frame_below in Hxy by auto.
    apply fh_up with y; auto. apply IH. intros ->. by apply (Hch x).
Qed.
End Frame.

(** The three ways a step can change one dentry. *)
Lemma agree_set_dentries E E' f :
  e_policy E' = e_policy E -> e_kernel E' = set_dentries f (e_kernel E) -> globals_agree E E'.
Proof. intros HP HK. split; [done|]. by rewrite HK. Qed.

Lemma lookup_set_dentries E E' d v y :
  e_kernel E' = set_dentries <[d := v]> (e_kernel E) -> y <> d ->
  k_dentries (e_kernel E') !! y = k_dentries (e_kernel E) !! y.
Proof. intros -> Hy. cbn. by rewrite lookup_insert_ne. Qed.

(** ** Preservation *)

Lemma mkdir_verdict_cap E d s :
  verdict E (HInodeMkdir (Some d)) s = 0 -> mkdir_cap_hit E (Some d) = None.
Proof.
  intros Hv. apply mkdir_iff in Hv. destruct (mkdir_cap_hit E (Some d)); [|done].
  destruct Hv. right. by eexists.
Qed.

Lemma rename_verdict_cap E o n s :
  verdict E (HInodeRename o n) s = 0 -> rename_cap_hit E o n = None.
Proof.
  intros Hv. apply rename_iff in Hv. destruct (rename_cap_hit E o n); [|done].
  destruct Hv. do 4 right. left. by eexists.
Qed.

Lemma step_mkdir E E' d p i s :
  tree_wf E -> depth_bounded E ->
  verdict E (HInodeMkdir (Some d)) s = 0 ->
  k_dentries (e_kernel E) !! d = Some (Dentry NULL (Some p)) -> p <> d ->
  dir_dentry E p -> childless E d ->
  is_dir E (Some i) = true -> sealed_dirs (e_policy E) !! inode_key_of E (Some i) = None ->
  e_policy E' = e_policy E ->
  e_kernel E' = set_dentries <[d := Dentry (Some i) (Some p)]> (e_kernel E) ->
  tree_wf E' /\ depth_bounded E'.
Proof.
  intros Hwf Hb Hv Hd Hpd Hp Hch Hi Hsl HP HK.
  pose proof (agree_set_dentries E E' _ HP HK) as Hg.
  pose proof (fun y => lookup_set_dentries E E' d _ y HK) as Hsame.
  assert (Hd' : k_dentries (e_kernel E') !! d = Some (Dentry (Some i) (Some p)))
    by (rewrite HK; apply lookup_insert_eq).
  assert (Hbelow : forall x y, below E' x y -> below E x y).
  { intros x y Hxy. destruct (decide (x = d)) as [->|Hx]; [|by rewrite <- (frame_below E E') by auto].
    apply real_parent_below in Hxy as [Hr Hne]. apply real_parent_below. split; [|done].
    unfold read_ptr in *. cbn in *. rewrite Hd' in Hr. by rewrite Hd. }
  assert (Hdp : below E d p) by (apply real_parent_below; unfold read_ptr; cbn; by rewrite Hd).
  split.
  - intros x y Hxy. pose proof (Hwf x y (Hbelow x y Hxy)) as Hy.
    assert (y <> d) by (intros ->; by apply (Hch x), Hbelow). by apply (frame_dir E E'); auto.
  - intros x n q Hx Hfh. destruct (decide (x = d)) as [->|Hxd].
    2:{ apply (Hb x n q); [by apply (frame_dir E E' Hg x (Hsame x Hxd))|].
        by apply (frame_first_hit E E' Hg d). }
    inversion Hfh as [? Hhit|? y m ? Hhit Hdy Hrest]; subst.
    { unfold COMPARTMENT_MAX_DIR_ANCESTORS. lia. }
    apply Hbelow in Hdy. assert (y = p) as -> by (unfold below in *; congruence).
    apply (frame_first_hit E E' Hg d) in Hrest; [|done..].
    pose proof (Hb p m q Hp Hrest) as Hm.
    destruct (bounded_nearest E p m q Hrest Hm) as (k & sv & _ & _ & Hn & _).
    apply mkdir_verdict_cap in Hv. unfold mkdir_cap_hit in Hv. rewrite Hdp, Hn in Hv. cbn [hit_depth] in Hv.
    destruct (Nat.leb_spec COMPARTMENT_MAX_DIR_ANCESTORS (m + 1)); [done|lia].
Qed.

(** A walk in the new tree either avoids the moved entry or passes through it. *)
Lemma rename_walk E E' old np x n p :
  globals_agree E E' ->
  (forall y, y <> old -> k_dentries (e_kernel E') !! y = k_dentries (e_kernel E) !! y) ->
  inode_of E' (Some old) = inode_of E (Some old) -> below E' old np ->
  first_hit E' x n p ->
  first_hit E x n p \/
  (exists m k, clear_path E x m old /\ first_hit E' np k p /\ n = (m + 1 + k)%nat).
Proof.
  intros Hg Hsame Hino Hnp H.
  assert (Hhit : forall y, no_write_hit E' y = no_write_hit E y).
  { intros y. destruct (decide (y = old)) as [->|Hy]; [|by apply frame_hit; auto].
    unfold no_write_hit, dir_hit, dir_seal_at. fold (inode_of E' (Some old)) (inode_of E (Some old)).
    rewrite Hino, (agree_key E E') by done. by destruct Hg as (-> & _). }
  induction H as [p Hp|x y n p Hx Hxy Hr IH].
  { left. constructor. by rewrite <- Hhit. }
  destruct (decide (x = old)) as [->|Hxo].
  - right. exists 0%nat, n. split; [constructor; by rewrite <- Hhit|].
    assert (y = np) as -> by (unfold below in *; congruence). split; [done|lia].
  - rewrite Hhit in Hx. rewrite (frame_below E E') in Hxy by auto.
    destruct IH as [IH|(m & k & Hcp & Hfh & ->)]; [left; by apply fh_up with y|].
    right. exists (S m), k. split; [by apply cp_up with y|]. split; [done|lia].
Qed.

(** From a directory outside the moved subtree nothing changes. *)
Lemma rename_outside E E' old x n p :
  globals_agree E E' ->
  (forall y, y <> old -> k_dentries (e_kernel E') !! y = k_dentries (e_kernel E) !! y) ->
  ~ under E x old -> first_hit E' x n p -> first_hit E x n p.
Proof.
  intros Hg Hsame Hu H. revert Hu. induction H as [p Hp|x y n p Hx Hxy _ IH]; intros Hu.
  - assert (p <> old) by (intros ->; apply Hu; constructor).
    constructor. by rewrite <- (frame_hit E E') by auto.
  - assert (x <> old) by (intros ->; apply Hu; constructor).
    rewrite (frame_hit E E') in Hx by auto. rewrite (frame_below E E') in Hxy by auto.
    apply fh_up with y; auto. apply IH. intros Hy. apply Hu. by apply un_up with y.
Qed.

Lemma clear_path_top E x m z : clear_path E x m z -> tree_wf E -> dir_dentry E x -> dir_dentry E z.
Proof. induction 1 as [|x y m z Hx Hxy _ IH]; intros Hwf Hd; [done|]. by apply IH, (Hwf x y). Qed.

Lemma step_rename E E' old new np od s :
  tree_wf E -> depth_bounded E ->
  verdict E (HInodeRename (Some old) (Some new)) s = 0 ->
  k_dentries (e_kernel E) !! old = Some od ->
  below E new np -> dir_dentry E np -> ~ under E np old ->
  e_policy E' = e_policy E ->
  e_kernel E' = set_dentries <[old := Dentry (d_inode od) (Some np)]> (e_kernel E) ->
  tree_wf E' /\ depth_bounded E'.
Proof.
  intros Hwf Hb Hv Hod Hnew Hnp Hun HP HK.
  pose proof (agree_set_dentries E E' _ HP HK) as Hg.
  pose proof (fun y => lookup_set_dentries E E' old _ y HK) as Hsame.
  assert (Hold' : k_dentries (e_kernel E') !! old = Some (Dentry (d_inode od) (Some np)))
    by (rewrite HK; apply lookup_insert_eq).
  assert (Hino : inode_of E' (Some old) = inode_of E (Some old))
    by (unfold inode_of, read_ptr; cbn; by rewrite Hold', Hod).
  assert (Hne : np <> old) by (intros ->; apply Hun; constructor).
  assert (Hbn : below E' old np) by (apply real_parent_below; unfold read_ptr; cbn; by rewrite Hold').
  assert (Hdir : forall y, dir_dentry E' y <-> dir_dentry E y).
  { intros y. destruct (decide (y = old)) as [->|Hy]; [|by apply frame_dir; auto].
    unfold dir_dentry. by rewrite Hino, (agree_is_dir E E'). }
  split.
  - intros x y Hxy. apply Hdir. destruct (decide (x = old)) as [->|Hx].
    + by assert (y = np) as -> by (unfold below in *; congruence).
    + apply (Hwf x). by rewrite <- (frame_below E E') by auto.
  - intros x n q Hx Hfh. apply Hdir in Hx.
    destruct (rename_walk E E' old np x n q Hg Hsame Hino Hbn Hfh)
      as [Hin|(m & k & Hcp & Hk & ->)]; [by apply (Hb x n q)|].
    apply (rename_outside E E' old) in Hk; [|done..].
    pose proof (Hb np k q Hnp Hk) as Hkb.
    destruct (bounded_nearest E np k q Hk Hkb) as (key & sv & _ & _ & Hn & _).
    pose proof (clear_path_top E x m old Hcp Hwf Hx) as [Hi1 Hi2].
    apply rename_verdict_cap in Hv. unfold rename_cap_hit in Hv.
    rewrite Hi1, Hi2, Hnew, Hn in Hv. cbn [is_null orb negb hit_depth] in Hv.
    destruct (Nat.leb_spec COMPARTMENT_MAX_DIR_ANCESTORS (k + 1)); [done|]. cbn [orb] in Hv.
    unfold dir_move_ok in Hv. destruct (real_parent_of E (Some old)) as [op|] eqn:Hop; [|done].
    destruct (nearest_from E (Some op)) as [oh|] eqn:Hoh; [|done].
    destruct (dir_seal_hit_same _ _); [|done]. cbn [andb negb hit_depth] in Hv.
    destruct (Nat.leb_spec k (hit_depth oh)); [|done].
    destruct (nearest_first_hit E op oh Hoh) as [q' Hq'].
    pose proof (Hb x _ q' Hx (clear_path_hit E x m old op _ q' Hcp Hop Hq')). lia.
Qed.

Lemma step_leaf E E' d p di i :
  tree_wf E -> depth_bounded E ->
  k_dentries (e_kernel E) !! d = Some (Dentry di (Some p)) -> childless E d ->
  (is_null i = true \/ is_dir E i = false) ->
  e_policy E' = e_policy E ->
  e_kernel E' = set_dentries <[d := Dentry i (Some p)]> (e_kernel E) ->
  tree_wf E' /\ depth_bounded E'.
Proof.
  intros Hwf Hb Hd Hch Hi HP HK.
  pose proof (agree_set_dentries E E' _ HP HK) as Hg.
  pose proof (fun y => lookup_set_dentries E E' d _ y HK) as Hsame.
  assert (Hd' : k_dentries (e_kernel E') !! d = Some (Dentry i (Some p)))
    by (rewrite HK; apply lookup_insert_eq).
  assert (Hbelow : forall x y, below E' x y -> below E x y).
  { intros x y. destruct (decide (x = d)) as [->|Hx]; [|by rewrite (frame_below E E') by auto].
    rewrite !real_parent_below. unfold read_ptr; cbn. by rewrite Hd, Hd'. }
  split.
  - intros x y Hxy. pose proof (Hwf x y (Hbelow x y Hxy)) as Hy.
    assert (y <> d) by (intros ->; by apply (Hch x), Hbelow). by apply (frame_dir E E'); auto.
  - intros x n q Hx Hfh. assert (Hxd : x <> d).
    { intros ->. destruct Hx as [H1 H2]. unfold inode_of, read_ptr in H1, H2; cbn in H1, H2.
      rewrite Hd' in H1, H2. cbn in H1, H2. rewrite (agree_is_dir E E' i Hg) in H2.
      destruct Hi; congruence. }
    apply (Hb x n q); [by apply (frame_dir E E' Hg x (Hsame x Hxd))|].
    by apply (frame_first_hit E E' Hg d).
Qed.

Lemma step_other E E' :
  tree_wf E -> depth_bounded E -> globals_agree E E' ->
  k_dentries (e_kernel E') = k_dentries (e_kernel E) -> tree_wf E' /\ depth_bounded E'.
Proof.
  intros Hwf Hb Hg Hd.
  assert (Hsame : forall y, k_dentries (e_kernel E') !! y = k_dentries (e_kernel E) !! y) by (by rewrite Hd).
  split.
  - intros x y Hxy. apply (frame_dir E E'); auto. apply (Hwf x). by apply (frame_below E E').
  - intros x n q Hx Hfh. apply (Hb x n q); [by apply (frame_dir E E')|].
    clear Hx. induction Hfh as [p Hp|x y n p Hx Hxy _ IH].
    + constructor. by rewrite <- (frame_hit E E').
    + rewrite (frame_hit E E') in Hx by auto. rewrite (frame_below E E') in Hxy by auto.
      by apply fh_up with y.
Qed.

Lemma fs_step_preserves E E' :
  fs_step E E' -> tree_wf E -> depth_bounded E -> tree_wf E' /\ depth_bounded E'.
Proof.
  intros H Hwf Hb. destruct H.
  - by eapply step_mkdir.
  - subst. by eapply step_rename.
  - by eapply step_leaf.
  - by apply (step_other E).
Qed.

Lemma fs_steps_preserve E E' :
  fs_steps E E' -> tree_wf E -> depth_bounded E -> tree_wf E' /\ depth_bounded E'.
Proof.
  induction 1 as [|E E1 E' Hs _ IH]; intros Hwf Hb; [done|].
  destruct (fs_step_preserves E E1 Hs Hwf Hb). by apply IH.
Qed.

(** ** The guarantee *)

(** C5: a recursive [no-write] seal keeps protecting its whole subtree, at any
    depth, however the tree was changed since the policy was attached.  Start
    from any tree in which directories below seals are within the walk bound
    (what the loader checks) and take any sequence of namespace operations the
    programs approved, whoever performed them.  Then for every entry below a
    [no-write]-sealed directory, at whatever distance, a caller that does not
    satisfy the nearest such seal is refused creating, linking, moving onto,
    moving away, truncating or writing it. *)
Theorem sealed_subtree_stays_sealed E0 E d dn x n p k sv other fp :
  fs_steps E0 E -> tree_wf E0 -> depth_bounded E0 ->
  real_parent_of E dn = Some x -> dir_dentry E x -> first_hit E x n p ->
  dir_seal_at E p = Some (k, sv) -> satisfies E (actor_marker_map d) sv = false ->
  read_ptr (k_files (e_kernel E)) f_path_dentry (Some fp) = dn ->
  Forall (fun h => verdict E h d = - EACCES)
    [HInodeCreate dn; HInodeMkdir dn; HInodeMknod dn; HInodeSymlink dn; HInodeLink other dn;
     HInodeRename other dn; HInodeRename dn other; HFileTruncate (Some fp);
     HFilePermission (Some fp) MAY_WRITE].
Proof.
  intros Hs Hwf Hb Hx Hdir Hfh Hp Hsat Hf.
  destruct (fs_steps_preserve E0 E Hs Hwf Hb) as [_ Hb'].
  destruct (bounded_nearest E x n p Hfh (Hb' x n p Hdir Hfh)) as (k' & sv' & Hp' & Hw & _ & Hin).
  rewrite Hp in Hp'. injection Hp' as <- <-.
  apply (unsatisfied_seal_locks E d p k sv); [done..| |done]. by rewrite Hx.
Qed.

(** ** Deciding the invariant on a concrete tree *)

Definition dentry_ids (E : env) : list positive := (map_to_list (k_dentries (e_kernel E))).*1.

Definition tree_wf_check (E : env) : bool :=
  forallb (fun x => match real_parent_of E (Some x) with
                    | Some y => negb (is_null (inode_of E (Some y))) && is_dir E (inode_of E (Some y))
                    | None => true end) (dentry_ids E).

(** Every walk reaches the root or a seal within the bound. *)
Definition bounded_check (E : env) : bool :=
  forallb (fun x =>
    let chain := ancestor_chain E COMPARTMENT_MAX_DIR_ANCESTORS (Some x) in
    is_null (inode_of E (Some x))
    || (length chain <? COMPARTMENT_MAX_DIR_ANCESTORS)%nat
    || match find_index (no_write_hit E) chain with Some _ => true | None => false end) (dentry_ids E).

Definition childless_check (E : env) (x : positive) : bool :=
  forallb (fun z => negb (bool_decide (real_parent_of E (Some z) = Some x))) (dentry_ids E).

Lemma in_dentry_ids E x : is_Some (k_dentries (e_kernel E) !! x) -> In x (dentry_ids E).
Proof.
  intros [v Hv]. apply list_elem_of_In, list_elem_of_fmap. exists (x, v).
  split; [done|]. by apply elem_of_map_to_list.
Qed.

Lemma below_in_ids E x y : below E x y -> In x (dentry_ids E).
Proof.
  rewrite real_parent_below. intros [Hr _]. apply in_dentry_ids. unfold read_ptr in Hr. cbn in Hr.
  destruct (k_dentries _ !! x); [eauto|done].
Qed.

Lemma tree_wf_check_sound E : tree_wf_check E = true -> tree_wf E.
Proof.
  unfold tree_wf_check. rewrite forallb_forall. intros H x y Hxy.
  specialize (H x (below_in_ids E x y Hxy)). rewrite Hxy in H.
  apply andb_true_iff in H as [H1 H2]. by apply negb_true_iff in H1.
Qed.

Lemma childless_check_sound E x : childless_check E x = true -> childless E x.
Proof.
  unfold childless_check. rewrite forallb_forall. intros H z Hz.
  specialize (H z (below_in_ids E z x Hz)). by rewrite bool_decide_eq_true_2 in H.
Qed.

Lemma ancestor_chain_length E f x : (length (ancestor_chain E f x) <= f)%nat.
Proof.
  revert x. induction f as [|f IH]; intros [x|]; try (cbn; lia).
  rewrite ancestor_chain_step. cbn [length]. destruct (real_parent_of E (Some x)) as [y|]; [specialize (IH (Some y))|]; cbn [length]; lia.
Qed.

Lemma first_hit_length E f x n p :
  first_hit E x n p -> (length (ancestor_chain E f (Some x)) < f)%nat ->
  (n < length (ancestor_chain E f (Some x)))%nat.
Proof.
  intros H. revert f. induction H as [p Hp|x y n p Hx Hxy _ IH]; intros [|f];
    rewrite ?ancestor_chain_step; cbn [length]; try lia.
  rewrite Hxy. intros Hl. specialize (IH f). lia.
Qed.

Lemma first_hit_det E x n p m q : first_hit E x n p -> first_hit E x m q -> n = m /\ p = q.
Proof.
  intros H. revert m. induction H as [p Hp|x y n p Hx Hxy _ IH]; intros m H'.
  - inversion H'; subst; [done|congruence].
  - inversion H' as [|? y' ? ? ? Hy' Hr]; subst; [congruence|].
    unfold below in Hxy, Hy'. rewrite Hxy in Hy'. injection Hy' as <-. by destruct (IH _ Hr) as [-> ->].
Qed.

Lemma bounded_check_sound E : bounded_check E = true -> depth_bounded E.
Proof.
  unfold bounded_check. rewrite forallb_forall. intros H x n p [Hd _] Hfh.
  assert (Hx : In x (dentry_ids E)).
  { apply in_dentry_ids. unfold inode_of, read_ptr in Hd. cbn in Hd.
    destruct (k_dentries _ !! x); [eauto|done]. }
  apply H in Hx. rewrite Hd, !orb_true_iff in Hx. destruct Hx as [[?|Hx]|Hx]; [done|..].
  - apply Nat.ltb_lt in Hx. pose proof (first_hit_length E _ x n p Hfh Hx). lia.
  - destruct (find_index _ _) as [[m q]|] eqn:Hi; [|done].
    pose proof (index_first_hit E _ x m q Hi) as Hm.
    destruct (first_hit_det E x n p m q Hfh Hm) as [-> ->].
    apply find_index_Some in Hi as (Hl & _). apply lookup_lt_Some in Hl.
    eapply Nat.lt_le_trans; [exact Hl|]. apply ancestor_chain_length.
Qed.

(** The editor of [Demo] makes a directory below its own sealed tree; another
    caller is then refused below the new directory's parent. *)
Definition demo_after_mkdir : env :=
  let E := demo_env demo_actor (Some 2%positive) in
  Env (set_dentries <[13%positive := Dentry (Some 300%positive) (Some 12%positive)]> (e_kernel E))
    (e_policy E) (e_current E) 0 0 0 demo_name (e_reserve E) true.

Lemma demo_mkdir_step : fs_steps (demo_env demo_actor (Some 1%positive)) demo_after_mkdir.
Proof.
  eapply rtc_once, (fs_mkdir _ _ 13 12 300 demo_dyn); try (vm_compute; reflexivity); try done.
  by apply childless_check_sound; vm_compute.
Qed.

Lemma sealed_subtree_stays_sealed_witness :
  verdict demo_after_mkdir (HFileTruncate (Some 1%positive)) demo_dyn = - EACCES.
Proof.
  pose proof (sealed_subtree_stays_sealed (demo_env demo_actor (Some 1%positive)) demo_after_mkdir
    demo_dyn (Some 11%positive) 10 0 10 (InodeKey 8 100) demo_actor NULL 1
    demo_mkdir_step (tree_wf_check_sound (demo_env demo_actor (Some 1%positive)) ltac:(vm_compute; reflexivity))
    (bounded_check_sound (demo_env demo_actor (Some 1%positive)) ltac:(vm_compute; reflexivity)) ltac:(vm_compute; reflexivity)
    ltac:(split; vm_compute; reflexivity) ltac:(constructor; vm_compute; reflexivity)
    ltac:(vm_compute; reflexivity) ltac:(vm_compute; reflexivity) ltac:(vm_compute; reflexivity)) as H.
  rewrite Forall_forall in H. apply H. do 7 right. left.
Defined.

(** ** Nested seals

    The depth cap is relative to the nearest seal.  With one [no-write] seal
    inside another, an approved mkdir can therefore take a directory out of
    reach of the outer seal. *)

Module Nested.
(** [/a] (inode 20) sealed for actor X = 200; [/a/1/2/3/4] (inode 24) sealed
    for X and Y = 201; directories down to level 7 below [/a] (inode 27), a
    negative entry 28 in it, and entry 29 below 28. *)
Definition outer : seal_value :=
  SealValue SEAL_NO_WRITE 1 (ActorId 8 200 :: replicate 3 (ActorId 0 0)) demo_name 0 0.
Definition inner : seal_value :=
  SealValue SEAL_NO_WRITE 2 (ActorId 8 200 :: ActorId 8 201 :: replicate 2 (ActorId 0 0)) demo_name 0 0.

Definition dir_ids : list positive := [20; 21; 22; 23; 24; 25; 26; 27; 28]%positive.

Definition kernel0 (d28 : ptr) : kernel := {|
  k_inodes := list_to_map ((fun x => (x, Inode (Z.pos x) (Some 1%positive) demo_dir_mode 2)) <$> dir_ids)
              ∪ k_inodes demo_kernel;
  k_sbs := k_sbs demo_kernel;
  k_dentries := <[29%positive := Dentry NULL (Some 28%positive)]>
                (<[28%positive := Dentry d28 (Some 27%positive)]>
                (<[20%positive := Dentry (Some 20%positive) (Some 1%positive)]>
                (list_to_map ((fun x => (x, Dentry (Some x) (Some (Pos.pred x)))) <$> dir_ids))));
  k_files := k_files demo_kernel; k_mms := k_mms demo_kernel; k_tasks := k_tasks demo_kernel;
  k_vmas := k_vmas demo_kernel; k_mounts := k_mounts demo_kernel |}.

Definition env0 (d28 cur : ptr) : env :=
  let E := demo_env outer cur in
  let P := e_policy E in
  Env (kernel0 d28)
    (Policy ∅ {[ InodeKey 8 20 := outer; InodeKey 8 24 := inner ]} (sealed_devs P) ∅ None ∅ ∅ ∅ None)
    cur 0 0 0 demo_name (e_reserve E) true.

(** The depth cap does not protect an outer seal.  Two nested [no-write]
    seals, the outer one for actor X alone, the inner one for X and Y, over a
    tree within the bound: X's mkdir at level 8 below the outer seal is
    approved, and in the new directory Y, which the outer seal refuses
    everywhere one level up, creates entries freely. *)
Theorem nested_seal_escape :
  let X := Some 1%positive in let Y := Some 3%positive in
  depth_bounded (env0 NULL X)
  /\ verdict (env0 NULL X) (HInodeMkdir (Some 28%positive)) demo_dyn = 0
  /\ first_hit (env0 (Some 28%positive) Y) 28 4 24
  /\ satisfies (env0 (Some 28%positive) Y) ∅ outer = false
  /\ verdict (env0 (Some 28%positive) Y) (HInodeCreate (Some 28%positive)) demo_dyn = - EACCES
  /\ verdict (env0 (Some 28%positive) Y) (HInodeCreate (Some 29%positive)) demo_dyn = 0.
Proof.
  split; [|split; [vm_compute; reflexivity|split; [|split; [vm_compute; reflexivity|split; vm_compute; reflexivity]]]].
  - apply bounded_check_sound. vm_compute. reflexivity.
  - repeat (eapply fh_up; [vm_compute; reflexivity|vm_compute; reflexivity|]).
    constructor. vm_compute. reflexivity.
Qed.
End Nested.
