(* ===== verification/StrictLaunch.v ===== *)
(** * Strict launch: a marker proves a clean launch lineage

    The marker programs of [src/compartment-bpf/compartment.bpf.c]
    ([comp_bprm_committed_creds], [comp_task_alloc]) keep one marker per task.
    The host is a state machine whose steps are committed execs, forks, exits
    and calls of the other hooks, each running the program's code; the trace of
    events is ghost state.  Reachable markers are exactly justified by the
    trace: some ancestor committed an exec of a declared launcher, and since
    then the line of tasks leading here committed execs of the launcher's
    target only. *)

From S2P Require Import Prelude Abi Kernel Demo SealCore Hooks SealSpec SealRefine HookSpec HookRefine HookProps.

(** ** Events and lineage *)

Inductive sysev :=
  | EvExec (t : positive) (image : option inode_key)
  | EvFork (parent child : positive)
  | EvExit (t : positive)
  | EvHook.

(** The identity of the committed image, if it can be resolved. *)
Definition exec_key (E : env) (bprm_file : ptr) : option inode_key :=
  let i := if is_null bprm_file then NULL else read_ptr (k_files (e_kernel E)) f_inode bprm_file in
  if is_null i then None else Some (inode_key_of E i).

Section Lineage.
Context (P : policy).

Definition generation : Z :=
  match policy_state_map P with Some ps => ps_generation ps | None => 0 end.

Definition launcher_marker (la : launcher_actor) : actor_marker :=
  ActorMarker (la_target la) (la_actor_slot la) generation 1 0.

(** [clean_launch tr t m]: by the trace (latest event first), task [t] descends
    from a committed launcher exec that set [m], through execs of [m]'s target
    and forks only. *)
Fixpoint clean_launch (tr : list sysev) (t : positive) (m : actor_marker) : Prop :=
  match tr with
  | [] => False
  | EvExec t' image :: tr' =>
      if decide (t' = t) then
        exists k, image = Some k /\
          ((exists la, launcher_to_actor P !! k = Some la /\ m = launcher_marker la)
           \/ (launcher_to_actor P !! k = None /\ k = am_target m /\ clean_launch tr' t m))
      else clean_launch tr' t m
  | EvFork p c :: tr' => clean_launch tr' (if decide (c = t) then p else t) m
  | EvExit t' :: tr' => t' <> t /\ clean_launch tr' t m
  | EvHook :: tr' => clean_launch tr' t m
  end.
End Lineage.

(** ** Steps of the host *)

Inductive sys_step (P : policy) : list sysev * dyn -> list sysev * dyn -> Prop :=
  | ss_exec E t f tr d :
      e_policy E = P -> e_current E = Some t ->
      sys_step P (tr, d)
        (EvExec t (exec_key E f) :: tr, snd (run_hook (comp_bprm_committed_creds E f) d))
  (** A new task has no storage yet. *)
  | ss_fork E p c tr d :
      e_policy E = P -> e_current E = Some p -> p <> c -> actor_marker_map d !! c = None ->
      sys_step P (tr, d) (EvFork p c :: tr, snd (run_hook (comp_task_alloc E c 0) d))
  | ss_exit t tr d : sys_step P (tr, d) (EvExit t :: tr, marker_del t d)
  | ss_hook E h ret tr d :
      e_policy E = P ->
      sys_step P (tr, d) (EvHook :: tr, snd (run_hook (hook_code E h ret) d)).

(** ** Effect of each step on the markers *)

Lemma clean_launch_shape P tr t m :
  clean_launch P tr t m -> exists la, m = launcher_marker P la.
Proof.
  revert t. induction tr as [|[t' image|p c|t'|] tr IH]; intros t; cbn; [done|..].
  - destruct (decide (t' = t)); [|eauto]. intros (k & _ & [(la & _ & ->)|(_ & _ & H)]); eauto.
  - eauto.
  - intros [_ H]. eauto.
  - eauto.
Qed.

Lemma hook_markers E h ret d :
  actor_marker_map (snd (run_hook (hook_code E h ret) d)) = actor_marker_map d.
Proof.
  destruct (Z.eq_dec ret 0) as [->|Hr].
  - rewrite (run_hook_implements E _ (hook_outcome E (actor_marker_map d) h)) by apply hook_implements.
    apply apply_outcome_markers.
  - by rewrite hook_code_deferred.
Qed.

(** Committed exec, as a function on the marker map. *)
Definition exec_markers (E : env) (t : positive) (image : option inode_key)
  (mk : gmap positive actor_marker) : gmap positive actor_marker :=
  match image with
  | None => delete t mk
  | Some k =>
      match launcher_to_actor (e_policy E) !! k with
      | Some la => if negb (bool_decide (mk !! t = None)) || e_storage_alloc E
                   then <[t := launcher_marker (e_policy E) la]> mk else mk
      | None =>
          match mk !! t with
          | Some m => if (am_state m =? 0) || bool_decide (am_target m = k) then mk else delete t mk
          | None => mk
          end
      end
  end.

Lemma key_eqb k k' :
  (key_dev k =? key_dev k') && (key_ino k =? key_ino k') = bool_decide (k = k').
Proof.
  destruct k as [a b], k' as [a' b']; cbn.
  destruct (Z.eqb_spec a a') as [->|], (Z.eqb_spec b b') as [->|]; cbn;
    [by rewrite bool_decide_eq_true_2|by rewrite bool_decide_eq_false_2 by congruence..].
Qed.

Lemma exec_hook_markers E t f d :
  e_current E = Some t ->
  actor_marker_map (snd (run_hook (comp_bprm_committed_creds E f) d)) =
  if cur_strict_loaded E =? 0 then actor_marker_map d
  else exec_markers E t (exec_key E f) (actor_marker_map d).
Proof.
  intros Ht. unfold run_hook, comp_bprm_committed_creds, exec_key.
  destruct (cur_strict_loaded E =? 0); [done|]. rewrite Ht.
  generalize (if is_null f then NULL else read_ptr (k_files (e_kernel E)) f_inode f) as i; intros i.
  destruct i as [i|]; cbn [is_null]; [|done]. unfold exec_markers.
  change (InodeKey _ (read_val (k_inodes (e_kernel E)) i_ino (Some i))) with (inode_key_of E (Some i)).
  destruct (launcher_to_actor _ !! _) as [la|].
  - unfold mbind, M_bind, task_storage_get, gets; cbn.
    destruct (negb _ || _); done.
  - unfold mbind, M_bind, task_storage_get, gets; cbn.
    destruct (actor_marker_map d !! t) as [m|]; cbn; [|done].
    rewrite key_eqb. destruct (am_state m =? 0); cbn; [done|]. by destruct (bool_decide _).
Qed.

Lemma fork_hook_markers E p c d :
  e_current E = Some p -> actor_marker_map d !! c = None ->
  actor_marker_map (snd (run_hook (comp_task_alloc E c 0) d)) =
  match actor_marker_map d !! p with
  | Some m => if (cur_strict_loaded E =? 0) || (am_state m =? 0) || negb (e_storage_alloc E)
              then actor_marker_map d
              else <[c := ActorMarker (am_target m) (am_actor_slot m) (am_policy_generation m)
                            (am_state m) 0]> (actor_marker_map d)
  | None => actor_marker_map d
  end.
Proof.
  intros Hp Hc. unfold run_hook, comp_task_alloc, after. cbn [Z.eqb].
  destruct (cur_strict_loaded E =? 0); cbn [orb]; [by destruct (_ !! p)|].
  rewrite Hp. unfold mbind, M_bind, task_storage_get, gets; cbn.
  destruct (actor_marker_map d !! p) as [m|]; cbn; [|done].
  destruct (am_state m =? 0); cbn; [done|]. rewrite Hc. cbn.
  by destruct (e_storage_alloc E).
Qed.

(** ** The lineage invariant *)

Definition lineage_inv (P : policy) (st : list sysev * dyn) : Prop :=
  forall t m, actor_marker_map (snd st) !! t = Some m -> clean_launch P (fst st) t m.

Definition strict_loaded (P : policy) : Z :=
  match policy_state_map P with Some ps => ps_strict_loaded ps | None => 0 end.

(** Without strict-launch seals no marker ever exists. *)
Definition unmarked_inv (P : policy) (st : list sysev * dyn) : Prop :=
  strict_loaded P = 0 -> actor_marker_map (snd st) = ∅.

Lemma exec_preserves P E tr t image (mk : gmap positive actor_marker) :
  e_policy E = P ->
  (forall t m, mk !! t = Some m -> clean_launch P tr t m) ->
  forall t' m, exec_markers E t image mk !! t' = Some m -> clean_launch P (EvExec t image :: tr) t' m.
Proof.
  intros <- IH t' m. cbn. unfold exec_markers. destruct (decide (t = t')) as [<-|Hne].
  - destruct image as [k|]; [|by rewrite lookup_delete_eq].
    intros H. exists k. split; [done|].
    destruct (launcher_to_actor _ !! k) as [la|] eqn:Hla.
    + left. exists la. split; [done|].
      destruct (negb _ || _) eqn:Hs; [by rewrite lookup_insert_eq in H; simplify_eq|].
      rewrite H in Hs. by rewrite bool_decide_eq_false_2 in Hs.
    + right. split; [done|]. destruct (mk !! t) as [m0|] eqn:Hm0; [|congruence].
      assert (Hs : am_state m0 = 1)
        by (by destruct (clean_launch_shape _ _ _ _ (IH t m0 Hm0)) as [la ->]).
      rewrite Hs in H. cbn [Z.eqb orb] in H. destruct (decide (am_target m0 = k)) as [Hk|Hk].
      * rewrite bool_decide_eq_true_2 in H by done. rewrite Hm0 in H. simplify_eq. auto.
      * rewrite bool_decide_eq_false_2 in H by done. by rewrite lookup_delete_eq in H.
  - intros H. apply IH. revert H. destruct image as [k|]; [|by rewrite lookup_delete_ne].
    destruct (launcher_to_actor _ !! k) as [la|];
      [destruct (negb _ || _); [by rewrite lookup_insert_ne|done]|].
    destruct (mk !! t); [|done]. destruct (_ || _); [done|]. by rewrite lookup_delete_ne.
Qed.

Lemma fork_preserves P tr p c (mk : gmap positive actor_marker) :
  p <> c -> mk !! c = None ->
  (forall t m, mk !! t = Some m -> clean_launch P tr t m) ->
  forall t m, mk !! t = Some m -> clean_launch P (EvFork p c :: tr) t m.
Proof.
  intros Hpc Hc IH t m Hm. cbn. destruct (decide (c = t)) as [->|]; [congruence|auto].
Qed.

Lemma sys_step_preserves P st st' :
  sys_step P st st' -> lineage_inv P st -> unmarked_inv P st ->
  lineage_inv P st' /\ unmarked_inv P st'.
Proof.
  intros Hstep Hl Hu. unfold lineage_inv, unmarked_inv in *.
  destruct Hstep as [E t f tr d HP Ht|E p c tr d HP Hp Hpc Hc|t tr d|E h ret tr d HP];
    cbn [fst snd] in *.
  - rewrite (exec_hook_markers E t) by done.
    assert (HsE : cur_strict_loaded E = strict_loaded P) by (by rewrite <- HP). rewrite HsE.
    destruct (Z.eqb_spec (strict_loaded P) 0) as [H0|H0].
    + rewrite (Hu H0). split; [|done]. intros t' m. by rewrite lookup_empty.
    + split; [|done]. by apply exec_preserves.
  - rewrite (fork_hook_markers E p) by done.
    assert (HsE : cur_strict_loaded E = strict_loaded P) by (by rewrite <- HP). rewrite HsE.
    destruct (actor_marker_map d !! p) as [pm|] eqn:Hpm; [|split; [by apply fork_preserves|done]].
    destruct (Z.eqb_spec (strict_loaded P) 0) as [H0|H0]; cbn [orb].
    { split; [by apply fork_preserves|done]. }
    pose proof (Hl p pm Hpm) as Hcl. destruct (clean_launch_shape _ _ _ _ Hcl) as [la Hla].
    destruct ((am_state pm =? 0) || negb (e_storage_alloc E)); (split; [|done]).
    { by apply fork_preserves. }
    intros t m. destruct (decide (c = t)) as [<-|Hct].
    + rewrite lookup_insert_eq. intros [= <-]. cbn. rewrite decide_True by done. by subst pm.
    + rewrite lookup_insert_ne by done. by apply fork_preserves.
  - split.
    + intros t' m. cbn. destruct (decide (t = t')) as [<-|Hne]; [by rewrite lookup_delete_eq|].
      rewrite lookup_delete_ne by done. auto.
    + intros H0. cbn. by rewrite (Hu H0), delete_empty.
  - rewrite hook_markers. split; [|done]. intros t m Hm. cbn. auto.
Qed.

Lemma sys_steps_preserve P st st' :
  rtc (sys_step P) st st' -> lineage_inv P st -> unmarked_inv P st -> lineage_inv P st'.
Proof.
  induction 1 as [|st st1 st' Hs _ IH]; intros Hl Hu; [done|].
  destruct (sys_step_preserves P st st1 Hs Hl Hu). auto.
Qed.

(** A host on which nothing ran since the policy was attached. *)
Lemma lineage_reachable P d0 tr d :
  actor_marker_map d0 = ∅ -> rtc (sys_step P) ([], d0) (tr, d) -> lineage_inv P (tr, d).
Proof.
  intros H0 Hr. eapply sys_steps_preserve; [exact Hr|..].
  - intros t m. cbn. by rewrite H0, lookup_empty.
  - by intros _.
Qed.

(** A clean lineage contains the launcher exec that created the marker. *)
Lemma clean_launch_exec P tr t m :
  clean_launch P tr t m ->
  exists t0 k la, EvExec t0 (Some k) ∈ tr /\ launcher_to_actor P !! k = Some la
    /\ m = launcher_marker P la.
Proof.
  revert t. induction tr as [|[t' image|p c|t'|] tr IH]; intros t; cbn; [done|..].
  - destruct (decide (t' = t)) as [->|].
    + intros (k & -> & [(la & Hk & ->)|(_ & _ & H)]).
      * exists t, k, la. split; [left|done].
      * destruct (IH _ H) as (t0 & k0 & la & ? & ?). exists t0, k0, la. split; [by right|done].
    + intros H. destruct (IH _ H) as (t0 & k0 & la & ? & ?). exists t0, k0, la. split; [by right|done].
  - intros H. destruct (IH _ H) as (t0 & k0 & la & ? & ?). exists t0, k0, la. split; [by right|done].
  - intros [_ H]. destruct (IH _ H) as (t0 & k0 & la & ? & ?). exists t0, k0, la. split; [by right|done].
  - intros H. destruct (IH _ H) as (t0 & k0 & la & ? & ?). exists t0, k0, la. split; [by right|done].
Qed.

(** C4: a write through a strict-launch seal proves a clean launch.  On every
    state a host can reach from the attachment of the policy by committed execs,
    forks, exits and hook calls, in any order and by anyone: if task [t] is
    allowed to write a file covered by a strict-launch [no-write] seal, then [t]
    carries a marker that an exec of a declared launcher created, whose target is
    the executable [t] is running, whose slot and generation are the seal's, and
    every exec that [t] and its ancestors committed since that launcher exec was
    an exec of the target itself. *)
Theorem strict_write_requires_launch P d0 tr d E t f c :
  actor_marker_map d0 = ∅ -> rtc (sys_step P) ([], d0) (tr, d) ->
  e_policy E = P -> e_current E = Some t ->
  c ∈ write_checks E f -> (sv_flags (ck_seal c) &? ck_mask c) = true ->
  (sv_flags (ck_seal c) &? SEAL_STRICT_LAUNCH) = true ->
  verdict E (HFilePermission f MAY_WRITE) d = 0 ->
  exists m,
    actor_marker_map d !! t = Some m /\ clean_launch P tr t m
    /\ am_target m = InodeKey (cid_dev (caller_id_of_current E)) (cid_ino (caller_id_of_current E))
    /\ am_actor_slot m = sv_strict_actor_slot (ck_seal c)
    /\ am_policy_generation m = sv_strict_generation (ck_seal c)
    /\ exists t0 k la, EvExec t0 (Some k) ∈ tr /\ launcher_to_actor P !! k = Some la
         /\ m = launcher_marker P la.
Proof.
  intros H0 Hr HP Ht Hc Hm Hs Hv.
  pose proof (lineage_reachable P d0 tr d H0 Hr) as Hinv.
  assert (Hd : denies_iff E d (refused E d (write_checks E f)) (HFilePermission f MAY_WRITE))
    by by apply denies_iff_checks.
  apply Hd in Hv. destruct (satisfies E (actor_marker_map d) (ck_seal c)) eqn:Hsat.
  2:{ destruct Hv. exists c. split; [done|]. unfold check_denies. by rewrite Hm, Hsat. }
  unfold satisfies in Hsat. rewrite Hs in Hsat. apply andb_true_iff in Hsat as [_ Hst].
  cbn [negb orb] in Hst. unfold strict_ok, current_marker in Hst. rewrite Ht in Hst. cbn in Hst.
  destruct (actor_marker_map d !! t) as [m|] eqn:Hmk; [|done].
  unfold marker_identity_ok, marker_generation_ok in Hst. rewrite !andb_true_iff in Hst.
  destruct Hst as [[[_ Htg] Hslot] [_ Hgen]]. apply bool_decide_eq_true in Htg.
  apply Z.eqb_eq in Hslot, Hgen. pose proof (Hinv t m Hmk) as Hcl. cbn in Hcl.
  exists m. repeat split; auto. by apply clean_launch_exec with t.
Qed.

(** The launcher runs, becomes the editor, and writes. *)
Definition demo_exec_env (cur : ptr) : env := demo_env demo_strict cur.

Lemma demo_launch_run :
  rtc (sys_step (demo_policy demo_strict)) ([], demo_dyn)
    ([EvExec 1 (exec_key (demo_exec_env (Some 1%positive)) (Some 2%positive));
      EvExec 1 (exec_key (demo_exec_env (Some 1%positive)) (Some 3%positive))],
     snd (run_hook (comp_bprm_committed_creds (demo_exec_env (Some 1%positive)) (Some 2%positive))
       (snd (run_hook (comp_bprm_committed_creds (demo_exec_env (Some 1%positive)) (Some 3%positive))
          demo_dyn)))).
Proof.
  eapply rtc_l; [by apply (ss_exec _ (demo_exec_env (Some 1%positive)) 1 (Some 3%positive))|].
  eapply rtc_l; [by apply (ss_exec _ (demo_exec_env (Some 1%positive)) 1 (Some 2%positive))|].
  apply rtc_refl.
Qed.

Lemma strict_write_requires_launch_witness :
  exists m, am_target m = InodeKey 8 200 /\ am_actor_slot m = 1.
Proof.
  destruct (strict_write_requires_launch (demo_policy demo_strict) demo_dyn _ _
    (demo_exec_env (Some 1%positive)) 1 (Some 1%positive)
    (Check demo_strict SEAL_NO_WRITE ACTION_DENY_WRITE_PARENT_DIR (InodeKey 8 100))
    eq_refl demo_launch_run eq_refl eq_refl ltac:(left) eq_refl eq_refl ltac:(vm_compute; reflexivity))
    as (m & _ & _ & Ht & Hs & _).
  exists m. split; [exact Ht|exact Hs].
Defined.

(** A marker is lost at the first foreign exec.  Whatever the state, when a
    task commits an exec of an image that is neither a declared launcher nor its
    marker's target, or that cannot be resolved, it carries no marker
    afterwards; and an exec of the target keeps the marker unchanged. *)
Theorem foreign_exec_clears E t f d m :
  e_current E = Some t -> cur_strict_loaded E <> 0 ->
  actor_marker_map d !! t = Some m -> am_state m <> 0 ->
  let mk' := actor_marker_map (snd (run_hook (comp_bprm_committed_creds E f) d)) in
  match exec_key E f with
  | None => mk' !! t = None
  | Some k =>
      match launcher_to_actor (e_policy E) !! k with
      | Some la => mk' !! t = Some (launcher_marker (e_policy E) la)
      | None => if decide (am_target m = k) then mk' !! t = Some m else mk' !! t = None
      end
  end.
Proof.
  intros Ht Hs Hm Hst. cbn zeta. rewrite (exec_hook_markers E t) by done.
  apply Z.eqb_neq in Hs, Hst. rewrite Hs. unfold exec_markers.
  destruct (exec_key E f) as [k|]; [|by rewrite lookup_delete_eq].
  destruct (launcher_to_actor _ !! k) as [la|].
  - rewrite Hm. rewrite bool_decide_eq_false_2 by done. cbn. by rewrite lookup_insert_eq.
  - rewrite Hm, Hst. cbn [orb]. destruct (decide (am_target m = k)) as [Hk|Hk].
    + by rewrite bool_decide_eq_true_2.
    + rewrite bool_decide_eq_false_2 by done. by rewrite lookup_delete_eq.
Qed.

Lemma foreign_exec_clears_witness :
  actor_marker_map (snd (run_hook (comp_bprm_committed_creds (demo_exec_env (Some 1%positive))
    (Some 4%positive)) demo_dyn_marked)) !! 1%positive = None.
Proof.
  exact (foreign_exec_clears (demo_exec_env (Some 1%positive)) 1 (Some 4%positive) demo_dyn_marked
    (ActorMarker (InodeKey 8 200) 1 7 1 0) eq_refl ltac:(done) eq_refl ltac:(done)).
Defined.
