(* ===== verification/CLib.v ===== *)
(** * The C library routines the tools rely on

    C strings are lists of characters without the terminating NUL.  The
    functions below are the parts of [<string.h>], [<stdlib.h>] and
    [<stdio.h>] that [src/compartment.h] and the tools call, in the "C" locale
    with a 64-bit [long]: [strcmp] and friends, [strtol]/[strtoul] with their
    saturation, [strtok], [fgets] with the end-of-file indicator and the two
    [sscanf] formats the profile parser uses. *)

From S2P Require Import Prelude.
From Stdlib Require Import Ascii.
From stdpp Require Import pretty.

#[local] Open Scope Z_scope.

Abbreviation cstring := (list ascii).

Definition lit (s : string) : cstring := String.list_ascii_of_string s.
Arguments lit : simpl never.

(** ** Characters *)

Definition chr (n : nat) : ascii := ascii_of_nat n.
Definition NUL : ascii := Ascii.zero.
Definition TAB : ascii := chr 9.
Definition LF : ascii := chr 10.
Definition CR : ascii := chr 13.
Definition SP : ascii := chr 32.

Definition cval (c : ascii) : Z := Z.of_nat (nat_of_ascii c).

(** [isspace] in the "C" locale. *)
Definition isspace (c : ascii) : bool :=
  (cval c =? 32) || ((9 <=? cval c) && (cval c <=? 13)).

Definition is_blank (c : ascii) : bool := Ascii.eqb c SP || Ascii.eqb c TAB.

Definition tolower (c : ascii) : ascii :=
  if (65 <=? cval c) && (cval c <=? 90) then chr (nat_of_ascii c + 32) else c.

Definition digit_value (c : ascii) : Z :=
  let v := cval c in
  if (48 <=? v) && (v <=? 57) then v - 48
  else if (65 <=? v) && (v <=? 90) then v - 55
  else if (97 <=? v) && (v <=? 122) then v - 87
  else 99.

(** ** Comparison and search *)

Definition streq (a b : cstring) : bool := bool_decide (a = b).
Definition strcaseeq (a b : cstring) : bool := streq (tolower <$> a) (tolower <$> b).

(** [strncmp (p, s, strlen (p)) == 0]: [p] is a prefix of [s]. *)
Fixpoint has_prefix (p s : cstring) : bool :=
  match p, s with
  | [], _ => true
  | a :: p', b :: s' => Ascii.eqb a b && has_prefix p' s'
  | _ :: _, [] => false
  end.

Definition strchr (s : cstring) (c : ascii) : bool := bool_decide (c ∈ s).

(** Everything before the first character satisfying [f], and the rest. *)
Fixpoint span {A} (f : A -> bool) (s : list A) : list A * list A :=
  match s with
  | [] => ([], [])
  | c :: r => if f c then ([], s) else let '(a, b) := span f r in (c :: a, b)
  end.

Definition skip (f : ascii -> bool) (s : cstring) : cstring := (span (fun c => negb (f c)) s).2.

(** What a C function sees of a buffer: the bytes before the first NUL. *)
Definition until_nul (s : cstring) : cstring := (span (Ascii.eqb NUL) s).1.

(** Removing trailing characters that satisfy [f]. *)
Definition rstrip (f : ascii -> bool) (s : cstring) : cstring := rev (skip f (rev s)).

(** [strrchr (s, '/')]: the part before the last slash, if there is one. *)
Definition before_last_slash (s : cstring) : option cstring :=
  match span (Ascii.eqb "/"%char) (rev s) with
  | (_, _ :: before) => Some (rev before)
  | (_, []) => None
  end.

(** ** Numbers *)

Definition LONG_MAX : Z := 2 ^ 63 - 1.
Definition LONG_MIN : Z := - 2 ^ 63.
Definition ULONG_MAX : Z := 2 ^ 64 - 1.
Definition UINT32_MAX : Z := 2 ^ 32 - 1.

(** The longest run of digits of [base], as a number, and the rest. *)
Fixpoint digits (base acc : Z) (s : cstring) : Z * cstring :=
  match s with
  | c :: r => if digit_value c <? base then digits base (acc * base + digit_value c) r else (acc, s)
  | [] => (acc, [])
  end.

Definition starts_digit (base : Z) (s : cstring) : bool :=
  match s with c :: _ => digit_value c <? base | [] => false end.

(** White space, an optional sign and the digits: whether the number is
    negated, its magnitude and the tail; [None] when no conversion was made. *)
Definition scan_sign (s : cstring) : bool * cstring :=
  match s with
  | c :: r => if Ascii.eqb c "-"%char then (true, r)
              else if Ascii.eqb c "+"%char then (false, r) else (false, s)
  | [] => (false, [])
  end.

Definition scan_digits (neg : bool) (b : Z) (t : cstring) : option (bool * Z * cstring) :=
  if starts_digit b t then let '(v, r) := digits b 0 t in Some (neg, v, r) else None.

Definition scan_number (base : Z) (s : cstring) : option (bool * Z * cstring) :=
  let '(neg, s1) := scan_sign (skip isspace s) in
  if base =? 0 then
    match s1 with
    | z :: x :: r =>
        if Ascii.eqb z "0"%char
        then if Ascii.eqb (tolower x) "x"%char && starts_digit 16 r then scan_digits neg 16 r
             else scan_digits neg 8 s1
        else scan_digits neg 10 s1
    | [z] => scan_digits neg (if Ascii.eqb z "0"%char then 8 else 10) s1
    | [] => None
    end
  else scan_digits neg base s1.

(** [strtol]: the value, the tail, and whether [errno] was set to [ERANGE]. *)
Definition strtol (base : Z) (s : cstring) : option (Z * cstring * bool) :=
  match scan_number base s with
  | None => None
  | Some (neg, v, r) =>
      let x := if neg then - v else v in
      if x <? LONG_MIN then Some (LONG_MIN, r, true)
      else if LONG_MAX <? x then Some (LONG_MAX, r, true)
      else Some (x, r, false)
  end.

(** [strtoul] negates in the unsigned type. *)
Definition strtoul (base : Z) (s : cstring) : option (Z * cstring * bool) :=
  match scan_number base s with
  | None => None
  | Some (neg, v, r) =>
      if ULONG_MAX <? v then Some (ULONG_MAX, r, true)
      else Some (if neg then wrap64 (- v) else v, r, false)
  end.

(** [%llu] of [printf]. *)
Definition print_u (z : Z) : cstring := lit (pretty (Z.to_N z)).

(** ** [strtok] *)

(** The tokens [strtok (buf, delim)] followed by [strtok (NULL, delim)]
    yield: the maximal non-empty runs of non-delimiters.  [cur] is the current
    run, reversed. *)
Fixpoint tokens_from (delim : ascii -> bool) (cur s : cstring) : list cstring :=
  match s with
  | [] => match cur with [] => [] | _ => [rev cur] end
  | c :: r =>
      if delim c
      then match cur with [] => tokens_from delim [] r | _ => rev cur :: tokens_from delim [] r end
      else tokens_from delim (c :: cur) r
  end.

Definition strtok_all (delim : ascii -> bool) (s : cstring) : list cstring := tokens_from delim [] s.

(** ** [fgets] *)

(** Reading at most [n] characters, up to and including a newline: the
    characters, the rest of the stream and the end-of-file indicator. *)
Fixpoint fgets (n : nat) (stream : cstring) : cstring * cstring * bool :=
  match n, stream with
  | O, _ => ([], stream, false)
  | S _, [] => ([], [], true)
  | S n', c :: r =>
      if Ascii.eqb c LF then ([c], r, false)
      else let '(l, rest, eof) := fgets n' r in (c :: l, rest, eof)
  end.

(** The successive results of [while (fgets (line, n + 1, fp))] with [feof]
    after each. *)
Fixpoint fgets_loop (fuel n : nat) (stream : cstring) : list (cstring * bool) :=
  match fuel with
  | O => []
  | S fuel' =>
      match fgets n stream with
      | ([], _, _) => []
      | (line, rest, eof) => (line, eof) :: fgets_loop fuel' n rest
      end
  end.

(** Each iteration consumes a character: as many iterations as the stream has
    characters are enough. *)
Definition fgets_all (n : nat) (stream : cstring) : list (cstring * bool) :=
  fgets_loop (length stream) n stream.

(** ** [sscanf] *)

(** [sscanf (s, "%63s %1023[^\n]", directive, value)]; [None] when it returns
    less than 1.  [value] keeps its initial empty string when the second
    conversion does not match. *)
Definition sscanf_directive (s : cstring) : option (cstring * cstring) :=
  let s1 := skip isspace s in
  let d := take 63 (span isspace s1).1 in
  match d with
  | [] => None
  | _ => let s2 := skip isspace (drop (length d) s1) in
         Some (d, take 1023 (span (Ascii.eqb LF) s2).1)
  end.

(** [%llu]: white space, then a [strtoull] conversion that saturates. *)
Definition scan_llu (s : cstring) : option (Z * cstring) :=
  match strtoul 10 s with Some (v, r, _) => Some (v, r) | None => None end.

(** [sscanf (s, "%llu %llu %llu %1s", ...) == 3]. *)
Definition sscanf_three (s : cstring) : option (Z * Z * Z) :=
  match scan_llu s with
  | None => None
  | Some (a, s1) =>
      match scan_llu s1 with
      | None => None
      | Some (b, s2) =>
          match scan_llu s2 with
          | None => None
          | Some (c, s3) => match skip isspace s3 with [] => Some (a, b, c) | _ => None end
          end
      end
  end.

(** ** Facts *)

Lemma streq_true a b : streq a b = true <-> a = b.
Proof. apply bool_decide_eq_true. Qed.

Lemma has_prefix_true p s : has_prefix p s = true <-> exists t, s = p ++ t.
Proof.
  revert s. induction p as [|a p IH]; intros s; cbn.
  - split; [by exists s|done].
  - destruct s as [|b s]; [split; [done|by intros (t & Ht)]|].
    rewrite andb_true_iff, IH, Ascii.eqb_eq. split.
    + intros (-> & t & ->). by exists t.
    + intros (t & [= -> ->]). split; [done|by exists t].
Qed.

Lemma span_app {A} (f : A -> bool) s : (span f s).1 ++ (span f s).2 = s.
Proof.
  induction s as [|c s IH]; cbn; [done|]. destruct (f c); [done|].
  destruct (span f s). cbn in *. by rewrite IH.
Qed.

Lemma span_fst {A} (f : A -> bool) s : Forall (fun c => f c = false) (span f s).1.
Proof.
  induction s as [|c s IH]; cbn; [done|]. destruct (f c) eqn:E; [done|].
  destruct (span f s). by constructor.
Qed.

Lemma span_snd {A} (f : A -> bool) s c r : (span f s).2 = c :: r -> f c = true.
Proof.
  induction s as [|d s IH]; cbn; [done|]. destruct (f d) eqn:E.
  - by intros [= -> ->].
  - destruct (span f s). auto.
Qed.

(** A non-empty stream always yields something, and nothing is lost. *)
Lemma fgets_spec n stream :
  let '(l, rest, eof) := fgets n stream in
  stream = l ++ rest /\ (length l <= n)%nat /\ (l = [] -> n = O \/ stream = [])
  /\ (eof = true -> rest = []).
Proof.
  revert stream. induction n as [|n IH]; intros [|c r]; cbn; [naive_solver lia..|].
  destruct (Ascii.eqb c LF); [cbn; naive_solver lia|].
  specialize (IH r). destruct (fgets n r) as [[l rest] eof].
  destruct IH as (-> & Hl & Hn & He). cbn. repeat split; [lia|done|done].
Qed.

Lemma fgets_loop_concat fuel n stream :
  (0 < n)%nat -> (length stream <= fuel)%nat -> concat (fgets_loop fuel n stream).*1 = stream.
Proof.
  intros Hn. revert stream. induction fuel as [|fuel IH]; intros stream Hf; cbn.
  - destruct stream; [done|cbn in Hf; lia].
  - pose proof (fgets_spec n stream) as H. destruct (fgets n stream) as [[l rest] eof].
    destruct H as (-> & Hl & He & _). destruct l as [|c l]; cbn.
    + destruct (He eq_refl); [lia|done].
    + rewrite IH; [done|]. cbn in Hf. rewrite length_app in Hf. lia.
Qed.

Lemma fgets_loop_nonempty fuel n stream : Forall (fun p => p.1 <> []) (fgets_loop fuel n stream).
Proof.
  revert stream. induction fuel as [|fuel IH]; intros stream; cbn; [done|].
  destruct (fgets n stream) as [[[|c l] rest] eof]; [done|]. by constructor.
Qed.

Lemma scan_number_nonneg base s neg v r :
  0 <= base -> scan_number base s = Some (neg, v, r) -> 0 <= v.
Proof.
  assert (Hv : forall c, 0 <= digit_value c).
  { intros c. unfold digit_value. repeat case_match; lia. }
  assert (Hd : forall b t acc, 0 <= b -> 0 <= acc -> 0 <= (digits b acc t).1).
  { intros b t. induction t as [|c t IH]; intros acc Hb Ha; cbn; [done|].
    case_match; [|done]. apply IH; [done|]. specialize (Hv c). nia. }
  intros Hb. unfold scan_number. destruct (scan_sign _) as [n s1].
  assert (Hgo : forall b t, 0 <= b -> scan_digits n b t = Some (neg, v, r) -> 0 <= v).
  { intros b t Hb0. unfold scan_digits. case_match; [|done]. specialize (Hd b t 0 Hb0).
    destruct (digits b 0 t). intros [= <- <- <-]. by apply Hd. }
  destruct (base =? 0); [|by apply Hgo].
  destruct s1 as [|z [|x t]]; [done|case_match; apply Hgo; lia|].
  repeat case_match; apply Hgo; lia.
Qed.

(** What holds of the ten digits holds of every character of a printed number. *)
Lemma print_u_forall (P : ascii -> Prop) z : Forall P (lit "0123456789") -> Forall P (print_u z).
Proof.
  intros Hd.
  assert (Hc : forall x, (x < 10)%N -> P (pretty_N_char x)).
  { intros x Hx. change (lit "0123456789") with (pretty_N_char <$> [0; 1; 2; 3; 4; 5; 6; 7; 8; 9]%N) in Hd.
    rewrite Forall_fmap, Forall_forall in Hd. apply (Hd x). destruct x as [|p]; [set_solver|].
    repeat (destruct p as [p|p|]; try lia; try set_solver). }
  assert (Hgo : forall n s, Forall P (lit s) -> Forall P (lit (pretty_N_go n s))).
  { intros n. induction (N.lt_wf_0 n) as [n _ IH]; intros s Hs. destruct (decide (0 < n)%N) as [Hn|Hn].
    - rewrite pretty_N_go_step by done. apply IH; [by apply N.div_lt|].
      change (Forall P (pretty_N_char (n mod 10) :: lit s)). constructor; [|done]. apply Hc. by apply N.mod_lt.
    - by replace n with 0%N by lia. }
  unfold print_u, pretty, pretty_N. case_match; [|by apply Hgo]. repeat constructor. by apply (Hc 0%N).
Qed.
