(* ===== verification/Config.v ===== *)
(** * Policy configuration

    Models [Config], the policy-array appends and the value parsers of
    [src/compartment.h]: what a profile line or a command-line option can do to
    the policy.  An array with its count is a list; the ownership bits of the
    entries ([PathRule.owned], [env_*_owned]) decide only what is freed and are
    kept where the code records them per entry in a struct.  The diagnostics
    (and so the [where] arguments) are left out; [-1] is [None]. *)

From S2P Require Import Prelude CLib.
From Stdlib Require Import Ascii.

#[local] Open Scope Z_scope.

Definition MAX_PATHS : nat := 64.
Definition MAX_BLOCKED_SC : nat := 256.
Definition MAX_ALLOWED_SC : nat := 512.
Definition MAX_ENV_VARS : nat := 64.
Definition MAX_NET_PORTS : nat := 64.
Definition MAX_LINE : nat := 1024.
Definition MAX_INHERIT_DEPTH : nat := 2.
Definition PATH_MAX : nat := 4096.

(** ** Data *)

Inductive SeccompAction := SECCOMP_DEFAULT_ERRNO | SECCOMP_DEFAULT_KILL | SECCOMP_DEFAULT_LOG.

Inductive PathMode := PATH_RO | PATH_RW | PATH_EXEC | PATH_RWX.

#[export] Instance PathMode_eq_dec : EqDecision PathMode.
Proof. solve_decision. Defined.

Record PathRule := { path : cstring; mode : PathMode; optional : bool; owned : bool }.

Record MountFlagRule := { mf_path : cstring; mf_flags : Z }.

Record Config := MkConfig {
  paths : list PathRule;
  net_bind_ports : list Z;
  net_connect_ports : list Z;
  net_default_deny : bool;
  blocked_syscalls : list Z;
  allowed_syscalls : list Z;
  seccomp_allow_mode : bool;
  seccomp_default : SeccompAction;
  env_deny : list cstring;
  env_allow : list cstring;
  env_allow_mode : bool;
  use_landlock : bool;
  use_seccomp : bool;
  use_no_new_privs : bool;
  use_env_sanitize : bool;
  dry_run : bool;
  verbose : bool;
  audit : bool;
  audit_log_dir : option cstring;
  workdir : option cstring;
  profile : option cstring;
  profile_source : option cstring;
  allow_insecure : bool;
  rootdir : option cstring;
  uid : Z;
  gid : Z;
  username : option cstring;
  netns : option cstring;
  cgroups : list cstring;
  cap_allowed_names : list cstring;
  loopback : bool;
  mount_masks : list cstring;
  rootdir_flags : Z;
  mount_flags : list MountFlagRule;
  uid_map : option cstring;
  gid_map : option cstring;
  cap_drop_names : list cstring;
  masks : list (cstring * bool);       (* path, mask_optional *)
}.

(** *** Field assignment *)

Definition config_eta (c : Config) : Config :=
  MkConfig (paths c) (net_bind_ports c) (net_connect_ports c) (net_default_deny c)
    (blocked_syscalls c) (allowed_syscalls c) (seccomp_allow_mode c) (seccomp_default c)
    (env_deny c) (env_allow c) (env_allow_mode c) (use_landlock c) (use_seccomp c)
    (use_no_new_privs c) (use_env_sanitize c) (dry_run c) (verbose c) (audit c)
    (audit_log_dir c) (workdir c) (profile c) (profile_source c) (allow_insecure c)
    (rootdir c) (uid c) (gid c) (username c) (netns c) (cgroups c) (cap_allowed_names c)
    (loopback c) (mount_masks c) (rootdir_flags c) (mount_flags c) (uid_map c) (gid_map c)
    (cap_drop_names c) (masks c).

(** [set_field g v c]: [c] with the field [g] replaced by [v]. *)
Ltac set_field g v c :=
  let t := eval unfold config_eta in (config_eta c) in
  let t' := eval pattern (g c) in t in
  match t' with ?F _ => let u := eval cbv beta in (F v) in exact u end.

Definition set_paths (v : list PathRule) (c : Config) : Config := ltac:(set_field paths v c).
Definition set_net_bind_ports (v : list Z) (c : Config) : Config := ltac:(set_field net_bind_ports v c).
Definition set_net_connect_ports (v : list Z) (c : Config) : Config := ltac:(set_field net_connect_ports v c).
Definition set_net_default_deny (v : bool) (c : Config) : Config := ltac:(set_field net_default_deny v c).
Definition set_blocked_syscalls (v : list Z) (c : Config) : Config := ltac:(set_field blocked_syscalls v c).
Definition set_allowed_syscalls (v : list Z) (c : Config) : Config := ltac:(set_field allowed_syscalls v c).
Definition set_seccomp_allow_mode (v : bool) (c : Config) : Config := ltac:(set_field seccomp_allow_mode v c).
Definition set_seccomp_default (v : SeccompAction) (c : Config) : Config := ltac:(set_field seccomp_default v c).
Definition set_env_deny (v : list cstring) (c : Config) : Config := ltac:(set_field env_deny v c).
Definition set_env_allow (v : list cstring) (c : Config) : Config := ltac:(set_field env_allow v c).
Definition set_env_allow_mode (v : bool) (c : Config) : Config := ltac:(set_field env_allow_mode v c).
Definition set_use_landlock (v : bool) (c : Config) : Config := ltac:(set_field use_landlock v c).
Definition set_use_seccomp (v : bool) (c : Config) : Config := ltac:(set_field use_seccomp v c).
Definition set_use_no_new_privs (v : bool) (c : Config) : Config := ltac:(set_field use_no_new_privs v c).
Definition set_use_env_sanitize (v : bool) (c : Config) : Config := ltac:(set_field use_env_sanitize v c).
Definition set_dry_run (v : bool) (c : Config) : Config := ltac:(set_field dry_run v c).
Definition set_verbose (v : bool) (c : Config) : Config := ltac:(set_field verbose v c).
Definition set_allow_insecure (v : bool) (c : Config) : Config := ltac:(set_field allow_insecure v c).
Definition set_profile (v : option cstring) (c : Config) : Config := ltac:(set_field profile v c).
Definition set_audit (v : bool) (c : Config) : Config := ltac:(set_field audit v c).
Definition set_audit_log_dir (v : option cstring) (c : Config) : Config := ltac:(set_field audit_log_dir v c).
Definition set_workdir (v : option cstring) (c : Config) : Config := ltac:(set_field workdir v c).
Definition set_profile_source (v : option cstring) (c : Config) : Config := ltac:(set_field profile_source v c).
Definition set_rootdir (v : option cstring) (c : Config) : Config := ltac:(set_field rootdir v c).
Definition set_uid (v : Z) (c : Config) : Config := ltac:(set_field uid v c).
Definition set_gid (v : Z) (c : Config) : Config := ltac:(set_field gid v c).
Definition set_username (v : option cstring) (c : Config) : Config := ltac:(set_field username v c).
Definition set_netns (v : option cstring) (c : Config) : Config := ltac:(set_field netns v c).
Definition set_cgroups (v : list cstring) (c : Config) : Config := ltac:(set_field cgroups v c).
Definition set_cap_allowed_names (v : list cstring) (c : Config) : Config := ltac:(set_field cap_allowed_names v c).
Definition set_loopback (v : bool) (c : Config) : Config := ltac:(set_field loopback v c).
Definition set_mount_masks (v : list cstring) (c : Config) : Config := ltac:(set_field mount_masks v c).
Definition set_rootdir_flags (v : Z) (c : Config) : Config := ltac:(set_field rootdir_flags v c).
Definition set_mount_flags (v : list MountFlagRule) (c : Config) : Config := ltac:(set_field mount_flags v c).
Definition set_uid_map (v : option cstring) (c : Config) : Config := ltac:(set_field uid_map v c).
Definition set_gid_map (v : option cstring) (c : Config) : Config := ltac:(set_field gid_map v c).
Definition set_cap_drop_names (v : list cstring) (c : Config) : Config := ltac:(set_field cap_drop_names v c).
Definition set_masks (v : list (cstring * bool)) (c : Config) : Config := ltac:(set_field masks v c).

(** ** Name tables *)

(** The names of [syscall_table], section by section.  An entry is in the
    table exactly when the architecture defines its [__NR_] macro. *)

Definition syscall_table_file_io : list string :=
  ["openat"; "close"; "lseek"; "pread64"; "pwrite64"; "readv"; "writev"; "pipe2"; "dup";
   "dup3"; "fcntl"; "read"; "write"; "ioctl"; "open"; "dup2"; "pipe"; "fadvise64";
   "close_range"; "openat2"].

Definition syscall_table_file_metadata : list string :=
  ["fstat"; "newfstatat"; "faccessat"; "readlinkat"; "getcwd"; "stat"; "lstat"; "access";
   "readlink"; "statx"; "faccessat2"].

Definition syscall_table_directory : list string :=
  ["getdents64"; "statfs"; "fstatfs"; "chdir"; "mkdirat"; "unlinkat"; "fchmod"; "fchown";
   "umask"; "mkdir"; "rmdir"; "unlink"; "rename"; "renameat2"; "chmod"; "chown"; "mknod";
   "mknodat"].

Definition syscall_table_memory : list string :=
  ["mmap"; "mprotect"; "munmap"; "brk"; "mremap"; "madvise"].

Definition syscall_table_signals : list string :=
  ["rt_sigaction"; "rt_sigprocmask"; "rt_sigreturn"; "rt_sigpending"; "rt_sigsuspend";
   "rt_sigtimedwait"; "rt_sigqueueinfo"; "rt_tgsigqueueinfo"; "sigaltstack"; "kill";
   "tkill"; "tgkill"; "pause"; "restart_syscall"; "signalfd4"; "signalfd"].

Definition syscall_table_sockets : list string :=
  ["socket"; "socketpair"; "bind"; "listen"; "accept4"; "connect"; "getsockname";
   "getpeername"; "setsockopt"; "getsockopt"; "sendto"; "recvfrom"; "sendmsg"; "recvmsg";
   "sendmmsg"; "recvmmsg"; "shutdown"; "accept"; "socketcall"].

Definition syscall_table_events : list string :=
  ["epoll_create1"; "epoll_ctl"; "epoll_pwait"; "eventfd2"; "timerfd_create";
   "timerfd_settime"; "timerfd_gettime"; "epoll_create"; "epoll_wait"; "epoll_pwait2";
   "eventfd"; "inotify_init1"; "inotify_add_watch"; "inotify_rm_watch"].

Definition syscall_table_process : list string :=
  ["execve"; "exit"; "exit_group"; "clone"; "wait4"; "waitid"; "getpid"; "getppid";
   "gettid"; "getuid"; "getgid"; "geteuid"; "getegid"; "setuid"; "setgid"; "setgroups";
   "setsid"; "getsid"; "setpgid"; "getpgid"; "getgroups"; "sysinfo"; "prctl"; "uname";
   "getpgrp"; "fork"; "vfork"; "clone3"; "execveat"; "arch_prctl"].

Definition syscall_table_scheduling : list string :=
  ["sched_yield"; "sched_getaffinity"; "sched_setaffinity"; "prlimit64"; "getrlimit"].

Definition syscall_table_time : list string :=
  ["clock_gettime"; "clock_getres"; "clock_nanosleep"; "nanosleep"; "gettimeofday"].

Definition syscall_table_multiplexing : list string :=
  ["ppoll"; "pselect6"; "select"; "poll"].

Definition syscall_table_threading : list string :=
  ["futex"; "set_tid_address"; "set_robust_list"; "rseq"; "membarrier"].

Definition syscall_table_random : list string :=
  ["getrandom"].

Definition syscall_table_dangerous : list string :=
  ["ptrace"; "mount"; "umount2"; "reboot"; "kexec_load"; "init_module"; "finit_module";
   "delete_module"; "pivot_root"; "chroot"; "unshare"; "setns"; "keyctl"; "add_key";
   "request_key"; "bpf"; "userfaultfd"; "perf_event_open"; "personality";
   "process_vm_readv"; "process_vm_writev"; "acct"; "swapon"; "swapoff"; "settimeofday";
   "clock_settime"; "clock_adjtime"; "adjtimex"; "vhangup"; "quotactl"; "kexec_file_load";
   "lookup_dcookie"; "mbind"; "move_pages"; "ioperm"; "iopl"; "nfsservctl";
   "io_uring_setup"; "io_uring_enter"; "io_uring_register"; "open_by_handle_at";
   "name_to_handle_at"; "open_tree"; "move_mount"; "fsopen"; "fsmount"; "fsconfig";
   "fspick"; "mount_setattr"; "pidfd_getfd"].

Definition syscall_table : list string :=
  syscall_table_file_io ++ syscall_table_file_metadata ++ syscall_table_directory ++
  syscall_table_memory ++ syscall_table_signals ++ syscall_table_sockets ++
  syscall_table_events ++ syscall_table_process ++ syscall_table_scheduling ++
  syscall_table_time ++ syscall_table_multiplexing ++ syscall_table_threading ++
  syscall_table_random ++ syscall_table_dangerous.

Definition cap_table : list (string * Z) :=
  [("chown", 0); ("dac_override", 1); ("dac_read_search", 2); ("fowner", 3); ("fsetid",
   4); ("kill", 5); ("setgid", 6); ("setuid", 7); ("setpcap", 8); ("linux_immutable", 9);
   ("net_bind_service", 10); ("net_broadcast", 11); ("net_admin", 12); ("net_raw", 13);
   ("ipc_lock", 14); ("ipc_owner", 15); ("sys_module", 16); ("sys_rawio", 17);
   ("sys_chroot", 18); ("sys_ptrace", 19); ("sys_pacct", 20); ("sys_admin", 21);
   ("sys_boot", 22); ("sys_nice", 23); ("sys_resource", 24); ("sys_time", 25);
   ("sys_tty_config", 26); ("mknod", 27); ("lease", 28); ("audit_write", 29);
   ("audit_control", 30); ("setfcap", 31); ("mac_override", 32); ("mac_admin", 33);
   ("syslog", 34); ("wake_alarm", 35); ("block_suspend", 36); ("audit_read", 37);
   ("perfmon", 38); ("bpf", 39); ("checkpoint_restore", 40)].

(** The built-in deny-list; the two port-access calls are x86-64 only. *)
Definition builtin_denylist (x86_64 : bool) : list string :=
  ["ptrace"; "process_vm_readv"; "process_vm_writev"; "mount"; "umount2"; "pivot_root";
   "chroot"; "unshare"; "setns"; "mount_setattr"; "open_tree"; "move_mount"; "fsopen";
   "fsmount"; "fsconfig"; "fspick"; "open_by_handle_at"; "name_to_handle_at"; "reboot";
   "kexec_load"; "kexec_file_load"; "init_module"; "finit_module"; "delete_module";
   "keyctl"; "add_key"; "request_key"; "bpf"; "userfaultfd"; "perf_event_open";
   "io_uring_setup"; "io_uring_enter"; "io_uring_register"; "acct"; "swapon"; "swapoff";
   "settimeofday"; "clock_settime"; "clock_adjtime"; "adjtimex"; "pidfd_getfd"]
  ++ (if x86_64 then ["ioperm"; "iopl"] else []).

(** ** Name resolution *)

(** Trailing blanks, then the end of the string or a comment. *)
Definition number_tail_ok (rest : cstring) : bool :=
  match skip is_blank rest with [] => true | c :: _ => Ascii.eqb c "#"%char end.

(** [nr] gives the value of the architecture's [__NR_<name>] macro.  [-1] is
    [None]. *)
Definition resolve_syscall (nr : string -> option Z) (name : cstring) : option Z :=
  match list_find (fun s => lit s = name /\ is_Some (nr s)) syscall_table with
  | Some (_, s) => nr s
  | None =>
      match strtol 0 name with
      | Some (n, rest, _) =>
          if (0 <=? n) && (n <=? 0x7fffffff) && number_tail_ok rest then Some n else None
      | None => None
      end
  end.

Definition strip_cap_prefix (name : cstring) : cstring :=
  if has_prefix (lit "cap_") (tolower <$> name) then drop 4 name else name.

Definition resolve_cap (name : cstring) : option Z :=
  let n := strip_cap_prefix name in
  match list_find (fun e : string * Z => strcaseeq (lit e.1) n = true) cap_table with
  | Some (_, e) => Some e.2
  | None =>
      match strtol 0 name with
      | Some (v, _, _) => if (0 <=? v) && (v <=? 63) then Some v else None
      | None => None
      end
  end.

(** ** Array appends *)

(** [*count >= limit] is [policy_full]; otherwise the entry goes at the end. *)
Definition append_limited {A} (limit : nat) (l : list A) (x : A) : option (list A) :=
  if Nat.leb limit (length l) then None else Some (l ++ [x]).

(** A trailing question mark (on more than one character) marks the entry
    optional and is removed. *)
Definition trailing_question (p : cstring) : bool :=
  (Nat.ltb 1 (length p)) && match last p with Some c => Ascii.eqb c "?"%char | None => false end.

Definition trim_question (p : cstring) : cstring :=
  if trailing_question p then removelast p else p.

Definition cfg_add_path (c : Config) (p : cstring) (m : PathMode) (dup : bool) : option Config :=
  l ← append_limited MAX_PATHS (paths c)
        {| path := trim_question p; mode := m; optional := trailing_question p;
           owned := trailing_question p || dup |};
  Some (set_paths l c).

(** The port a value denotes: decimal, blanks after it, 0 to 65535.  Without a
    number [end] is [val], the blanks are skipped, and only then [end] is compared
    with [val]: a value of blanks alone is port 0. *)
Definition parse_port (val : cstring) : option Z :=
  match strtol 10 val with
  | Some (port, rest, erange) =>
      if negb erange && bool_decide (skip is_blank rest = []) && (0 <=? port) && (port <=? 65535)
      then Some port else None
  | None => if bool_decide (skip is_blank val = []) && negb (bool_decide (val = [])) then Some 0 else None
  end.

Definition cfg_add_net_port (val : cstring) (arr : list Z) : option (list Z) :=
  p ← parse_port val; append_limited MAX_NET_PORTS arr p.

Definition cfg_add_blocked (c : Config) (n : Z) : option Config :=
  l ← append_limited MAX_BLOCKED_SC (blocked_syscalls c) n; Some (set_blocked_syscalls l c).

Definition cfg_add_allowed (c : Config) (n : Z) : option Config :=
  l ← append_limited MAX_ALLOWED_SC (allowed_syscalls c) n;
  Some (set_seccomp_allow_mode true (set_allowed_syscalls l c)).

Fixpoint add_denylist (nr : string -> option Z) (names : list string) (c : Config) : option Config :=
  match names with
  | [] => Some c
  | s :: rest =>
      match resolve_syscall nr (lit s) with
      | None => add_denylist nr rest c
      | Some n => c' ← cfg_add_blocked c n; add_denylist nr rest c'
      end
  end.

Definition cfg_add_builtin_denylist (nr : string -> option Z) (x86_64 : bool) (c : Config)
  : option Config := add_denylist nr (builtin_denylist x86_64) c.

Definition cfg_add_env_deny (c : Config) (name : cstring) : option Config :=
  l ← append_limited MAX_ENV_VARS (env_deny c) name; Some (set_env_deny l c).

Definition cfg_add_env_allow (c : Config) (name : cstring) : option Config :=
  l ← append_limited MAX_ENV_VARS (env_allow c) name;
  Some (set_env_allow_mode true (set_env_allow l c)).

(** ** Mount flags *)

Definition COMPARTMENT_MS_RDONLY : Z := 1.
Definition COMPARTMENT_MS_NOSUID : Z := 2.
Definition COMPARTMENT_MS_NODEV : Z := 4.
Definition COMPARTMENT_MS_NOEXEC : Z := 8.

Definition mount_flag_for_directive (suffix : cstring) : Z :=
  if streq suffix (lit "ro") then COMPARTMENT_MS_RDONLY
  else if streq suffix (lit "nosuid") then COMPARTMENT_MS_NOSUID
  else if streq suffix (lit "nodev") then COMPARTMENT_MS_NODEV
  else if streq suffix (lit "noexec") then COMPARTMENT_MS_NOEXEC
  else 0.

Definition flag_delim (c : ascii) : bool := Ascii.eqb c ","%char || is_blank c.

Fixpoint mount_flags_loop (toks : list cstring) (flags : Z) : option Z :=
  match toks with
  | [] => Some flags
  | tok :: rest =>
      let f := mount_flag_for_directive tok in
      if f =? 0 then None else mount_flags_loop rest (Z.lor flags f)
  end.

Definition parse_mount_flag_list (val : cstring) : option Z :=
  if Nat.leb MAX_LINE (length val) then None
  else match strtok_all flag_delim val with
       | [] => None
       | toks => mount_flags_loop toks 0
       end.

(** The rules with [flags] merged into the first one for [p]; [None] when
    there is none. *)
Fixpoint merge_mount_flag (p : cstring) (flags : Z) (l : list MountFlagRule)
  : option (list MountFlagRule) :=
  match l with
  | [] => None
  | r :: rest =>
      if streq (mf_path r) p then Some ({| mf_path := mf_path r; mf_flags := Z.lor (mf_flags r) flags |} :: rest)
      else rest' ← merge_mount_flag p flags rest; Some (r :: rest')
  end.

Definition cfg_add_mount_flag (c : Config) (p : cstring) (flags : Z) : option Config :=
  if Nat.leb MAX_PATHS (length (mount_flags c)) then None
  else Some (set_mount_flags
               (match merge_mount_flag p flags (mount_flags c) with
                | Some l => l
                | None => mount_flags c ++ [{| mf_path := p; mf_flags := flags |}]
                end) c).

Definition cfg_add_mask (c : Config) (p : cstring) : option Config :=
  if Nat.leb MAX_PATHS (length (masks c)) then None
  else match p with
       | "/"%char :: _ => Some (set_masks (masks c ++ [(trim_question p, trailing_question p)]) c)
       | _ => None
       end.

(** ** Values *)

Definition parse_bool (val : cstring) : option bool :=
  if strcaseeq val (lit "on") || strcaseeq val (lit "yes") || strcaseeq val (lit "true")
     || streq val (lit "1") then Some true
  else if strcaseeq val (lit "off") || strcaseeq val (lit "no") || strcaseeq val (lit "false")
     || streq val (lit "0") then Some false
  else None.

(** One-way: the value [off] is refused, so the switch is on afterwards. *)
Definition profile_switch (val : cstring) : option bool :=
  on ← parse_bool val; if (on : bool) then Some true else None.

(** *** [$HOME] and [$USER] *)

Definition S_IFMT : Z := 0xF000.     (* 0170000 *)
Definition S_IFDIR : Z := 0x4000.    (* 0040000 *)
Definition S_IFREG : Z := 0x8000.    (* 0100000 *)
Definition S_IWGRP : Z := 0x10.      (* 00020 *)
Definition S_IWOTH : Z := 0x02.      (* 00002 *)
Definition S_ISVTX : Z := 0x200.     (* 01000 *)

Record stat := { st_mode : Z; st_uid : Z }.

Definition S_ISDIR (m : Z) : bool := Z.land m S_IFMT =? S_IFDIR.

(** [home]: [getenv ("HOME")]; [st]: what [stat] says of a path. *)
Definition home_dir_usable (getuid : Z) (st : cstring -> option stat) (home : option cstring)
  : option cstring :=
  match home with
  | Some ("/"%char :: rest) =>
      let h := "/"%char :: rest in
      if bool_decide (rest = []) then None
      else match st h with
           | Some s => if S_ISDIR (st_mode s) && (st_uid s =? getuid) then Some h else None
           | None => None
           end
  | _ => None
  end.

(** The loop of [expand_var] on a buffer of [PATH_MAX] bytes; [out] is the
    buffer so far.  Every iteration consumes a character, so the length of the
    input is enough fuel. *)
Fixpoint expand_loop (fuel : nat) (home user : option cstring) (p out : cstring) : option cstring :=
  match fuel, p with
  | _, [] => Some out
  | O, _ => None
  | S fuel', c :: r =>
      let var (v : option cstring) :=
        match v with
        | None => None
        | Some t => if Nat.leb PATH_MAX (length out + length t) then None
                    else expand_loop fuel' home user (drop 5 p) (out ++ t)
        end in
      if Nat.leb (PATH_MAX - 1) (length out) then None
      else if Ascii.eqb c "$"%char then
        if has_prefix (lit "$HOME") p then var home
        else if has_prefix (lit "$USER") p then var user
        else expand_loop fuel' home user r (out ++ [c])
      else expand_loop fuel' home user r (out ++ [c])
  end.

(** [user]: [getenv ("USER")], else the name in the password database. *)
Definition expand_var (home user : option cstring) (input : cstring) : option cstring :=
  if strchr input "$"%char then
    let user' := match user with Some [] => None | u => u end in
    expand_loop (length input) home user' input []
  else Some input.
