(* ===== verification/ConfigProps.v ===== *)
(** * What the policy appends guarantee

    The well-formedness invariant of a [Config] (every array within its bound,
    every stored number in range), the one-way order [retains] on
    configurations, and that each operation of [Config.v] preserves the first
    and moves only up the second. *)

From S2P Require Import Prelude CLib Config.
From Stdlib Require Import Ascii.

#[local] Open Scope Z_scope.

(** ** Invariant *)

Definition port_ok (p : Z) : Prop := 0 <= p <= 65535.
Definition nr_ok (n : Z) : Prop := 0 <= n <= 0x7fffffff.

Record config_wf (c : Config) : Prop := {
  wf_paths : (length (paths c) <= MAX_PATHS)%nat;
  wf_bind : (length (net_bind_ports c) <= MAX_NET_PORTS)%nat;
  wf_connect : (length (net_connect_ports c) <= MAX_NET_PORTS)%nat;
  wf_blocked : (length (blocked_syscalls c) <= MAX_BLOCKED_SC)%nat;
  wf_allowed : (length (allowed_syscalls c) <= MAX_ALLOWED_SC)%nat;
  wf_env_deny : (length (env_deny c) <= MAX_ENV_VARS)%nat;
  wf_env_allow : (length (env_allow c) <= MAX_ENV_VARS)%nat;
  wf_cgroups : (length (cgroups c) <= MAX_PATHS)%nat;
  wf_cap_allowed : (length (cap_allowed_names c) <= MAX_ENV_VARS)%nat;
  wf_mount_masks : (length (mount_masks c) <= MAX_PATHS)%nat;
  wf_mount_flags : (length (mount_flags c) <= MAX_PATHS)%nat;
  wf_cap_drop : (length (cap_drop_names c) <= MAX_ENV_VARS)%nat;
  wf_masks : (length (masks c) <= MAX_PATHS)%nat;
  wf_bind_range : Forall port_ok (net_bind_ports c);
  wf_connect_range : Forall port_ok (net_connect_ports c);
  wf_blocked_range : Forall nr_ok (blocked_syscalls c);
  wf_allowed_range : Forall nr_ok (allowed_syscalls c);
  wf_uid : 0 <= uid c <= UINT32_MAX;
  wf_gid : 0 <= gid c <= UINT32_MAX;
  wf_masks_absolute : Forall (fun m => head m.1 = Some "/"%char) (masks c);
}.

(** ** The one-way order *)

Definition flags_le (a b : Z) : Prop := Z.land a b = a.

Definition mount_rule_le (r r' : MountFlagRule) : Prop :=
  mf_path r' = mf_path r /\ flags_le (mf_flags r) (mf_flags r').

Definition mount_rules_le (l l' : list MountFlagRule) : Prop :=
  exists l1 l2, l' = l1 ++ l2 /\ Forall2 mount_rule_le l l1.

(** [retains c c']: the five switches (Landlock, seccomp, no_new_privs,
    environment sanitising, [net-default deny]) that are on in [c] are on in
    [c'], no entry of an array is dropped, moved or replaced, and no mount flag is
    removed.  It says nothing of the settings a later line may replace: the modes
    of the system call and environment lists, the default action, [audit],
    [loopback] and the single strings and numbers. *)
Record retains (c c' : Config) : Prop := {
  t_landlock : implb (use_landlock c) (use_landlock c') = true;
  t_seccomp : implb (use_seccomp c) (use_seccomp c') = true;
  t_no_new_privs : implb (use_no_new_privs c) (use_no_new_privs c') = true;
  t_env_sanitize : implb (use_env_sanitize c) (use_env_sanitize c') = true;
  t_net_deny : implb (net_default_deny c) (net_default_deny c') = true;
  t_insecure : allow_insecure c' = allow_insecure c;
  t_paths : paths c `prefix_of` paths c';
  t_bind : net_bind_ports c `prefix_of` net_bind_ports c';
  t_connect : net_connect_ports c `prefix_of` net_connect_ports c';
  t_blocked : blocked_syscalls c `prefix_of` blocked_syscalls c';
  t_allowed : allowed_syscalls c `prefix_of` allowed_syscalls c';
  t_env_deny : env_deny c `prefix_of` env_deny c';
  t_env_allow : env_allow c `prefix_of` env_allow c';
  t_cgroups : cgroups c `prefix_of` cgroups c';
  t_cap_allowed : cap_allowed_names c `prefix_of` cap_allowed_names c';
  t_mount_masks : mount_masks c `prefix_of` mount_masks c';
  t_cap_drop : cap_drop_names c `prefix_of` cap_drop_names c';
  t_masks : masks c `prefix_of` masks c';
  t_rootdir_flags : flags_le (rootdir_flags c) (rootdir_flags c');
  t_mount_flags : mount_rules_le (mount_flags c) (mount_flags c');
}.

#[export] Instance flags_le_preorder : PreOrder flags_le.
Proof.
  split; unfold flags_le; [intros a; apply Z.land_diag|].
  intros a b c <- H. by rewrite <- !Z.land_assoc, H.
Qed.

Lemma flags_le_lor a b : flags_le a (Z.lor a b).
Proof. apply Z.bits_inj'. intros n _. rewrite Z.land_spec, Z.lor_spec. by destruct (Z.testbit a n). Qed.

#[export] Instance mount_rule_le_preorder : PreOrder mount_rule_le.
Proof.
  split; [done|]. intros x y z (H1 & H2) (H3 & H4). split; [congruence|by etrans].
Qed.

#[export] Instance mount_rules_le_preorder : PreOrder mount_rules_le.
Proof.
  split.
  - intros l. exists l, []. by rewrite app_nil_r.
  - intros l ? ? (l1 & l2 & -> & H) (l3 & l4 & -> & H').
    apply Forall2_app_inv_l in H' as (k1 & k2 & Hk1 & Hk2 & ->).
    exists k1, (k2 ++ l4). rewrite app_assoc. split; [done|]. by etrans.
Qed.

Lemma implb_refl b : implb b b = true.
Proof. by destruct b. Qed.

Lemma implb_true_r' b : implb b true = true.
Proof. by destruct b. Qed.

Lemma implb_trans a b c : implb a b = true -> implb b c = true -> implb a c = true.
Proof. by destruct a, b, c. Qed.

#[export] Hint Resolve implb_refl implb_true_r' flags_le_lor prefix_app_r : comp_db.

#[export] Instance retains_preorder : PreOrder retains.
Proof.
  split.
  - intros c. split; auto with comp_db; reflexivity.
  - intros x y z [] []. split; first [by eapply implb_trans | by etrans | congruence].
Qed.

(** ** Each operation *)

Lemma append_limited_Some {A} limit (l l' : list A) x :
  append_limited limit l x = Some l' <-> (length l < limit)%nat /\ l' = l ++ [x].
Proof.
  unfold append_limited. destruct (Nat.leb_spec limit (length l)).
  - split; [done|intros (? & _); lia].
  - split; [by intros [= <-]|by intros (_ & ->)].
Qed.

(** An operation that, when it succeeds, keeps the invariant and what was there. *)
Definition tightening (f : Config -> option Config) : Prop :=
  forall c c', f c = Some c' -> retains c c' /\ (config_wf c -> config_wf c').

Ltac solve_append :=
  repeat match goal with
         | H : append_limited _ _ _ = Some _ |- _ => apply append_limited_Some in H as (? & ->)
         | H : (_ ≫= _) = Some _ |- _ => apply bind_Some in H as (? & ? & ?)
         end;
  simplify_eq/=.

Ltac solve_tightening :=
  split; [split; cbn; auto with comp_db; try reflexivity; try (eexists; reflexivity)|];
  intros []; split; cbn; try rewrite length_app; cbn; try assumption; try lia;
  try (apply Forall_app; split; [assumption|apply Forall_singleton; assumption]).

Lemma tightening_add_path p m dup : tightening (fun c => cfg_add_path c p m dup).
Proof. intros c c' H. unfold cfg_add_path in H. solve_append. solve_tightening. Qed.

Lemma tightening_add_blocked n : nr_ok n -> tightening (fun c => cfg_add_blocked c n).
Proof. intros Hn c c' H. unfold cfg_add_blocked in H. solve_append. solve_tightening. Qed.

Lemma tightening_add_allowed n : nr_ok n -> tightening (fun c => cfg_add_allowed c n).
Proof. intros Hn c c' H. unfold cfg_add_allowed in H. solve_append. solve_tightening. Qed.

Lemma tightening_add_env_deny s : tightening (fun c => cfg_add_env_deny c s).
Proof. intros c c' H. unfold cfg_add_env_deny in H. solve_append. solve_tightening. Qed.

Lemma tightening_add_env_allow s : tightening (fun c => cfg_add_env_allow c s).
Proof. intros c c' H. unfold cfg_add_env_allow in H. solve_append. solve_tightening. Qed.

Lemma parse_port_range v p : parse_port v = Some p -> port_ok p.
Proof.
  unfold parse_port, port_ok. destruct (strtol 10 v) as [[[q r] e]|];
    (case_match eqn:E; [|done]); intros [= <-]; lia.
Qed.

Lemma tightening_bind v :
  tightening (fun c => l ← cfg_add_net_port v (net_bind_ports c); Some (set_net_bind_ports l c)).
Proof.
  intros c c' H. unfold cfg_add_net_port in H. solve_append.
  pose proof (parse_port_range _ _ H). solve_tightening.
Qed.

Lemma tightening_connect v :
  tightening (fun c => l ← cfg_add_net_port v (net_connect_ports c); Some (set_net_connect_ports l c)).
Proof.
  intros c c' H. unfold cfg_add_net_port in H. solve_append.
  pose proof (parse_port_range _ _ H). solve_tightening.
Qed.

Lemma trim_question_head p : head (trim_question p) = head p.
Proof.
  unfold trim_question. destruct (trailing_question p) eqn:E; [|done].
  unfold trailing_question in E. apply andb_true_iff in E as (E & _). apply Nat.ltb_lt in E.
  destruct p as [|a [|b p]]; cbn in *; [lia..|done].
Qed.

Lemma tightening_add_mask p : tightening (fun c => cfg_add_mask c p).
Proof.
  intros c c' H. unfold cfg_add_mask in H. case_match eqn:E; [done|]. apply Nat.leb_gt in E.
  assert (Hh : head p = Some "/"%char /\ c' = set_masks (masks c ++ [(trim_question p, trailing_question p)]) c)
    by (repeat case_match; naive_solver).
  destruct Hh as (Hh & ->). rewrite <- trim_question_head in Hh. solve_tightening.
Qed.

Lemma merge_mount_flag_le p f l l' :
  merge_mount_flag p f l = Some l' -> Forall2 mount_rule_le l l' /\ length l' = length l.
Proof.
  revert l'. induction l as [|r l IH]; intros l'; cbn; [done|].
  destruct (streq (mf_path r) p).
  - intros [= <-]. split; [|done]. constructor; [split; [done|apply flags_le_lor]|reflexivity].
  - intros (l1 & H & [= <-])%bind_Some. destruct (IH _ H) as (H1 & H2).
    split; [by constructor|cbn; lia].
Qed.

Lemma tightening_add_mount_flag p f : tightening (fun c => cfg_add_mount_flag c p f).
Proof.
  intros c c' H. unfold cfg_add_mount_flag in H. case_match eqn:E; [done|].
  apply Nat.leb_gt in E. destruct (merge_mount_flag p f (mount_flags c)) as [l|] eqn:Em; simplify_eq.
  - apply merge_mount_flag_le in Em as (Hm & Hl). split.
    + split; cbn; auto with comp_db; try reflexivity. exists l, []. by rewrite app_nil_r.
    + intros []. split; cbn; try assumption; lia.
  - split.
    + split; cbn; auto with comp_db; try reflexivity. by eexists _, _.
    + intros []. split; cbn; try rewrite length_app; cbn; try assumption; lia.
Qed.

(** *** Composition *)

Lemma tightening_ret : tightening Some.
Proof. by intros c ? [= <-]. Qed.

Lemma tightening_bind_seq f g : tightening f -> tightening g -> tightening (fun c => f c ≫= g).
Proof.
  intros Hf Hg c c' (c1 & H1 & H2)%bind_Some.
  destruct (Hf _ _ H1), (Hg _ _ H2). split; [by etrans|auto].
Qed.

(** ** Name resolution *)

(** The architecture's syscall numbers are non-negative [int]s. *)
Definition nr_table_ok (nr : string -> option Z) : Prop := forall s n, nr s = Some n -> nr_ok n.

Lemma resolve_syscall_range nr name n :
  nr_table_ok nr -> resolve_syscall nr name = Some n -> nr_ok n.
Proof.
  intros Hnr. unfold resolve_syscall. destruct (list_find _ _) as [[i s]|]; [by apply Hnr|].
  destruct (strtol 0 name) as [[[v r] e]|]; [|done]. case_match eqn:E; [|done].
  intros [= <-]. unfold nr_ok. lia.
Qed.

Lemma lit_inj a b : lit a = lit b -> a = b.
Proof.
  unfold lit. intros H. rewrite <- (String.string_of_list_ascii_of_string a), H.
  apply String.string_of_list_ascii_of_string.
Qed.

(** A name of the table resolves to its own macro. *)
Lemma resolve_syscall_name nr s n :
  s ∈ syscall_table -> nr s = Some n -> resolve_syscall nr (lit s) = Some n.
Proof.
  intros Hs Hn. unfold resolve_syscall.
  destruct (list_find _ _) as [[i t]|] eqn:E.
  - apply list_find_Some in E as (_ & (H & _) & _). apply lit_inj in H as ->. done.
  - apply list_find_None in E. eapply Forall_forall in E; [|done]. cbn in E. naive_solver.
Qed.

Lemma tightening_denylist nr names : nr_table_ok nr -> tightening (add_denylist nr names).
Proof.
  intros Hnr. induction names as [|s l IH]; [apply tightening_ret|].
  intros c c'. cbn. destruct (resolve_syscall nr (lit s)) as [n|] eqn:E; [|apply IH].
  apply (tightening_bind_seq (fun c => cfg_add_blocked c n)); [|done].
  apply tightening_add_blocked. by eapply resolve_syscall_range.
Qed.

Lemma add_denylist_blocks nr names c c' :
  add_denylist nr names c = Some c' ->
  blocked_syscalls c' = blocked_syscalls c ++ omap (fun s => resolve_syscall nr (lit s)) names.
Proof.
  revert c. induction names as [|s l IH]; intros c; cbn.
  - intros [= <-]. by rewrite app_nil_r.
  - destruct (resolve_syscall nr (lit s)) as [n|]; [|apply IH].
    intros (c1 & H1 & H2)%bind_Some. apply IH in H2. unfold cfg_add_blocked in H1. solve_append.
    by rewrite H2, <- app_assoc.
Qed.

Lemma add_denylist_mode nr names c c' :
  add_denylist nr names c = Some c' ->
  seccomp_allow_mode c' = seccomp_allow_mode c /\ seccomp_default c' = seccomp_default c.
Proof.
  revert c. induction names as [|s l IH]; intros c; cbn.
  - by intros [= <-].
  - destruct (resolve_syscall nr (lit s)); [|apply IH].
    intros (c1 & H1 & H2)%bind_Some. unfold cfg_add_blocked in H1. solve_append. by apply IH in H2.
Qed.

Lemma add_denylist_fits nr names c :
  (length (blocked_syscalls c) + length names <= MAX_BLOCKED_SC)%nat ->
  is_Some (add_denylist nr names c).
Proof.
  revert c. induction names as [|s l IH]; intros c Hl; cbn in *; [done|].
  destruct (resolve_syscall nr (lit s)) as [n|]; [|apply IH; lia].
  unfold cfg_add_blocked, append_limited. destruct (Nat.leb_spec MAX_BLOCKED_SC (length (blocked_syscalls c))); [lia|].
  cbn. apply IH. cbn. rewrite length_app. cbn. lia.
Qed.

Definition denylist_in_table (x86_64 : bool) : bool :=
  forallb (fun s => bool_decide (s ∈ syscall_table)) (builtin_denylist x86_64).

Lemma denylist_in_table_true x : denylist_in_table x = true.
Proof. destruct x; vm_compute; reflexivity. Qed.
