(* ===== verification/Seccomp.v ===== *)
(** * The seccomp filter builder

    Models [build_seccomp_bpf], [seccomp_deny_action] and [apply_seccomp] of
    [src/compartment.h]: the classic BPF program the tools install, and a
    machine for the four instruction forms it uses.  Jump offsets are forward,
    so a program of [n] instructions runs at most [n] steps and fuel [n] is
    enough. *)

From S2P Require Import Prelude CLib Config ConfigProps.

#[local] Open Scope Z_scope.

(** ** Filter programs *)

Record sock_filter := SockFilter { code : Z; jt : Z; jf : Z; k : Z }.

Definition BPF_LD_W_ABS : Z := 0x20.    (* BPF_LD | BPF_W | BPF_ABS *)
Definition BPF_JEQ_K : Z := 0x15.       (* BPF_JMP | BPF_JEQ | BPF_K *)
Definition BPF_JSET_K : Z := 0x45.      (* BPF_JMP | BPF_JSET | BPF_K *)
Definition BPF_RET_K : Z := 0x06.       (* BPF_RET | BPF_K *)

Definition BPF_STMT (c kk : Z) : sock_filter := SockFilter c 0 0 kk.
Definition BPF_JUMP (c kk t f : Z) : sock_filter := SockFilter c t f kk.

Definition SECCOMP_RET_KILL_PROCESS : Z := 0x80000000.
Definition SECCOMP_RET_ERRNO : Z := 0x00050000.
Definition SECCOMP_RET_LOG : Z := 0x7ffc0000.
Definition SECCOMP_RET_ALLOW : Z := 0x7fff0000.

(** [offsetof(struct seccomp_data, nr)], [arch] and the low half of [args[0]]. *)
Definition OFF_NR : Z := 0.
Definition OFF_ARCH : Z := 4.
Definition OFF_ARG0_LO : Z := 16.

(** The architectures of the [#if] chain, with their audit tokens. *)
Inductive arch := ArchX86_64 | ArchAArch64 | ArchRiscV64 | ArchS390X | ArchPPC64LE | ArchLoongArch64.

Definition AUDIT_ARCH (a : arch) : Z :=
  match a with
  | ArchX86_64 => 0xC000003E
  | ArchAArch64 => 0xC00000B7
  | ArchRiscV64 => 0xC00000F3
  | ArchS390X => 0x80000016
  | ArchPPC64LE => 0xC0000015
  | ArchLoongArch64 => 0xC0000102
  end.

Definition is_x86_64 (a : arch) : bool := match a with ArchX86_64 => true | _ => false end.

(** ** The builder *)

Definition seccomp_prologue (a : arch) : list sock_filter :=
  [BPF_STMT BPF_LD_W_ABS OFF_ARCH;
   BPF_JUMP BPF_JEQ_K (AUDIT_ARCH a) 1 0;
   BPF_STMT BPF_RET_K SECCOMP_RET_KILL_PROCESS;
   BPF_STMT BPF_LD_W_ABS OFF_NR]
  ++ (if is_x86_64 a
      then [BPF_JUMP BPF_JSET_K 0x40000000 0 1; BPF_STMT BPF_RET_K SECCOMP_RET_KILL_PROCESS]
      else []).

Fixpoint seccomp_rules (syscalls : list Z) (match_action : Z) : list sock_filter :=
  match syscalls with
  | [] => []
  | nr :: rest =>
      BPF_JUMP BPF_JEQ_K (wrap32 nr) 0 1 :: BPF_STMT BPF_RET_K match_action
      :: seccomp_rules rest match_action
  end.

(** The instructions the builder stores in [f[0 .. p-1]]. *)
Definition seccomp_insns (a : arch) (syscalls : list Z) (match_action default_action : Z)
  : list sock_filter :=
  seccomp_prologue a ++ seccomp_rules syscalls match_action ++ [BPF_STMT BPF_RET_K default_action].

Record sock_fprog := SockFprog { len : Z; filter : list sock_filter }.

(** The program the builder hands to [prctl]; [len] is an [unsigned short].
    [alloc_ok] says whether [calloc] succeeded, [prctl_ok] whether the kernel
    accepted the program. *)
Definition build_seccomp_bpf (a : arch) (syscalls : list Z) (match_action default_action : Z)
  (alloc_ok : bool) (prctl_ok : sock_fprog -> bool) : option sock_fprog :=
  if negb alloc_ok then None
  else
    let f := seccomp_insns a syscalls match_action default_action in
    let prog := SockFprog (Z.of_nat (length f) mod 0x10000) f in
    if prctl_ok prog then Some prog else None.

(** ** Policy selection *)

Definition seccomp_deny_action (cfg : Config) : Z :=
  match seccomp_default cfg with
  | SECCOMP_DEFAULT_KILL => SECCOMP_RET_KILL_PROCESS
  | SECCOMP_DEFAULT_LOG => SECCOMP_RET_LOG
  | SECCOMP_DEFAULT_ERRNO => Z.lor SECCOMP_RET_ERRNO (Z.land 1 0xFFFF)   (* EPERM *)
  end.

Inductive seccomp_result :=
  | SeccompError                           (* returns -1, nothing installed *)
  | SeccompNoFilter                        (* returns 0 with a warning *)
  | SeccompInstalled (prog : sock_fprog).

Definition apply_seccomp (a : arch) (cfg : Config) (alloc_ok : bool) (prctl_ok : sock_fprog -> bool)
  : seccomp_result :=
  let deny := seccomp_deny_action cfg in
  let loaded r := match r with Some prog => SeccompInstalled prog | None => SeccompError end in
  if seccomp_allow_mode cfg then
    match allowed_syscalls cfg with
    | [] => SeccompError
    | _ => loaded (build_seccomp_bpf a (allowed_syscalls cfg) SECCOMP_RET_ALLOW deny alloc_ok prctl_ok)
    end
  else
    match blocked_syscalls cfg with
    | [] => SeccompNoFilter
    | _ => loaded (build_seccomp_bpf a (blocked_syscalls cfg) deny SECCOMP_RET_ALLOW alloc_ok prctl_ok)
    end.

(** ** The machine *)

(** The fields the programs read; [args[0]] is 64 bits wide, little endian. *)
Record seccomp_data := SeccompData { sd_nr : Z; sd_arch : Z; sd_arg0 : Z }.

Definition load (d : seccomp_data) (off : Z) : option Z :=
  if off =? OFF_NR then Some (sd_nr d)
  else if off =? OFF_ARCH then Some (sd_arch d)
  else if off =? OFF_ARG0_LO then Some (wrap32 (sd_arg0 d))
  else None.

(** [run fuel prog acc d]: [None] when the program runs off its end, uses an
    unknown instruction, or the fuel is spent. *)
Fixpoint run (fuel : nat) (prog : list sock_filter) (acc : Z) (d : seccomp_data) : option Z :=
  match fuel, prog with
  | S fuel', i :: rest =>
      if code i =? BPF_RET_K then Some (k i)
      else if code i =? BPF_LD_W_ABS then
        match load d (k i) with Some v => run fuel' rest v d | None => None end
      else if code i =? BPF_JEQ_K then
        run fuel' (drop (Z.to_nat (if acc =? k i then jt i else jf i)) rest) acc d
      else if code i =? BPF_JSET_K then
        run fuel' (drop (Z.to_nat (if hasbit acc (k i) then jt i else jf i)) rest) acc d
      else None
  | _, _ => None
  end.

(** The kernel copies [len] instructions from [filter]. *)
Definition run_filter (p : sock_fprog) (d : seccomp_data) : option Z :=
  let prog := take (Z.to_nat (len p)) (filter p) in run (length prog) prog 0 d.

(** ** Correctness *)

Definition filter_spec (a : arch) (syscalls : list Z) (match_action default_action : Z)
  (d : seccomp_data) : Z :=
  if negb (sd_arch d =? AUDIT_ARCH a) then SECCOMP_RET_KILL_PROCESS
  else if is_x86_64 a && hasbit (sd_nr d) 0x40000000 then SECCOMP_RET_KILL_PROCESS
  else if bool_decide (sd_nr d ∈ wrap32 <$> syscalls) then match_action
  else default_action.

(** One step of each instruction. *)
Lemma run_ld fuel off v rest acc d :
  load d off = Some v ->
  run (S fuel) (SockFilter BPF_LD_W_ABS 0 0 off :: rest) acc d = run fuel rest v d.
Proof. intros H. cbn -[load]. by rewrite H. Qed.

Lemma run_jeq fuel kk t f rest acc d :
  run (S fuel) (SockFilter BPF_JEQ_K t f kk :: rest) acc d
  = run fuel (drop (Z.to_nat (if acc =? kk then t else f)) rest) acc d.
Proof. done. Qed.

Lemma run_jset fuel kk t f rest acc d :
  run (S fuel) (SockFilter BPF_JSET_K t f kk :: rest) acc d
  = run fuel (drop (Z.to_nat (if hasbit acc kk then t else f)) rest) acc d.
Proof. done. Qed.

Lemma run_rules fuel syscalls ma da nr d :
  (2 * length syscalls < fuel)%nat ->
  run fuel (seccomp_rules syscalls ma ++ [BPF_STMT BPF_RET_K da]) nr d
  = Some (if bool_decide (nr ∈ wrap32 <$> syscalls) then ma else da).
Proof.
  revert fuel. induction syscalls as [|s l IH]; intros fuel Hf.
  - destruct fuel; [cbn in Hf; lia|]. done.
  - destruct fuel as [|[|fuel]]; [cbn in Hf; lia..|].
    rewrite fmap_cons, elem_of_cons_bool. cbn -[wrap32 Nat.mul]. destruct (nr =? wrap32 s); [done|].
    cbn [orb]. rewrite <- (IH (S fuel)) by (cbn in Hf; lia). done.
Qed.

Lemma run_insns a syscalls ma da d :
  let f := seccomp_insns a syscalls ma da in
  run (length f) f 0 d = Some (filter_spec a syscalls ma da d).
Proof.
  unfold seccomp_insns, filter_spec. cbn zeta. rewrite !length_app.
  assert (Hlen : length (seccomp_rules syscalls ma) = (2 * length syscalls)%nat)
    by (induction syscalls; cbn in *; lia).
  rewrite Hlen. unfold seccomp_prologue, BPF_STMT, BPF_JUMP.
  destruct a; cbn [length is_x86_64 app Nat.add andb negb];
    rewrite (run_ld _ OFF_ARCH (sd_arch d)), run_jeq by done;
    (destruct (sd_arch d =? _); [|done]); cbn [negb]; change (Z.to_nat 1) with 1%nat;
    cbn [drop]; rewrite (run_ld _ OFF_NR (sd_nr d)) by done;
    [rewrite run_jset by done; destruct (hasbit (sd_nr d) 0x40000000); [done|];
     change (Z.to_nat 1) with 1%nat; cbn [drop]|..];
    apply run_rules; lia.
Qed.

Lemma length_insns a syscalls ma da :
  length (seccomp_insns a syscalls ma da)
  = (5 + (if is_x86_64 a then 2 else 0) + 2 * length syscalls)%nat.
Proof.
  unfold seccomp_insns. rewrite !length_app.
  assert (Hlen : length (seccomp_rules syscalls ma) = (2 * length syscalls)%nat)
    by (induction syscalls; cbn in *; lia).
  rewrite Hlen. destruct a; cbn [length seccomp_prologue is_x86_64 app]; lia.
Qed.

(** Within the array bounds of a [Config], the truncation to an [unsigned
    short] loses nothing. *)
Lemma build_runs a syscalls ma da alloc_ok prctl_ok p d :
  (length syscalls <= MAX_ALLOWED_SC)%nat ->
  build_seccomp_bpf a syscalls ma da alloc_ok prctl_ok = Some p ->
  run_filter p d = Some (filter_spec a syscalls ma da d)
  /\ len p = Z.of_nat (length (filter p)) /\ len p <= 4096 /\ prctl_ok p = true.
Proof.
  intros Hl. unfold build_seccomp_bpf. destruct alloc_ok; cbn [negb]; [|done].
  set (f := seccomp_insns a syscalls ma da).
  assert (Hf : (length f <= 1031)%nat).
  { subst f. rewrite length_insns. unfold MAX_ALLOWED_SC in Hl. case_match; lia. }
  pose proof (run_insns a syscalls ma da d : run (length f) f 0 d = _) as Hrun.
  clearbody f. rewrite Z.mod_small by lia. destruct (prctl_ok _) eqn:E; [|done]. intros [= <-].
  unfold run_filter. cbn [len filter]. rewrite Nat2Z.id, take_ge by done.
  repeat split; [done|lia|done].
Qed.

(** Syscall numbers in range are matched as they are. *)
Lemma wrap32_nr l : Forall nr_ok l -> wrap32 <$> l = l.
Proof.
  induction 1 as [|n l Hn _ IH]; [done|]. rewrite fmap_cons, IH. f_equal.
  apply Z.mod_small. unfold nr_ok, u32_mod in *. lia.
Qed.

(** ** The installed policy *)

(** What the policy means, for a call on architecture [sd_arch] with number
    [sd_nr]: foreign architectures and (on x86-64) the x32 numbers are killed,
    the rest is decided by the list. *)
Definition seccomp_policy (a : arch) (cfg : Config) (d : seccomp_data) : Z :=
  if negb (sd_arch d =? AUDIT_ARCH a) || (is_x86_64 a && hasbit (sd_nr d) 0x40000000)
  then SECCOMP_RET_KILL_PROCESS
  else if seccomp_allow_mode cfg
       then if bool_decide (sd_nr d ∈ allowed_syscalls cfg) then SECCOMP_RET_ALLOW
            else seccomp_deny_action cfg
       else if bool_decide (sd_nr d ∈ blocked_syscalls cfg) then seccomp_deny_action cfg
            else SECCOMP_RET_ALLOW.

Lemma filter_spec_list a l ma da d :
  Forall nr_ok l ->
  filter_spec a l ma da d
  = if negb (sd_arch d =? AUDIT_ARCH a) || (is_x86_64 a && hasbit (sd_nr d) 0x40000000)
    then SECCOMP_RET_KILL_PROCESS
    else if bool_decide (sd_nr d ∈ l) then ma else da.
Proof.
  intros Hl. unfold filter_spec. rewrite (wrap32_nr _ Hl).
  by destruct (negb (sd_arch d =? AUDIT_ARCH a)).
Qed.

(** The verdict of the installed program on one call. *)
Lemma installed_filter_runs a cfg alloc_ok prctl_ok p d :
  config_wf cfg -> apply_seccomp a cfg alloc_ok prctl_ok = SeccompInstalled p ->
  run_filter p d = Some (seccomp_policy a cfg d)
  /\ len p = Z.of_nat (length (filter p)) /\ len p <= 4096.
Proof.
  intros Hwf. unfold apply_seccomp, seccomp_policy. destruct (seccomp_allow_mode cfg).
  - destruct (allowed_syscalls cfg) as [|n l] eqn:El; [done|]. rewrite <- El in *.
    destruct (build_seccomp_bpf _ _ _ _ _ _) as [q|] eqn:E; [|done]. intros [= <-].
    apply (build_runs _ _ _ _ _ _ _ d) in E as (-> & ? & ? & _); [|apply Hwf].
    by rewrite filter_spec_list by apply Hwf.
  - destruct (blocked_syscalls cfg) as [|n l] eqn:El; [done|]. rewrite <- El in *.
    destruct (build_seccomp_bpf _ _ _ _ _ _) as [q|] eqn:E; [|done]. intros [= <-].
    apply (build_runs _ _ _ _ _ _ _ d) in E as (-> & ? & ? & _).
    2:{ pose proof (wf_blocked _ Hwf). unfold MAX_BLOCKED_SC, MAX_ALLOWED_SC in *. lia. }
    by rewrite filter_spec_list by apply Hwf.
Qed.

(** C8: whenever [apply_seccomp] installs a filter for a well-formed
    configuration, running that BPF program on any syscall returns exactly the
    verdict of the policy: a foreign architecture or an x32 number is killed,
    in allow-list mode only the listed syscalls are allowed, in deny-list mode
    the listed ones get the deny action and the rest is allowed.  The program
    always terminates with a verdict, and its length fits the 16-bit [len]
    field and the kernel's limit of 4096 instructions. *)
Theorem installed_filter_enforces_policy a cfg alloc_ok prctl_ok p d :
  config_wf cfg -> apply_seccomp a cfg alloc_ok prctl_ok = SeccompInstalled p ->
  run_filter p d = Some (seccomp_policy a cfg d)
  /\ len p = Z.of_nat (length (filter p)) /\ len p <= 4096.
Proof. apply installed_filter_runs. Qed.

Definition demo_config : Config :=
  MkConfig [] [] [] false [101; 165] [] false SECCOMP_DEFAULT_KILL [] [] false true true true true
    false false false None None None None false None 0 0 None None [] [] false [] 0 [] None None [] [].

Lemma demo_config_wf : config_wf demo_config.
Proof. split; cbn; unfold UINT32_MAX, port_ok, nr_ok; repeat constructor; lia. Qed.

(** The demo configuration blocks syscall 101 (ptrace on x86-64): the
    installed filter kills it, and kills its x32 alias too. *)
Lemma installed_filter_enforces_policy_witness :
  exists p, apply_seccomp ArchX86_64 demo_config true (fun _ => true) = SeccompInstalled p
  /\ run_filter p (SeccompData 101 0xC000003E 0) = Some SECCOMP_RET_KILL_PROCESS
  /\ run_filter p (SeccompData (101 + 0x40000000) 0xC000003E 0) = Some SECCOMP_RET_KILL_PROCESS.
Proof.
  eexists. split; [reflexivity|].
  split; (eapply eq_trans;
    [eapply (proj1 (installed_filter_enforces_policy ArchX86_64 demo_config true (fun _ => true) _ _
                      demo_config_wf eq_refl))|vm_compute; reflexivity]).
Defined.

(** [apply_seccomp] fails closed: it reports an error, and installs
    nothing, exactly when the mode is allow-list with an empty list or the
    program could not be loaded; it continues without a filter only for an
    empty deny-list. *)
Theorem apply_seccomp_outcomes a cfg alloc_ok prctl_ok :
  match apply_seccomp a cfg alloc_ok prctl_ok with
  | SeccompError =>
      (seccomp_allow_mode cfg = true /\ allowed_syscalls cfg = [])
      \/ alloc_ok = false \/ exists p, prctl_ok p = false
  | SeccompNoFilter => seccomp_allow_mode cfg = false /\ blocked_syscalls cfg = []
  | SeccompInstalled p => alloc_ok = true /\ prctl_ok p = true
      /\ (if seccomp_allow_mode cfg then allowed_syscalls cfg <> [] else blocked_syscalls cfg <> [])
  end.
Proof.
  unfold apply_seccomp, build_seccomp_bpf.
  destruct (seccomp_allow_mode cfg), (allowed_syscalls cfg), (blocked_syscalls cfg), alloc_ok;
    cbn [negb]; repeat case_match; simplify_eq; eauto 6 with congruence.
Qed.

(** ** The built-in deny-list *)

(** The built-in deny-list is enforced in full.  Appending it never
    truncates: it fits whenever 43 slots are free, and when it succeeds on a
    well-formed deny-list configuration and the filter is installed, every
    syscall of the list that exists on the architecture gets the deny action
    (or is killed as an x32 number). *)
Theorem builtin_denylist_enforced nr x86_64 c a alloc_ok prctl_ok :
  nr_table_ok nr -> config_wf c -> seccomp_allow_mode c = false ->
  (length (blocked_syscalls c) + 43 <= MAX_BLOCKED_SC)%nat ->
  exists c', cfg_add_builtin_denylist nr x86_64 c = Some c'
    /\ forall p s n arg, apply_seccomp a c' alloc_ok prctl_ok = SeccompInstalled p ->
         s ∈ builtin_denylist x86_64 -> nr s = Some n ->
         run_filter p (SeccompData n (AUDIT_ARCH a) arg)
         = Some (if is_x86_64 a && hasbit n 0x40000000 then SECCOMP_RET_KILL_PROCESS
                 else seccomp_deny_action c).
Proof.
  intros Hnr Hwf Hm Hl. unfold cfg_add_builtin_denylist.
  destruct (add_denylist_fits nr (builtin_denylist x86_64) c) as (c' & Hc').
  { destruct x86_64; cbn; lia. }
  exists c'. split; [done|]. intros p s n arg Hp Hs Hn.
  destruct (tightening_denylist nr _ Hnr _ _ Hc') as (Ht & Hwf'). specialize (Hwf' Hwf).
  destruct (add_denylist_mode _ _ _ _ Hc') as (Hm' & Hd'). rewrite Hm in Hm'.
  assert (Hin : n ∈ blocked_syscalls c').
  { rewrite (add_denylist_blocks _ _ _ _ Hc'). apply elem_of_app. right. apply list_elem_of_omap.
    exists s. split; [done|]. apply resolve_syscall_name; [|done].
    pose proof (denylist_in_table_true x86_64) as H. unfold denylist_in_table in H.
    rewrite forallb_forall in H. specialize (H s (proj1 (list_elem_of_In _ _) Hs)).
    by apply bool_decide_eq_true in H. }
  unfold apply_seccomp in Hp. rewrite Hm' in Hp.
  destruct (blocked_syscalls c') as [|m l] eqn:El; [done|]. rewrite <- El in *.
  destruct (build_seccomp_bpf _ _ _ _ _ _) as [q|] eqn:E; [|done]. injection Hp as ->.
  apply (build_runs _ _ _ _ _ _ _ (SeccompData n (AUDIT_ARCH a) arg)) in E as (-> & _).
  2:{ pose proof (wf_blocked _ Hwf'). unfold MAX_BLOCKED_SC, MAX_ALLOWED_SC in *. lia. }
  rewrite filter_spec_list by apply Hwf'. cbn [sd_arch sd_nr]. rewrite Z.eqb_refl. cbn [negb orb].
  rewrite (bool_decide_eq_true_2 _ Hin). unfold seccomp_deny_action. by rewrite Hd'.
Qed.

Definition demo_nr (s : string) : option Z :=
  if bool_decide (s = "ptrace"%string) then Some 101
  else if bool_decide (s = "mount"%string) then Some 165 else None.

Lemma demo_nr_ok : nr_table_ok demo_nr.
Proof. intros s n. unfold demo_nr. repeat case_match; intros; simplify_eq; unfold nr_ok; lia. Qed.

Lemma builtin_denylist_enforced_witness :
  exists c', cfg_add_builtin_denylist demo_nr true demo_config = Some c'
  /\ forall p, apply_seccomp ArchX86_64 c' true (fun _ => true) = SeccompInstalled p ->
     run_filter p (SeccompData 165 0xC000003E 0) = Some SECCOMP_RET_KILL_PROCESS.
Proof.
  destruct (builtin_denylist_enforced demo_nr true demo_config ArchX86_64 true (fun _ => true))
    as (c' & Hc & H).
  - apply demo_nr_ok.
  - apply demo_config_wf.
  - reflexivity.
  - cbn. unfold MAX_BLOCKED_SC. lia.
  - exists c'. split; [exact Hc|]. intros p Hp.
    apply (H p "mount"%string 165 0 Hp); [vm_compute; set_solver|reflexivity].
Defined.
