(* ===== verification/Profile.v ===== *)
(** * Profile files

    Models the profile loader of [src/compartment.h]: which tool owns which
    directive, the trust checks on a policy source, the line parser, one
    function for what each directive does, the transactional
    [load_profile_file] and the search of [resolve_and_load_profile].

    The outside world (the file system, the environment, the password
    database, the architecture's syscall numbers) is a record [world].  The
    functions thread the [Config] they mutate and return it with the result
    code, also on failure, so that what a failed load leaves behind can be
    stated.  [depth] counts up to [MAX_INHERIT_DEPTH] in the code; here the
    remaining depth counts down and the recursion is structural. *)

From S2P Require Import Prelude CLib Config.
From Stdlib Require Import Ascii.

#[local] Open Scope Z_scope.

Definition PROFILE_SEARCH_USER : Z := 1.
Definition PROFILE_OWNER_ROOT : Z := 2.
Definition PROFILE_TOOL_ROOT : Z := 4.

Inductive profile_rc := PROFILE_OK | PROFILE_NOT_FOUND | PROFILE_ERROR.

#[export] Instance profile_rc_eq_dec : EqDecision profile_rc.
Proof. solve_decision. Defined.

(** ** The outside world *)

(** [open (path, O_RDONLY)] on a profile: absent ([ENOENT] or [ENOTDIR]),
    another error, or a descriptor with what [fstat] says ([None] when it
    fails) and the bytes behind it. *)
Inductive open_result := OpenAbsent | OpenFailed | Opened (st : option stat) (content : cstring).

Record world := {
  w_getuid : Z;
  w_home : option cstring;                      (* getenv ("HOME") *)
  w_user : option cstring;                      (* getenv ("USER") *)
  w_pw_name : option cstring;                   (* getpwuid (getuid ())->pw_name *)
  w_stat : cstring -> option stat;
  w_open : cstring -> open_result;
  w_opendir : cstring -> option (option stat);  (* open (O_DIRECTORY), then fstat *)
  w_realpath : cstring -> option cstring;
  w_fdopen : cstring -> bool;
  w_nr : string -> option Z;                    (* the __NR_ macros *)
}.

(** ** Which tool owns which directive *)

Definition directive_is_root_only (d : cstring) : bool :=
  existsb (fun s => streq d (lit s))
    ["rootdir"; "uid"; "gid"; "username"; "netns"; "cgroup"; "cap-allow"; "loopback"; "uid-map";
     "gid-map"; "mount-mask"; "rootdir-flags"]
  || has_prefix (lit "mount-") d.

Definition directive_is_user_only (d : cstring) : bool :=
  existsb (fun s => streq d (lit s)) ["workdir"; "cap-drop"; "cap-bounding"; "mask"].

(** ** Trust *)

Definition profile_fd_trusted (getuid : Z) (st : option stat) (flags want_type : Z) : bool :=
  match st with
  | None => false
  | Some s =>
      (Z.land (st_mode s) S_IFMT =? want_type)
      && ((st_uid s =? 0) || (negb (hasbit flags PROFILE_OWNER_ROOT) && (st_uid s =? getuid)))
      && (negb (hasbit (st_mode s) (Z.lor S_IWGRP S_IWOTH))
          || ((want_type =? S_IFDIR) && hasbit (st_mode s) S_ISVTX))
  end.

(** The directory named by a path: [.] without a slash, [/] for a file in the
    root directory. *)
Definition containing_dir (p : cstring) : cstring :=
  match before_last_slash p with
  | None => lit "."
  | Some [] => lit "/"
  | Some d => d
  end.

Definition profile_dir_trusted (w : world) (p : cstring) (flags : Z) : bool :=
  if Nat.leb PATH_MAX (length p) then false
  else match w_opendir w (containing_dir p) with
       | None => false
       | Some st => profile_fd_trusted (w_getuid w) st flags S_IFDIR
       end.

(** The bytes of a trusted profile, or the result code. *)
Definition profile_fopen_trusted (w : world) (p : cstring) (flags : Z) : profile_rc + cstring :=
  match w_open w p with
  | OpenAbsent => inl PROFILE_NOT_FOUND
  | OpenFailed => inl PROFILE_ERROR
  | Opened st content =>
      if negb (profile_fd_trusted (w_getuid w) st flags S_IFREG) then inl PROFILE_ERROR
      else if negb (profile_dir_trusted w p flags) then inl PROFILE_ERROR
      else if match w_realpath w p with
              | Some r => negb (streq r p) && negb (profile_dir_trusted w r flags)
              | None => false
              end then inl PROFILE_ERROR
      else if w_fdopen w p then inr content else inl PROFILE_ERROR
  end.

(** ** Lines *)

Definition is_eol (c : ascii) : bool := Ascii.eqb c LF || Ascii.eqb c CR.

(** A hash sign that starts a blank-separated token ends the line. *)
Fixpoint strip_comment (at_start : bool) (s : cstring) : cstring :=
  match s with
  | [] => []
  | c :: r => if Ascii.eqb c "#"%char && at_start then [] else c :: strip_comment (is_blank c) r
  end.

Inductive line_result :=
  | LineTooLong
  | LineSkipped
  | LineDirective (directive value : cstring).

Definition parse_line (line : cstring) (eof : bool) : line_result :=
  let l := rstrip is_eol (until_nul line) in
  if Nat.ltb 0 (length l) && Nat.leb (MAX_LINE - 1) (length l) && negb eof then LineTooLong
  else
    let s := skip is_blank (rstrip is_blank (strip_comment true l)) in
    match s with
    | [] => LineSkipped
    | _ => match sscanf_directive s with
           | None => LineSkipped
           | Some (d, v) => LineDirective d v
           end
    end.

(** ** Directives *)

(** [strtoul] of a uid or gid: the whole value, at most [UINT32_MAX]. *)
Definition parse_id (val : cstring) : option Z :=
  match strtoul 10 val with
  | Some (v, [], erange) => if negb erange && (v <=? UINT32_MAX) then Some v else None
  | _ => None
  end.

Definition UID_LIMIT : Z := 2 ^ 32.

(** The three numbers of [uid-map] and [gid-map], range-checked. *)
Definition parse_id_map (val : cstring) : option (Z * Z * Z) :=
  match sscanf_three val with
  | Some (inside, outside, count) =>
      if (count =? 0) || (UID_LIMIT <=? inside) || (UID_LIMIT <=? outside) || (UID_LIMIT <? count)
         || (UID_LIMIT <? wrap64 (inside + count)) || (UID_LIMIT <? wrap64 (outside + count))
      then None else Some (inside, outside, count)
  | None => None
  end.

Definition print_id_map (m : Z * Z * Z) : cstring :=
  let '(inside, outside, count) := m in
  print_u inside ++ [SP] ++ print_u outside ++ [SP] ++ print_u count ++ [LF].

Definition add_str (get : Config -> list cstring) (set : list cstring -> Config -> Config)
  (limit : nat) (val : cstring) (c : Config) : option Config :=
  l ← append_limited limit (get c) val; Some (set l c).

(** [true]: allow-list; [false]: deny-list. *)
Definition parse_list_mode (val : cstring) : option bool :=
  if streq val (lit "allow") || streq val (lit "allowlist") then Some true
  else if streq val (lit "deny") || streq val (lit "denylist") then Some false
  else None.

Definition parse_seccomp_default (val : cstring) : option SeccompAction :=
  if streq val (lit "errno") then Some SECCOMP_DEFAULT_ERRNO
  else if streq val (lit "kill") then Some SECCOMP_DEFAULT_KILL
  else if streq val (lit "log") then Some SECCOMP_DEFAULT_LOG
  else None.

(** The root-specific half of the directive dispatch. *)
Definition apply_root_directive (d val : cstring) (cfg : Config) : option Config :=
  let d_is s := streq d (lit s) in
  if d_is "rootdir" then Some (set_rootdir (Some val) cfg)
  else if d_is "uid" then v ← parse_id val; Some (set_uid v cfg)
  else if d_is "gid" then v ← parse_id val; Some (set_gid v cfg)
  else if d_is "username" then Some (set_username (Some val) cfg)
  else if d_is "netns" then Some (set_netns (Some val) cfg)
  else if d_is "cgroup" then add_str cgroups set_cgroups MAX_PATHS val cfg
  else if d_is "cap-allow" then add_str cap_allowed_names set_cap_allowed_names MAX_ENV_VARS val cfg
  else if d_is "loopback" then b ← parse_bool val; Some (set_loopback b cfg)
  else if d_is "uid-map" || d_is "gid-map" then
    m ← parse_id_map val;
    Some (if bool_decide (head d = Some "u"%char)
          then set_uid_map (Some (print_id_map m)) cfg
          else set_gid_map (Some (print_id_map m)) cfg)
  else if d_is "mount-mask" then add_str mount_masks set_mount_masks MAX_PATHS val cfg
  else if d_is "rootdir-flags" then
    f ← parse_mount_flag_list val; Some (set_rootdir_flags (Z.lor (rootdir_flags cfg) f) cfg)
  else if has_prefix (lit "mount-") d && negb (mount_flag_for_directive (drop 6 d) =? 0) then
    cfg_add_mount_flag cfg val (mount_flag_for_directive (drop 6 d))
  else None.

(** The body of the directive dispatch.  [None] rejects the profile; the
    configuration is unchanged then.  [inherit] loads the named profile. *)
Definition apply_directive (nr : string -> option Z) (inherit : Config -> cstring -> option Config)
  (d val : cstring) (cfg : Config) : option Config :=
  let d_is s := streq d (lit s) in
  if d_is "ro" then cfg_add_path cfg val PATH_RO true
  else if d_is "rw" then cfg_add_path cfg val PATH_RW true
  else if d_is "exec" then cfg_add_path cfg val PATH_EXEC true
  else if d_is "rwx" then cfg_add_path cfg val PATH_RWX true
  else if d_is "block" then
    match resolve_syscall nr val with Some n => cfg_add_blocked cfg n | None => Some cfg end
  else if d_is "allow" then
    match resolve_syscall nr val with Some n => cfg_add_allowed cfg n | None => Some cfg end
  else if d_is "net-bind" then
    l ← cfg_add_net_port val (net_bind_ports cfg); Some (set_net_bind_ports l cfg)
  else if d_is "net-connect" then
    l ← cfg_add_net_port val (net_connect_ports cfg); Some (set_net_connect_ports l cfg)
  else if d_is "net-default" then
    if streq val (lit "deny") then Some (set_net_default_deny true cfg)
    else if streq val (lit "ignore") then if net_default_deny cfg then None else Some cfg
    else None
  else if d_is "seccomp-default" then
    a ← parse_seccomp_default val; Some (set_seccomp_default a cfg)
  else if d_is "seccomp-mode" then
    m ← parse_list_mode val; Some (set_seccomp_allow_mode m cfg)
  else if d_is "env-deny" then cfg_add_env_deny cfg val
  else if d_is "env-allow" then cfg_add_env_allow cfg val
  else if d_is "env-mode" then
    m ← parse_list_mode val; Some (set_env_allow_mode m cfg)
  else if d_is "workdir" then Some (set_workdir (Some val) cfg)
  else if d_is "landlock" then b ← profile_switch val; Some (set_use_landlock b cfg)
  else if d_is "seccomp" then b ← profile_switch val; Some (set_use_seccomp b cfg)
  else if d_is "no-new-privs" then b ← profile_switch val; Some (set_use_no_new_privs b cfg)
  else if d_is "env-sanitize" then b ← profile_switch val; Some (set_use_env_sanitize b cfg)
  else if d_is "audit" then b ← parse_bool val; Some (set_audit b cfg)
  else if d_is "audit-log" then Some (set_audit true (set_audit_log_dir (Some val) cfg))
  else if d_is "inherit" then inherit cfg val
  else if d_is "cap-drop" || d_is "cap-bounding" then
    _ ← resolve_cap val; add_str cap_drop_names set_cap_drop_names MAX_ENV_VARS val cfg
  else if d_is "mask" then cfg_add_mask cfg val
  else apply_root_directive d val cfg.

(** ** Loading *)

Definition user_name (w : world) : option cstring :=
  match w_user w with Some u => Some u | None => w_pw_name w end.

(** One iteration of the line loop: [None] rejects the profile. *)
Definition load_line (w : world) (flags : Z) (inherit : Config -> cstring -> option Config)
  (line : cstring) (eof : bool) (cfg : Config) : option Config :=
  match parse_line line eof with
  | LineTooLong => None
  | LineSkipped => Some cfg
  | LineDirective d value =>
      val ← expand_var (home_dir_usable (w_getuid w) (w_stat w) (w_home w)) (user_name w) value;
      let is_root_tool := hasbit flags PROFILE_TOOL_ROOT in
      if negb is_root_tool && directive_is_root_only d then Some cfg
      else if is_root_tool && directive_is_user_only d then Some cfg
      else apply_directive (w_nr w) inherit d val cfg
  end.

Fixpoint load_lines (w : world) (flags : Z) (inherit : Config -> cstring -> option Config)
  (lines : list (cstring * bool)) (cfg : Config) : profile_rc * Config :=
  match lines with
  | [] => (PROFILE_OK, cfg)
  | (line, eof) :: rest =>
      match load_line w flags inherit line eof cfg with
      | None => (PROFILE_ERROR, cfg)
      | Some cfg' => load_lines w flags inherit rest cfg'
      end
  end.

(** The file loader and the search, given the parser for the remaining
    depth. *)
Section with_loader.
Variable load_into : Z -> Config -> cstring -> profile_rc * Config.

Definition load_file_with (flags : Z) (cfg : Config) (p : cstring) : profile_rc * Config :=
  match load_into flags cfg p with
  | (PROFILE_OK, tmp) => (PROFILE_OK, tmp)
  | (rc, _) => (rc, cfg)
  end.

(** Recording the source of a profile that was loaded. *)
Definition note_source (p : cstring) (r : profile_rc * Config) : profile_rc * Config :=
  match r with
  | (PROFILE_OK, c) => (PROFILE_OK, set_profile_source (Some p) c)
  | r => r
  end.

Definition etc_path (name : cstring) : cstring := lit "/etc/compartment/" ++ name ++ lit ".conf".
Definition user_path (home name : cstring) : cstring :=
  home ++ lit "/.config/compartment/" ++ name ++ lit ".conf".

(** The third place of the search. *)
Definition resolve_user_with (w : world) (flags : Z) (cfg : Config) (name : cstring)
  : profile_rc * Config :=
  if hasbit flags PROFILE_SEARCH_USER then
    match w_home w with
    | Some (("/"%char :: _) as home) =>
        if Nat.ltb (length (user_path home name)) PATH_MAX
        then note_source (user_path home name) (load_file_with flags cfg (user_path home name))
        else (PROFILE_NOT_FOUND, cfg)
    | _ => (PROFILE_NOT_FOUND, cfg)
    end
  else (PROFILE_NOT_FOUND, cfg).

Definition resolve_with (w : world) (flags : Z) (cfg : Config) (name : cstring)
  : profile_rc * Config :=
  if strchr name "/"%char then note_source name (load_file_with flags cfg name)
  else
    let etc :=
      if Nat.ltb (length (etc_path name)) PATH_MAX
      then load_file_with (Z.ldiff flags PROFILE_SEARCH_USER) cfg (etc_path name)
      else (PROFILE_NOT_FOUND, cfg) in
    match etc.1 with
    | PROFILE_NOT_FOUND => resolve_user_with w flags cfg name
    | _ => note_source (etc_path name) etc
    end.

(** The sibling file an [inherit] line tries first. *)
Definition sibling_path (p name : cstring) : option cstring :=
  if strchr name "/"%char then None
  else match before_last_slash (take (PATH_MAX - 1) p) with
       | None => None
       | Some dir =>
           let s := dir ++ lit "/" ++ name ++ lit ".conf" in
           if Nat.ltb (length s) PATH_MAX then Some s else None
       end.

Definition inherit_with (w : world) (flags : Z) (p : cstring) (cfg : Config) (name : cstring)
  : option Config :=
  let '(found, cfg1) :=
    match sibling_path p name with
    | Some s => load_file_with flags cfg s
    | None => (PROFILE_NOT_FOUND, cfg)
    end in
  let '(found', cfg2) :=
    match found with
    | PROFILE_NOT_FOUND => resolve_with w flags cfg1 name
    | _ => (found, cfg1)
    end in
  match found' with PROFILE_OK => Some cfg2 | _ => None end.
End with_loader.

Fixpoint load_profile_into (remaining : nat) (w : world) (flags : Z) (cfg : Config) (p : cstring)
  : profile_rc * Config :=
  match profile_fopen_trusted w p flags with
  | inl rc => (rc, cfg)
  | inr content =>
      let inherit :=
        match remaining with
        | O => fun _ _ => None                       (* inherit depth limit reached *)
        | S n => inherit_with (load_profile_into n w) w flags p
        end in
      load_lines w flags inherit (fgets_all (MAX_LINE - 1) content) cfg
  end.

Definition load_profile_file (depth : nat) (w : world) (flags : Z) (cfg : Config) (p : cstring)
  : profile_rc * Config := load_file_with (load_profile_into (MAX_INHERIT_DEPTH - depth) w) flags cfg p.

Definition resolve_and_load_profile (depth : nat) (w : world) (flags : Z) (cfg : Config)
  (name : cstring) : profile_rc * Config :=
  resolve_with (load_profile_into (MAX_INHERIT_DEPTH - depth) w) w flags cfg name.
