(* ===== verification/ProfileProps.v ===== *)
(** * What loading a profile guarantees

    Array bounds and one-way tightening through any chain of [inherit] lines,
    the transaction, fail-closed parsing, and that the bytes of an untrusted
    file never reach the policy. *)

From S2P Require Import Prelude CLib Config ConfigProps Seccomp Profile.
From Stdlib Require Import Ascii.

#[local] Open Scope Z_scope.

(** ** Bounds and tightening *)

Lemma profile_switch_on v b : profile_switch v = Some b -> b = true.
Proof. unfold profile_switch. intros ([] & _ & H)%bind_Some; naive_solver. Qed.

Lemma strtoul_nonneg s v r e : strtoul 10 s = Some (v, r, e) -> 0 <= v.
Proof.
  unfold strtoul. destruct (scan_number 10 s) as [[[neg x] t]|] eqn:E; [|done].
  apply scan_number_nonneg in E; [|done]. case_match; intros [= <- _ _]; [done|].
  destruct neg; [|done]. apply wrap64_range.
Qed.

Lemma parse_id_range v n : parse_id v = Some n -> 0 <= n <= UINT32_MAX.
Proof.
  unfold parse_id. destruct (strtoul 10 v) as [[[x [|]] e]|] eqn:E; try done.
  apply strtoul_nonneg in E. case_match eqn:Ei; [|done]. intros [= <-]. lia.
Qed.

Lemma tightening_add_str get set limit v :
  (forall l c, retains c (set (get c ++ l) c)) ->
  (forall l c, config_wf c -> (length l <= limit)%nat -> config_wf (set l c)) ->
  tightening (add_str get set limit v).
Proof.
  intros Ht Hw c c' H. unfold add_str in H. solve_append. split; [apply Ht|].
  intros Hc. apply Hw; [done|]. rewrite length_app. cbn. lia.
Qed.

Ltac solve_setter :=
  split; [split; cbn; auto with comp_db; reflexivity|intros []; split; cbn; try assumption].

(** An unknown syscall name changes nothing. *)
Lemma tightening_resolved nr v f :
  nr_table_ok nr -> (forall n, nr_ok n -> tightening (fun c => f c n)) ->
  tightening (fun c => match resolve_syscall nr v with Some n => f c n | None => Some c end).
Proof.
  intros Hnr Hf. destruct (resolve_syscall nr v) as [n|] eqn:En; [|apply tightening_ret].
  by eapply Hf, resolve_syscall_range.
Qed.

(** Every directive other than [inherit] is a tightening, and [inherit] is one
    when the load it triggers is. *)
Lemma tightening_directive nr inherit d v :
  nr_table_ok nr -> (forall n, tightening (fun c => inherit c n)) ->
  tightening (apply_directive nr inherit d v).
Proof.
  intros Hnr Hinh c c' H. unfold apply_directive, apply_root_directive in H.
  repeat match type of H with
         | (if ?b then _ else _) = Some _ => destruct b eqn:?
         end.
  all: try discriminate H.
  all: try (by eapply tightening_add_path). all: try (by eapply tightening_bind).
  all: try (by eapply tightening_connect). all: try (by eapply tightening_add_env_deny).
  all: try (by eapply tightening_add_env_allow). all: try (by eapply tightening_add_mask).
  all: try (by eapply tightening_add_mount_flag). all: try (by eapply Hinh).
  all: try (by eapply (tightening_resolved nr v cfg_add_blocked); eauto using tightening_add_blocked).
  all: try (by eapply (tightening_resolved nr v cfg_add_allowed); eauto using tightening_add_allowed).
  all: solve_append.
  all: repeat match goal with
              | H : profile_switch _ = Some _ |- _ => apply profile_switch_on in H as ->
              | H : parse_id _ = Some _ |- _ => apply parse_id_range in H
              end.
  all: try by solve_setter.
  all: try (by eapply tightening_ret).
  all: try (eapply tightening_add_str; [| |eassumption];
            [intros ? ?; split; cbn; auto with comp_db; try reflexivity; by eexists
            |intros ? ? [] ?; split; cbn; assumption]).
  case_match; solve_setter.
Qed.

(** The two halves of "a load keeps what was there and stays in bounds", for a
    function that returns the configuration also when it fails. *)
Definition sound_load (r : Config -> profile_rc * Config) : Prop :=
  forall c, retains c (r c).2 /\ (config_wf c -> config_wf (r c).2).

Lemma sound_load_lines w flags inherit lines :
  nr_table_ok (w_nr w) -> (forall n, tightening (fun c => inherit c n)) ->
  sound_load (load_lines w flags inherit lines).
Proof.
  intros Hnr Hinh. induction lines as [|[line eof] rest IH]; intros c; cbn; [by split|].
  destruct (load_line w flags inherit line eof c) as [c1|] eqn:E; [|by split].
  assert (H : retains c c1 /\ (config_wf c -> config_wf c1)).
  { unfold load_line in E. destruct (parse_line line eof) as [| |d v]; [done|by simplify_eq|].
    apply bind_Some in E as (val & _ & E). repeat case_match; simplify_eq; try done.
    by eapply tightening_directive. }
  destruct H, (IH c1). split; [by etrans|auto].
Qed.

Section loader.
Context (w : world) (load_into : Z -> Config -> cstring -> profile_rc * Config).
Hypothesis Hload : forall flags p, sound_load (fun c => load_into flags c p).

Lemma sound_load_file flags p : sound_load (fun c => load_file_with load_into flags c p).
Proof.
  intros c. unfold load_file_with. specialize (Hload flags p c).
  by destruct (load_into flags c p) as [[] tmp].
Qed.

Lemma sound_note_source p r : sound_load r -> sound_load (fun c => note_source p (r c)).
Proof.
  intros Hr c. destruct (Hr c) as (H1 & H2). unfold note_source.
  destruct (r c) as [[] c']; [|done..]. cbn in *. split.
  - etrans; [done|]. split; cbn; auto with comp_db; reflexivity.
  - intros Hc. destruct (H2 Hc). by split.
Qed.

Lemma sound_resolve flags n : sound_load (fun c => resolve_with load_into w flags c n).
Proof.
  intros c. unfold resolve_with.
  destruct (strchr n "/"); [by apply (sound_note_source n _ (sound_load_file _ _))|].
  assert (Hu : retains c (resolve_user_with load_into w flags c n).2
               /\ (config_wf c -> config_wf (resolve_user_with load_into w flags c n).2)).
  { unfold resolve_user_with. repeat case_match; try by split.
    by apply (sound_note_source _ _ (sound_load_file _ _)). }
  destruct (Nat.ltb (length (etc_path n)) PATH_MAX); cbn [fst]; [|done].
  pose proof (sound_note_source (etc_path n) _
    (sound_load_file (Z.ldiff flags PROFILE_SEARCH_USER) (etc_path n)) c) as He.
  cbn in He. by destruct (load_file_with _ _ _ _) as [[] c'].
Qed.

Lemma tightening_inherit flags p n : tightening (fun c => inherit_with load_into w flags p c n).
Proof.
  intros c c'. unfold inherit_with.
  assert (H : forall r : profile_rc * Config,
    retains c r.2 /\ (config_wf c -> config_wf r.2) ->
    (let '(found', cfg2) := match r.1 with
       | PROFILE_NOT_FOUND => resolve_with load_into w flags r.2 n | _ => r end in
     match found' with PROFILE_OK => Some cfg2 | _ => None end) = Some c' ->
    retains c c' /\ (config_wf c -> config_wf c')).
  { intros [[] c1] (H1 & H2); cbn; [by intros [= <-]| |done].
    destruct (sound_resolve flags n c1) as (H3 & H4).
    destruct (resolve_with _ _ _ _ _) as [[] c2]; [|done..]. intros [= <-]. cbn in *.
    split; [by etrans|auto]. }
  destruct (sibling_path p n) as [s|].
  - specialize (H _ (sound_load_file flags s c)).
    by destruct (load_file_with load_into flags c s) as [[] ?].
  - apply (H (PROFILE_NOT_FOUND, c)). by split.
Qed.
End loader.

Lemma sound_load_into n w flags p :
  nr_table_ok (w_nr w) -> sound_load (fun c => load_profile_into n w flags c p).
Proof.
  intros Hnr. revert flags p. induction n as [|n IH]; intros flags p c; cbn [load_profile_into];
    (destruct (profile_fopen_trusted w p flags) as [rc|content]; [by split|]);
    apply sound_load_lines; try done. intros. by apply tightening_inherit.
Qed.

Lemma sound_resolve_and_load n w flags name :
  nr_table_ok (w_nr w) -> sound_load (fun c => resolve_and_load_profile n w flags c name).
Proof. intros Hnr. apply sound_resolve. intros f p. by apply sound_load_into. Qed.

(** ** The transaction *)

Definition transactional (r : Config -> profile_rc * Config) : Prop :=
  forall c, (r c).1 <> PROFILE_OK -> (r c).2 = c.

Lemma transactional_file load_into flags p :
  transactional (fun c => load_file_with load_into flags c p).
Proof. intros c. unfold load_file_with. by destruct (load_into flags c p) as [[] tmp]. Qed.

Lemma transactional_note_source p r : transactional r -> transactional (fun c => note_source p (r c)).
Proof. intros Hr c. specialize (Hr c). unfold note_source. by destruct (r c) as [[] c']. Qed.

Lemma transactional_resolve load_into w flags n :
  transactional (fun c => resolve_with load_into w flags c n).
Proof.
  intros c. unfold resolve_with.
  destruct (strchr n "/"); [by apply (transactional_note_source n _ (transactional_file _ _ _))|].
  assert (Hu : transactional (fun c => resolve_user_with load_into w flags c n)).
  { intros c0. unfold resolve_user_with. repeat case_match; try done.
    by apply (transactional_note_source _ _ (transactional_file _ _ _)). }
  destruct (Nat.ltb (length (etc_path n)) PATH_MAX); cbn [fst]; [|apply Hu].
  pose proof (transactional_note_source (etc_path n) _
    (transactional_file load_into (Z.ldiff flags PROFILE_SEARCH_USER) (etc_path n)) c) as He.
  cbn in He. destruct (load_file_with _ _ _ _) as [[] c']; cbn [fst]; [done|apply Hu|done].
Qed.


(** ** A concrete world *)

Definition root_file (content : cstring) : open_result :=
  Opened (Some {| st_mode := 0x81A4; st_uid := 0 |}) content.     (* 0100644 *)

(** A file system with the given profiles, in directories owned by root. *)
Definition demo_world (files : list (string * cstring)) : world := {|
  w_getuid := 1000;
  w_home := Some (lit "/home/u");
  w_user := Some (lit "u");
  w_pw_name := None;
  w_stat := fun p => if streq p (lit "/home/u") then Some {| st_mode := 0x41C0; st_uid := 1000 |} else None;
  w_open := fun p => match list_find (fun f : string * cstring => lit f.1 = p) files with
                     | Some (_, f) => root_file f.2
                     | None => OpenAbsent
                     end;
  w_opendir := fun _ => Some (Some {| st_mode := 0x41ED; st_uid := 0 |});      (* 0040755 *)
  w_realpath := fun p => Some p;
  w_fdopen := fun _ => true;
  w_nr := fun s => if bool_decide (s = "ptrace"%string) then Some 101 else None;
|}.

Lemma demo_world_nr files : nr_table_ok (w_nr (demo_world files)).
Proof. intros s n. cbn. case_match; [|done]. intros [= <-]. unfold nr_ok. lia. Qed.

Definition text (lines : list string) : cstring := concat ((fun s => lit s ++ [LF]) <$> lines).

Definition demo_files : list (string * cstring) :=
  [("/etc/compartment/strict.conf"%string,
    text ["# strict"; "inherit base"; "rw $HOME/work   # workspace"; "net-default deny"; "block ptrace"]);
   ("/etc/compartment/base.conf"%string,
    text ["ro /usr"; "ro /lib32?"; "env-deny LD_*"; "seccomp on"])].


(** A profile can loosen what is not a list or one of the five switches. *)
Definition tight_config : Config :=
  set_audit true (set_seccomp_allow_mode true (set_env_allow_mode true (set_seccomp_default SECCOMP_DEFAULT_KILL demo_config))).
Definition loosening_files : list (string * cstring) :=
  [("/etc/compartment/loose.conf"%string, text ["audit off"; "seccomp-mode deny"; "env-mode deny"; "seccomp-default log"])].

Lemma profile_can_loosen :
  let '(rc, cfg') := resolve_and_load_profile 0 (demo_world loosening_files) 0 tight_config (lit "loose") in
  rc = PROFILE_OK /\ (audit tight_config, audit cfg') = (true, false)
  /\ (seccomp_allow_mode tight_config, seccomp_allow_mode cfg') = (true, false)
  /\ (env_allow_mode tight_config, env_allow_mode cfg') = (true, false)
  /\ (seccomp_default tight_config, seccomp_default cfg') = (SECCOMP_DEFAULT_KILL, SECCOMP_DEFAULT_LOG).
Proof. vm_compute. repeat split. Qed.

(** ** Fail-closed parsing *)

Definition known_directives : list string :=
  ["ro"; "rw"; "exec"; "rwx"; "block"; "allow"; "net-bind"; "net-connect"; "net-default";
   "seccomp-default"; "seccomp-mode"; "env-deny"; "env-allow"; "env-mode"; "workdir"; "landlock";
   "seccomp"; "no-new-privs"; "env-sanitize"; "audit"; "audit-log"; "inherit"; "cap-drop";
   "cap-bounding"; "mask"; "rootdir"; "uid"; "gid"; "username"; "netns"; "cgroup"; "cap-allow";
   "loopback"; "uid-map"; "gid-map"; "mount-mask"; "rootdir-flags"; "mount-ro"; "mount-nosuid";
   "mount-nodev"; "mount-noexec"].

Lemma mount_flag_known d :
  has_prefix (lit "mount-") d = true -> mount_flag_for_directive (drop 6 d) <> 0 ->
  d ∈ lit <$> ["mount-ro"; "mount-nosuid"; "mount-nodev"; "mount-noexec"].
Proof.
  intros (t & ->)%has_prefix_true. change (drop 6 (lit "mount-" ++ t)) with t.
  unfold mount_flag_for_directive. intros H.
  assert (Ht : t ∈ lit <$> ["ro"; "nosuid"; "nodev"; "noexec"]).
  { repeat match type of H with
           | (if streq t ?x then _ else _) <> _ =>
               destruct (streq t x) eqn:E; [apply streq_true in E as ->; set_solver|clear E]
           end. done. }
  apply list_elem_of_fmap in Ht as (s & -> & Hs).
  apply (list_elem_of_fmap_2' _ _ ("mount-" +:+ s)%string); [|done]. set_solver.
Qed.

Lemma apply_directive_known nr inherit d v c c' :
  apply_directive nr inherit d v c = Some c' -> d ∈ lit <$> known_directives.
Proof.
  unfold apply_directive, apply_root_directive. intros H.
  repeat match type of H with
         | (if streq d ?x || streq d ?y then _ else _) = _ =>
             destruct (streq d x || streq d y) eqn:E;
             [apply orb_true_iff in E as [E|E]; apply streq_true in E as ->;
              apply list_elem_of_fmap_2, list_elem_of_In; cbn; tauto|clear E]
         | (if streq d ?x then _ else _) = _ =>
             destruct (streq d x) eqn:E;
             [apply streq_true in E as ->; apply list_elem_of_fmap_2, list_elem_of_In; cbn; tauto|clear E]
         end.
  case_match eqn:E; [|done]. apply andb_true_iff in E as (E1 & E2).
  apply mount_flag_known in E1; [|by apply negb_true_iff, Z.eqb_neq in E2].
  apply list_elem_of_fmap in E1 as (s & -> & Hs). apply list_elem_of_fmap_2. set_solver.
Qed.

(** A line the loader is willing to accept: short enough, and either empty, a
    directive of the other tool, or a directive it knows. *)
Definition line_understood (flags : Z) (l : cstring * bool) : Prop :=
  match parse_line l.1 l.2 with
  | LineTooLong => False
  | LineSkipped => True
  | LineDirective d _ =>
      (hasbit flags PROFILE_TOOL_ROOT = false /\ directive_is_root_only d = true)
      \/ (hasbit flags PROFILE_TOOL_ROOT = true /\ directive_is_user_only d = true)
      \/ d ∈ lit <$> known_directives
  end.

Lemma load_line_understood w flags inherit line eof c c' :
  load_line w flags inherit line eof c = Some c' -> line_understood flags (line, eof).
Proof.
  unfold load_line, line_understood. cbn [fst snd]. destruct (parse_line line eof); [done..|].
  intros (val & _ & H)%bind_Some. destruct (hasbit flags PROFILE_TOOL_ROOT); cbn in H.
  - case_match; [by auto|]. apply apply_directive_known in H. auto.
  - case_match; [by auto|]. apply apply_directive_known in H. auto.
Qed.

Lemma load_lines_ok w flags inherit lines c c' :
  load_lines w flags inherit lines c = (PROFILE_OK, c') -> Forall (line_understood flags) lines.
Proof.
  revert c. induction lines as [|[l e] rest IH]; intros c; cbn; [done|].
  destruct (load_line w flags inherit l e c) as [c1|] eqn:E; [|done]. intros H.
  constructor; [by eapply load_line_understood|by eapply IH].
Qed.

(** *** Physical lines *)

(** The lines of a text, each with its newline. *)
Fixpoint physical_lines (s : cstring) : list cstring :=
  match s with
  | [] => []
  | c :: r => if Ascii.eqb c LF then [c] :: physical_lines r
              else match physical_lines r with [] => [[c]] | l :: t => (c :: l) :: t end
  end.

Lemma physical_lines_line l rest : LF ∉ l -> physical_lines (l ++ LF :: rest) = (l ++ [LF]) :: physical_lines rest.
Proof.
  induction l as [|c l IH]; intros H; cbn; [done|]. apply not_elem_of_cons in H as [Hc H].
  rewrite (proj2 (Ascii.eqb_neq c LF)) by done. by rewrite IH.
Qed.

Lemma physical_lines_last l : LF ∉ l -> l <> [] -> physical_lines l = [l].
Proof.
  induction l as [|c l IH]; intros H Hn; cbn; [done|]. apply not_elem_of_cons in H as [Hc H].
  rewrite (proj2 (Ascii.eqb_neq c LF)) by done. destruct l as [|d l]; [done|]. by rewrite IH.
Qed.

Lemma fgets_cases n stream l rest eof :
  fgets n stream = (l, rest, eof) ->
  (exists l0, l = l0 ++ [LF] /\ (LF ∉ l0)) \/ ((LF ∉ l) /\ ((eof = true /\ rest = []) \/ (eof = false /\ length l = n))).
Proof.
  revert stream l rest eof. induction n as [|n IH]; intros [|c r] l rest eof; cbn.
  - intros [= <- <- <-]. right. split; [set_solver|by right].
  - intros [= <- <- <-]. right. split; [set_solver|by right].
  - intros [= <- <- <-]. right. split; [set_solver|by left].
  - destruct (Ascii.eqb_spec c LF) as [->|Hc].
    + intros [= <- <- <-]. left. exists []. split; [done|set_solver].
    + destruct (fgets n r) as [[l' rest'] eof'] eqn:E. intros [= <- <- <-].
      destruct (IH _ _ _ _ E) as [(l0 & -> & Hl)|(Hl & Hr)].
      * left. exists (c :: l0). split; [done|]. apply not_elem_of_cons. by split.
      * right. split; [apply not_elem_of_cons; by split|]. destruct Hr as [?|[? <-]]; [by left|by right].
Qed.

Lemma rstrip_none d (s : cstring) : Forall (fun c => d c = false) s -> rstrip d s = s.
Proof.
  intros H. destruct s as [|c s] using rev_ind; [done|]. apply Forall_app in H as [_ H]. rewrite Forall_singleton in H.
  unfold rstrip, skip. rewrite rev_app_distr. cbn [rev app span]. rewrite H. cbn. by rewrite rev_involutive.
Qed.

Lemma until_nul_none s : NUL ∉ s -> until_nul s = s.
Proof.
  unfold until_nul. induction s as [|c s IH]; [done|]. intros H. apply not_elem_of_cons in H as [Hc H]. cbn [span].
  destruct (Ascii.eqb_spec NUL c); [done|]. destruct (span (Ascii.eqb NUL) s). cbn in *. f_equal. by apply IH.
Qed.

(** Without carriage returns and terminators, a read that stopped for want of room
    is refused. *)
Lemma full_read_refused l : NUL ∉ l -> CR ∉ l -> LF ∉ l -> length l = (MAX_LINE - 1)%nat -> parse_line l false = LineTooLong.
Proof.
  intros Hn Hc Hl Hlen. unfold parse_line. rewrite until_nul_none, rstrip_none by (done || (apply Forall_forall; intros c Hin;
    unfold is_eol; apply orb_false_iff; split; apply Ascii.eqb_neq; intros ->; done)).
  cbv zeta. rewrite Hlen. done.
Qed.

Lemma reads_are_lines flags fuel stream :
  NUL ∉ stream -> CR ∉ stream -> (length stream <= fuel)%nat ->
  Forall (line_understood flags) (fgets_loop fuel (MAX_LINE - 1) stream) ->
  (fgets_loop fuel (MAX_LINE - 1) stream).*1 = physical_lines stream.
Proof.
  revert stream. induction fuel as [|fuel IH]; intros stream Hn Hc Hf; cbn [fgets_loop].
  { destruct stream; [done|cbn in Hf; lia]. }
  pose proof (fgets_spec (MAX_LINE - 1) stream) as Hs. destruct (fgets (MAX_LINE - 1) stream) as [[l rest] eof] eqn:E.
  destruct Hs as (-> & _ & Hnil & _). destruct l as [|c l].
  { intros _. destruct (Hnil eq_refl) as [H0|H0]; [unfold MAX_LINE in H0; lia|]. cbn in H0. by subst rest. }
  intros H. apply Forall_cons in H as [H1 H2]. set (line := c :: l) in *.
  rewrite elem_of_app in Hn, Hc. rewrite length_app in Hf.
  rewrite fmap_cons, IH; [|naive_solver|naive_solver|subst line; cbn in Hf; lia|done]. cbn [fst].
  destruct (fgets_cases _ _ _ _ _ E) as [(l0 & -> & Hl)|(Hl & [[-> ->]|[-> Hlen]])].
  - rewrite <- app_assoc. cbn [app]. by rewrite physical_lines_line.
  - rewrite app_nil_r. symmetry. apply physical_lines_last; [exact Hl|discriminate].
  - exfalso. unfold line_understood in H1. cbn [fst snd] in H1. rewrite full_read_refused in H1; [done|naive_solver|naive_solver|done|done].
Qed.

(** C29: a profile is accepted only if everything in it was understood.  The
    successive reads, each of at most 1023 bytes, cover the whole file, none is
    rejected as too long, and each is blank, a comment, a directive of the other
    tool or a directive this tool knows.  In a file without carriage returns and
    NUL bytes the reads are exactly the lines of the file; with them a longer
    line can pass in two parts, see [split_comment_becomes_directive]. *)
Theorem accepted_profile_understood n w flags cfg p cfg' :
  load_profile_into n w flags cfg p = (PROFILE_OK, cfg') ->
  exists content, profile_fopen_trusted w p flags = inr content
    /\ concat (fgets_all (MAX_LINE - 1) content).*1 = content
    /\ Forall (line_understood flags) (fgets_all (MAX_LINE - 1) content)
    /\ (NUL ∉ content -> CR ∉ content -> (fgets_all (MAX_LINE - 1) content).*1 = physical_lines content).
Proof.
  intros H. assert (Hc : exists content, profile_fopen_trusted w p flags = inr content
    /\ Forall (line_understood flags) (fgets_all (MAX_LINE - 1) content)).
  { destruct n; cbn [load_profile_into] in H;
      (destruct (profile_fopen_trusted w p flags) as [rc|content] eqn:Ef;
       [injection H as ->; unfold profile_fopen_trusted in Ef; repeat case_match; simplify_eq|]);
      exists content; (split; [done|]); by eapply load_lines_ok. }
  destruct Hc as (content & Hf & Hu). exists content. split; [done|]. split; [|split; [done|]].
  - apply fgets_loop_concat; [unfold MAX_LINE; lia|done].
  - intros Hn Hcr. by apply (reads_are_lines flags).
Qed.

Lemma accepted_profile_understood_witness :
  (load_profile_into 2 (demo_world demo_files) 0 demo_config (lit "/etc/compartment/strict.conf")).1
    = PROFILE_OK
  /\ exists content, profile_fopen_trusted (demo_world demo_files) (lit "/etc/compartment/strict.conf") 0
       = inr content /\ Forall (line_understood 0) (fgets_all (MAX_LINE - 1) content).
Proof.
  assert (E : (load_profile_into 2 (demo_world demo_files) 0 demo_config
                 (lit "/etc/compartment/strict.conf")).1 = PROFILE_OK) by (vm_compute; reflexivity).
  split; [done|].
  destruct (load_profile_into _ _ _ _ _) as [rc c'] eqn:H. cbn in E. subst rc.
  destruct (accepted_profile_understood _ _ _ _ _ _ H) as (content & H1 & _ & H3 & _).
  by exists content.
Defined.

(** ** Trust *)

(** What the checks establish about an inode that may hold policy. *)
Definition trusted_stat (getuid flags : Z) (want_dir : bool) (s : stat) : Prop :=
  Z.land (st_mode s) S_IFMT = (if want_dir then S_IFDIR else S_IFREG)
  /\ (st_uid s = 0 \/ (hasbit flags PROFILE_OWNER_ROOT = false /\ st_uid s = getuid))
  /\ (hasbit (st_mode s) (Z.lor S_IWGRP S_IWOTH) = false
      \/ (want_dir = true /\ hasbit (st_mode s) S_ISVTX = true)).

Lemma profile_fd_trusted_iff u st flags (dir : bool) :
  profile_fd_trusted u st flags (if dir then S_IFDIR else S_IFREG) = true
  <-> exists s, st = Some s /\ trusted_stat u flags dir s.
Proof.
  unfold profile_fd_trusted, trusted_stat. destruct st as [s|]; [|naive_solver].
  replace ((if dir then S_IFDIR else S_IFREG) =? S_IFDIR) with dir by by destruct dir.
  rewrite !andb_true_iff, !orb_true_iff, !andb_true_iff, !Z.eqb_eq, !negb_true_iff. naive_solver.
Qed.

Definition dir_ok (w : world) (flags : Z) (p : cstring) : Prop :=
  exists s, w_opendir w (containing_dir p) = Some (Some s) /\ trusted_stat (w_getuid w) flags true s.

Lemma profile_dir_trusted_ok w p flags : profile_dir_trusted w p flags = true -> dir_ok w flags p.
Proof.
  unfold profile_dir_trusted, dir_ok. case_match; [done|]. destruct (w_opendir _ _) as [st|]; [|done].
  intros (s & -> & Hs)%(profile_fd_trusted_iff _ _ _ true). eauto.
Qed.

(** Policy bytes are taken only from a regular file owned by root (or by
    the caller, unless root ownership is required) that group and others
    cannot write, in a directory with the same ownership that they cannot
    write either unless it is sticky; when the path is not canonical the
    directory the file really lives in passes the same check. *)
Theorem profile_source_trusted w p flags content :
  profile_fopen_trusted w p flags = inr content ->
  (exists s, w_open w p = Opened (Some s) content /\ trusted_stat (w_getuid w) flags false s)
  /\ dir_ok w flags p
  /\ (forall r, w_realpath w p = Some r -> dir_ok w flags r).
Proof.
  unfold profile_fopen_trusted. destruct (w_open w p) as [| |st c]; [done..|].
  destruct (profile_fd_trusted _ _ _ _) eqn:E1; cbn [negb]; [|done].
  destruct (profile_dir_trusted w p flags) eqn:E2; cbn [negb]; [|done].
  apply (profile_fd_trusted_iff _ _ _ false) in E1 as (s & -> & Hs).
  apply profile_dir_trusted_ok in E2. intros H.
  assert (c = content) as -> by (repeat case_match; congruence).
  split; [eauto|]. split; [done|]. intros r Hr. rewrite Hr in H.
  destruct (streq r p) eqn:Er; [by apply streq_true in Er as ->|].
  destruct (profile_dir_trusted w r flags) eqn:E3; cbn in H; [|done]. by apply profile_dir_trusted_ok.
Qed.

Lemma profile_source_trusted_witness :
  exists content, profile_fopen_trusted (demo_world demo_files) (lit "/etc/compartment/base.conf") 2
    = inr content
  /\ dir_ok (demo_world demo_files) 2 (lit "/etc/compartment/base.conf").
Proof.
  assert (E : exists content,
    profile_fopen_trusted (demo_world demo_files) (lit "/etc/compartment/base.conf") 2 = inr content)
    by (eexists; vm_compute; reflexivity).
  destruct E as (content & E). exists content. split; [done|].
  destruct (profile_source_trusted _ _ _ _ E) as (_ & H & _). exact H.
Defined.

(** The file at [p] is one a stranger cannot have written: see
    [profile_source_trusted] for what is asked of it and of its directories. *)
Definition trusted_policy (w : world) (flags : Z) (p : cstring) : Prop :=
  (exists s content, w_open w p = Opened (Some s) content /\ trusted_stat (w_getuid w) flags false s)
  /\ dir_ok w flags p /\ (forall r, w_realpath w p = Some r -> dir_ok w flags r).

(** [w'] is [w] after someone rewrote the contents of some files that are not
    trusted in [w]. *)
Record tampered (flags : Z) (w w' : world) : Prop := Tampered {
  tm_getuid : w_getuid w' = w_getuid w; tm_home : w_home w' = w_home w; tm_user : w_user w' = w_user w;
  tm_pw : w_pw_name w' = w_pw_name w; tm_stat : w_stat w' = w_stat w; tm_opendir : w_opendir w' = w_opendir w;
  tm_realpath : w_realpath w' = w_realpath w; tm_fdopen : w_fdopen w' = w_fdopen w; tm_nr : w_nr w' = w_nr w;
  tm_open : forall p, w_open w' p = w_open w p
    \/ (~ trusted_policy w flags p /\ exists st c c', w_open w p = Opened st c /\ w_open w' p = Opened st c') }.

(** The flags of an inherited file ask for the same owner. *)
Definition same_owner (f f' : Z) : Prop := hasbit f PROFILE_OWNER_ROOT = hasbit f' PROFILE_OWNER_ROOT.

Lemma same_owner_ldiff f f' : same_owner f f' -> same_owner f (Z.ldiff f' PROFILE_SEARCH_USER).
Proof.
  unfold same_owner, hasbit. intros ->. f_equal. f_equal. apply Z.bits_inj'. intros n Hn.
  rewrite !Z.land_spec, Z.ldiff_spec. change PROFILE_OWNER_ROOT with (2 ^ 1). change PROFILE_SEARCH_USER with (2 ^ 0).
  rewrite !Z.pow2_bits_eqb by lia. destruct (Z.eqb_spec 1 n) as [<-|]; [by rewrite !andb_true_r|by rewrite !andb_false_r].
Qed.

Lemma trusted_stat_owner u f f' d s : same_owner f f' -> trusted_stat u f' d s -> trusted_stat u f d s.
Proof. unfold trusted_stat, same_owner. by intros ->. Qed.

Lemma dir_ok_owner w f f' p : same_owner f f' -> dir_ok w f' p -> dir_ok w f p.
Proof. intros Ho (s & Hs & Ht). exists s. split; [done|]. by eapply trusted_stat_owner. Qed.

Section tampered.
Context (f : Z) (w w' : world) (Ht : tampered f w w').

Lemma dir_trusted_tampered p flags : profile_dir_trusted w' p flags = profile_dir_trusted w p flags.
Proof. unfold profile_dir_trusted. by rewrite (tm_opendir _ _ _ Ht), (tm_getuid _ _ _ Ht). Qed.

Lemma fopen_tampered p flags : same_owner f flags -> profile_fopen_trusted w' p flags = profile_fopen_trusted w p flags.
Proof.
  intros Ho. destruct (profile_fopen_trusted w p flags) as [rc|content] eqn:E.
  - revert E. unfold profile_fopen_trusted. rewrite (tm_realpath _ _ _ Ht), (tm_getuid _ _ _ Ht), (tm_fdopen _ _ _ Ht).
    destruct (tm_open _ _ _ Ht p) as [-> |(_ & st & c & c' & -> & ->)]; rewrite dir_trusted_tampered;
      [destruct (w_open w p) as [| |st c]; try done|]; repeat case_match; try done; rewrite ?dir_trusted_tampered in *; congruence.
  - pose proof (profile_source_trusted _ _ _ _ E) as ((s & Hs & Hst) & Hd & Hr).
    destruct (tm_open _ _ _ Ht p) as [He|[Hn _]].
    2: { destruct Hn. split; [exists s, content; split; [done|by eapply trusted_stat_owner]|].
         split; [by eapply dir_ok_owner|]. intros r Hrr. by eapply dir_ok_owner; [|apply Hr]. }
    rewrite <- E. unfold profile_fopen_trusted. rewrite He, (tm_realpath _ _ _ Ht), (tm_getuid _ _ _ Ht), (tm_fdopen _ _ _ Ht), dir_trusted_tampered.
    destruct (w_open w p); try done. destruct (w_realpath w p); [by rewrite dir_trusted_tampered|done].
Qed.

(** The loader's clients depend on the parser only through its results. *)
Context (L1 L2 : Z -> Config -> cstring -> profile_rc * Config).
Hypothesis HL : forall flags c p, same_owner f flags -> L1 flags c p = L2 flags c p.

Lemma load_file_tampered flags c p : same_owner f flags -> load_file_with L1 flags c p = load_file_with L2 flags c p.
Proof. intros Ho. unfold load_file_with. by rewrite HL. Qed.

Lemma resolve_tampered flags c n : same_owner f flags -> resolve_with L1 w' flags c n = resolve_with L2 w flags c n.
Proof.
  intros Ho. unfold resolve_with, resolve_user_with. rewrite (tm_home _ _ _ Ht), load_file_tampered, load_file_tampered by first [done|by apply same_owner_ldiff].
  repeat case_match; try done; by rewrite load_file_tampered.
Qed.

Lemma inherit_tampered flags p c n : same_owner f flags -> inherit_with L1 w' flags p c n = inherit_with L2 w flags p c n.
Proof.
  intros Ho. unfold inherit_with. destruct (sibling_path p n) as [s|]; [|by rewrite resolve_tampered].
  rewrite load_file_tampered by done. destruct (load_file_with L2 flags c s) as [[] c1]; [done| |done].
  by rewrite resolve_tampered.
Qed.
End tampered.

Lemma apply_directive_ext nr i1 i2 d v c :
  (forall c n, i1 c n = i2 c n) -> apply_directive nr i1 d v c = apply_directive nr i2 d v c.
Proof. intros Hi. unfold apply_directive. by rewrite Hi. Qed.

Lemma load_lines_tampered f w w' flags i1 i2 l c :
  tampered f w w' -> (forall c n, i1 c n = i2 c n) -> load_lines w' flags i1 l c = load_lines w flags i2 l c.
Proof.
  intros Ht Hi. revert c. induction l as [|[line eof] l IHl]; intros c; cbn; [done|].
  assert (Hl : load_line w' flags i1 line eof c = load_line w flags i2 line eof c).
  { unfold load_line. destruct (parse_line line eof); [done..|].
    unfold user_name. rewrite (tm_home _ _ _ Ht), (tm_user _ _ _ Ht), (tm_pw _ _ _ Ht), (tm_stat _ _ _ Ht), (tm_getuid _ _ _ Ht), (tm_nr _ _ _ Ht).
    apply option_bind_ext_fun. intros val. by rewrite (apply_directive_ext _ i1 i2). }
  rewrite Hl. destruct (load_line w flags i2 line eof c); [apply IHl|done].
Qed.

Lemma load_into_tampered f w w' n flags c p :
  tampered f w w' -> same_owner f flags -> load_profile_into n w' flags c p = load_profile_into n w flags c p.
Proof.
  intros Ht. revert flags c p. induction n as [|n IH]; intros flags c p Ho; cbn [load_profile_into];
    rewrite (fopen_tampered f w w' Ht) by done; (destruct (profile_fopen_trusted w p flags) as [rc|content]; [done|]);
    apply (load_lines_tampered f); [done|done|done|]. intros. by apply (inherit_tampered f).
Qed.

(** C10: the contents of untrusted files never influence the policy.  If someone
    rewrites files that are no regular files of root (or, unless root is
    required, of the caller), that group or others can write, or that lie in a
    directory (the one named, or the real one) of someone else's or that is
    writable and not sticky, then resolving and loading any profile, with all the
    files it inherits, gives the same result code and the same configuration. *)
Theorem untrusted_files_irrelevant depth w w' flags cfg name :
  tampered flags w w' ->
  resolve_and_load_profile depth w' flags cfg name = resolve_and_load_profile depth w flags cfg name.
Proof. intros Ht. apply (resolve_tampered flags w w' Ht); [|done]. intros. by apply (load_into_tampered flags). Qed.

(** The profile of the demonstration in a file that others can write. *)
Definition shared_world (content : cstring) : world :=
  let w := demo_world demo_files in
  {| w_getuid := w_getuid w; w_home := w_home w; w_user := w_user w; w_pw_name := w_pw_name w; w_stat := w_stat w;
     w_open := fun p => if streq p (lit "/etc/compartment/shared.conf")
                        then Opened (Some {| st_mode := 0x81B6; st_uid := 0 |}) content else w_open w p;   (* 0100666 *)
     w_opendir := w_opendir w; w_realpath := w_realpath w; w_fdopen := w_fdopen w; w_nr := w_nr w |}.

Lemma untrusted_files_irrelevant_witness :
  resolve_and_load_profile 0 (shared_world (text ["rwx /"])) 0 demo_config (lit "shared")
  = resolve_and_load_profile 0 (shared_world (text ["ro /usr"])) 0 demo_config (lit "shared")
  /\ (resolve_and_load_profile 0 (shared_world (text ["ro /usr"])) 0 demo_config (lit "shared")).1 = PROFILE_ERROR.
Proof.
  split; [|vm_compute; reflexivity]. apply untrusted_files_irrelevant. split; try reflexivity. intros p. cbn.
  destruct (streq p (lit "/etc/compartment/shared.conf")) eqn:E; [right|by left]. split; [|by repeat eexists].
  intros ((s & c & Hs & (_ & _ & [Hw|[Hd _]])) & _); [|discriminate Hd]. cbn in Hs. rewrite E in Hs. injection Hs as <- _. discriminate Hw.
Defined.

(** ** A line the length check misses *)

(** One physical line: a comment of 1022 characters, a carriage return, then
    the text [rwx /]. *)
Definition split_line : cstring :=
  lit "#" ++ replicate 1021 "x"%char ++ [CR] ++ lit "rwx /" ++ [LF].

(** The over-long-line check can be passed by an over-long line.  The
    line strips trailing carriage returns before it compares the length with
    the buffer size, so when the last byte that fits the buffer is a carriage
    return the read looks short and the rest of the line is parsed as a
    directive of its own: the comment below grants read, write and execute on
    the whole file system. *)
Theorem split_comment_becomes_directive :
  length (List.filter (Ascii.eqb LF) split_line) = 1%nat /\ (MAX_LINE < length split_line)%nat
  /\ let '(rc, cfg') := resolve_and_load_profile 0 (demo_world [("/etc/compartment/p.conf"%string, split_line)])
                          0 demo_config (lit "p") in
     rc = PROFILE_OK
     /\ paths cfg' = [{| path := lit "/"; mode := PATH_RWX; optional := false; owned := true |}].
Proof. vm_compute. repeat split; try reflexivity; lia. Qed.

(** ** Variable expansion *)

(** The intended meaning: [$HOME] and [$USER] are replaced where they occur,
    from left to right, every other character stands for itself. *)
Inductive expands (home user : option cstring) : cstring -> cstring -> Prop :=
  | expands_nil : expands home user [] []
  | expands_home h p out : home = Some h -> expands home user p out ->
      expands home user (lit "$HOME" ++ p) (h ++ out)
  | expands_user u p out : user = Some u -> expands home user p out ->
      expands home user (lit "$USER" ++ p) (u ++ out)
  | expands_char c p out :
      has_prefix (lit "$HOME") (c :: p) = false -> has_prefix (lit "$USER") (c :: p) = false ->
      expands home user p out -> expands home user (c :: p) (c :: out).

Lemma drop_prefix n v p : has_prefix v p = true -> n = length v -> p = v ++ drop n p.
Proof. intros (t & ->)%has_prefix_true ->. by rewrite drop_app_length. Qed.

Lemma expand_loop_step fuel home user c r out :
  expand_loop (S fuel) home user (c :: r) out
  = if Nat.leb (PATH_MAX - 1) (length out) then None
    else if has_prefix (lit "$HOME") (c :: r) then
      (h ← home; if Nat.leb PATH_MAX (length out + length h) then None
                 else expand_loop fuel home user (drop 5 (c :: r)) (out ++ h))
    else if has_prefix (lit "$USER") (c :: r) then
      (u ← user; if Nat.leb PATH_MAX (length out + length u) then None
                 else expand_loop fuel home user (drop 5 (c :: r)) (out ++ u))
    else expand_loop fuel home user r (out ++ [c]).
Proof.
  cbn [expand_loop]. case_match; [done|]. destruct (Ascii.eqb c "$"%char) eqn:Ec.
  - case_match; [by destruct home|]. case_match; [by destruct user|done].
  - assert (Hn : forall s, has_prefix ("$"%char :: s) (c :: r) = false).
    { intros s. cbn [has_prefix]. by rewrite Ascii.eqb_sym, Ec. }
    change (lit "$HOME") with ("$"%char :: lit "HOME"). change (lit "$USER") with ("$"%char :: lit "USER").
    by rewrite !Hn.
Qed.

Lemma expand_loop_complete home user p t :
  home <> Some [] -> user <> Some [] -> expands home user p t ->
  forall fuel out, (length p <= fuel)%nat -> (length out + length t < PATH_MAX)%nat ->
  expand_loop fuel home user p out = Some (out ++ t).
Proof.
  intros Hh Hu. induction 1 as [|h p t -> _ IH|u p t -> _ IH|c p t H1 H2 _ IH];
    intros fuel out Hf Hl; [by destruct fuel; rewrite app_nil_r|..];
    rewrite ?length_app in Hf; change (length (lit _)) with 5%nat in Hf;
    (destruct fuel as [|fuel]; [cbn in Hf; lia|]).
  - change (lit "$HOME" ++ p) with ("$"%char :: lit "HOME" ++ p) in *. rewrite expand_loop_step.
    rewrite length_app in Hl. assert (0 < length h)%nat by (destruct h; [done|cbn; lia]).
    destruct (Nat.leb_spec (PATH_MAX - 1) (length out)); [lia|].
    change (has_prefix _ _) with true at 1. cbn iota. cbn [mbind option_bind].
    destruct (Nat.leb_spec PATH_MAX (length out + length h)); [lia|].
    change (drop 5 _) with p.
    rewrite IH; [by rewrite app_assoc|cbn in Hf; lia|rewrite length_app; lia].
  - change (lit "$USER" ++ p) with ("$"%char :: lit "USER" ++ p) in *. rewrite expand_loop_step.
    rewrite length_app in Hl. assert (0 < length u)%nat by (destruct u; [done|cbn; lia]).
    destruct (Nat.leb_spec (PATH_MAX - 1) (length out)); [lia|].
    change (has_prefix (lit "$HOME") _) with false. change (has_prefix _ _) with true. cbn iota.
    cbn [mbind option_bind]. destruct (Nat.leb_spec PATH_MAX (length out + length u)); [lia|].
    change (drop 5 _) with p.
    rewrite IH; [by rewrite app_assoc|cbn in Hf; lia|rewrite length_app; lia].
  - rewrite expand_loop_step, H1, H2. cbn in Hl.
    destruct (Nat.leb_spec (PATH_MAX - 1) (length out)); [lia|].
    rewrite IH; [by rewrite <- app_assoc|cbn in Hf; lia|rewrite length_app; cbn; lia].
Qed.

Lemma expand_loop_sound home user fuel p out v :
  (length out < PATH_MAX)%nat -> expand_loop fuel home user p out = Some v ->
  exists t, v = out ++ t /\ expands home user p t /\ (length v < PATH_MAX)%nat.
Proof.
  revert p out. induction fuel as [|fuel IH]; intros [|c r] out Hl; try done.
  1,2: intros [= <-]; exists []; rewrite app_nil_r; repeat split; [constructor|done].
  rewrite expand_loop_step. destruct (Nat.leb_spec (PATH_MAX - 1) (length out)); [done|].
  destruct (has_prefix (lit "$HOME") (c :: r)) eqn:Eh; [|destruct (has_prefix (lit "$USER") (c :: r)) eqn:Eu].
  - intros (h & Hh & H1)%bind_Some. destruct (Nat.leb_spec PATH_MAX (length out + length h)); [done|].
    apply IH in H1 as (t & -> & Ht & Hlen); [|rewrite length_app; lia]. exists (h ++ t).
    rewrite (drop_prefix 5 _ _ Eh eq_refl). rewrite app_assoc. repeat split; [by constructor|done].
  - intros (u & Hu & H1)%bind_Some. destruct (Nat.leb_spec PATH_MAX (length out + length u)); [done|].
    apply IH in H1 as (t & -> & Ht & Hlen); [|rewrite length_app; lia]. exists (u ++ t).
    rewrite (drop_prefix 5 _ _ Eu eq_refl). rewrite app_assoc. repeat split; [by constructor|done].
  - intros (t & -> & Ht & Hlen)%IH; [|rewrite length_app; cbn; lia]. exists (c :: t).
    rewrite <- app_assoc in *. repeat split; [by constructor|done].
Qed.

Lemma home_usable_nonempty u st h : home_dir_usable u st h <> Some [].
Proof. unfold home_dir_usable. repeat case_match; done. Qed.

(** Variable expansion is exact and never truncates.  A value without a
    dollar sign is taken as it is; otherwise the result is the value with every
    [$HOME] and [$USER] replaced and fits the buffer, and the loader gets an
    error exactly when a variable that occurs is unset or unusable or the
    expanded text would not fit. *)
Theorem expand_var_exact getuid st home user input v :
  let h := home_dir_usable getuid st home in
  let u := match user with Some [] => None | u => u end in
  expand_var h user input = Some v <->
  if strchr input "$"%char then expands h u input v /\ (length v < PATH_MAX)%nat else v = input.
Proof.
  cbn zeta. unfold expand_var. destruct (strchr input "$"); [|naive_solver].
  assert (Hu : match user with Some [] => None | u => u end <> Some []) by (by destruct user as [[|]|]).
  split.
  - intros H. apply expand_loop_sound in H as (t & -> & H); [done|cbn; unfold PATH_MAX; lia].
  - intros (H & Hl). by rewrite (expand_loop_complete _ _ _ _ (home_usable_nonempty _ _ _) Hu H).
Qed.

(** ** Identity maps *)

(** An accepted [uid-map] or [gid-map] line denotes a non-empty range that
    lies inside the 32-bit id space on both sides; the 64-bit sums of the
    range check cannot wrap around. *)
Theorem id_map_in_range val inside outside count :
  parse_id_map val = Some (inside, outside, count) ->
  0 <= inside /\ 0 <= outside /\ 0 < count
  /\ inside + count <= 2 ^ 32 /\ outside + count <= 2 ^ 32.
Proof.
  unfold parse_id_map, sscanf_three, scan_llu.
  destruct (strtoul 10 val) as [[[a r1] e1]|] eqn:E1; [|done]. apply strtoul_nonneg in E1.
  destruct (strtoul 10 r1) as [[[b r2] e2]|] eqn:E2; [|done]. apply strtoul_nonneg in E2.
  destruct (strtoul 10 r2) as [[[c r3] e3]|] eqn:E3; [|done]. apply strtoul_nonneg in E3.
  destruct (skip isspace r3); [|done]. case_match eqn:E; [done|]. intros [= -> -> ->].
  rewrite !orb_false_iff in E. destruct E as (((((H0 & H1) & H2) & H3) & H4) & H5). unfold UID_LIMIT in *.
  assert (Hs : forall x, 0 <= x < 2 ^ 32 -> wrap64 (x + count) = x + count)
    by (intros x Hx; apply wrap64_small; unfold u64_mod; lia).
  rewrite Hs in H4, H5 by lia. lia.
Qed.

Lemma id_map_in_range_witness :
  parse_id_map (lit "0 100000 65536") = Some (0, 100000, 65536)
  /\ 100000 + 65536 <= 2 ^ 32.
Proof.
  assert (E : parse_id_map (lit "0 100000 65536") = Some (0, 100000, 65536)) by (vm_compute; reflexivity).
  split; [exact E|]. apply (id_map_in_range _ _ _ _ E).
Defined.
