(* ===== verification/EnvAudit.v ===== *)
(** * Environment sanitising and audit records

    Models [env_name_matches], [sanitize_env], [audit_scrub] and the record
    format of [audit_log] of [src/compartment.h]. *)

From S2P Require Import Prelude CLib Config ConfigProps Seccomp.
From Stdlib Require Import Ascii.

#[local] Open Scope Z_scope.

(** ** Environment *)

Definition env_name_matches (pattern name : cstring) : bool :=
  match last pattern with
  | Some c => if Ascii.eqb c "*"%char then has_prefix (removelast pattern) name else streq pattern name
  | None => streq pattern name
  end.

Definition is_equals (c : ascii) : bool := Ascii.eqb "="%char c.

(** The non-empty name of a [NAME=value] entry. *)
Definition entry_name (e : cstring) : option cstring :=
  match span is_equals e with
  | ((_ :: _) as name, _ :: _) => Some name
  | _ => None
  end.

(** The patterns in force and what a match means. *)
Definition env_patterns (cfg : Config) : list cstring * bool :=
  if env_allow_mode cfg then (env_allow cfg, true) else (env_deny cfg, false).

Definition env_matched (pats : list cstring) (name : cstring) : bool :=
  existsb (fun p => env_name_matches p name) pats.

(** The name of the first entry to be removed. *)
Fixpoint find_victim (pats : list cstring) (keep_on_match : bool) (environ : list cstring)
  : option cstring :=
  match environ with
  | [] => None
  | e :: rest =>
      match entry_name e with
      | None => find_victim pats keep_on_match rest
      | Some name =>
          if Bool.eqb (env_matched pats name) keep_on_match
          then find_victim pats keep_on_match rest else Some name
      end
  end.

(** [unsetenv (name)] removes every [name=...] entry. *)
Definition unsetenv (name : cstring) (environ : list cstring) : list cstring :=
  List.filter (fun e => negb (has_prefix (name ++ lit "=") e)) environ.

(** The outer loop; [None] when the fuel runs out. *)
Fixpoint sanitize_loop (fuel : nat) (pats : list cstring) (keep_on_match : bool)
  (environ : list cstring) : option (list cstring) :=
  match find_victim pats keep_on_match environ with
  | None => Some environ
  | Some victim =>
      match fuel with
      | O => None
      | S fuel' => sanitize_loop fuel' pats keep_on_match (unsetenv victim environ)
      end
  end.

(** Every iteration removes an entry, so one per entry is enough. *)
Definition sanitize_env (cfg : Config) (environ : list cstring) : option (list cstring) :=
  let '(pats, keep_on_match) := env_patterns cfg in
  sanitize_loop (length environ) pats keep_on_match environ.

(** *** Specification *)

Definition entry_kept (pats : list cstring) (keep_on_match : bool) (e : cstring) : bool :=
  match entry_name e with
  | None => true
  | Some name => Bool.eqb (env_matched pats name) keep_on_match
  end.

Lemma is_equals_true c : is_equals c = true -> c = "="%char.
Proof. intros H. symmetry. by apply Ascii.eqb_eq. Qed.

Lemma entry_name_Some e n :
  entry_name e = Some n <-> n <> [] /\ ("="%char ∉ n) /\ exists t, e = n ++ "="%char :: t.
Proof.
  pose proof (span_app is_equals e) as Ha. pose proof (span_fst is_equals e) as Hf.
  pose proof (span_snd is_equals e) as Hs. unfold entry_name.
  destruct (span is_equals e) as [a b]. cbn [fst snd] in Ha, Hf, Hs.
  assert (Hna : "="%char ∉ a) by (intros Hin; eapply Forall_forall in Hf; [|done]; done).
  split.
  - destruct a as [|c a], b as [|d b]; try done. intros [= <-].
    specialize (Hs _ _ eq_refl). apply is_equals_true in Hs as ->.
    repeat split; [done..|]. by exists b.
  - intros (Hn & He & t & ->). destruct b as [|d b].
    + rewrite app_nil_r in Ha. subst a. set_solver.
    + specialize (Hs _ _ eq_refl). apply is_equals_true in Hs as ->.
      apply split_unique in Ha as (-> & _); [|done..]. by destruct n.
Qed.

(** [unsetenv] of a name some entry has removes exactly the entries with that
    name. *)
Lemma has_prefix_entry v e :
  v <> [] -> "="%char ∉ v -> has_prefix (v ++ lit "=") e = true <-> entry_name e = Some v.
Proof.
  intros Hv He. rewrite has_prefix_true, entry_name_Some. split.
  - intros (t & ->). rewrite <- app_assoc. eauto.
  - intros (_ & _ & t & ->). exists t. by rewrite <- app_assoc.
Qed.

Lemma find_victim_None pats k env :
  find_victim pats k env = None <-> Forall (fun e => entry_kept pats k e = true) env.
Proof.
  induction env as [|e env IH]; cbn; [done|]. rewrite Forall_cons. unfold entry_kept at 1.
  destruct (entry_name e) as [n|]; [|naive_solver].
  destruct (Bool.eqb (env_matched pats n) k); naive_solver.
Qed.

Lemma find_victim_Some pats k env v :
  find_victim pats k env = Some v ->
  v <> [] /\ ("="%char ∉ v) /\ Bool.eqb (env_matched pats v) k = false
  /\ exists e, e ∈ env /\ entry_name e = Some v.
Proof.
  induction env as [|e env IH]; cbn; [done|].
  destruct (entry_name e) as [n|] eqn:En; [destruct (Bool.eqb (env_matched pats n) k) eqn:Ek|].
  2:{ intros [= ->]. pose proof En as (Hn & He & _)%entry_name_Some. repeat split; try done.
      exists e. split; [left|done]. }
  all: intros H; destruct (IH H) as (? & ? & ? & e' & ? & ?); repeat split; try done;
    exists e'; split; [by right|done].
Qed.

Lemma unsetenv_kept pats k env v :
  find_victim pats k env = Some v ->
  List.filter (entry_kept pats k) (unsetenv v env) = List.filter (entry_kept pats k) env
  /\ (length (unsetenv v env) < length env)%nat.
Proof.
  intros (Hv & He & Hk & e0 & Hin & Hn)%find_victim_Some. split.
  - clear Hin. unfold unsetenv. induction env as [|e env IH]; cbn; [done|].
    destruct (has_prefix (v ++ lit "=") e) eqn:Ep; cbn; [|by rewrite IH].
    apply has_prefix_entry in Ep; [|done..]. unfold entry_kept at 2. rewrite Ep, Hk. apply IH.
  - clear -Hin Hn Hv He. unfold unsetenv.
    induction Hin as [e0 l|e0 e l _ IH]; cbn.
    + replace (has_prefix (v ++ lit "=") e0) with true by (symmetry; by apply has_prefix_entry).
      cbn. pose proof (List.filter_length_le (fun e => negb (has_prefix (v ++ lit "=") e)) l). lia.
    + destruct (negb (has_prefix (v ++ lit "=") e)); cbn; specialize (IH Hn); lia.
Qed.

Lemma sanitize_loop_spec fuel pats k env :
  (length env <= fuel)%nat ->
  sanitize_loop fuel pats k env = Some (List.filter (entry_kept pats k) env).
Proof.
  revert env. induction fuel as [|fuel IH]; intros env Hf; cbn;
    destruct (find_victim pats k env) as [v|] eqn:Ev.
  - apply unsetenv_kept in Ev as (_ & ?). lia.
  - by destruct env; [|cbn in Hf; lia].
  - apply unsetenv_kept in Ev as (<- & ?). apply IH. lia.
  - apply find_victim_None in Ev. f_equal. symmetry. apply List.forallb_filter_id.
    apply forallb_forall. intros x Hx. eapply Forall_forall in Ev; [done|by apply list_elem_of_In].
Qed.

(** C30: [sanitize_env] terminates on every environment and leaves exactly the
    entries the policy keeps, in their order: in allow-list mode those whose
    name matches an allowed pattern, in deny-list mode those whose name matches
    no denied pattern; an entry without a name is left alone. *)
Theorem sanitize_env_exact cfg environ :
  sanitize_env cfg environ
  = Some (List.filter (fun e => match entry_name e with
                                | None => true
                                | Some name =>
                                    if env_allow_mode cfg then env_matched (env_allow cfg) name
                                    else negb (env_matched (env_deny cfg) name)
                                end) environ).
Proof.
  unfold sanitize_env, env_patterns. destruct (env_allow_mode cfg);
    rewrite sanitize_loop_spec by done; f_equal; apply List.filter_ext; intros e;
    unfold entry_kept; destruct (entry_name e) as [n|]; try done; by destruct (env_matched _ n).
Qed.

(** ** Audit records *)

(** At most [bufsz - 1] characters, everything outside printable ASCII
    replaced. *)
Definition scrub_char (c : ascii) : ascii :=
  if (0x20 <=? cval c) && (cval c <? 0x7f) then c else "_"%char.

Definition audit_scrub (bufsz : nat) (s : cstring) : cstring := scrub_char <$> take (bufsz - 1) s.

(** The loop that prints the parent chain into a 512-byte buffer. *)
Fixpoint chain_loop (first : bool) (chain : list Z) (pos : nat) : cstring :=
  match chain with
  | [] => []
  | pid :: rest =>
      if Nat.ltb pos (512 - 16)
      then let s := (if first then [] else lit "->") ++ print_u pid in
           s ++ chain_loop false rest (pos + length s)
      else []
  end.

(** The record written to the log file (and, after a prefix, to stderr). *)
Definition audit_record (ts user : cstring) (u : Z) (event : cstring) (chain : list Z)
  (cwd : cstring) (tty : option cstring) (detail : cstring) : cstring :=
  let chain_str := chain_loop true chain 0 in
  lit "[" ++ ts ++ lit "] user=" ++ audit_scrub 128 user ++ lit " uid=" ++ print_u u
  ++ lit " event=" ++ audit_scrub 128 event
  ++ lit " ppid_chain=" ++ (if bool_decide (chain_str = []) then lit "?" else chain_str)
  ++ lit " cwd=" ++ audit_scrub PATH_MAX cwd
  ++ lit " tty=" ++ audit_scrub 256 (default (lit "none") tty)
  ++ lit " " ++ audit_scrub 1024 detail ++ [LF].

Definition printable (c : ascii) : Prop := 0x20 <= cval c < 0x7f.

Lemma scrub_printable n s : Forall printable (audit_scrub n s).
Proof.
  unfold audit_scrub. apply Forall_fmap, Forall_true. intros c. unfold compose, scrub_char, printable.
  case_match eqn:E; [|done]. lia.
Qed.

Lemma print_u_printable z : Forall printable (print_u z).
Proof. apply print_u_forall. by repeat constructor. Qed.

Lemma chain_printable first chain pos : Forall printable (chain_loop first chain pos).
Proof.
  revert first pos. induction chain as [|p rest IH]; intros first pos; cbn; [done|].
  case_match; [|done]. apply Forall_app. split; [|apply IH].
  apply Forall_app. split; [by destruct first; repeat constructor|apply print_u_printable].
Qed.

(** An audit record is one line: whatever bytes the user name, event,
    working directory, terminal and detail contain, every character but the
    final newline is printable, so no field can forge a second record.  The
    time stamp is the only part taken as given. *)
Theorem audit_record_single_line ts user u event chain cwd tty detail :
  Forall printable ts ->
  exists body, audit_record ts user u event chain cwd tty detail = body ++ [LF]
    /\ Forall printable body.
Proof.
  intros Hts. unfold audit_record. cbn zeta. rewrite !app_assoc. eexists. split; [reflexivity|].
  pose proof scrub_printable. pose proof print_u_printable. pose proof chain_printable.
  repeat (apply Forall_app; split); try done; try (by repeat constructor).
  case_match; [by repeat constructor|done].
Qed.

Lemma audit_record_single_line_witness :
  let detail := lit "x" ++ [LF] ++ lit "[1970-01-01] user=root" in
  let r := audit_record (lit "2026-01-01 00:00:00") (lit "u") 1000 (lit "EXEC") [7; 1] (lit "/") None detail in
  (exists body, r = body ++ [LF] /\ Forall printable body)
  /\ length (List.filter (Ascii.eqb LF) r) = 1%nat.
Proof.
  cbn zeta. split; [|vm_compute; reflexivity].
  apply (audit_record_single_line (lit "2026-01-01 00:00:00")). by repeat constructor.
Defined.
