(* ===== verification/Landlock.v ===== *)
(** * Landlock

    Models the Landlock half of [src/compartment.h]: the access masks,
    [landlock_file_rights], [landlock_add_path], [landlock_add_port],
    [apply_landlock], the check [config_check_additive] and the path test of
    [audit_warn_if_writable].  The kernel is a record of answers; what a
    ruleset permits follows the documented semantics: a right that is not
    handled is free, a handled right is granted by the union of the rules whose
    path is an ancestor of (or is) the file. *)

From S2P Require Import Prelude CLib Config ConfigProps Seccomp.
From Stdlib Require Import Ascii.

#[local] Open Scope Z_scope.

(** ** Rights *)

Definition FS_EXECUTE : Z := 0x1.
Definition FS_WRITE_FILE : Z := 0x2.
Definition FS_READ_FILE : Z := 0x4.
Definition FS_READ_DIR : Z := 0x8.
Definition FS_REMOVE_DIR : Z := 0x10.
Definition FS_REMOVE_FILE : Z := 0x20.
Definition FS_MAKE_CHAR : Z := 0x40.
Definition FS_MAKE_DIR : Z := 0x80.
Definition FS_MAKE_REG : Z := 0x100.
Definition FS_MAKE_SOCK : Z := 0x200.
Definition FS_MAKE_FIFO : Z := 0x400.
Definition FS_MAKE_BLOCK : Z := 0x800.
Definition FS_MAKE_SYM : Z := 0x1000.
Definition FS_REFER : Z := 0x2000.       (* ABI 2 *)
Definition FS_TRUNCATE : Z := 0x4000.    (* ABI 3 *)
Definition FS_IOCTL_DEV : Z := 0x8000.   (* ABI 5 *)
Definition NET_BIND_TCP : Z := 0x1.      (* ABI 4 *)
Definition NET_CONNECT_TCP : Z := 0x2.   (* ABI 4 *)

Definition lors (l : list Z) : Z := foldr Z.lor 0 l.

(** A right added from a given ABI on. *)
Definition since (abi n right : Z) : Z := if n <=? abi then right else 0.

Definition landlock_file_rights (abi : Z) : Z :=
  lors [FS_EXECUTE; FS_READ_FILE; FS_WRITE_FILE; since abi 3 FS_TRUNCATE; since abi 5 FS_IOCTL_DEV].

Definition abi_extra (abi : Z) : list Z :=
  [since abi 2 FS_REFER; since abi 3 FS_TRUNCATE; since abi 5 FS_IOCTL_DEV].

Definition handled_fs (abi : Z) : Z :=
  lors ([FS_READ_FILE; FS_READ_DIR; FS_WRITE_FILE; FS_REMOVE_DIR; FS_REMOVE_FILE; FS_MAKE_CHAR;
         FS_MAKE_REG; FS_MAKE_DIR; FS_MAKE_SYM; FS_MAKE_BLOCK; FS_MAKE_SOCK; FS_MAKE_FIFO;
         FS_EXECUTE] ++ abi_extra abi).

Definition read_access : Z := Z.lor FS_READ_FILE FS_READ_DIR.

Definition write_access (abi : Z) : Z :=
  lors ([FS_WRITE_FILE; FS_REMOVE_DIR; FS_REMOVE_FILE; FS_MAKE_CHAR; FS_MAKE_REG; FS_MAKE_DIR;
         FS_MAKE_SYM; FS_MAKE_BLOCK; FS_MAKE_SOCK; FS_MAKE_FIFO] ++ abi_extra abi).

Definition exec_access : Z := FS_EXECUTE.

(** The [switch] on the rule's mode. *)
Definition mode_access (abi : Z) (m : PathMode) : Z :=
  match m with
  | PATH_RO => Z.lor read_access exec_access
  | PATH_RW => Z.lor read_access (write_access abi)
  | PATH_EXEC => lors [FS_READ_FILE; exec_access; FS_READ_DIR]
  | PATH_RWX => lors [read_access; write_access abi; exec_access]
  end.

Definition handled_net (abi : Z) (cfg : Config) : Z :=
  let h := lors [if net_default_deny cfg then Z.lor NET_BIND_TCP NET_CONNECT_TCP else 0;
                 if Nat.ltb 0 (length (net_bind_ports cfg)) then NET_BIND_TCP else 0;
                 if Nat.ltb 0 (length (net_connect_ports cfg)) then NET_CONNECT_TCP else 0] in
  if negb (h =? 0) && (abi <? 4) then 0 else h.

(** ** The kernel *)

Inductive path_open := PathAbsent | PathFailed | PathOpened (st : option stat).

Record landlock_kernel := {
  ll_abi : Z;                               (* the version query *)
  ll_create : Z -> Z -> bool;               (* handled_access_fs, handled_access_net *)
  ll_open : cstring -> path_open;           (* open (O_PATH) and fstat *)
  ll_add_path : cstring -> Z -> bool;       (* path rule, allowed access *)
  ll_add_port : Z -> Z -> bool;             (* port rule, allowed access *)
  ll_restrict : bool;                       (* landlock_restrict_self *)
}.

Record ruleset := {
  rs_handled_fs : Z;
  rs_handled_net : Z;
  rs_paths : list (cstring * Z);
  rs_ports : list (Z * Z);
}.

(** ** The tool's side *)

(** [None] is the return value -1; [Some []] an optional rule skipped because
    the path does not exist; [Some [(p, a)]] a rule installed. *)
Definition landlock_add_path (k : landlock_kernel) (rule : PathRule) (access file_rights : Z)
  : option (list (cstring * Z)) :=
  match ll_open k (path rule) with
  | PathAbsent => if optional rule then Some [] else None
  | PathFailed => None
  | PathOpened None => None
  | PathOpened (Some st) =>
      let a := if S_ISDIR (st_mode st) then access else Z.land access file_rights in
      if a =? 0 then None
      else if ll_add_path k (path rule) a then Some [(path rule, a)] else None
  end.

Definition landlock_add_port (k : landlock_kernel) (port access : Z) : option (list (Z * Z)) :=
  if ll_add_port k port access then Some [(port, access)] else None.

(** The rule loops stop at the first failure. *)
Fixpoint add_all {A B} (f : A -> option (list B)) (l : list A) : option (list B) :=
  match l with
  | [] => Some []
  | x :: rest => r ← f x; rs ← add_all f rest; Some (r ++ rs)
  end.

Definition apply_landlock (k : landlock_kernel) (cfg : Config) : option ruleset :=
  let abi := ll_abi k in
  if abi <? 0 then None
  else
    let hfs := handled_fs abi in
    let hnet := handled_net abi cfg in
    match paths cfg with
    | [] => None
    | _ =>
        if negb (ll_create k hfs hnet) then None
        else
          ps ← add_all (fun r => landlock_add_path k r (mode_access abi (mode r)) (landlock_file_rights abi))
                 (paths cfg);
          bs ← (if hasbit hnet NET_BIND_TCP
                then add_all (fun p => landlock_add_port k p NET_BIND_TCP) (net_bind_ports cfg)
                else Some []);
          cs ← (if hasbit hnet NET_CONNECT_TCP
                then add_all (fun p => landlock_add_port k p NET_CONNECT_TCP) (net_connect_ports cfg)
                else Some []);
          if ll_restrict k
          then Some {| rs_handled_fs := hfs; rs_handled_net := hnet; rs_paths := ps; rs_ports := bs ++ cs |}
          else None
    end.

(** *** Path containment *)

(** [realpath], else the path itself cut to the buffer. *)
Definition canonical (realpath : cstring -> option cstring) (p : cstring) : cstring :=
  match realpath p with Some r => r | None => take (PATH_MAX - 1) p end.

(** The length of [outer] without trailing slashes, but at least one
    character. *)
Fixpoint trim_slashes (n : nat) (s : cstring) : nat :=
  match n with
  | S (S m as n') => match s !! n' with
                     | Some c => if Ascii.eqb c "/"%char then trim_slashes n' s else n
                     | None => n
                     end
  | _ => n
  end.

Definition char_at (s : cstring) (n : nat) : ascii := default NUL (s !! n).

(** [strncmp (inner, outer, olen) == 0] with [olen <= strlen (outer)]. *)
Definition strict_descendant (inner outer : cstring) : bool :=
  let olen := trim_slashes (length outer) outer in
  has_prefix (take olen outer) inner
  && (if Nat.eqb olen 1 && Ascii.eqb (char_at outer 0) "/"%char
      then negb (Ascii.eqb (char_at inner 1) NUL)
      else Ascii.eqb (char_at inner olen) "/"%char).

Definition is_writable_mode (m : PathMode) : bool :=
  match m with PATH_RW | PATH_RWX => true | _ => false end.

(** [true] is the return value 0. *)
Definition config_check_additive (realpath : cstring -> option cstring) (cfg : Config) : bool :=
  let indexed := imap (fun i r => (i, r)) (paths cfg) in
  forallb (fun ir : nat * PathRule =>
    negb (bool_decide (mode ir.2 = PATH_RO))
    || forallb (fun jr : nat * PathRule =>
         Nat.eqb ir.1 jr.1 || negb (is_writable_mode (mode jr.2))
         || negb (strict_descendant (canonical realpath (path ir.2)) (canonical realpath (path jr.2))))
       indexed) indexed.

(** The rule [audit_warn_if_writable] warns about, if any. *)
Definition audit_warn_if_writable (realpath : cstring -> option cstring) (cfg : Config) (dir : cstring)
  : option PathRule :=
  let real := canonical realpath dir in
  snd <$> list_find (fun r : PathRule =>
    let outer := canonical realpath (path r) in
    let olen := trim_slashes (length outer) outer in
    is_writable_mode (mode r) && has_prefix (take olen outer) real
    && (Ascii.eqb (char_at real olen) "/"%char || Ascii.eqb (char_at real olen) NUL) = true) (paths cfg).

(** ** Canonical paths as component lists *)

Definition comp_ok (c : cstring) : Prop := c <> [] /\ ("/"%char ∉ c) /\ (NUL ∉ c).

Definition join (cs : list cstring) : cstring := concat ((fun c => "/"%char :: c) <$> cs).

Definition render (cs : list cstring) : cstring :=
  match cs with [] => lit "/" | _ => join cs end.

(** [b] names a directory strictly above [a]. *)
Definition strictly_above (b a : list cstring) : Prop := exists c cs, a = b ++ c :: cs.

Lemma join_cons c cs : join (c :: cs) = "/"%char :: c ++ join cs.
Proof. done. Qed.

Lemma join_head cs : cs <> [] -> exists t, join cs = "/"%char :: t.
Proof. destruct cs; [done|]. rewrite join_cons. eauto. Qed.

Lemma join_last cs : Forall comp_ok cs -> cs <> [] -> exists s c, join cs = s ++ [c] /\ c <> "/"%char.
Proof.
  induction 1 as [|x cs (Hx & Hs & _) _ IH]; [done|]. intros _. rewrite join_cons.
  destruct cs as [|y cs].
  - destruct (exists_last Hx) as (s & c & ->). exists ("/"%char :: s), c. cbn.
    rewrite app_nil_r. split; [done|]. set_solver.
  - destruct IH as (s & c & -> & Hc); [done|]. exists ("/"%char :: x ++ s), c.
    split; [|done]. cbn. by rewrite <- app_assoc.
Qed.

Lemma join_prefix a b t :
  Forall comp_ok a -> Forall comp_ok b -> join a = join b ++ "/"%char :: t -> strictly_above b a.
Proof.
  intros Ha Hb. revert a Ha t. induction Hb as [|x b (Hx & Hxs & _) _ IH]; intros a Ha t H.
  - destruct a as [|c cs]; [done|]. by exists c, cs.
  - destruct a as [|y a]; [done|]. apply Forall_cons in Ha as ((Hy & Hys & _) & Ha).
    rewrite !join_cons in H. cbn in H. injection H as H. rewrite <- app_assoc in H.
    assert (Hb : exists u, join b ++ "/"%char :: t = "/"%char :: u)
      by (destruct b; [by exists t|rewrite join_cons; cbn; eauto]).
    destruct Hb as (u & Hu). rewrite Hu in H. destruct a as [|z a].
    + cbn in H. rewrite app_nil_r in H. subst y. set_solver.
    + destruct (join_head (z :: a)) as (v & Hv); [done|]. rewrite Hv in H.
      apply split_unique in H as (-> & ->); [|done..]. rewrite <- Hu in Hv.
      destruct (IH _ Ha _ Hv) as (c & cs & ->). by exists c, cs.
Qed.

Lemma trim_slashes_last s c : c <> "/"%char -> trim_slashes (length (s ++ [c])) (s ++ [c]) = length (s ++ [c]).
Proof.
  intros Hc. rewrite length_app, Nat.add_comm. cbn [length Nat.add].
  destruct (length s) as [|n] eqn:E; [done|]. cbn [trim_slashes].
  rewrite <- E, list_lookup_middle by done. by rewrite (proj2 (Ascii.eqb_neq c _)).
Qed.

Lemma char_at_slash s n : char_at s n = "/"%char <-> s !! n = Some "/"%char.
Proof. unfold char_at. destruct (s !! n); cbn; [naive_solver|done]. Qed.

Lemma strict_descendant_components a b :
  Forall comp_ok a -> Forall comp_ok b ->
  strict_descendant (render a) (render b) = true <-> strictly_above b a.
Proof.
  intros Ha Hb. unfold strict_descendant. destruct b as [|x b].
  - change (trim_slashes (length (render [])) (render [])) with 1%nat.
    change (take 1 (render [])) with (lit "/"). cbn [Nat.eqb andb].
    change (Ascii.eqb (char_at (render []) 0) "/"%char) with true. cbn iota.
    destruct a as [|y a]; [split; [done|by intros (c & cs & H)]|].
    pose proof Ha as ((Hy & _ & Hn) & _)%Forall_cons. destruct y as [|c y]; [done|].
    split; [intros _; by eexists _, _|]. intros _. rewrite andb_true_iff. split; [done|].
    apply negb_true_iff, Ascii.eqb_neq. cbn. set_solver.
  - change (render (x :: b)) with (join (x :: b)).
    destruct (join_last (x :: b)) as (s & c & Hj & Hc); [done..|]. rewrite Hj, trim_slashes_last, take_ge by done.
    assert (Hlen : Nat.eqb (length (s ++ [c])) 1 = false).
    { rewrite <- Hj, join_cons. apply Nat.eqb_neq. cbn. rewrite length_app.
      apply Forall_cons in Hb as ((Hx & _) & _). destruct x; [done|cbn; lia]. }
    rewrite Hlen. cbn [andb]. rewrite andb_true_iff, Ascii.eqb_eq, char_at_slash, has_prefix_true, <- Hj.
    assert (Hr : forall t, join (x :: b) ++ "/"%char :: t = render a -> strictly_above (x :: b) a).
    { intros t Ht. destruct a as [|y a].
      - exfalso. apply (f_equal length) in Ht. change (length (render [])) with 1%nat in Ht.
        rewrite length_app, join_cons in Ht. cbn in Ht. lia.
      - by apply (join_prefix _ _ t). }
    split.
    + intros ((t & Ht) & Hl). rewrite Ht, lookup_app_r, Nat.sub_diag in Hl by done.
      destruct t as [|d t]; [done|]. cbn in Hl. simplify_eq. by apply (Hr t).
    + intros (d & cs & ->). change (render ((x :: b) ++ d :: cs)) with (join ((x :: b) ++ d :: cs)).
      unfold join. rewrite fmap_app, concat_app. fold (join (x :: b)). split; [by eexists|].
      by rewrite lookup_app_r, Nat.sub_diag by done.
Qed.

(** ** What a ruleset permits *)

Inductive fs_right :=
  | Execute | WriteFile | ReadFile | ReadDir | RemoveDir | RemoveFile | MakeChar | MakeDir | MakeReg
  | MakeSock | MakeFifo | MakeBlock | MakeSym | Refer | Truncate | IoctlDev.

Definition right_bit (r : fs_right) : Z :=
  match r with
  | Execute => FS_EXECUTE | WriteFile => FS_WRITE_FILE | ReadFile => FS_READ_FILE
  | ReadDir => FS_READ_DIR | RemoveDir => FS_REMOVE_DIR | RemoveFile => FS_REMOVE_FILE
  | MakeChar => FS_MAKE_CHAR | MakeDir => FS_MAKE_DIR | MakeReg => FS_MAKE_REG
  | MakeSock => FS_MAKE_SOCK | MakeFifo => FS_MAKE_FIFO | MakeBlock => FS_MAKE_BLOCK
  | MakeSym => FS_MAKE_SYM | Refer => FS_REFER | Truncate => FS_TRUNCATE | IoctlDev => FS_IOCTL_DEV
  end.

(** The Landlock ABI that introduced the right. *)
Definition right_abi (r : fs_right) : Z :=
  match r with Refer => 2 | Truncate => 3 | IoctlDev => 5 | _ => 1 end.

(** The policy: which mode grants which right. *)
Definition mode_grants (m : PathMode) (r : fs_right) : bool :=
  match r with
  | ReadFile | ReadDir => true
  | Execute => match m with PATH_RW => false | _ => true end
  | _ => is_writable_mode m
  end.

(** The rights a rule on a non-directory can carry. *)
Definition on_files (r : fs_right) : bool :=
  match r with Execute | WriteFile | ReadFile | Truncate | IoctlDev => true | _ => false end.

(** [covers p]: the rule path [p] is an ancestor of the file, or the file. *)
Definition fs_allows (rs : ruleset) (covers : cstring -> bool) (r : fs_right) : bool :=
  negb (hasbit (rs_handled_fs rs) (right_bit r))
  || existsb (fun pa : cstring * Z => covers pa.1 && hasbit pa.2 (right_bit r)) (rs_paths rs).

(** What the configuration says: some rule whose path exists, covers the file
    and has a mode granting the right (and is on a directory, where the right
    needs one). *)
Definition policy_allows (k : landlock_kernel) (cfg : Config) (covers : cstring -> bool) (r : fs_right)
  : bool :=
  existsb (fun rule =>
    covers (path rule) && mode_grants (mode rule) r
    && match ll_open k (path rule) with
       | PathOpened (Some st) => S_ISDIR (st_mode st) || on_files r
       | _ => false
       end) (paths cfg).

(** The masks, for every ABI. *)
Lemma mode_access_bit abi m r :
  right_abi r <= abi -> hasbit (mode_access abi m) (right_bit r) = mode_grants m r.
Proof.
  intros Hr. unfold mode_access, write_access, abi_extra, since.
  destruct (Z.leb_spec 2 abi), (Z.leb_spec 3 abi), (Z.leb_spec 5 abi); try lia;
    destruct m, r; cbn in Hr; try lia; reflexivity.
Qed.

Lemma mode_access_file_bit abi m r :
  right_abi r <= abi ->
  hasbit (Z.land (mode_access abi m) (landlock_file_rights abi)) (right_bit r)
  = mode_grants m r && on_files r.
Proof.
  intros Hr. unfold mode_access, write_access, abi_extra, landlock_file_rights, since.
  destruct (Z.leb_spec 2 abi), (Z.leb_spec 3 abi), (Z.leb_spec 5 abi); try lia;
    destruct m, r; cbn in Hr; try lia; reflexivity.
Qed.

Lemma handled_fs_bit abi r : 0 <= abi -> hasbit (handled_fs abi) (right_bit r) = (right_abi r <=? Z.max 1 abi).
Proof.
  intros Ha. unfold handled_fs, abi_extra, since.
  destruct (Z.leb_spec 2 abi), (Z.leb_spec 3 abi), (Z.leb_spec 5 abi); try lia;
    destruct r; cbn; symmetry; first [apply Z.leb_le; lia | apply Z.leb_gt; lia].
Qed.

(** ** From the rules to the ruleset *)

Lemma add_all_existsb {A B} (f : A -> option (list B)) l out (g : B -> bool) (h : A -> bool) :
  add_all f l = Some out ->
  (forall x r, f x = Some r -> existsb g r = h x) -> existsb g out = existsb h l.
Proof.
  intros H Hgh. revert out H. induction l as [|x l IH]; intros out; cbn.
  - by intros [= <-].
  - intros (r & Hr & (rs & Hrs & [= <-])%bind_Some)%bind_Some.
    by rewrite existsb_app, (Hgh _ _ Hr), (IH _ Hrs).
Qed.

Lemma add_all_each {A B} (f : A -> option (list B)) l out x :
  add_all f l = Some out -> x ∈ l -> exists r, f x = Some r /\ r ⊆ out.
Proof.
  revert out. induction l as [|y l IH]; intros out; cbn; [set_solver|].
  intros (r & Hr & (rs & Hrs & [= <-])%bind_Some)%bind_Some [->|Hx]%elem_of_cons.
  - exists r. set_solver.
  - destruct (IH _ Hrs Hx) as (r' & ? & ?). exists r'. set_solver.
Qed.

Lemma add_path_grants k rule abi r covers out :
  right_abi r <= abi ->
  landlock_add_path k rule (mode_access abi (mode rule)) (landlock_file_rights abi) = Some out ->
  existsb (fun pa : cstring * Z => covers pa.1 && hasbit pa.2 (right_bit r)) out
  = covers (path rule) && mode_grants (mode rule) r
    && match ll_open k (path rule) with
       | PathOpened (Some st) => S_ISDIR (st_mode st) || on_files r
       | _ => false
       end.
Proof.
  intros Hr. unfold landlock_add_path. destruct (ll_open k (path rule)) as [| |[st|]]; [|done| |done].
  - destruct (optional rule); [|done]. intros [= <-]. by rewrite andb_false_r.
  - destruct (S_ISDIR (st_mode st)); repeat case_match; try done; intros [= <-]; cbn;
      rewrite orb_false_r, ?mode_access_bit, ?mode_access_file_bit by done.
    + by rewrite andb_true_r.
    + by rewrite andb_assoc.
Qed.

Lemma apply_landlock_inv k cfg rs :
  apply_landlock k cfg = Some rs ->
  0 <= ll_abi k /\ rs_handled_fs rs = handled_fs (ll_abi k) /\ rs_handled_net rs = handled_net (ll_abi k) cfg
  /\ add_all (fun r => landlock_add_path k r (mode_access (ll_abi k) (mode r)) (landlock_file_rights (ll_abi k)))
       (paths cfg) = Some (rs_paths rs)
  /\ exists bs cs, rs_ports rs = bs ++ cs
     /\ (if hasbit (rs_handled_net rs) NET_BIND_TCP
         then add_all (fun p => landlock_add_port k p NET_BIND_TCP) (net_bind_ports cfg)
         else Some []) = Some bs
     /\ (if hasbit (rs_handled_net rs) NET_CONNECT_TCP
         then add_all (fun p => landlock_add_port k p NET_CONNECT_TCP) (net_connect_ports cfg)
         else Some []) = Some cs.
Proof.
  unfold apply_landlock. destruct (Z.ltb_spec (ll_abi k) 0); [done|].
  destruct (paths cfg) as [|r0 l] eqn:El; [done|]. rewrite <- El. case_match; [done|].
  intros (ps & Hps & (bs & Hbs & (cs & Hcs & Hrs)%bind_Some)%bind_Some)%bind_Some.
  destruct (ll_restrict k); [|done]. simplify_eq. cbn. eauto 10.
Qed.

Lemma fs_allows_policy k cfg rs covers r :
  apply_landlock k cfg = Some rs -> right_abi r <= ll_abi k ->
  fs_allows rs covers r = policy_allows k cfg covers r.
Proof.
  intros (Ha & Hh & _ & Hp & _)%apply_landlock_inv Hr. unfold fs_allows, policy_allows.
  rewrite Hh, handled_fs_bit by done. replace (right_abi r <=? Z.max 1 (ll_abi k)) with true by lia.
  cbn [negb orb]. eapply add_all_existsb; [done|]. intros rule out Ho. by eapply add_path_grants.
Qed.

(** C11: what Landlock enforces is what the rules say.  When [apply_landlock]
    succeeds, a file system right the kernel knows is granted on a file
    exactly when some configured rule for an existing path covers the file and
    its mode grants the right: [rw] gives no execute, [ro] and [exec] give no
    write, remove, make, truncate or device-ioctl right.  And no rule is lost
    silently: each one that is not marked optional is installed. *)
Theorem landlock_enforces_rules k cfg rs covers r :
  apply_landlock k cfg = Some rs -> right_abi r <= ll_abi k ->
  fs_allows rs covers r = policy_allows k cfg covers r
  /\ forall rule, rule ∈ paths cfg -> optional rule = false -> exists a, (path rule, a) ∈ rs_paths rs.
Proof.
  intros H Hr. split; [by apply fs_allows_policy|]. intros rule Hin Ho.
  apply apply_landlock_inv in H as (_ & _ & _ & Hp & _).
  destruct (add_all_each _ _ _ _ Hp Hin) as (out & Hout & Hsub).
  unfold landlock_add_path in Hout. rewrite Ho in Hout. repeat case_match; simplify_eq; set_solver.
Qed.

(** A kernel that accepts everything and has a directory at every path. *)
Definition demo_landlock (abi : Z) : landlock_kernel := {|
  ll_abi := abi; ll_create := fun _ _ => true;
  ll_open := fun _ => PathOpened (Some {| st_mode := 0x41ED; st_uid := 0 |});
  ll_add_path := fun _ _ => true; ll_add_port := fun _ _ => true; ll_restrict := true;
|}.

Definition rule (p : string) (m : PathMode) : PathRule :=
  {| path := lit p; mode := m; optional := false; owned := true |}.

Definition demo_paths : Config :=
  set_net_connect_ports [443] (set_paths [rule "/usr" PATH_RO; rule "/work" PATH_RW] demo_config).

Lemma landlock_enforces_rules_witness :
  exists rs, apply_landlock (demo_landlock 5) demo_paths = Some rs
  /\ fs_allows rs (fun p => streq p (lit "/work")) WriteFile = true
  /\ fs_allows rs (fun p => streq p (lit "/work")) Execute = false
  /\ fs_allows rs (fun p => streq p (lit "/usr")) Truncate = false.
Proof.
  assert (E : exists rs, apply_landlock (demo_landlock 5) demo_paths = Some rs)
    by (eexists; vm_compute; reflexivity).
  destruct E as (rs & E). exists rs. split; [done|].
  assert (H : forall c r, right_abi r <= 5 -> fs_allows rs c r = policy_allows (demo_landlock 5) demo_paths c r)
    by (intros c r Hr; apply (landlock_enforces_rules (demo_landlock 5) demo_paths rs c r E Hr)).
  rewrite !H by (cbn; lia). vm_compute. auto.
Defined.

(** ** TCP ports *)

Definition tcp_allows (rs : ruleset) (right port : Z) : bool :=
  negb (hasbit (rs_handled_net rs) right)
  || existsb (fun pa : Z * Z => (pa.1 =? port) && hasbit pa.2 right) (rs_ports rs).

Lemma handled_net_bit abi cfg :
  4 <= abi ->
  hasbit (handled_net abi cfg) NET_CONNECT_TCP
    = net_default_deny cfg || negb (bool_decide (net_connect_ports cfg = []))
  /\ hasbit (handled_net abi cfg) NET_BIND_TCP
    = net_default_deny cfg || negb (bool_decide (net_bind_ports cfg = [])).
Proof.
  intros Ha. unfold handled_net. replace (abi <? 4) with false by lia. rewrite andb_false_r.
  by destruct (net_default_deny cfg), (net_bind_ports cfg), (net_connect_ports cfg).
Qed.

Lemma add_ports_existsb k l a right port out :
  add_all (fun p => landlock_add_port k p a) l = Some out ->
  existsb (fun pa : Z * Z => (pa.1 =? port) && hasbit pa.2 right) out
  = existsb (fun p => (p =? port) && hasbit a right) l.
Proof.
  intros H. eapply add_all_existsb; [done|]. intros x r. unfold landlock_add_port.
  case_match; [|done]. intros [= <-]. cbn. by rewrite orb_false_r.
Qed.

Lemma existsb_eqb l (port : Z) b :
  existsb (fun p => (p =? port) && b) l = bool_decide (port ∈ l) && b.
Proof.
  induction l as [|p l IH]; cbn; [by rewrite bool_decide_nil|].
  rewrite elem_of_cons_bool, IH, (Z.eqb_sym p). by destruct (port =? p), b, (bool_decide (port ∈ l)).
Qed.

(** The TCP policy, on a kernel that supports it (ABI 4 or later): a
    connect to a port is permitted exactly when the port is listed, or when
    the profile neither lists a connect port nor says [net-default deny]; the
    same for bind with its own list.  Listing connect ports alone does not
    restrict bind. *)
Theorem landlock_tcp_policy k cfg rs port :
  apply_landlock k cfg = Some rs -> 4 <= ll_abi k ->
  tcp_allows rs NET_CONNECT_TCP port
    = bool_decide (port ∈ net_connect_ports cfg)
      || (negb (net_default_deny cfg) && bool_decide (net_connect_ports cfg = []))
  /\ tcp_allows rs NET_BIND_TCP port
    = bool_decide (port ∈ net_bind_ports cfg)
      || (negb (net_default_deny cfg) && bool_decide (net_bind_ports cfg = [])).
Proof.
  intros (_ & _ & Hn & _ & bs & cs & Hports & Hbs & Hcs)%apply_landlock_inv Ha.
  destruct (handled_net_bit _ cfg Ha) as (Hc & Hb). rewrite <- Hn in Hc, Hb.
  unfold tcp_allows. rewrite Hports, !existsb_app. rewrite Hc in *. rewrite Hb in *.
  assert (Hbs' : forall right, existsb (fun pa : Z * Z => (pa.1 =? port) && hasbit pa.2 right) bs
    = bool_decide (port ∈ net_bind_ports cfg) && hasbit NET_BIND_TCP right).
  { intros right. destruct (net_default_deny cfg || _) eqn:E.
    - by rewrite (add_ports_existsb _ _ _ _ _ _ Hbs), existsb_eqb.
    - simplify_eq. apply orb_false_iff in E as (_ & E). apply negb_false_iff, bool_decide_eq_true in E as ->.
      by rewrite bool_decide_nil. }
  assert (Hcs' : forall right, existsb (fun pa : Z * Z => (pa.1 =? port) && hasbit pa.2 right) cs
    = bool_decide (port ∈ net_connect_ports cfg) && hasbit NET_CONNECT_TCP right).
  { intros right. destruct (net_default_deny cfg || negb (bool_decide (net_connect_ports cfg = []))) eqn:E.
    - by rewrite (add_ports_existsb _ _ _ _ _ _ Hcs), existsb_eqb.
    - simplify_eq. apply orb_false_iff in E as (_ & E). apply negb_false_iff, bool_decide_eq_true in E as ->.
      by rewrite bool_decide_nil. }
  rewrite !Hbs', !Hcs'. change (hasbit NET_BIND_TCP NET_CONNECT_TCP) with false.
  change (hasbit NET_CONNECT_TCP NET_BIND_TCP) with false.
  change (hasbit NET_BIND_TCP NET_BIND_TCP) with true. change (hasbit NET_CONNECT_TCP NET_CONNECT_TCP) with true.
  rewrite !andb_false_r, !andb_true_r, orb_false_r, !orb_false_l, !negb_orb, !negb_involutive.
  split; apply orb_comm.
Qed.

Lemma landlock_tcp_policy_witness :
  exists rs, apply_landlock (demo_landlock 5) demo_paths = Some rs
  /\ tcp_allows rs NET_CONNECT_TCP 443 = true /\ tcp_allows rs NET_CONNECT_TCP 80 = false
  /\ tcp_allows rs NET_BIND_TCP 80 = true.
Proof.
  assert (E : exists rs, apply_landlock (demo_landlock 5) demo_paths = Some rs)
    by (eexists; vm_compute; reflexivity).
  destruct E as (rs & E). exists rs. split; [done|].
  assert (Ha : 4 <= ll_abi (demo_landlock 5)) by (cbn; lia).
  destruct (landlock_tcp_policy _ _ _ 443 E Ha) as (H1 & _).
  destruct (landlock_tcp_policy _ _ _ 80 E Ha) as (H2 & H3).
  rewrite H1, H2, H3. vm_compute. auto.
Defined.

(** ** The additivity check *)

Lemma config_check_additive_spec realpath cfg :
  config_check_additive realpath cfg = true <->
  forall inner outer, inner ∈ paths cfg -> outer ∈ paths cfg ->
    mode inner = PATH_RO -> is_writable_mode (mode outer) = true ->
    strict_descendant (canonical realpath (path inner)) (canonical realpath (path outer)) = false.
Proof.
  unfold config_check_additive. rewrite forallb_forall.
  assert (Hin : forall i r, In (i, r) (imap (fun i r => (i, r)) (paths cfg)) <-> paths cfg !! i = Some r).
  { intros i r. rewrite <- list_elem_of_In, elem_of_lookup_imap. naive_solver. }
  split.
  - intros H inner outer (i & Hi)%list_elem_of_lookup (j & Hj)%list_elem_of_lookup Hm Hw.
    specialize (H (i, inner) (proj2 (Hin _ _) Hi)). cbn [fst snd] in H.
    rewrite bool_decide_eq_true_2 in H by done. cbn [negb orb] in H.
    rewrite forallb_forall in H. specialize (H (j, outer) (proj2 (Hin _ _) Hj)). cbn [fst snd] in H.
    rewrite Hw in H. destruct (Nat.eqb_spec i j) as [->|]; [simplify_eq; by rewrite Hm in Hw|].
    cbn in H. by apply negb_true_iff in H.
  - intros H [i inner] Hi%Hin. cbn [fst snd]. destruct (bool_decide_reflect (mode inner = PATH_RO)); [|done].
    cbn [negb orb]. apply forallb_forall. intros [j outer] Hj%Hin. cbn [fst snd].
    destruct (is_writable_mode (mode outer)) eqn:Hw; [|by rewrite orb_true_r].
    rewrite (H inner outer) by (try done; by eapply list_elem_of_lookup_2). by rewrite !orb_true_r.
Qed.

Section canonical_rules.
(** Rules whose paths resolve: [comps p] are the components of the real path
    of [p]. *)
Context (realpath : cstring -> option cstring) (cfg : Config) (comps : cstring -> list cstring).

Definition rules_resolve : Prop :=
  Forall (fun r => Forall comp_ok (comps (path r)) /\ realpath (path r) = Some (render (comps (path r))))
    (paths cfg).

Lemma descendant_of_rules inner outer :
  rules_resolve -> inner ∈ paths cfg -> outer ∈ paths cfg ->
  strict_descendant (canonical realpath (path inner)) (canonical realpath (path outer)) = true
  <-> strictly_above (comps (path outer)) (comps (path inner)).
Proof.
  intros Hr Hi Ho. unfold rules_resolve in Hr. rewrite Forall_forall in Hr.
  destruct (Hr _ Hi) as (H1 & H2), (Hr _ Ho) as (H3 & H4). unfold canonical. rewrite H2, H4.
  by apply strict_descendant_components.
Qed.

(** [config_check_additive] accepts a policy exactly when no [ro] rule
    lies strictly below a [rw] or [rwx] rule, compared component by component:
    the string test on canonical paths is right on every boundary, the root
    directory and names with a common prefix included. *)
Theorem additive_check_exact :
  rules_resolve ->
  config_check_additive realpath cfg = true <->
  forall inner outer, inner ∈ paths cfg -> outer ∈ paths cfg ->
    mode inner = PATH_RO -> is_writable_mode (mode outer) = true ->
    ~ strictly_above (comps (path outer)) (comps (path inner)).
Proof.
  intros Hr. rewrite config_check_additive_spec.
  split; intros H inner outer Hi Ho Hm Hw; specialize (H inner outer Hi Ho Hm Hw).
  - rewrite <- (descendant_of_rules inner outer) by done. by rewrite H.
  - rewrite <- (descendant_of_rules inner outer) in H by done. by apply not_true_is_false.
Qed.

(** Writing, removing, creating and the like. *)
Definition is_write_right (r : fs_right) : bool :=
  match r with Execute | ReadFile | ReadDir => false | _ => true end.

(** An accepted policy means what its [ro] lines say.  If the check passes
    and the ruleset is installed, then at the path of a [ro] rule no write
    right is granted, unless another rule makes that very path writable: no
    wider [rw] or [rwx] rule reaches it. *)
Theorem ro_rule_is_read_only k rs inner r :
  rules_resolve -> config_check_additive realpath cfg = true ->
  apply_landlock k cfg = Some rs -> right_abi r <= ll_abi k -> is_write_right r = true ->
  inner ∈ paths cfg -> mode inner = PATH_RO ->
  (forall other, other ∈ paths cfg -> is_writable_mode (mode other) = true ->
     comps (path other) <> comps (path inner)) ->
  fs_allows rs (fun p => bool_decide (comps p `prefix_of` comps (path inner))) r = false.
Proof.
  intros Hres Hchk Hrs Hr Hw Hin Hm Hother. rewrite (fs_allows_policy _ _ _ _ _ Hrs Hr).
  rewrite config_check_additive_spec in Hchk. unfold policy_allows.
  apply not_true_is_false. rewrite existsb_exists.
  intros (o & Ho%list_elem_of_In & (Hg & _)%andb_true_iff).
  apply andb_true_iff in Hg as ((t & Ht)%bool_decide_eq_true & Hg).
  assert (Hmo : is_writable_mode (mode o) = true) by (by destruct r, (mode o)).
  destruct t as [|c cs]; [rewrite app_nil_r in Ht; by eapply Hother|].
  specialize (Hchk inner o Hin Ho Hm Hmo).
  rewrite (proj2 (descendant_of_rules inner o Hres Hin Ho)) in Hchk; [done|]. by exists c, cs.
Qed.
End canonical_rules.

(** The components of the demo rules. *)
Definition demo_comps (p : cstring) : list cstring :=
  if streq p (lit "/usr") then [lit "usr"] else if streq p (lit "/work") then [lit "work"] else [lit "work"; lit "doc"].

Definition demo_realpath (p : cstring) : option cstring := Some p.

Lemma demo_rules_resolve : rules_resolve demo_realpath demo_paths demo_comps.
Proof. repeat constructor; try done; vm_compute; set_solver. Qed.

Lemma additive_check_exact_witness :
  ~ strictly_above [lit "work"] [lit "usr"] /\ config_check_additive demo_realpath demo_paths = true.
Proof.
  assert (E : config_check_additive demo_realpath demo_paths = true) by (vm_compute; reflexivity).
  split; [|done].
  apply (proj1 (additive_check_exact demo_realpath demo_paths demo_comps demo_rules_resolve) E
           (rule "/usr" PATH_RO) (rule "/work" PATH_RW)); try reflexivity.
  - left.
  - right. left.
Defined.

Lemma ro_rule_is_read_only_witness :
  exists rs, apply_landlock (demo_landlock 5) demo_paths = Some rs
  /\ fs_allows rs (fun p => bool_decide (demo_comps p `prefix_of` [lit "usr"])) WriteFile = false.
Proof.
  assert (E : exists rs, apply_landlock (demo_landlock 5) demo_paths = Some rs)
    by (eexists; vm_compute; reflexivity).
  destruct E as (rs & E). exists rs. split; [done|].
  apply (ro_rule_is_read_only demo_realpath demo_paths demo_comps (demo_landlock 5) rs
           (rule "/usr" PATH_RO) WriteFile demo_rules_resolve); try done.
  - left.
  - intros o [->|[->|H]%elem_of_cons]%elem_of_cons; [done|done|by apply elem_of_nil in H].
Defined.

(** ** The audit directory warning *)

(** The warning that the audit trail is writable from inside the sandbox
    has a gap: with the rule [rw /], which makes every directory writable, it
    stays silent for every directory but the root itself, because after the
    prefix test it looks for a slash at offset 1 and the special case for the
    root that [config_check_additive] has is missing. *)
Theorem audit_warning_misses_root c rest :
  c <> "/"%char -> c <> NUL ->
  let dir := "/"%char :: c :: rest in
  let cfg := set_paths [rule "/" PATH_RW] demo_config in
  strict_descendant dir (lit "/") = true
  /\ audit_warn_if_writable (fun p => Some p) cfg dir = None.
Proof.
  intros H1 H2. cbn zeta. split.
  - unfold strict_descendant. cbn. by rewrite (proj2 (Ascii.eqb_neq c NUL)).
  - unfold audit_warn_if_writable. cbn [paths set_paths list_find].
    rewrite decide_False; [done|]. rewrite !andb_true_iff, orb_true_iff, !Ascii.eqb_eq.
    by intros (_ & [H|H]).
Qed.

Lemma audit_warning_misses_root_witness :
  audit_warn_if_writable (fun p => Some p) (set_paths [rule "/" PATH_RW] demo_config)
    (lit "/var/log/compartment") = None.
Proof. apply (audit_warning_misses_root "v"%char (lit "ar/log/compartment")); done. Defined.
