(* ===== verification/Loader.v ===== *)
(** * The policy loader

    Models the part of [src/compartment-bpf/compartment-bpf.c] that turns a
    profile into the contents of the BPF maps: the grammar ([actor],
    [actor-strict], [env], [seal]), the resolution of paths to inode keys with
    its refusals, the recursive scan of sealed directories, the map updates
    with their merge rule, the strict-mode passes and [load_conf] itself.

    The file system and the answers of the map operations are a record
    [lworld]; one open of a path always sees the same file (the loader keeps
    the descriptors open).  Errors are counted and loading goes on, as in the
    code; a function that mutates its arguments returns the new values also
    when it fails.  Memory allocation is assumed to succeed and read errors on
    the profile are left out. *)

From S2P Require Import Prelude Abi Kernel CLib Config.
From Stdlib Require Import Ascii.

#[local] Open Scope Z_scope.

(** ** The outside world *)

Record lstat := LStat {
  ls_mode : Z; ls_major : Z; ls_minor : Z; ls_ino : Z; ls_size : Z; ls_nlink : Z
}.

(** [nftw] type flags. *)
Inductive ftw_type := FTW_F | FTW_D | FTW_DNR | FTW_NS | FTW_SL.

Record tree_entry := TreeEntry { te_type : ftw_type; te_mode : Z; te_nlink : Z; te_level : nat }.

Record lworld := LWorld {
  lw_open : cstring -> option lstat;            (* open (O_PATH | O_NOFOLLOW), fstat *)
  lw_open_rd : cstring -> option lstat;         (* open (O_RDONLY | O_NOFOLLOW), fstat *)
  lw_fstype : cstring -> option Z;              (* fstatfs ()->f_type *)
  lw_dirmode : cstring -> option Z;             (* open (O_DIRECTORY | O_NOFOLLOW), fstat *)
  lw_bytes : cstring -> list Z;                 (* the bytes of a file *)
  lw_nftw : cstring -> list tree_entry * bool;  (* entries visited, walk completed *)
  lw_update_seal : inode_key -> bool;           (* the map updates succeed *)
  lw_update_dev : Z -> bool;
  lw_update_launcher : inode_key -> bool;
  lw_update_state : bool;
  lw_hold : cstring -> bool;                    (* held_fds_push succeeds *)
}.

(** ** Profile state *)

Record actor_group := ActorGroup {
  ag_name : cstring;
  ag_paths : list cstring;
  ag_bin : option (list actor_id);
  ag_is_strict : bool;
  ag_launcher_path : option cstring;
  ag_launcher : inode_key;
  ag_strict_slot : Z
}.

Record seal_entry := SealEntry {
  se_key : inode_key; se_flags : Z; se_has_actor : bool; se_path : cstring
}.

Record profile_state := ProfileState {
  ps_actors : list actor_group;
  ps_seals : list seal_entry;
  ps_next_strict_slot : Z;
  ps_gen : Z
}.

(** The maps the loader fills. *)
Record maps := Maps {
  m_inodes : gmap inode_key seal_value;
  m_dirs : gmap inode_key seal_value;
  m_devs : gmap Z Z;
  m_launchers : gmap inode_key launcher_actor;
  m_state : option policy_state;
  m_abi : option Z
}.

Definition maps_empty : maps := Maps ∅ ∅ ∅ ∅ None None.

(** ** Grammar *)

Definition ACTOR_NAME_MAX : nat := 16.
Definition ACTOR_MAX_PATHS : nat := COMPARTMENT_MAX_ACTORS_PER_SEAL.

Definition isalpha (c : ascii) : bool :=
  ((65 <=? cval c) && (cval c <=? 90)) || ((97 <=? cval c) && (cval c <=? 122)).
Definition isdigit (c : ascii) : bool := (48 <=? cval c) && (cval c <=? 57).
Definition isalnum (c : ascii) : bool := isalpha c || isdigit c.

Definition actor_name_valid (name : cstring) : bool :=
  match name with
  | [] => false
  | c :: rest =>
      negb (Nat.ltb ACTOR_NAME_MAX (length name + 1))
      && (isalpha c || Ascii.eqb c "_"%char)
      && forallb (fun x => isalnum x || Ascii.eqb x "_"%char || Ascii.eqb x "-"%char) rest
  end.

Definition profile_find_actor (ps : profile_state) (name : cstring) : option actor_group :=
  snd <$> list_find (fun ag => ag_name ag = name) (ps_actors ps).

Definition trim (s : cstring) : cstring := rstrip isspace (skip isspace s).

(** The delimiters space, tab, carriage return and newline. *)
Definition ws_delim (c : ascii) : bool := is_blank c || Ascii.eqb c CR || Ascii.eqb c LF.
Definition flag_sep (c : ascii) : bool := Ascii.eqb c ","%char || ws_delim c.

(** One [strtok_r] step: the token and what the save pointer points to. *)
Definition strtok_r (delim : ascii -> bool) (s : cstring) : option (cstring * cstring) :=
  match span delim (skip delim s) with
  | ([], _) => None
  | (tok, rest) => Some (tok, tail rest)
  end.

Definition is_absolute (p : cstring) : bool := bool_decide (head p = Some "/"%char).

(** The path loop of [parse_actor_decl]: absolute, at most [ACTOR_MAX_PATHS]. *)
Fixpoint actor_paths_loop (toks acc : list cstring) : option (list cstring) :=
  match toks with
  | [] => Some acc
  | t :: rest =>
      if negb (is_absolute t) then None
      else if Nat.leb ACTOR_MAX_PATHS (length acc) then None
      else actor_paths_loop rest (acc ++ [t])
  end.

Definition add_actor (ag : actor_group) (ps : profile_state) : profile_state :=
  ProfileState (ps_actors ps ++ [ag]) (ps_seals ps) (ps_next_strict_slot ps) (ps_gen ps).

Definition parse_actor_decl (rest : cstring) (ps : profile_state) : option profile_state :=
  match strtok_all ws_delim rest with
  | name :: eq :: toks =>
      if negb (actor_name_valid name) then None
      else if bool_decide (is_Some (profile_find_actor ps name)) then None
      else if negb (streq eq (lit "=")) then None
      else match actor_paths_loop toks [] with
           | None | Some [] => None
           | Some paths => Some (add_actor (ActorGroup name paths None false None (InodeKey 0 0) 0) ps)
           end
  | _ => None
  end.

Definition parse_actor_strict_decl (rest : cstring) (ps : profile_state) : option profile_state :=
  match strtok_all ws_delim rest with
  | [name; eq; tgt; l] =>
      if negb (actor_name_valid name) then None
      else if bool_decide (is_Some (profile_find_actor ps name)) then None
      else if negb (streq eq (lit "=")) then None
      else if negb (is_absolute tgt) then None
      else if negb (has_prefix (lit "launcher=") l) then None
      else if negb (is_absolute (drop 9 l)) then None
      else
        let slot := wrap32 (ps_next_strict_slot ps + 1) in
        Some (ProfileState
                (ps_actors ps ++ [ActorGroup name [tgt] None true (Some (drop 9 l)) (InodeKey 0 0) slot])
                (ps_seals ps) slot (ps_gen ps))
  | _ => None
  end.

(** The directive was removed from the grammar; every use is refused. *)
Definition parse_env_decl (rest : cstring) (ps : profile_state) : option profile_state := None.

(** *** Flags *)

Definition flag_of_token (tok : cstring) : option Z :=
  if streq tok (lit "full") then Some SEAL_FULL
  else if streq tok (lit "no-unlink") then Some SEAL_NO_UNLINK
  else if streq tok (lit "no-rename") then Some SEAL_NO_RENAME
  else if streq tok (lit "no-write") then Some SEAL_NO_WRITE
  else if streq tok (lit "no-chmod") then Some SEAL_NO_CHMOD
  else if streq tok (lit "strict-launch") then Some SEAL_STRICT_LAUNCH
  else None.

(** The token loop: the flags and the actor name so far; [saw_flag] as in the
    code. *)
Fixpoint flagspec_loop (toks : list cstring) (flags : Z) (actor : option cstring) (saw_flag : bool)
  : option (Z * option cstring * bool) :=
  match toks with
  | [] => Some (flags, actor, saw_flag)
  | tok :: rest =>
      if has_prefix (lit "actor=") tok then
        let name := drop 6 tok in
        match actor with
        | Some _ => None
        | None => if negb (actor_name_valid name) then None
                  else flagspec_loop rest flags (Some name) saw_flag
        end
      else match flag_of_token tok with
           | None => None
           | Some f => flagspec_loop rest (Z.lor flags f) actor true
           end
  end.

Definition parse_flagspec (s : cstring) : option (Z * option cstring) :=
  match trim s with
  | [] => Some (SEAL_FULL, None)
  | s' =>
      match flagspec_loop (strtok_all flag_sep s') 0 None false with
      | None => None
      | Some (flags, actor, saw_flag) =>
          if bool_decide (is_Some actor) && negb saw_flag then None
          else if flags =? 0 then None
          else if flags =? SEAL_STRICT_LAUNCH then None
          else Some (flags, actor)
      end
  end.

(** [fmt_flags] into a buffer that is large enough. *)
Definition fmt_flags (flags : Z) : cstring :=
  if flags =? SEAL_FULL then lit "full"
  else
    let add (name : string) (bit : Z) (buf : cstring) :=
      if hasbit flags bit
      then (if bool_decide (buf = []) then lit name else buf ++ lit "," ++ lit name) else buf in
    add "no-chmod" SEAL_NO_CHMOD
      (add "no-write" SEAL_NO_WRITE (add "no-rename" SEAL_NO_RENAME (add "no-unlink" SEAL_NO_UNLINK []))).

(** ** Resolution *)

Definition BTRFS_SUPER_MAGIC : Z := 0x9123683e.
Definition OVERLAYFS_SUPER_MAGIC : Z := 0x794c7630.
Definition FUSE_SUPER_MAGIC : Z := 0x65735546.

(** [true]: the path may be used. *)
Definition anon_bdev_refuse (w : lworld) (p : cstring) : bool :=
  match lw_fstype w p with
  | None => false
  | Some t => negb ((t =? BTRFS_SUPER_MAGIC) || (t =? OVERLAYFS_SUPER_MAGIC) || (t =? FUSE_SUPER_MAGIC))
  end.

Definition is_type (m t : Z) : bool := Z.land m S_IFMT =? t.
Definition S_IFLNK : Z := 0xA000.

(** The kernel's device number, for what fits it. *)
Definition kdev (st : lstat) : option Z :=
  if (Z.shiftl 1 12 <=? ls_major st) || (Z.shiftl 1 20 <=? ls_minor st) then None
  else Some (Z.lor (Z.shiftl (ls_major st) 20) (ls_minor st)).

Definition parent_of (p : cstring) : option cstring :=
  match before_last_slash p with
  | None => None
  | Some [] => Some (lit "/")
  | Some d => Some d
  end.

Definition writable_by_others (m : Z) : bool := hasbit m (Z.lor S_IWOTH S_IWGRP).

(** One path of [actor_resolve_paths]. *)
Definition actor_resolve_path (w : lworld) (p : cstring) : option actor_id :=
  match lw_open w p with
  | None => None
  | Some st =>
      if negb (anon_bdev_refuse w p) then None
      else if is_type (ls_mode st) S_IFLNK then None
      else if negb (is_type (ls_mode st) S_IFREG) then None
      else if writable_by_others (ls_mode st) then None
      else if Nat.leb PATH_MAX (length p) then None
      else match parent_of p ≫= lw_dirmode w with
           | None => None
           | Some pm =>
               if writable_by_others pm then None
               else if ls_size st =? 0 then None
               else if negb (hasbit (ls_mode st) 0x49) then None           (* 0111 *)
               else match kdev st with
                    | None => None
                    | Some dev =>
                        if dev =? 0 then None
                        else if lw_hold w p then Some (ActorId dev (ls_ino st)) else None
                    end
           end
  end.

(** All paths or none: a failure resets [bin]. *)
Definition actor_resolve_paths (w : lworld) (ag : actor_group) : actor_group * bool :=
  let with_bin b := ActorGroup (ag_name ag) (ag_paths ag) b (ag_is_strict ag) (ag_launcher_path ag)
                      (ag_launcher ag) (ag_strict_slot ag) in
  match mapM (actor_resolve_path w) (ag_paths ag) with
  | Some bins => (with_bin (Some bins), true)
  | None => (with_bin None, false)
  end.

(** Resolving the group that was just declared. *)
Definition resolve_last (w : lworld) (ps : profile_state) : profile_state * bool :=
  match last (ps_actors ps) with
  | None => (ps, true)
  | Some ag =>
      let '(ag', ok) := actor_resolve_paths w ag in
      (ProfileState (removelast (ps_actors ps) ++ [ag']) (ps_seals ps) (ps_next_strict_slot ps) (ps_gen ps), ok)
  end.

(** ** The scan of a sealed directory *)

(** The [nftw] callback; [true] is the return value 0. *)
Definition dir_subtree_check_cb (e : tree_entry) : bool :=
  if Nat.eqb (te_level e) 0 then true
  else
    match te_type e with
    | FTW_NS | FTW_DNR => false
    | ty =>
        let is_dir := is_type (te_mode e) S_IFDIR in
        if (is_dir && Nat.leb COMPARTMENT_MAX_DIR_ANCESTORS (te_level e))
           || (negb is_dir && Nat.ltb COMPARTMENT_MAX_DIR_ANCESTORS (te_level e)) then false
        else if match ty with FTW_SL => true | _ => is_type (te_mode e) S_IFLNK end then false
        else negb (negb is_dir && (1 <? te_nlink e))
    end.

(** The walk stops at the first entry the callback refuses. *)
Definition validate_recursive_dir_seal (w : lworld) (p : cstring) : bool :=
  let '(entries, completed) := lw_nftw w p in
  forallb dir_subtree_check_cb entries && completed.

(** ** Recorded seals *)

(** The declared paths of an entry are kept in one string, separated by
    newlines. *)
Fixpoint list_contains_loop (fuel : nat) (cur p : cstring) : bool :=
  match fuel, cur with
  | _, [] => false
  | O, _ => false
  | S fuel', _ =>
      let '(item, rest) := span (Ascii.eqb LF) cur in
      if streq item p then true
      else match rest with [] => false | _ :: next => list_contains_loop fuel' next p end
  end.

Definition path_list_contains_exact (l p : cstring) : bool := list_contains_loop (length l) l p.

Definition seal_entry_matches_declared (se : seal_entry) (declared : cstring) : bool :=
  path_list_contains_exact (se_path se) declared.

Definition merge_entry (flags : Z) (has_actor : bool) (p : cstring) (e : seal_entry) : seal_entry :=
  SealEntry (se_key e) (Z.lor (se_flags e) flags) (has_actor || se_has_actor e)
    (if path_list_contains_exact (se_path e) p then se_path e else se_path e ++ [LF] ++ p).

Fixpoint record_seal_loop (k : inode_key) (flags : Z) (has_actor : bool) (p : cstring)
  (l : list seal_entry) : list seal_entry :=
  match l with
  | [] => [SealEntry k flags has_actor p]
  | e :: rest =>
      if bool_decide (se_key e = k) then merge_entry flags has_actor p e :: rest
      else e :: record_seal_loop k flags has_actor p rest
  end.

Definition profile_state_record_seal (k : inode_key) (flags : Z) (has_actor : bool) (p : cstring)
  (ps : profile_state) : profile_state :=
  ProfileState (ps_actors ps) (record_seal_loop k flags has_actor p (ps_seals ps))
    (ps_next_strict_slot ps) (ps_gen ps).

(** ** Map updates *)

Definition record_sealed_dev (w : lworld) (dev : Z) (m : maps) : maps * bool :=
  let n := default 0 (m_devs m !! dev) in
  let n' := if n <? UINT32_MAX then n + 1 else n in
  if lw_update_dev w dev
  then (Maps (m_inodes m) (m_dirs m) (<[dev := n']> (m_devs m)) (m_launchers m) (m_state m) (m_abi m), true)
  else (m, false).

Definition put_seal (is_dir : bool) (k : inode_key) (sv : seal_value) (m : maps) : maps :=
  if is_dir
  then Maps (m_inodes m) (<[k := sv]> (m_dirs m)) (m_devs m) (m_launchers m) (m_state m) (m_abi m)
  else Maps (<[k := sv]> (m_inodes m)) (m_dirs m) (m_devs m) (m_launchers m) (m_state m) (m_abi m).

(** The name in a 16-byte slot: at most 15 characters, zero padded. *)
Definition name_slot (name : cstring) : name16 :=
  let n := cval <$> take 15 name in n ++ replicate (16 - length n) 0.

(** The [seal_value] of one [seal] line, before merging; [None] refuses. *)
Definition build_seal_value (flags : Z) (actor : option actor_group) (gen : Z) : option seal_value :=
  let strict := hasbit flags SEAL_STRICT_LAUNCH in
  match actor with
  | None => if strict then None
            else Some (SealValue flags 0 (replicate COMPARTMENT_MAX_ACTORS_PER_SEAL (ActorId 0 0)) name16_zero 0 0)
  | Some ag =>
      if strict && negb (ag_is_strict ag) then None
      else
        let slot := if strict then ag_strict_slot ag else 0 in
        let g := if strict then gen else 0 in
        match ag_bin ag with
        | None => Some (SealValue flags 0 (replicate COMPARTMENT_MAX_ACTORS_PER_SEAL (ActorId 0 0)) name16_zero slot g)
        | Some bins =>
            if Nat.ltb COMPARTMENT_MAX_ACTORS_PER_SEAL (length (ag_paths ag)) then None
            else Some (SealValue flags (Z.of_nat (length (ag_paths ag)))
                         (bins ++ replicate (COMPARTMENT_MAX_ACTORS_PER_SEAL - length bins) (ActorId 0 0))
                         (name_slot (ag_name ag)) slot g)
        end
  end.

(** Merging with the entry already in the map. *)
Definition merge_seal (prev : option seal_value) (sv : seal_value) : option seal_value :=
  match prev with
  | None => Some sv
  | Some pv =>
      if negb (sv_actor_count pv =? 0) || negb (sv_actor_count sv =? 0) then None
      else Some (SealValue (Z.lor (sv_flags sv) (sv_flags pv)) (sv_actor_count sv) (sv_actor sv)
                   (sv_actor_name sv) (sv_strict_actor_slot sv) (sv_strict_generation sv))
  end.

(** What resolving a seal target yields: its key and whether it is a
    directory. *)
Definition resolve_seal_target (w : lworld) (p : cstring) (actor : option actor_group)
  : option (inode_key * bool) :=
  if negb (is_absolute p) then None
  else if match actor with Some ag => bool_decide (ag_bin ag = None) | None => false end then None
  else match lw_open w p with
       | None => None
       | Some st =>
           if negb (anon_bdev_refuse w p) then None
           else if is_type (ls_mode st) S_IFLNK then None
           else match kdev st with
                | None => None
                | Some dev =>
                    if dev =? 0 then None
                    else
                      let is_dir := is_type (ls_mode st) S_IFDIR in
                      if is_dir && negb (validate_recursive_dir_seal w p) then None
                      else Some (InodeKey dev (ls_ino st), is_dir)
                end
       end.

(** The real load. *)
Definition seal_path (w : lworld) (p : cstring) (flags : Z) (actor : option actor_group)
  (ps : profile_state) (m : maps) : profile_state * maps * bool :=
  match resolve_seal_target w p actor with
  | None => (ps, m, false)
  | Some (k, is_dir) =>
      match build_seal_value flags actor (ps_gen ps) with
      | None => (ps, m, false)
      | Some sv0 =>
          match merge_seal ((if is_dir then m_dirs m else m_inodes m) !! k) sv0 with
          | None => (ps, m, false)
          | Some sv =>
              if negb (lw_update_seal w k) then (ps, m, false)
              else
                let m1 := put_seal is_dir k sv m in
                let '(m2, ok) := record_sealed_dev w (key_dev k) m1 in
                if negb ok then (ps, m2, false)
                else
                  let ps' := profile_state_record_seal k (sv_flags sv) (bool_decide (is_Some actor)) p ps in
                  (ps', m2, lw_hold w p)
          end
      end
  end.

(** The dry run: the merge rule is checked on the recorded seals, the maps are
    not touched. *)
Definition seal_path_dry (w : lworld) (p : cstring) (flags : Z) (actor : option actor_group)
  (ps : profile_state) : profile_state * bool :=
  match resolve_seal_target w p actor with
  | None => (ps, false)
  | Some (k, _) =>
      let has_actor := bool_decide (is_Some actor) in
      match list_find (fun e => se_key e = k) (ps_seals ps) with
      | Some (_, e) =>
          if se_has_actor e || has_actor then (ps, false)
          else (profile_state_record_seal k flags has_actor p ps, true)
      | None => (profile_state_record_seal k flags has_actor p ps, true)
      end
  end.

(** ** Strict mode *)

Definition required_full : Z :=
  Z.lor (Z.lor (Z.lor SEAL_NO_WRITE SEAL_NO_UNLINK) SEAL_NO_RENAME) SEAL_NO_CHMOD.

Definition key_of_actor (a : actor_id) : inode_key := InodeKey (actor_dev a) (actor_ino a).

(** The check of one resolved binary of an actor. *)
Definition binary_sealed (ps : profile_state) (a : actor_id) (p : cstring) : bool :=
  match list_find (fun e => se_key e = key_of_actor a /\ seal_entry_matches_declared e p = true) (ps_seals ps) with
  | None => false
  | Some (_, e) => (Z.ldiff required_full (se_flags e) =? 0) && negb (se_has_actor e)
  end.

Definition group_sealed (ps : profile_state) (ag : actor_group) : bool :=
  match ag_bin ag with
  | None => true
  | Some bins => forallb (fun ap : actor_id * cstring => binary_sealed ps ap.1 ap.2) (zip bins (ag_paths ag))
  end.

(** The launcher of a strict actor, looked up by its declared path. *)
Definition launcher_entry_ok (ps : profile_state) (ag : actor_group) : bool :=
  match ag_is_strict ag, ag_launcher_path ag with
  | true, Some lp =>
      match list_find (fun e => seal_entry_matches_declared e lp = true) (ps_seals ps) with
      | None => true
      | Some (_, e) => negb (se_has_actor e)
      end
  | _, _ => true
  end.

Definition enforce_actor_binaries_sealed (ps : profile_state) : bool :=
  forallb (group_sealed ps) (ps_actors ps) && forallb (launcher_entry_ok ps) (ps_actors ps).

(** *** The ELF check *)

Definition le (l : list Z) : Z := foldr (fun b acc => b + 256 * acc) 0 l.

(** [pread (fd, buf, n, off) == n]. *)
Definition pread (bytes : list Z) (off : Z) (n : nat) : option (list Z) :=
  let b := take n (drop (Z.to_nat off) bytes) in
  if (off <? 0) || negb (Nat.eqb (length b) n) then None else Some b.

Definition field (hdr : list Z) (off n : nat) : Z := le (take n (drop off hdr)).

Definition PT_INTERP : Z := 3.

Fixpoint phdr_loop (bytes : list Z) (phoff : Z) (i n : nat) : option bool :=
  match n with
  | O => Some false
  | S n' =>
      match pread bytes (phoff + Z.of_nat i * 56) 56 with
      | None => None
      | Some ph => if field ph 0 4 =? PT_INTERP then Some true else phdr_loop bytes phoff (S i) n'
      end
  end.

(** [Some true]: dynamic; [Some false]: static; [None]: refused. *)
Definition elf_has_interp (bytes : list Z) : option bool :=
  match pread bytes 0 16 with
  | None => None
  | Some ident =>
      if negb (bool_decide (take 4 ident = [0x7f; 0x45; 0x4c; 0x46])) then None
      else if negb (field ident 4 1 =? 2) then None                     (* ELFCLASS64 *)
      else match pread bytes 0 64 with
           | None => None
           | Some eh =>
               let phoff := field eh 32 8 in
               let phentsize := field eh 54 2 in
               let phnum := field eh 56 2 in
               if (phoff =? 0) || (phnum =? 0) || negb (phentsize =? 56) then None
               else if 256 <? phnum then None
               else phdr_loop bytes phoff 0 (Z.to_nat phnum)
           end
  end.

(** *** Launchers *)

Definition sealed_full (e : seal_entry) : bool := Z.land (se_flags e) required_full =? required_full.

(** The last recorded full seal on a key. *)
Definition last_full (k : inode_key) (l : list seal_entry) : option seal_entry :=
  last (List.filter (fun e => bool_decide (se_key e = k) && sealed_full e) l).

(** One strict group: the key of its launcher, or refusal. *)
Definition validate_launcher (w : lworld) (ps : profile_state) (ag : actor_group) : option inode_key :=
  match ag_launcher_path ag with
  | None => None
  | Some lp =>
      match lw_open_rd w lp with
      | None => None
      | Some st =>
          if negb (anon_bdev_refuse w lp) then None
          else if negb (is_type (ls_mode st) S_IFREG) then None
          else if writable_by_others (ls_mode st) then None
          else match elf_has_interp (lw_bytes w lp) with
               | Some false =>
                   let k := InodeKey (Z.lor (Z.shiftl (ls_major st) 20) (ls_minor st)) (ls_ino st) in
                   let target := head (default [] (ag_bin ag)) in
                   if bool_decide (key_of_actor <$> target = Some k) then None
                   else match last_full k (ps_seals ps) with
                        | None => None
                        | Some e =>
                            if se_has_actor e then None
                            else if match target with
                                    | Some a => existsb (fun e => bool_decide (se_key e = key_of_actor a) && sealed_full e) (ps_seals ps)
                                    | None => false
                                    end
                            then if lw_hold w lp then Some k else None
                            else None
                        end
               | _ => None
               end
      end
  end.

Definition set_launcher (k : inode_key) (ag : actor_group) : actor_group :=
  ActorGroup (ag_name ag) (ag_paths ag) (ag_bin ag) (ag_is_strict ag) (ag_launcher_path ag) k (ag_strict_slot ag).

(** Every strict group is validated; one refusal fails the pass. *)
Fixpoint strict_validate_loop (w : lworld) (ps : profile_state) (l : list actor_group)
  : list actor_group * bool :=
  match l with
  | [] => ([], true)
  | ag :: rest =>
      let '(rest', ok) := strict_validate_loop w ps rest in
      if ag_is_strict ag
      then match validate_launcher w ps ag with
           | Some k => (set_launcher k ag :: rest', ok)
           | None => (ag :: rest', false)
           end
      else (ag :: rest', ok)
  end.

Definition strict_validate_launchers (w : lworld) (ps : profile_state) : profile_state * bool :=
  let '(l, ok) := strict_validate_loop w ps (ps_actors ps) in
  (ProfileState l (ps_seals ps) (ps_next_strict_slot ps) (ps_gen ps), ok).

Definition launcher_entry (gen : Z) (ag : actor_group) : option launcher_actor :=
  match head (default [] (ag_bin ag)) with
  | Some a => Some (LauncherActor (key_of_actor a) (ag_strict_slot ag) gen)
  | None => None
  end.

Fixpoint populate_loop (w : lworld) (gen : Z) (l : list actor_group) (acc : gmap inode_key launcher_actor)
  (loaded : Z) : gmap inode_key launcher_actor * option Z :=
  match l with
  | [] => (acc, Some loaded)
  | ag :: rest =>
      if ag_is_strict ag
      then match launcher_entry gen ag with
           | None => (acc, None)
           | Some v =>
               if lw_update_launcher w (ag_launcher ag)
               then populate_loop w gen rest (<[ag_launcher ag := v]> acc) 1
               else (acc, None)
           end
      else populate_loop w gen rest acc loaded
  end.

Definition strict_populate_maps (w : lworld) (ps : profile_state) (m : maps) : maps * bool :=
  let '(la, r) := populate_loop w (ps_gen ps) (ps_actors ps) (m_launchers m) 0 in
  match r with
  | None => (Maps (m_inodes m) (m_dirs m) (m_devs m) la (m_state m) (m_abi m), false)
  | Some loaded =>
      if lw_update_state w
      then (Maps (m_inodes m) (m_dirs m) (m_devs m) la (Some (PolicyState (ps_gen ps) loaded))
              (Some COMPARTMENT_ABI_VERSION), true)
      else (Maps (m_inodes m) (m_dirs m) (m_devs m) la (m_state m) (m_abi m), false)
  end.

(** ** [load_conf] *)

Inductive load_mode := RealLoad | DryRun | ParseOnly.

(** Without a descriptor buffer nothing is held: the push cannot fail. *)
Definition no_hold (w : lworld) : lworld :=
  LWorld (lw_open w) (lw_open_rd w) (lw_fstype w) (lw_dirmode w) (lw_bytes w) (lw_nftw w)
    (lw_update_seal w) (lw_update_dev w) (lw_update_launcher w) (lw_update_state w) (fun _ => true).

Definition mode_world (mode : load_mode) (w : lworld) : lworld :=
  match mode with RealLoad => w | _ => no_hold w end.

Record load_state := LoadState {
  l_ps : profile_state; l_maps : maps; l_errs : nat; l_sealed : nat; l_candidate : bool
}.

Definition load_init : load_state :=
  LoadState (ProfileState [] [] 0 1) maps_empty 0 0 false.

Definition add_err (st : load_state) : load_state :=
  LoadState (l_ps st) (l_maps st) (S (l_errs st)) (l_sealed st) (l_candidate st).

Definition set_ps (ps : profile_state) (st : load_state) : load_state :=
  LoadState ps (l_maps st) (l_errs st) (l_sealed st) (l_candidate st).

(** After a declaration was parsed: resolve it, except in parse-only mode. *)
Definition after_decl (mode : load_mode) (w : lworld) (decl : option profile_state) (st : load_state)
  : load_state :=
  match decl with
  | None => add_err st
  | Some ps =>
      match mode with
      | ParseOnly => set_ps ps st
      | _ => let '(ps', ok) := resolve_last w ps in
             if ok then set_ps ps' st else add_err (set_ps ps' st)
      end
  end.

Definition apply_seal (mode : load_mode) (w : lworld) (target : cstring) (flags : Z)
  (actor : option actor_group) (st : load_state) : load_state :=
  match mode with
  | ParseOnly =>
      if is_absolute target
      then LoadState (l_ps st) (l_maps st) (l_errs st) (S (l_sealed st)) (l_candidate st)
      else add_err st
  | DryRun =>
      let '(ps, ok) := seal_path_dry w target flags actor (l_ps st) in
      let st' := LoadState ps (l_maps st) (l_errs st) (if ok then S (l_sealed st) else l_sealed st) (l_candidate st) in
      if ok then st' else add_err st'
  | RealLoad =>
      let '(ps, m, ok) := seal_path w target flags actor (l_ps st) (l_maps st) in
      let st' := LoadState ps m (l_errs st) (if ok then S (l_sealed st) else l_sealed st) (l_candidate st) in
      if ok then st' else add_err st'
  end.

(** The actor a seal line names: [None] when the name is unknown. *)
Definition find_named (ps : profile_state) (name : option cstring) : option (option actor_group) :=
  match name with
  | None => Some None
  | Some n => match profile_find_actor ps n with Some ag => Some (Some ag) | None => None end
  end.

Definition seal_line (mode : load_mode) (w : lworld) (rest : cstring) (st : load_state) : load_state :=
  match strtok_r ws_delim rest with
  | None => add_err st
  | Some (target, flagspec) =>
      match parse_flagspec flagspec with
      | None => add_err st
      | Some (flags, name) =>
          match find_named (l_ps st) name with
          | None => add_err st
          | Some actor => apply_seal mode w target flags actor st
          end
      end
  end.

(** One line without its comment. *)
Definition conf_directive (mode : load_mode) (w : lworld) (line : cstring) (st : load_state) : load_state :=
  match strtok_r ws_delim (trim line) with
  | None => st
  | Some (dir, rest) =>
      if streq dir (lit "actor") then after_decl mode w (parse_actor_decl rest (l_ps st)) st
      else if streq dir (lit "actor-strict") then after_decl mode w (parse_actor_strict_decl rest (l_ps st)) st
      else if streq dir (lit "env") then
        match parse_env_decl rest (l_ps st) with None => add_err st | Some ps => set_ps ps st end
      else if streq dir (lit "seal") then seal_line mode w rest st
      else add_err st
  end.

Definition candidate_marker : cstring := lit "#@compartment-bpf-profile-status:".

Definition is_candidate_line (line : cstring) : bool :=
  let cm := skip isspace line in
  if has_prefix candidate_marker cm then
    let val := skip isspace (drop (length candidate_marker) cm) in
    has_prefix (lit "candidate") val
    && match val !! 9%nat with
       | None => true
       | Some c => ws_delim c || Ascii.eqb c "#"%char
       end
  else false.

Definition strip_hash (line : cstring) : cstring := (span (Ascii.eqb "#"%char) line).1.

Definition LINE_SIZE : nat := 2048.

(** Bytes after the first NUL of what [fgets] stored. *)
Definition embedded_nul (chunk : cstring) : bool :=
  existsb (fun c => negb (Ascii.eqb c NUL)) (drop (S (length (until_nul chunk))) chunk).

(** The line loop over what [fgets] returns; [draining]: inside an over-long
    line, up to the next newline. *)
Fixpoint conf_lines (mode : load_mode) (w : lworld) (draining : bool) (chunks : list cstring)
  (st : load_state) : load_state :=
  match chunks with
  | [] => st
  | chunk :: rest =>
      let line := until_nul chunk in
      if draining then conf_lines mode w (negb (strchr line LF)) rest st
      else if embedded_nul chunk then conf_lines mode w false rest (add_err st)
      else if Nat.eqb (length line) (LINE_SIZE - 1) && negb (bool_decide (last line = Some LF))
      then conf_lines mode w true rest (add_err st)
      else
        let st1 := if is_candidate_line line
                   then LoadState (l_ps st) (l_maps st) (l_errs st) (l_sealed st) true else st in
        conf_lines mode w false rest (conf_directive mode w (strip_hash line) st1)
  end.

Definition err_if (b : bool) (st : load_state) : load_state := if b then add_err st else st.

(** The passes after the last line. *)
Definition conf_finish (mode : load_mode) (w : lworld) (pin_enforce_path allow_candidate : bool)
  (st : load_state) : load_state :=
  let st1 := err_if (l_candidate st && pin_enforce_path && negb allow_candidate) st in
  match mode with
  | ParseOnly => st1
  | _ =>
      let st2 := err_if (negb (enforce_actor_binaries_sealed (l_ps st1))) st1 in
      let '(ps, ok) := strict_validate_launchers w (l_ps st2) in
      let st3 := err_if (negb ok) (set_ps ps st2) in
      match mode with
      | RealLoad =>
          if Nat.eqb (l_errs st3) 0
          then let '(m, ok) := strict_populate_maps w (l_ps st3) (l_maps st3) in
               err_if (negb ok) (LoadState (l_ps st3) m (l_errs st3) (l_sealed st3) (l_candidate st3))
          else st3
      | _ => st3
      end
  end.

(** The maps when the load succeeded ([None]: the return value is -1, and the
    skeleton is discarded).  [content]: the bytes of the profile. *)
Definition load_conf (mode : load_mode) (w : lworld) (content : cstring)
  (allow_empty pin_enforce_path allow_candidate : bool) : option maps :=
  let w' := mode_world mode w in
  let st := conf_finish mode w' pin_enforce_path allow_candidate
              (conf_lines mode w' false (fgets_all (LINE_SIZE - 1) content).*1 load_init) in
  if negb (Nat.eqb (l_errs st) 0) then None
  else if Nat.eqb (l_sealed st) 0 && negb allow_empty then None
  else Some (l_maps st).
