(* ===== verification/LoaderProps.v ===== *)
(** * What a successful load establishes

    The invariant of the loader's state while no error was counted, its
    preservation by every line, and the properties of the maps a successful
    [load_conf] leaves: actor binaries and launchers are sealed against
    everyone, seals are well formed, every sealed device is recorded. *)

From S2P Require Import Prelude Abi Kernel SealCore Hooks SealSpec SealRefine HookSpec HookRefine HookProps CLib Config ConfigProps Loader.
From Stdlib Require Import Ascii.

#[local] Open Scope Z_scope.

(** ** Inodes keep their type *)

(** [(st_dev, st_ino)] identifies a file: whatever path it is opened by, it is
    or is not a directory. *)
Record inodes_stable (w : lworld) (kind : inode_key -> bool) : Prop := {
  stable_open p st dev : lw_open w p = Some st -> kdev st = Some dev ->
    is_type (ls_mode st) S_IFDIR = kind (InodeKey dev (ls_ino st));
  stable_open_rd p st : lw_open_rd w p = Some st ->
    is_type (ls_mode st) S_IFDIR
    = kind (InodeKey (Z.lor (Z.shiftl (ls_major st) 20) (ls_minor st)) (ls_ino st))
}.

Lemma reg_not_dir m : is_type m S_IFREG = true -> is_type m S_IFDIR = false.
Proof. unfold is_type. intros ->%Z.eqb_eq. done. Qed.

(** ** Invariant *)

Section Inv.
Context (w : lworld) (kind : inode_key -> bool).

Definition seal_at (m : maps) (k : inode_key) : option seal_value :=
  (if kind k then m_dirs m else m_inodes m) !! k.

(** The recorded entry and the map agree. *)
Definition entry_ok (m : maps) (e : seal_entry) : Prop :=
  exists sv, seal_at m (se_key e) = Some sv /\ sv_flags sv = se_flags e
    /\ se_has_actor e = negb (sv_actor_count sv =? 0).

(** A resolved actor group. *)
Definition group_ok (ag : actor_group) : Prop :=
  forall bins, ag_bin ag = Some bins ->
    mapM (actor_resolve_path w) (ag_paths ag) = Some bins
    /\ (1 <= length (ag_paths ag) <= COMPARTMENT_MAX_ACTORS_PER_SEAL)%nat.

Definition named_actors (sv : seal_value) : list actor_id :=
  take (Z.to_nat (sv_actor_count sv)) (sv_actor sv).

(** The actors of a seal come from one resolved group. *)
Definition actors_from (ps : profile_state) (sv : seal_value) : Prop :=
  named_actors sv = []
  \/ exists ag, ag ∈ ps_actors ps /\ ag_bin ag = Some (named_actors sv).

(** A strict seal belongs to a strict group and carries its slot. *)
Definition strict_from (ps : profile_state) (sv : seal_value) : Prop :=
  sv_actor_count sv <> 0 /\ sv_strict_generation sv = ps_gen ps
  /\ exists ag, ag ∈ ps_actors ps /\ ag_is_strict ag = true
       /\ ag_bin ag = Some (named_actors sv) /\ ag_strict_slot ag = sv_strict_actor_slot sv.

Definition value_ok (ps : profile_state) (sv : seal_value) : Prop :=
  length (sv_actor sv) = COMPARTMENT_MAX_ACTORS_PER_SEAL
  /\ 0 <= sv_actor_count sv <= 4 /\ sv_flags sv <> 0 /\ actors_from ps sv
  /\ (hasbit (sv_flags sv) SEAL_STRICT_LAUNCH = true -> strict_from ps sv).

(** The device of a sealed key is real and recorded. *)
Definition key_ok (m : maps) (k : inode_key) : Prop :=
  key_dev k <> 0 /\ is_Some (m_devs m !! key_dev k).

Record load_inv (ps : profile_state) (m : maps) : Prop := {
  inv_nodup : NoDup (se_key <$> ps_seals ps);
  inv_entries : Forall (entry_ok m) (ps_seals ps);
  inv_groups : Forall group_ok (ps_actors ps);
  inv_inodes : forall k sv, m_inodes m !! k = Some sv ->
    value_ok ps sv /\ kind k = false /\ key_ok m k;
  inv_dirs : forall k sv, m_dirs m !! k = Some sv ->
    value_ok ps sv /\ kind k = true /\ key_ok m k;
  inv_launchers : m_launchers m = ∅;
  inv_recorded : forall k sv, seal_at m k = Some sv -> k ∈ se_key <$> ps_seals ps
}.

Lemma seal_at_ok ps m k sv :
  load_inv ps m -> seal_at m k = Some sv -> value_ok ps sv /\ key_ok m k.
Proof.
  intros Hi. unfold seal_at. destruct (kind k) eqn:E; intros H.
  - by destruct (inv_dirs _ _ Hi _ _ H) as (? & _ & ?).
  - by destruct (inv_inodes _ _ Hi _ _ H) as (? & _ & ?).
Qed.

(** *** Declarations *)

Lemma actors_from_app ps ag sv :
  actors_from ps sv -> actors_from (add_actor ag ps) sv.
Proof.
  intros [H|(g & Hg & Hb)]; [by left|]. right. exists g. split; [|done]. cbn. set_solver.
Qed.

Lemma inv_add_actor ag ps m :
  load_inv ps m -> group_ok ag -> load_inv (add_actor ag ps) m.
Proof.
  intros [H1 H2 H3 H4 H5 H6 H7] Hg.
  assert (Hv : forall sv, value_ok ps sv -> value_ok (add_actor ag ps) sv).
  { intros sv (? & ? & ? & Ha & Hst). split; [done|]. split; [done|]. split; [done|].
    split; [by apply actors_from_app|]. intros Hb. destruct (Hst Hb) as (? & ? & g & ? & ?).
    split; [done|]. split; [done|]. exists g. split; [cbn; set_solver|done]. }
  split; cbn; try done.
  - apply Forall_app. split; [done|by apply Forall_singleton].
  - intros k sv Hk. destruct (H4 k sv Hk) as (? & ? & ?). auto.
  - intros k sv Hk. destruct (H5 k sv Hk) as (? & ? & ?). auto.
Qed.

Lemma inv_slot n ps m :
  load_inv ps m -> load_inv (ProfileState (ps_actors ps) (ps_seals ps) n (ps_gen ps)) m.
Proof. intros [H1 H2 H3 H4 H5 H6 H7]. by split. Qed.

(** The paths of a declared group. *)
Lemma actor_paths_loop_bound toks acc out :
  (length acc <= ACTOR_MAX_PATHS)%nat -> actor_paths_loop toks acc = Some out ->
  (length out <= ACTOR_MAX_PATHS)%nat.
Proof.
  revert acc. induction toks as [|t toks IH]; intros acc Ha; cbn [actor_paths_loop]; [by intros [= <-]|].
  case_match; [done|]. destruct (Nat.leb_spec ACTOR_MAX_PATHS (length acc)); [done|].
  apply IH. rewrite length_app. cbn. lia.
Qed.

(** A declaration appends one group with one to four paths and no binaries. *)
Lemma parse_decl_shape rest ps ps' :
  parse_actor_decl rest ps = Some ps' \/ parse_actor_strict_decl rest ps = Some ps' ->
  exists ag n, ps' = ProfileState (ps_actors ps ++ [ag]) (ps_seals ps) n (ps_gen ps)
    /\ ag_bin ag = None /\ (1 <= length (ag_paths ag) <= COMPARTMENT_MAX_ACTORS_PER_SEAL)%nat.
Proof.
  intros [H|H].
  - unfold parse_actor_decl in H. destruct (strtok_all ws_delim rest) as [|name [|eq toks]]; try done.
    repeat (case_match; try done).
    match goal with Hp : actor_paths_loop _ _ = Some _ |- _ =>
      apply actor_paths_loop_bound in Hp; [|cbn; lia] end.
    simplify_eq. unfold add_actor. eexists _, _. repeat split; cbn in *; unfold ACTOR_MAX_PATHS in *; lia.
  - unfold parse_actor_strict_decl in H. repeat (case_match; try done). simplify_eq.
    eexists _, _. repeat split; cbn; unfold COMPARTMENT_MAX_ACTORS_PER_SEAL; lia.
Qed.

Definition with_bin (b : option (list actor_id)) (ag : actor_group) : actor_group :=
  ActorGroup (ag_name ag) (ag_paths ag) b (ag_is_strict ag) (ag_launcher_path ag)
    (ag_launcher ag) (ag_strict_slot ag).

Lemma resolve_last_snoc l ag s n g :
  resolve_last w (ProfileState (l ++ [ag]) s n g)
  = let r := mapM (actor_resolve_path w) (ag_paths ag) in
    (ProfileState (l ++ [with_bin r ag]) s n g, bool_decide (is_Some r)).
Proof.
  unfold resolve_last. cbn [ps_actors]. rewrite last_snoc, removelast_last.
  unfold actor_resolve_paths. by destruct (mapM _ _).
Qed.

Lemma after_decl_inv st decl st' :
  (forall ps', decl = Some ps' -> exists ag n,
     ps' = ProfileState (ps_actors (l_ps st) ++ [ag]) (ps_seals (l_ps st)) n (ps_gen (l_ps st))
     /\ ag_bin ag = None /\ (1 <= length (ag_paths ag) <= COMPARTMENT_MAX_ACTORS_PER_SEAL)%nat) ->
  after_decl RealLoad w decl st = st' -> l_errs st' = 0%nat ->
  l_errs st = 0%nat /\ (load_inv (l_ps st) (l_maps st) -> load_inv (l_ps st') (l_maps st')).
Proof.
  intros Hd <- He. destruct decl as [ps'|]; [|by cbn in He].
  destruct (Hd ps' eq_refl) as (ag & n & -> & Hb & Hl). unfold after_decl in *.
  rewrite resolve_last_snoc in *. cbn zeta in *.
  destruct (mapM (actor_resolve_path w) (ag_paths ag)) as [bins|] eqn:Em; cbn in He |- *; [|done].
  split; [done|]. intros Hi. apply (inv_slot n (add_actor (with_bin (Some bins) ag) (l_ps st))).
  apply inv_add_actor; [done|]. intros b [= <-]. by split.
Qed.
(** *** Seals *)

Lemma build_seal_value_ok flags actor ps sv :
  build_seal_value flags actor (ps_gen ps) = Some sv -> flags <> 0 ->
  (forall ag, actor = Some ag -> ag ∈ ps_actors ps /\ group_ok ag /\ ag_bin ag <> None) ->
  value_ok ps sv /\ sv_flags sv = flags
  /\ bool_decide (is_Some actor) = negb (sv_actor_count sv =? 0)
  /\ (forall ag, actor = Some ag -> ag_bin ag = Some (named_actors sv)).
Proof.
  intros H Hf Ha. unfold build_seal_value in H. destruct actor as [ag|].
  - destruct (Ha ag eq_refl) as (Hin & Hg & Hb). case_match eqn:Hstr; [done|].
    destruct (ag_bin ag) as [bins|] eqn:Eb; [|done].
    destruct (Hg bins Eb) as (Hm & Hl). apply length_mapM in Hm.
    destruct (Nat.ltb_spec COMPARTMENT_MAX_ACTORS_PER_SEAL (length (ag_paths ag))); [done|].
    unfold COMPARTMENT_MAX_ACTORS_PER_SEAL in *. simplify_eq/=.
    assert (Hn : named_actors (SealValue flags (Z.of_nat (length (ag_paths ag)))
        (bins ++ replicate (4 - length bins) (ActorId 0 0)) (name_slot (ag_name ag))
        (if hasbit flags SEAL_STRICT_LAUNCH then ag_strict_slot ag else 0)
        (if hasbit flags SEAL_STRICT_LAUNCH then ps_gen ps else 0)) = bins).
    { unfold named_actors. cbn [sv_actor_count sv_actor]. by rewrite Nat2Z.id, Hm, take_app_length. }
    unfold value_ok, strict_from, actors_from. rewrite Hn. cbn [sv_flags sv_actor sv_actor_count sv_strict_generation sv_strict_actor_slot].
    split; [|split; [done|split; [symmetry; apply negb_true_iff, Z.eqb_neq; lia|by intros g [= <-]]]].
    split; [rewrite length_app, length_replicate; unfold COMPARTMENT_MAX_ACTORS_PER_SEAL; lia|].
    split; [lia|]. split; [done|]. split; [right; by exists ag|]. intros Hs. rewrite Hs in *. cbn in Hstr.
    split; [lia|]. split; [done|]. exists ag. by destruct (ag_is_strict ag).
  - case_match eqn:Es; [done|]. simplify_eq/=. split; [|done]. unfold value_ok. cbn [sv_flags sv_actor sv_actor_count].
    split; [done|]. split; [lia|]. split; [done|]. split; [by left|]. by rewrite Es.
Qed.

Lemma merge_seal_ok ps prev sv0 sv :
  merge_seal prev sv0 = Some sv -> value_ok ps sv0 -> (forall pv, prev = Some pv -> value_ok ps pv) ->
  value_ok ps sv /\ sv_actor_count sv = sv_actor_count sv0
  /\ sv_flags sv = match prev with Some pv => Z.lor (sv_flags sv0) (sv_flags pv) | None => sv_flags sv0 end
  /\ (forall pv, prev = Some pv -> sv_actor_count pv = 0 /\ sv_actor_count sv0 = 0).
Proof.
  unfold merge_seal. destruct prev as [pv|]; [|intros [= ->] H _; by split].
  destruct (sv_actor_count pv =? 0) eqn:E1; [|done]. destruct (sv_actor_count sv0 =? 0) eqn:E2; [|done].
  apply Z.eqb_eq in E1, E2. intros [= <-] H0 Hp. specialize (Hp pv eq_refl). cbn.
  destruct H0 as (Hl & Hc & Hf & _ & Hs0), Hp as (_ & _ & _ & _ & Hsp).
  split; [|split; [done|split; [done|by intros ? [= <-]]]].
  split; [done|]. split; [cbn; lia|]. cbn. split; [rewrite Z.lor_eq_0_iff; tauto|]. split.
  - left. unfold named_actors. cbn. by rewrite E2.
  - rewrite hasbit_lor_l, orb_true_iff. intros [Hb|Hb]; [by destruct (Hs0 Hb)|by destruct (Hsp Hb)].
Qed.

Lemma seal_at_put m k sv dir k' :
  kind k = dir -> seal_at (put_seal dir k sv m) k' = if bool_decide (k' = k) then Some sv else seal_at m k'.
Proof.
  intros <-. unfold seal_at, put_seal. case_bool_decide as H.
  - subst k'. destruct (kind k); cbn; by rewrite lookup_insert_eq.
  - destruct (kind k), (kind k'); cbn; try done; by rewrite lookup_insert_ne.
Qed.

(** Recording keeps the keys distinct and the other entries. *)
Lemma record_seal_loop_spec k flags ha p l :
  NoDup (se_key <$> l) ->
  NoDup (se_key <$> record_seal_loop k flags ha p l)
  /\ forall e, e ∈ record_seal_loop k flags ha p l ->
       (se_key e <> k /\ e ∈ l)
       \/ (exists e0, e0 ∈ l /\ se_key e0 = k /\ e = merge_entry flags ha p e0)
       \/ (k ∉ se_key <$> l) /\ e = SealEntry k flags ha p.
Proof.
  induction l as [|e l IH]; cbn; intros Hnd.
  - split; [apply NoDup_singleton|]. intros e ->%list_elem_of_singleton. right. right. split; [set_solver|done].
  - apply NoDup_cons in Hnd as (Hn & Hnd). destruct (IH Hnd) as (IH1 & IH2). clear IH.
    case_bool_decide as Hk.
    + cbn. split; [by apply NoDup_cons|]. intros x [->|Hx]%elem_of_cons.
      * right. left. exists e. set_solver.
      * left. split; [|set_solver]. intros Hkx. apply Hn. rewrite Hk, <- Hkx. by apply list_elem_of_fmap_2.
    + cbn. split.
      * apply NoDup_cons. split; [|done]. intros (x & Hx1 & Hx2)%list_elem_of_fmap.
        destruct (IH2 x Hx2) as [(H1 & H2)|[(e0 & H1 & H2 & ->)|(H1 & ->)]].
        -- apply Hn. rewrite Hx1. by apply list_elem_of_fmap_2.
        -- by rewrite Hx1, <- H2 in Hk.
        -- by rewrite Hx1 in Hk.
      * intros x [->|Hx]%elem_of_cons; [left; set_solver|].
        destruct (IH2 x Hx) as [(H1 & H2)|[(e0 & H1 & H2 & ->)|(H1 & ->)]]; [left; set_solver|right; left; set_solver|].
        right. right. set_solver.
Qed.

Lemma record_seal_loop_keys k flags ha p l k' :
  k' = k \/ k' ∈ se_key <$> l -> k' ∈ se_key <$> record_seal_loop k flags ha p l.
Proof.
  induction l as [|e l IH]; cbn; intros H; [set_solver|]. case_bool_decide; cbn; set_solver.
Qed.

(** A resolved target has a key whose kind is what the file is. *)
Lemma resolve_seal_target_spec p actor k dir :
  inodes_stable w kind -> resolve_seal_target w p actor = Some (k, dir) ->
  kind k = dir /\ key_dev k <> 0 /\ forall ag, actor = Some ag -> ag_bin ag <> None.
Proof.
  intros Hs H. unfold resolve_seal_target in H. destruct (negb (is_absolute p)); [done|].
  case_match eqn:Ea; [done|]. destruct (lw_open w p) as [st|] eqn:Eo; [|done].
  destruct (negb (anon_bdev_refuse w p)); [done|]. destruct (is_type (ls_mode st) S_IFLNK); [done|].
  destruct (kdev st) as [dev|] eqn:Ed; [|done]. destruct (Z.eqb_spec dev 0); [done|]. cbn zeta in H.
  destruct (is_type (ls_mode st) S_IFDIR && negb (validate_recursive_dir_seal w p)); [done|].
  simplify_eq. split; [symmetry; by apply (stable_open _ _ Hs p)|]. split; [done|].
  intros ag ->. by apply bool_decide_eq_false in Ea.
Qed.

Lemma record_sealed_dev_spec dev m m' :
  record_sealed_dev w dev m = (m', true) ->
  m_inodes m' = m_inodes m /\ m_dirs m' = m_dirs m /\ m_launchers m' = m_launchers m
  /\ is_Some (m_devs m' !! dev) /\ (forall d, is_Some (m_devs m !! d) -> is_Some (m_devs m' !! d)).
Proof.
  unfold record_sealed_dev. destruct (lw_update_dev w dev); [|by intros [= ?]].
  intros [= <-]. cbn. repeat split; try done; [rewrite lookup_insert_eq; by eexists|].
  intros d Hd. destruct (decide (d = dev)) as [->|Hn]; [rewrite lookup_insert_eq; by eexists|].
  by rewrite lookup_insert_ne.
Qed.

(** What a successful [seal_path] did. *)
Lemma seal_path_shape p flags actor ps m ps' m' :
  inodes_stable w kind -> seal_path w p flags actor ps m = (ps', m', true) ->
  exists k sv0 sv, build_seal_value flags actor (ps_gen ps) = Some sv0
    /\ merge_seal (seal_at m k) sv0 = Some sv
    /\ ps' = profile_state_record_seal k (sv_flags sv) (bool_decide (is_Some actor)) p ps
    /\ record_sealed_dev w (key_dev k) (put_seal (kind k) k sv m) = (m', true)
    /\ key_dev k <> 0 /\ (forall ag, actor = Some ag -> ag_bin ag <> None)
    /\ exists dir, resolve_seal_target w p actor = Some (k, dir).
Proof.
  intros Hs H. unfold seal_path in H.
  destruct (resolve_seal_target w p actor) as [[k dir]|] eqn:Er; [|by simplify_eq].
  pose proof Er as Er'. apply resolve_seal_target_spec in Er as (<- & Hk & Ha); [|done].
  destruct (build_seal_value flags actor (ps_gen ps)) as [sv0|] eqn:Eb; [|by simplify_eq].
  change ((if kind k then m_dirs m else m_inodes m) !! k) with (seal_at m k) in H.
  destruct (merge_seal (seal_at m k) sv0) as [sv|] eqn:Em; [|by simplify_eq].
  destruct (negb (lw_update_seal w k)); [by simplify_eq|]. cbn zeta in H.
  destruct (record_sealed_dev w (key_dev k) (put_seal (kind k) k sv m)) as [m2 ok] eqn:Ed.
  destruct ok; cbn [negb] in H; [|by simplify_eq]. injection H as <- <- _.
  exists k, sv0, sv. repeat (split; [done|]). by exists (kind k).
Qed.

(** The entries after recording the value that was stored. *)
Lemma record_seal_entries ps m k sv0 sv ha p m' :
  Forall (entry_ok m) (ps_seals ps) -> NoDup (se_key <$> ps_seals ps) ->
  merge_seal (seal_at m k) sv0 = Some sv ->
  (forall pv, seal_at m k = Some pv -> sv_actor_count pv = 0 /\ sv_actor_count sv0 = 0
     /\ sv_flags sv = Z.lor (sv_flags sv0) (sv_flags pv)) ->
  sv_actor_count sv = sv_actor_count sv0 -> ha = negb (sv_actor_count sv0 =? 0) ->
  (forall k', seal_at m' k' = if bool_decide (k' = k) then Some sv else seal_at m k') ->
  Forall (entry_ok m') (record_seal_loop k (sv_flags sv) ha p (ps_seals ps)).
Proof.
  intros He Hnd Hm Hpv Hc Hha Hput. apply Forall_forall. intros e Hin.
  destruct (record_seal_loop_spec k (sv_flags sv) ha p (ps_seals ps) Hnd) as [_ Hr].
  rewrite Forall_forall in He. destruct (Hr e Hin) as [(Hk & Hi)|[(e0 & Hi & Hk & ->)|(_ & ->)]].
  - destruct (He e Hi) as (v & H1 & H2). exists v. by rewrite Hput, bool_decide_eq_false_2.
  - destruct (He e0 Hi) as (pv & H1 & H2 & H3). rewrite Hk in H1.
    destruct (Hpv pv H1) as (Hc1 & Hc2 & Hf). exists sv. cbn [merge_entry se_key se_flags se_has_actor]. rewrite Hk, Hput, bool_decide_eq_true_2 by done.
    split; [done|]. split.
    + rewrite <- H2, Hf, (Z.lor_comm (sv_flags pv)), <- Z.lor_assoc. by rewrite Z.lor_diag.
    + by rewrite Hha, H3, Hc, Hc1, Hc2.
  - exists sv. cbn [se_key se_flags se_has_actor]. rewrite Hput, bool_decide_eq_true_2 by done. by rewrite Hc.
Qed.

(** A map after the update: unchanged, or with the new value. *)
Lemma put_value (mp mp' : gmap inode_key seal_value) ps m m' k sv b k' v :
  mp' = mp \/ (mp' = <[k := sv]> mp /\ kind k = b) ->
  (forall k0 v0, mp !! k0 = Some v0 -> value_ok ps v0 /\ kind k0 = b /\ key_ok m k0) ->
  (forall k0, key_ok m k0 -> key_ok m' k0) -> value_ok ps sv -> key_ok m' k ->
  mp' !! k' = Some v -> value_ok ps v /\ kind k' = b /\ key_ok m' k'.
Proof.
  intros Hmp H Hko Hv Hk Hl.
  assert (Hold : mp !! k' = Some v -> value_ok ps v /\ kind k' = b /\ key_ok m' k').
  { intros H0. destruct (H k' v H0) as (? & ? & ?). auto. }
  destruct Hmp as [->|[-> <-]]; [auto|]. destruct (decide (k' = k)) as [->|Hn].
  - rewrite lookup_insert_eq in Hl. by simplify_eq.
  - rewrite lookup_insert_ne in Hl by done. auto.
Qed.

Lemma seal_path_inv p flags actor ps m ps' m' :
  inodes_stable w kind -> seal_path w p flags actor ps m = (ps', m', true) ->
  flags <> 0 -> (forall ag, actor = Some ag -> ag ∈ ps_actors ps) ->
  load_inv ps m -> load_inv ps' m'.
Proof.
  intros Hs H Hf Ha Hi. destruct (seal_path_shape _ _ _ _ _ _ _ Hs H) as (k & sv0 & sv & Hb & Hm & -> & Hd & Hk & Hbin & _).
  destruct (build_seal_value_ok flags actor ps sv0 Hb Hf) as (Hv0 & Hf0 & Hc0 & _).
  { intros ag Eag. split; [by apply Ha|]. split; [|by apply Hbin].
    destruct Hi as [_ _ Hg _ _ _ _]. rewrite Forall_forall in Hg. by apply Hg, Ha. }
  destruct (merge_seal_ok ps (seal_at m k) sv0 sv Hm Hv0) as (Hv & Hc & Hfl & Hpv).
  { intros pv Hpv. by apply (seal_at_ok ps m k). }
  destruct (record_sealed_dev_spec _ _ _ Hd) as (Hd1 & Hd2 & Hd5 & Hd3 & Hd4).
  assert (Hko : forall k', key_ok m k' -> key_ok m' k').
  { intros k' [? ?]. split; [done|]. apply Hd4. by destruct (kind k). }
  assert (Hput : forall k', seal_at m' k' = if bool_decide (k' = k) then Some sv else seal_at m k').
  { intros k'. rewrite <- (seal_at_put m k sv (kind k) k' eq_refl). unfold seal_at. by rewrite Hd1, Hd2. }
  destruct Hi as [H1 H2 H3 H4 H5 H6 H7]. split; cbn.
  - by apply record_seal_loop_spec.
  - apply (record_seal_entries ps m k sv0 sv); try done.
    intros pv Hp. destruct (Hpv pv Hp). rewrite Hp in Hfl. done.
  - done.
  - intros k' v. rewrite Hd1. apply (put_value (m_inodes m) _ ps m m' k sv); try done.
    unfold put_seal. destruct (kind k); [by left|by right].
  - intros k' v. rewrite Hd2. apply (put_value (m_dirs m) _ ps m m' k sv); try done.
    unfold put_seal. destruct (kind k); [by right|by left].
  - rewrite Hd5. by destruct (kind k).
  - intros k' v. rewrite Hput. intros Hl. apply record_seal_loop_keys.
    case_bool_decide; [by left|right]. by eapply H7.
Qed.

(** *** Lines *)

(** [st'] counts no fewer errors, and keeps the invariant when it counts none. *)
Definition step_ok (st st' : load_state) : Prop :=
  l_errs st' = 0%nat ->
  l_errs st = 0%nat /\ (load_inv (l_ps st) (l_maps st) -> load_inv (l_ps st') (l_maps st')).

Lemma step_refl st : step_ok st st.
Proof. by split. Qed.

Lemma step_trans st1 st2 st3 : step_ok st1 st2 -> step_ok st2 st3 -> step_ok st1 st3.
Proof. intros H1 H2 H0. destruct (H2 H0) as [H3 H4]. destruct (H1 H3) as [? ?]. auto. Qed.

Lemma step_err st st' : step_ok st (add_err st').
Proof. by intros H. Qed.

Lemma parse_flagspec_nonzero s flags a : parse_flagspec s = Some (flags, a) -> flags <> 0.
Proof.
  unfold parse_flagspec. destruct (trim s) as [|c s']; [by intros [= <- <-]|].
  destruct (flagspec_loop _ _ _ _) as [[[f x] saw]|]; [|done].
  case_match; [done|]. destruct (Z.eqb_spec f 0); [done|]. case_match; [done|]. by intros [= <- <-].
Qed.

Lemma find_named_elem ps name ag : find_named ps name = Some (Some ag) -> ag ∈ ps_actors ps.
Proof.
  unfold find_named, profile_find_actor. destruct name as [n|]; [|done].
  destruct (list_find _ _) as [[i g]|] eqn:E; cbn; [|done]. intros [= <-].
  apply list_find_Some in E as (E & _). by eapply list_elem_of_lookup_2.
Qed.

Lemma seal_line_ok rest st : inodes_stable w kind -> step_ok st (seal_line RealLoad w rest st).
Proof.
  intros Hs. unfold seal_line. destruct (strtok_r ws_delim rest) as [[target fs]|]; [|apply step_err].
  destruct (parse_flagspec fs) as [[flags name]|] eqn:Ef; [|apply step_err].
  destruct (find_named (l_ps st) name) as [actor|] eqn:En; [|apply step_err]. unfold apply_seal.
  destruct (seal_path w target flags actor (l_ps st) (l_maps st)) as [[ps m] ok] eqn:Es.
  destruct ok; [|apply step_err]. intros He. split; [done|]. cbn. intros Hi.
  eapply seal_path_inv; [done|exact Es| |..|done]; [by eapply parse_flagspec_nonzero|].
  intros ag ->. by eapply find_named_elem.
Qed.

Lemma conf_directive_ok line st : inodes_stable w kind -> step_ok st (conf_directive RealLoad w line st).
Proof.
  intros Hs. unfold conf_directive. destruct (strtok_r ws_delim (trim line)) as [[dir rest]|]; [|apply step_refl].
  destruct (streq dir (lit "actor")).
  { intros He. eapply after_decl_inv; [|done..]. intros ps' Hd. apply (parse_decl_shape rest). by left. }
  destruct (streq dir (lit "actor-strict")).
  { intros He. eapply after_decl_inv; [|done..]. intros ps' Hd. apply (parse_decl_shape rest). by right. }
  destruct (streq dir (lit "env")); [apply step_err|].
  destruct (streq dir (lit "seal")); [by apply seal_line_ok|apply step_err].
Qed.

Lemma conf_lines_ok draining chunks st :
  inodes_stable w kind -> step_ok st (conf_lines RealLoad w draining chunks st).
Proof.
  intros Hs. revert draining st. induction chunks as [|c chunks IH]; intros draining st; [apply step_refl|].
  cbn [conf_lines]. destruct draining; [apply IH|].
  destruct (embedded_nul c); [by eapply step_trans; [|apply IH]; apply step_err|].
  case_match; [by eapply step_trans; [|apply IH]; apply step_err|].
  eapply step_trans; [|apply IH]. eapply step_trans; [|by apply conf_directive_ok].
  case_match; [|apply step_refl]. intros He. by split.
Qed.

Lemma load_init_inv : load_inv (l_ps load_init) (l_maps load_init).
Proof. split; cbn; try by constructor. intros k sv. unfold seal_at. by destruct (kind k). Qed.

(** ** A successful load *)

(** The profile state the lines left, and what the final passes established. *)
Record loaded (ps ps' : profile_state) (m0 m : maps) : Prop := {
  ld_inv : load_inv ps m0;
  ld_enforce : enforce_actor_binaries_sealed ps = true;
  ld_validate : strict_validate_launchers w ps = (ps', true);
  ld_populate : strict_populate_maps w ps' m0 = (m, true)
}.

Definition after_lines (content : cstring) : load_state :=
  conf_lines RealLoad w false (fgets_all (LINE_SIZE - 1) content).*1 load_init.

Lemma load_conf_loaded content allow_empty pin_enforce_path allow_candidate m :
  inodes_stable w kind ->
  load_conf RealLoad w content allow_empty pin_enforce_path allow_candidate = Some m ->
  l_errs (after_lines content) = 0%nat
  /\ exists ps', loaded (l_ps (after_lines content)) ps' (l_maps (after_lines content)) m.
Proof.
  intros Hs. unfold load_conf. cbn [mode_world]. fold (after_lines content).
  pose proof (conf_lines_ok false (fgets_all (LINE_SIZE - 1) content).*1 load_init Hs) as Hl.
  fold (after_lines content) in Hl. set (st := after_lines content) in *. clearbody st.
  unfold conf_finish. destruct (l_candidate st && pin_enforce_path && negb allow_candidate); cbn [err_if].
  { destruct (strict_validate_launchers _ _) as [ps' ok]. destruct (enforce_actor_binaries_sealed _), ok; done. }
  destruct (enforce_actor_binaries_sealed (l_ps st)) eqn:Ee; cbn [err_if negb].
  2: { destruct (strict_validate_launchers _ _) as [ps' ok]. by destruct ok. }
  destruct (strict_validate_launchers w (l_ps st)) as [ps' ok] eqn:Ev. destruct ok; [|done].
  cbn [err_if negb set_ps l_ps l_errs l_maps]. destruct (Nat.eqb_spec (l_errs st) 0) as [He|He].
  2: { cbn. destruct (Nat.eqb_spec (l_errs st) 0); [done|done]. }
  destruct (strict_populate_maps w ps' (l_maps st)) as [m' ok] eqn:Ep. destruct ok; [|done].
  cbn [err_if negb l_errs l_maps]. rewrite He. cbn. case_match; [done|]. intros [= <-].
  split; [done|]. exists ps'. destruct (Hl He) as [_ Hi]. split; try done. apply Hi, load_init_inv.
Qed.

(** *** Binaries the policy trusts *)

(** The key carries a full seal that no actor can satisfy. *)
Definition sealed_for_all (m : maps) (k : inode_key) : Prop :=
  exists sv, m_inodes m !! k = Some sv
    /\ Z.land (sv_flags sv) required_full = required_full /\ sv_actor_count sv = 0
    /\ key_dev k <> 0.

Lemma entry_sealed ps m e :
  load_inv ps m -> e ∈ ps_seals ps -> kind (se_key e) = false ->
  Z.land (se_flags e) required_full = required_full -> se_has_actor e = false ->
  sealed_for_all m (se_key e).
Proof.
  intros Hi He Hk Hf Ha. pose proof (inv_entries _ _ Hi) as Hent. rewrite Forall_forall in Hent.
  destruct (Hent e He) as (sv & Hs & Hfl & Hac). unfold seal_at in Hs. rewrite Hk in Hs.
  exists sv. rewrite Hfl. repeat split; try done.
  - rewrite Ha in Hac. destruct (Z.eqb_spec (sv_actor_count sv) 0); done.
  - by destruct (inv_inodes _ _ Hi _ _ Hs) as (_ & _ & ? & _).
Qed.

Lemma actor_resolve_path_spec p a :
  inodes_stable w kind -> actor_resolve_path w p = Some a ->
  kind (key_of_actor a) = false /\ actor_dev a <> 0.
Proof.
  intros Hs H. unfold actor_resolve_path in H. destruct (lw_open w p) as [st|] eqn:Eo; [|done].
  destruct (negb (anon_bdev_refuse w p)); [done|]. destruct (is_type (ls_mode st) S_IFLNK); [done|].
  destruct (is_type (ls_mode st) S_IFREG) eqn:Er; [|done]. cbn [negb] in H.
  destruct (writable_by_others (ls_mode st)); [done|]. case_match; [done|].
  destruct (parent_of p ≫= lw_dirmode w) as [pm|]; [|done]. destruct (writable_by_others pm); [done|].
  destruct (ls_size st =? 0); [done|]. destruct (negb (hasbit (ls_mode st) 0x49)); [done|].
  destruct (kdev st) as [dev|] eqn:Ed; [|done]. destruct (Z.eqb_spec dev 0); [done|].
  destruct (lw_hold w p); [|done]. simplify_eq. split; [|done].
  unfold key_of_actor. cbn. rewrite <- (stable_open _ _ Hs p st dev Eo Ed). by apply reg_not_dir.
Qed.

(** Every binary of a resolved group. *)
Lemma group_binary_sealed ps m ag bins a :
  inodes_stable w kind -> load_inv ps m -> enforce_actor_binaries_sealed ps = true ->
  ag ∈ ps_actors ps -> ag_bin ag = Some bins -> a ∈ bins -> sealed_for_all m (key_of_actor a).
Proof.
  intros Hs Hi He Hag Hb Ha. apply andb_true_iff in He as [He _]. rewrite forallb_forall in He.
  specialize (He ag (proj1 (list_elem_of_In _ _) Hag)). unfold group_sealed in He. rewrite Hb, forallb_forall in He.
  pose proof (inv_groups _ _ Hi) as Hg. rewrite Forall_forall in Hg. destruct (Hg ag Hag bins Hb) as [Hm _].
  apply list_elem_of_lookup in Ha as [i Hia]. apply mapM_Some in Hm.
  destruct (Forall2_lookup_r _ _ _ _ _ Hm Hia) as (p & Hp & Hr).
  apply actor_resolve_path_spec in Hr as [Hk _]; [|done].
  assert (Hz : (a, p) ∈ zip bins (ag_paths ag)).
  { apply list_elem_of_lookup. exists i. by apply lookup_zip_Some. }
  apply list_elem_of_In in Hz. specialize (He _ Hz). cbn in He. unfold binary_sealed in He.
  destruct (list_find _ (ps_seals ps)) as [[j e]|] eqn:El; [|done].
  apply list_find_Some in El as (El & [Hke _] & _). apply andb_true_iff in He as [Hf Ha].
  rewrite <- Hke. rewrite <- Hke in Hk. apply (entry_sealed ps); [done|by eapply list_elem_of_lookup_2|done|..].
  - apply Z.eqb_eq in Hf. apply Z.bits_inj'. intros n Hn. rewrite Z.land_spec.
    pose proof (f_equal (fun z => Z.testbit z n) Hf) as Hbit. cbn in Hbit. rewrite Z.ldiff_spec, Z.bits_0 in Hbit.
    destruct (Z.testbit required_full n), (Z.testbit (se_flags e) n); done.
  - by apply negb_true_iff.
Qed.

(** The launcher of a validated group. *)
Lemma validate_launcher_spec ps m ag k :
  inodes_stable w kind -> load_inv ps m -> validate_launcher w ps ag = Some k ->
  sealed_for_all m k
  /\ exists a, head (default [] (ag_bin ag)) = Some a /\ key_of_actor a <> k.
Proof.
  intros Hs Hi H. unfold validate_launcher in H. destruct (ag_launcher_path ag) as [lp|]; [|done].
  destruct (lw_open_rd w lp) as [st|] eqn:Eo; [|done]. destruct (negb (anon_bdev_refuse w lp)); [done|].
  destruct (is_type (ls_mode st) S_IFREG) eqn:Er; [|done]. cbn [negb] in H.
  destruct (writable_by_others (ls_mode st)); [done|].
  destruct (elf_has_interp (lw_bytes w lp)) as [[|]|]; [done| |done]. cbn zeta in H.
  pose proof (stable_open_rd _ _ Hs lp st Eo) as Hk. rewrite reg_not_dir in Hk by done.
  set (k0 := InodeKey _ _) in *. clearbody k0. case_bool_decide as Hne; [done|].
  destruct (last_full k0 (ps_seals ps)) as [e|] eqn:Ef; [|done].
  destruct (se_has_actor e) eqn:Ea; [done|].
  destruct (head (default [] (ag_bin ag))) as [a|] eqn:Eh; [|done].
  case_match; [|done]. destruct (lw_hold w lp); [|done]. simplify_eq. split.
  - unfold last_full in Ef. apply last_Some in Ef as [l Ef].
    assert (He : In e (List.filter (fun e => bool_decide (se_key e = k) && sealed_full e) (ps_seals ps))).
    { rewrite Ef. apply in_or_app. right. by left. }
    apply List.filter_In in He as [He Hc]. apply andb_true_iff in Hc as [Hc1 Hc2].
    apply bool_decide_eq_true in Hc1. subst k. apply (entry_sealed ps); try done.
    + by apply list_elem_of_In.
    + by apply Z.eqb_eq.
  - exists a. split; [done|]. intros <-. by apply Hne.
Qed.

(** After validation every strict group has the key of its launcher. *)
Lemma strict_validate_loop_spec ps l l' ag' :
  strict_validate_loop w ps l = (l', true) -> ag' ∈ l' -> ag_is_strict ag' = true ->
  exists ag k, ag ∈ l /\ validate_launcher w ps ag = Some k /\ ag' = set_launcher k ag.
Proof.
  revert l'. induction l as [|ag l IH]; intros l'; cbn; [intros [= <-]; set_solver|].
  destruct (strict_validate_loop w ps l) as [r ok]. destruct (ag_is_strict ag) eqn:Es.
  - destruct (validate_launcher w ps ag) as [k|] eqn:Ev; [|by intros [= ? ?]].
    intros [= <- ->] [->|Hin]%elem_of_cons Hs; [exists ag, k; set_solver|].
    destruct (IH r eq_refl Hin Hs) as (g & kk & ? & ? & ?). exists g, kk. set_solver.
  - intros [= <- ->] [->|Hin]%elem_of_cons Hs; [by rewrite Es in Hs|].
    destruct (IH r eq_refl Hin Hs) as (g & kk & ? & ? & ?). exists g, kk. set_solver.
Qed.

(** The entries of the launcher map come from strict groups. *)
Lemma populate_loop_spec gen l acc n la r :
  populate_loop w gen l acc n = (la, Some r) ->
  (r = n \/ r = 1) /\ forall k v, la !! k = Some v ->
    acc !! k = Some v
    \/ r = 1 /\ exists ag, ag ∈ l /\ ag_is_strict ag = true /\ ag_launcher ag = k /\ launcher_entry gen ag = Some v.
Proof.
  revert acc n. induction l as [|ag l IH]; intros acc n; cbn; [intros [= <- <-]; split; auto|].
  destruct (ag_is_strict ag) eqn:Es.
  - destruct (launcher_entry gen ag) as [v0|] eqn:Ev; [|done].
    destruct (lw_update_launcher w (ag_launcher ag)); [|done]. intros H.
    destruct (IH _ _ H) as [Hr Hl]. split; [tauto|]. intros k v Hk.
    destruct (Hl k v Hk) as [Hacc|(Hr1 & g & ?)]; [|right; split; [done|]; exists g; set_solver].
    destruct (decide (k = ag_launcher ag)) as [->|Hn].
    + rewrite lookup_insert_eq in Hacc. simplify_eq. right. split; [tauto|]. exists ag. set_solver.
    + rewrite lookup_insert_ne in Hacc by done. by left.
  - intros H. destruct (IH _ _ H) as [Hr Hl]. split; [done|]. intros k v Hk.
    destruct (Hl k v Hk) as [Hacc|(Hr1 & g & ?)]; [by left|right; split; [done|]; exists g; set_solver].
Qed.

Lemma strict_populate_maps_spec ps m0 m :
  m_launchers m0 = ∅ -> strict_populate_maps w ps m0 = (m, true) ->
  m_inodes m = m_inodes m0 /\ m_dirs m = m_dirs m0 /\ m_devs m = m_devs m0
  /\ exists n, m_state m = Some (PolicyState (ps_gen ps) n)
  /\ forall k v, m_launchers m !! k = Some v -> n = 1
       /\ exists ag, ag ∈ ps_actors ps /\ ag_is_strict ag = true /\ ag_launcher ag = k
                    /\ launcher_entry (ps_gen ps) ag = Some v.
Proof.
  intros He. unfold strict_populate_maps. rewrite He.
  destruct (populate_loop w (ps_gen ps) (ps_actors ps) ∅ 0) as [la [n|]] eqn:Ep; [|by intros [= ?]].
  destruct (lw_update_state w); [|by intros [= ?]]. intros [= <-]. cbn. repeat split; try done.
  exists n. split; [done|]. intros k v Hk. destruct (populate_loop_spec _ _ _ _ _ _ Ep) as [_ H].
  destruct (H k v Hk) as [Hc|[? ?]]; [by rewrite lookup_empty in Hc|done].
Qed.

(** An entry of the launcher map of a loaded policy. *)
Lemma loaded_launcher ps ps' m0 m k la :
  inodes_stable w kind -> loaded ps ps' m0 m -> m_launchers m !! k = Some la ->
  sealed_for_all m k /\ sealed_for_all m (la_target la) /\ la_target la <> k
  /\ m_state m = Some (PolicyState (la_policy_generation la) 1).
Proof.
  intros Hs [Hi He Hv Hp] Hk.
  destruct (strict_populate_maps_spec ps' m0 m (inv_launchers _ _ Hi) Hp) as (Hm1 & _ & _ & n & Hst & Hl).
  destruct (Hl k la Hk) as (-> & ag' & Hin & Hstr & <- & Hval).
  unfold strict_validate_launchers in Hv. destruct (strict_validate_loop w ps (ps_actors ps)) as [l ok] eqn:Ev.
  simplify_eq. cbn in *.
  destruct (strict_validate_loop_spec _ _ _ _ Ev Hin Hstr) as (ag & k & Hag & Hvl & ->). cbn in *.
  destruct (validate_launcher_spec ps m0 ag k Hs Hi Hvl) as (Hsk & a & Ha & Hne).
  unfold launcher_entry in Hval. cbn in Hval. rewrite Ha in Hval. simplify_eq. cbn.
  assert (Hmm : forall x, sealed_for_all m0 x -> sealed_for_all m x) by (unfold sealed_for_all; by rewrite Hm1).
  split; [by apply Hmm|]. split; [|done]. apply Hmm.
  destruct (ag_bin ag) as [bins|] eqn:Eb; [|done].
  eapply group_binary_sealed; try done. cbn in Ha. destruct bins; simplify_eq/=. left.
Qed.

(** The binaries on which the decisions of a loaded policy rest: the actors its
    seals name, the launchers and the launchers' targets. *)
Definition trusted_binary (m : maps) (k : inode_key) : Prop :=
  (exists k' sv a, (m_inodes m !! k' = Some sv \/ m_dirs m !! k' = Some sv)
     /\ a ∈ named_actors sv /\ k = key_of_actor a)
  \/ is_Some (m_launchers m !! k)
  \/ exists k' la, m_launchers m !! k' = Some la /\ la_target la = k.

Lemma trusted_sealed ps ps' m0 m k :
  inodes_stable w kind -> loaded ps ps' m0 m -> trusted_binary m k -> sealed_for_all m k.
Proof.
  intros Hs Hl [(k' & sv & a & Hsv & Ha & ->)|[[la Hk]|(k' & la & Hk & <-)]].
  - destruct Hl as [Hi He _ Hp].
    destruct (strict_populate_maps_spec ps' m0 m (inv_launchers _ _ Hi) Hp) as (Hm1 & Hm2 & _).
    assert (Hvo : value_ok ps sv).
    { rewrite Hm1, Hm2 in Hsv. destruct Hsv as [H|H];
        [by destruct (inv_inodes _ _ Hi _ _ H)|by destruct (inv_dirs _ _ Hi _ _ H)]. }
    destruct Hvo as (_ & _ & _ & [Hn|(ag & Hag & Hb)] & _); [rewrite Hn in Ha; set_solver|].
    pose proof (group_binary_sealed ps m0 ag _ a Hs Hi He Hag Hb Ha) as H.
    unfold sealed_for_all in *. by rewrite Hm1.
  - by destruct (loaded_launcher ps ps' m0 m k la Hs Hl Hk).
  - by destruct (loaded_launcher ps ps' m0 m k' la Hs Hl Hk) as (_ & ? & _).
Qed.

(** *** Strict seals arm the strict-launch hooks *)

Lemma strict_validate_loop_keeps ps l l' ag :
  strict_validate_loop w ps l = (l', true) -> ag ∈ l -> ag_is_strict ag = true ->
  exists ag', ag' ∈ l' /\ ag_is_strict ag' = true.
Proof.
  revert l'. induction l as [|g l IH]; intros l'; cbn; [set_solver|].
  destruct (strict_validate_loop w ps l) as [r ok].
  intros H [->|Hin]%elem_of_cons Hs.
  - rewrite Hs in H. destruct (validate_launcher w ps g) as [k|]; simplify_eq.
    exists (set_launcher k g). split; [left|done].
  - assert (Hok : ok = true /\ exists x, l' = x :: r) by (repeat case_match; simplify_eq; eauto).
    destruct Hok as [-> [x ->]]. destruct (IH r eq_refl Hin Hs) as (ag' & ? & ?). exists ag'. set_solver.
Qed.

Lemma populate_loop_strict gen l acc n la r ag :
  populate_loop w gen l acc n = (la, Some r) -> ag ∈ l -> ag_is_strict ag = true -> r = 1.
Proof.
  revert acc n. induction l as [|g l IH]; intros acc n; cbn; [set_solver|].
  destruct (ag_is_strict g) eqn:Eg.
  - destruct (launcher_entry gen g); [|done]. destruct (lw_update_launcher w (ag_launcher g)); [|done].
    intros H _ _. destruct (populate_loop_spec _ _ _ _ _ _ H) as [[]]; done.
  - intros H [->|Hin]%elem_of_cons Hs; [congruence|]. by eapply IH.
Qed.

(** A sealed object of a loaded policy. *)
Definition seal_of (m : maps) (k : inode_key) (sv : seal_value) : Prop :=
  m_inodes m !! k = Some sv \/ m_dirs m !! k = Some sv.

Lemma loaded_seal ps ps' m0 m k sv :
  loaded ps ps' m0 m -> seal_of m k sv ->
  value_ok ps sv /\ kind k = bool_decide (is_Some (m_dirs m !! k)) /\ key_ok m k
  /\ (hasbit (sv_flags sv) SEAL_STRICT_LAUNCH = true ->
        m_state m = Some (PolicyState (sv_strict_generation sv) 1)).
Proof.
  intros [Hi He Hv Hp] Hk.
  destruct (strict_populate_maps_spec ps' m0 m (inv_launchers _ _ Hi) Hp) as (Hm1 & Hm2 & Hm3 & _).
  assert (H : value_ok ps sv /\ kind k = bool_decide (is_Some (m_dirs m !! k)) /\ key_ok m0 k).
  { unfold seal_of in Hk. rewrite Hm1, Hm2 in Hk. rewrite Hm2. destruct Hk as [Hk|Hk].
    - destruct (inv_inodes _ _ Hi _ _ Hk) as (? & Hkd & ?). split; [done|]. split; [|done]. rewrite Hkd. symmetry.
      apply bool_decide_eq_false. intros [x Hx]. destruct (inv_dirs _ _ Hi _ _ Hx) as (_ & ? & _). congruence.
    - destruct (inv_dirs _ _ Hi _ _ Hk) as (? & Hkd & ?). split; [done|]. split; [|done]. rewrite Hkd. symmetry.
      apply bool_decide_eq_true. by exists sv. }
  destruct H as (Hval & Hkind & Hkey). split; [done|]. split; [done|].
  split; [unfold key_ok in *; by rewrite Hm3|]. intros Hb.
  destruct Hval as (_ & _ & _ & _ & Hst). destruct (Hst Hb) as (_ & -> & ag & Hag & Hs & _).
  unfold strict_validate_launchers in Hv. destruct (strict_validate_loop w ps (ps_actors ps)) as [l ok] eqn:Ev.
  simplify_eq. destruct (strict_validate_loop_keeps _ _ _ _ Ev Hag Hs) as (ag' & Hag' & Hs').
  unfold strict_populate_maps in Hp. cbn in Hp.
  destruct (populate_loop w (ps_gen ps) l (m_launchers m0) 0) as [la [n|]] eqn:Ep; [|by simplify_eq].
  rewrite (populate_loop_strict _ _ _ _ _ _ _ Ep Hag' Hs') in Hp. destruct (lw_update_state w); by simplify_eq.
Qed.
End Inv.
