(* ===== verification/LoaderRun.v ===== *)
(** * From profile lines to maps

    What an accepted profile means: every [seal] line is in force in the maps of
    a successful load, with its flags and the binaries of the actor it names. *)

From S2P Require Import Prelude Abi Kernel CLib Config Loader LoaderProps.
From Stdlib Require Import Ascii.

#[local] Open Scope Z_scope.

Section Run.
Context (w : lworld) (kind : inode_key -> bool).
Hypothesis Hstable : inodes_stable w kind.

(** ** Seals only grow *)

Definition seal_le (sv sv' : seal_value) : Prop :=
  Z.land (sv_flags sv) (sv_flags sv') = sv_flags sv
  /\ sv_actor_count sv' = sv_actor_count sv /\ named_actors sv' = named_actors sv.

#[export] Instance seal_le_refl : Reflexive seal_le.
Proof. intros sv. split; [apply Z.land_diag|done]. Qed.

#[export] Instance seal_le_trans : Transitive seal_le.
Proof.
  intros a b c (H1 & H2 & H3) (H4 & H5 & H6). split; [|split; congruence].
  by rewrite <- H1, <- Z.land_assoc, H4.
Qed.

Definition maps_le (m m' : maps) : Prop :=
  forall k sv, seal_at kind m k = Some sv -> exists sv', seal_at kind m' k = Some sv' /\ seal_le sv sv'.

#[export] Instance maps_le_refl : Reflexive maps_le.
Proof. intros m k sv H. exists sv. by split. Qed.

#[export] Instance maps_le_trans : Transitive maps_le.
Proof.
  intros a b c H1 H2 k sv H. destruct (H1 k sv H) as (sv1 & Hk & Hl).
  destruct (H2 k sv1 Hk) as (sv2 & Hk2 & Hl2). exists sv2. split; [done|]. by trans sv1.
Qed.

(** ** The meaning of a line *)

Definition line_directive (line : cstring) : option (cstring * cstring) := strtok_r ws_delim (trim line).

(** The line declares the actor [n] with these binaries. *)
Definition declares (line : cstring) (n : cstring) (paths : list cstring) : Prop :=
  (exists rest, line_directive line = Some (lit "actor", rest)
     /\ strtok_all ws_delim rest = n :: lit "=" :: paths)
  \/ (exists rest tgt l, line_directive line = Some (lit "actor-strict", rest)
     /\ strtok_all ws_delim rest = [n; lit "="; tgt; l] /\ paths = [tgt]).

(** The tree under a sealed directory was walked to the end and holds nothing a
    recursive seal cannot cover: no symbolic link, no hard-linked file, nothing
    deeper than the ancestors a hook looks at, nothing that could not be read. *)
Definition scan_clean (p : cstring) : Prop :=
  (lw_nftw w p).2 = true
  /\ forall e, e ∈ (lw_nftw w p).1 -> te_level e <> 0%nat ->
       te_type e <> FTW_NS /\ te_type e <> FTW_DNR /\ te_type e <> FTW_SL
       /\ is_type (te_mode e) S_IFLNK = false
       /\ if is_type (te_mode e) S_IFDIR then (te_level e < COMPARTMENT_MAX_DIR_ANCESTORS)%nat
          else (te_level e <= COMPARTMENT_MAX_DIR_ANCESTORS)%nat /\ te_nlink e <= 1.

Lemma validate_scan p : validate_recursive_dir_seal w p = true -> scan_clean p.
Proof.
  unfold validate_recursive_dir_seal, scan_clean. destruct (lw_nftw w p) as [entries completed]. cbn.
  intros [He ->]%andb_true_iff. split; [done|]. intros e Hin Hl. rewrite forallb_forall in He.
  specialize (He e (proj1 (list_elem_of_In _ _) Hin)). unfold dir_subtree_check_cb in He.
  rewrite (proj2 (Nat.eqb_neq _ _) Hl) in He. destruct (te_type e); try done.
  all: cbn zeta in He; destruct (is_type (te_mode e) S_IFDIR); cbn [andb orb negb] in He; rewrite ?orb_false_r in He.
  all: match type of He with context [Nat.leb ?a ?b] => destruct (Nat.leb_spec a b); [done|]
       | context [Nat.ltb ?a ?b] => destruct (Nat.ltb_spec a b); [done|] end.
  all: destruct (is_type (te_mode e) S_IFLNK); [done|].
  all: split_and!; try done.
  all: by apply negb_true_iff, Z.ltb_ge in He.
Qed.

(** If the line is a [seal] line, its target carries its flags, bound to the
    binaries of the actor it names, one that [G] lists. *)
Definition line_in_force (G : cstring -> list cstring -> Prop) (line : cstring) (m : maps) : Prop :=
  forall rest, line_directive line = Some (lit "seal", rest) ->
  exists target fs flags name st dev sv,
    strtok_r ws_delim rest = Some (target, fs) /\ parse_flagspec fs = Some (flags, name)
    /\ lw_open w target = Some st /\ kdev st = Some dev
    /\ (if is_type (ls_mode st) S_IFDIR then m_dirs m else m_inodes m) !! InodeKey dev (ls_ino st) = Some sv
    /\ Z.land flags (sv_flags sv) = flags
    /\ (is_type (ls_mode st) S_IFDIR = true -> scan_clean target)
    /\ match name with
       | None => sv_actor_count sv = 0
       | Some n => sv_actor_count sv <> 0
                   /\ exists paths, G n paths /\ mapM (actor_resolve_path w) paths = Some (named_actors sv)
       end.

Definition group_of (groups : list actor_group) (n : cstring) (paths : list cstring) : Prop :=
  exists ag, ag ∈ groups /\ ag_name ag = n /\ ag_paths ag = paths.

Lemma line_in_force_mono (g g' : cstring -> list cstring -> Prop) line m m' :
  (forall n l, g n l -> g' n l) -> maps_le m m' -> line_in_force g line m -> line_in_force g' line m'.
Proof.
  intros Hg Hm H rest Hr.
  destruct (H rest Hr) as (target & fs & flags & name & st & dev & sv & H1 & H2 & H3 & H4 & H5 & H6 & Hsc & H7).
  rewrite (stable_open _ _ Hstable _ _ _ H3 H4) in H5.
  destruct (Hm _ sv H5) as (sv' & Hsv' & Hf & Hc & Hn).
  exists target, fs, flags, name, st, dev, sv'. rewrite (stable_open _ _ Hstable _ _ _ H3 H4).
  rewrite <- (stable_open _ _ Hstable _ _ _ H3 H4) at 2. repeat (split; [done|]).
  split; [by rewrite <- H6, <- Z.land_assoc, Hf|]. split; [done|].
  rewrite Hc, Hn. destruct name as [n|]; [|done]. destruct H7 as (? & l & ? & ?). split; [done|].
  exists l. split; [by apply Hg|done].
Qed.

(** ** One [seal] line *)

Lemma resolve_seal_target_key p actor k dir :
  resolve_seal_target w p actor = Some (k, dir) ->
  exists st dev, lw_open w p = Some st /\ kdev st = Some dev /\ k = InodeKey dev (ls_ino st)
    /\ (is_type (ls_mode st) S_IFDIR = true -> scan_clean p).
Proof.
  intros H. unfold resolve_seal_target in H. destruct (negb (is_absolute p)); [done|].
  case_match; [done|]. destruct (lw_open w p) as [st|] eqn:Eo; [|done].
  destruct (negb (anon_bdev_refuse w p)); [done|]. destruct (is_type (ls_mode st) S_IFLNK); [done|].
  destruct (kdev st) as [dev|] eqn:Ed; [|done]. destruct (dev =? 0); [done|]. cbn zeta in H.
  case_match eqn:Ev; [done|]. simplify_eq. exists st, dev. repeat (split; [done|]).
  intros Hd. rewrite Hd in Ev. apply validate_scan. by apply negb_false_iff in Ev.
Qed.

Lemma merge_seal_le prev sv0 sv :
  merge_seal prev sv0 = Some sv ->
  seal_le sv0 sv /\ forall pv, prev = Some pv -> seal_le pv sv.
Proof.
  unfold merge_seal. destruct prev as [pv|]; [|intros [= ->]; by split].
  destruct (sv_actor_count pv =? 0) eqn:E1; [|done]. destruct (sv_actor_count sv0 =? 0) eqn:E2; [|done].
  apply Z.eqb_eq in E1, E2. intros [= <-]. split.
  - split; [|done]. cbn. by rewrite land_lor_absorb.
  - intros ? [= <-]. split; [cbn; by rewrite Z.lor_comm, land_lor_absorb|].
    unfold named_actors. cbn. by rewrite E1, E2.
Qed.

Lemma seal_path_effect p flags actor ps m ps' m' :
  seal_path w p flags actor ps m = (ps', m', true) -> flags <> 0 ->
  (forall ag, actor = Some ag -> ag ∈ ps_actors ps) -> load_inv w kind ps m ->
  maps_le m m' /\ ps_actors ps' = ps_actors ps
  /\ exists st dev sv, lw_open w p = Some st /\ kdev st = Some dev
     /\ seal_at kind m' (InodeKey dev (ls_ino st)) = Some sv /\ Z.land flags (sv_flags sv) = flags
     /\ (is_type (ls_mode st) S_IFDIR = true -> scan_clean p)
     /\ match actor with
        | None => sv_actor_count sv = 0
        | Some ag => sv_actor_count sv <> 0 /\ ag_bin ag = Some (named_actors sv)
        end.
Proof.
  intros H Hf Ha Hi.
  destruct (seal_path_shape w kind _ _ _ _ _ _ _ Hstable H) as (k & sv0 & sv & Hb & Hm & -> & Hd & Hk & Hbin & Ht).
  destruct (build_seal_value_ok w flags actor ps sv0 Hb Hf) as (_ & Hf0 & Hc0 & Hn0).
  { intros ag Eag. split; [by apply Ha|]. split; [|by apply Hbin].
    pose proof (inv_groups _ _ _ _ Hi) as Hg. rewrite Forall_forall in Hg. by apply Hg, Ha. }
  destruct (merge_seal_le _ _ _ Hm) as [[Hle1 [Hle2 Hle3]] Hpv].
  destruct (record_sealed_dev_spec w _ _ _ Hd) as (Hd1 & Hd2 & _).
  assert (Hput : forall k', seal_at kind m' k' = if bool_decide (k' = k) then Some sv else seal_at kind m k').
  { intros k'. rewrite <- (seal_at_put kind m k sv (kind k) k' eq_refl). unfold seal_at. by rewrite Hd1, Hd2. }
  split; [|split; [done|]].
  - intros k' v Hv. setoid_rewrite Hput. destruct (decide (k' = k)) as [->|E].
    + rewrite bool_decide_eq_true_2 by done. exists sv. auto.
    + rewrite bool_decide_eq_false_2 by done. by exists v.
  - destruct Ht as [dir Ht]. destruct (resolve_seal_target_key _ _ _ _ Ht) as (st & dev & Ho & Hkd & -> & Hsc).
    exists st, dev, sv. rewrite Hput, bool_decide_eq_true_2 by done. rewrite <- Hf0, Hle2, Hle3.
    repeat (split; [done|]). destruct (Z.eqb_spec (sv_actor_count sv0) 0) as [E|E], actor as [ag|]; try done.
    split; [done|]. by apply Hn0.
Qed.

(** ** Declarations *)

Lemma actor_paths_loop_all toks acc out : actor_paths_loop toks acc = Some out -> out = acc ++ toks.
Proof.
  revert acc. induction toks as [|t toks IH]; intros acc; cbn [actor_paths_loop];
    [intros [= <-]; by rewrite app_nil_r|].
  do 2 (case_match; [done|]). intros Ho. apply IH in Ho. by rewrite <- app_assoc in Ho.
Qed.

Lemma parse_actor_decl_tokens rest ps ps' :
  parse_actor_decl rest ps = Some ps' ->
  exists ag n, ps' = ProfileState (ps_actors ps ++ [ag]) (ps_seals ps) n (ps_gen ps)
    /\ strtok_all ws_delim rest = ag_name ag :: lit "=" :: ag_paths ag.
Proof.
  unfold parse_actor_decl. destruct (strtok_all ws_delim rest) as [|name [|eq toks]]; try done.
  destruct (negb (actor_name_valid name)); [done|]. case_bool_decide; [done|].
  destruct (streq eq (lit "=")) eqn:Eq; [|done]. apply streq_true in Eq as ->. cbn [negb].
  destruct (actor_paths_loop toks []) as [[|p l]|] eqn:Ep; try done. apply actor_paths_loop_all in Ep. cbn in Ep.
  intros [= <-]. unfold add_actor. eexists _, _. split; [reflexivity|]. cbn. by rewrite Ep.
Qed.

Lemma parse_actor_strict_decl_tokens rest ps ps' :
  parse_actor_strict_decl rest ps = Some ps' ->
  exists ag n tgt l, ps' = ProfileState (ps_actors ps ++ [ag]) (ps_seals ps) n (ps_gen ps)
    /\ strtok_all ws_delim rest = [ag_name ag; lit "="; tgt; l] /\ ag_paths ag = [tgt].
Proof.
  unfold parse_actor_strict_decl. destruct (strtok_all ws_delim rest) as [|name [|eq [|tgt [|l [|? ?]]]]]; try done.
  destruct (negb (actor_name_valid name)); [done|]. case_bool_decide; [done|].
  destruct (streq eq (lit "=")) eqn:Eq; [|done]. apply streq_true in Eq as ->. cbn [negb].
  case_match; [done|]. case_match; [done|]. case_match; [done|]. intros [= <-].
  eexists _, _, tgt, l. split; [reflexivity|]. done.
Qed.

(** What a line without an error does. *)
Definition line_spec (line : cstring) (st st' : load_state) : Prop :=
  maps_le (l_maps st) (l_maps st') /\ ps_actors (l_ps st) ⊆ ps_actors (l_ps st')
  /\ (forall ag, ag ∈ ps_actors (l_ps st') ->
        ag ∈ ps_actors (l_ps st) \/ declares line (ag_name ag) (ag_paths ag))
  /\ line_in_force (group_of (ps_actors (l_ps st))) line (l_maps st').

Lemma after_decl_spec line decl st ag n :
  decl = Some (ProfileState (ps_actors (l_ps st) ++ [ag]) (ps_seals (l_ps st)) n (ps_gen (l_ps st))) ->
  declares line (ag_name ag) (ag_paths ag) ->
  (forall rest, line_directive line <> Some (lit "seal", rest)) ->
  l_errs (after_decl RealLoad w decl st) = 0%nat -> line_spec line st (after_decl RealLoad w decl st).
Proof.
  intros -> Hd Hns. unfold after_decl. rewrite resolve_last_snoc. cbn zeta.
  destruct (mapM (actor_resolve_path w) (ag_paths ag)) as [bins|]; [|done]. cbn. intros _.
  split; [done|]. split; [cbn; set_solver|]. split; [|by intros rest Hr; destruct (Hns rest)].
  cbn. intros g [Hg|Hg%list_elem_of_singleton]%elem_of_app; [by left|right]. by subst g.
Qed.

Lemma seal_line_spec rest line st :
  line_directive line = Some (lit "seal", rest) -> load_inv w kind (l_ps st) (l_maps st) ->
  l_errs (seal_line RealLoad w rest st) = 0%nat -> line_spec line st (seal_line RealLoad w rest st).
Proof.
  intros Hl Hi. unfold seal_line. destruct (strtok_r ws_delim rest) as [[target fs]|] eqn:Et; [|done].
  destruct (parse_flagspec fs) as [[flags name]|] eqn:Ef; [|done].
  destruct (find_named (l_ps st) name) as [actor|] eqn:En; [|done]. unfold apply_seal.
  destruct (seal_path w target flags actor (l_ps st) (l_maps st)) as [[ps m] ok] eqn:Es.
  destruct ok; [|done]. intros _.
  destruct (seal_path_effect _ _ _ _ _ _ _ Es) as (Hm & Hps & s & dev & sv & H1 & H2 & H3 & H4 & Hsc & H5); try done.
  { by eapply parse_flagspec_nonzero. }
  { intros ag ->. by eapply find_named_elem. }
  split; [done|]. cbn. rewrite Hps. split; [done|]. split; [by left|].
  intros rest' Hr. rewrite Hl in Hr. simplify_eq. exists target, fs, flags, name, s, dev, sv.
  do 4 (split; [done|]). split; [by rewrite (stable_open _ _ Hstable _ _ _ H1 H2)|].
  do 2 (split; [done|]). destruct name as [n|]; cbn in En; [|by simplify_eq].
  destruct (profile_find_actor (l_ps st) n) as [ag|] eqn:Ea; [|done]. simplify_eq. destruct H5 as [Hc Hb].
  split; [done|]. unfold profile_find_actor in Ea. destruct (list_find _ _) as [[i g]|] eqn:El; [|done].
  cbn in Ea. simplify_eq. apply list_find_Some in El as (El & Hn & _). exists (ag_paths ag).
  apply list_elem_of_lookup_2 in El. split; [by exists ag|].
  pose proof (inv_groups _ _ _ _ Hi) as Hg. rewrite Forall_forall in Hg. by destruct (Hg ag El _ Hb).
Qed.

Lemma lit_neq (a b : string) : lit a <> lit b -> forall x y : cstring, Some (lit a, x) <> Some (lit b, y).
Proof. intros H x y [= H1 _]. done. Qed.

Lemma conf_directive_spec line st :
  load_inv w kind (l_ps st) (l_maps st) -> l_errs (conf_directive RealLoad w line st) = 0%nat ->
  line_spec line st (conf_directive RealLoad w line st).
Proof.
  intros Hi. unfold conf_directive. fold (line_directive line).
  destruct (line_directive line) as [[dir rest]|] eqn:El.
  2: { intros _. split; [done|]. split; [done|]. split; [by left|]. intros rest Hr. congruence. }
  destruct (streq dir (lit "actor")) eqn:E1; [apply streq_true in E1 as ->|].
  { destruct (parse_actor_decl rest (l_ps st)) as [ps'|] eqn:Ep; [|done].
    destruct (parse_actor_decl_tokens _ _ _ Ep) as (ag & n & -> & Ht).
    eapply after_decl_spec; [done| |]; [left; by exists rest|].
    intros r Hr. rewrite El in Hr. by apply (lit_neq "actor" "seal") in Hr. }
  destruct (streq dir (lit "actor-strict")) eqn:E2; [apply streq_true in E2 as ->|].
  { destruct (parse_actor_strict_decl rest (l_ps st)) as [ps'|] eqn:Ep; [|done].
    destruct (parse_actor_strict_decl_tokens _ _ _ Ep) as (ag & n & tgt & l & -> & Ht & Hp).
    eapply after_decl_spec; [done| |]; [right; by exists rest, tgt, l|].
    intros r Hr. rewrite El in Hr. by apply (lit_neq "actor-strict" "seal") in Hr. }
  destruct (streq dir (lit "env")); [done|].
  destruct (streq dir (lit "seal")) eqn:E3; [apply streq_true in E3 as ->|done].
  by apply seal_line_spec.
Qed.

(** ** The whole profile *)

(** The lines the parser works on: without comments. *)
Definition line_of (chunk : cstring) : cstring := strip_hash (until_nul chunk).

Definition declared_in (chunks : list cstring) (n : cstring) (paths : list cstring) : Prop :=
  exists c, c ∈ chunks /\ declares (line_of c) n paths.

Lemma conf_lines_spec chunks st :
  load_inv w kind (l_ps st) (l_maps st) -> l_errs (conf_lines RealLoad w false chunks st) = 0%nat ->
  maps_le (l_maps st) (l_maps (conf_lines RealLoad w false chunks st))
  /\ forall c, c ∈ chunks ->
       line_in_force (fun n l => group_of (ps_actors (l_ps st)) n l \/ declared_in chunks n l) (line_of c)
         (l_maps (conf_lines RealLoad w false chunks st)).
Proof.
  revert st. induction chunks as [|c chunks IH]; intros st Hi; cbn [conf_lines]; [split; [done|set_solver]|].
  destruct (embedded_nul c). { intros He. by destruct (conf_lines_ok w kind _ _ _ Hstable He). }
  case_match. { intros He. by destruct (conf_lines_ok w kind _ _ _ Hstable He). }
  fold (line_of c). set (st1 := if is_candidate_line (until_nul c) then _ else st). intros He.
  assert (Hst1 : l_ps st1 = l_ps st /\ l_maps st1 = l_maps st) by (unfold st1; by case_match).
  destruct Hst1 as [Hp1 Hm1]. rewrite <- Hp1, <- Hm1 in *.
  destruct (conf_lines_ok w kind _ _ _ Hstable He) as [He1 _].
  destruct (conf_directive_ok w kind (line_of c) st1 Hstable He1) as [_ Hi1]. specialize (Hi1 Hi).
  destruct (conf_directive_spec (line_of c) st1 Hi He1) as (Hle & Hsub & Hdec & Hfor).
  destruct (IH _ Hi1 He) as [Hle2 Hall]. split; [by etrans|].
  intros c' [->|Hc']%elem_of_cons.
  - eapply line_in_force_mono; [|exact Hle2|exact Hfor]. intros n l Hg. by left.
  - eapply line_in_force_mono; [|reflexivity|by apply Hall].
    intros n l [(ag & Hag & <- & <-)|(x & Hx & Hd)]; [|right; exists x; set_solver].
    destruct (Hdec ag Hag) as [Hin|Hd]; [left; by exists ag|right; exists c; set_solver].
Qed.
End Run.
