(* ===== verification/LoaderDry.v ===== *)
(** * The dry run follows the real load

    The dry run keeps only the profile state: what the real load accepts, the dry
    run accepts, with the same groups and the same recorded seals. *)

From S2P Require Import Prelude Abi Kernel CLib Config Loader LoaderProps LoaderRun.
From Stdlib Require Import Ascii.

#[local] Open Scope Z_scope.

Section Dry.
Context (w : lworld) (kind : inode_key -> bool).
Hypothesis Hstable : inodes_stable w kind.

(** ** Without held descriptors *)

Lemma actor_resolve_no_hold p a : actor_resolve_path w p = Some a -> actor_resolve_path (no_hold w) p = Some a.
Proof.
  intros H. unfold actor_resolve_path in *. cbn [no_hold lw_open lw_dirmode lw_hold].
  change (anon_bdev_refuse (no_hold w) p) with (anon_bdev_refuse w p).
  repeat (case_match; try done).
Qed.

Lemma actors_resolve_no_hold l bins :
  mapM (actor_resolve_path w) l = Some bins -> mapM (actor_resolve_path (no_hold w)) l = Some bins.
Proof. rewrite !mapM_Some. intros H. eapply Forall2_impl; [exact H|]. apply actor_resolve_no_hold. Qed.

Lemma validate_launcher_no_hold ps ag k :
  validate_launcher w ps ag = Some k -> validate_launcher (no_hold w) ps ag = Some k.
Proof.
  unfold validate_launcher. destruct (ag_launcher_path ag) as [lp|]; [|done].
  cbn [no_hold lw_open_rd lw_bytes lw_hold].
  change (anon_bdev_refuse (no_hold w) lp) with (anon_bdev_refuse w lp).
  destruct (lw_open_rd w lp) as [st|]; [|done]. destruct (negb (anon_bdev_refuse w lp)); [done|].
  destruct (negb (is_type (ls_mode st) S_IFREG)); [done|]. destruct (writable_by_others (ls_mode st)); [done|].
  destruct (elf_has_interp (lw_bytes w lp)) as [[|]|]; [done| |done]. cbn zeta.
  case_bool_decide; [done|]. destruct (last_full _ _) as [e|]; [|done]. destruct (se_has_actor e); [done|].
  case_match; [|done]. by destruct (lw_hold w lp).
Qed.

Lemma strict_validate_no_hold ps l l' :
  strict_validate_loop w ps l = (l', true) -> strict_validate_loop (no_hold w) ps l = (l', true).
Proof.
  revert l'. induction l as [|ag l IH]; intros l'; cbn; [done|].
  destruct (strict_validate_loop w ps l) as [r ok]. destruct (ag_is_strict ag).
  - destruct (validate_launcher w ps ag) as [k|] eqn:Ev; [|by intros [= ? ?]]. intros [= <- ->].
    by rewrite (IH r eq_refl), (validate_launcher_no_hold _ _ _ Ev).
  - intros [= <- ->]. by rewrite (IH r eq_refl).
Qed.

(** ** One [seal] *)

(** Recording the merged flags or the line's own flags gives the same entries. *)
Lemma record_merged k flags ha p (old : Z) l :
  (forall e, e ∈ l -> se_key e = k -> se_flags e = old) -> k ∈ se_key <$> l ->
  record_seal_loop k (Z.lor flags old) ha p l = record_seal_loop k flags ha p l.
Proof.
  induction l as [|e l IH]; cbn; [set_solver|]. intros Hold Hk. case_bool_decide as He.
  - f_equal. unfold merge_entry. f_equal. rewrite (Hold e) by set_solver.
    by rewrite (Z.lor_comm flags), Z.lor_assoc, Z.lor_diag.
  - f_equal. apply IH; set_solver.
Qed.

Lemma seal_path_dry_follows p flags actor ps m ps' m' :
  seal_path w p flags actor ps m = (ps', m', true) -> flags <> 0 ->
  (forall ag, actor = Some ag -> ag ∈ ps_actors ps) -> load_inv w kind ps m ->
  seal_path_dry (no_hold w) p flags actor ps = (ps', true).
Proof.
  intros H Hf Ha Hi.
  destruct (seal_path_shape w kind _ _ _ _ _ _ _ Hstable H) as (k & sv0 & sv & Hb & Hm & -> & Hd & Hk & Hbin & dir & Ht).
  destruct (build_seal_value_ok w flags actor ps sv0 Hb Hf) as (_ & Hf0 & Hc0 & Hn0).
  { intros ag Eag. split; [by apply Ha|]. split; [|by apply Hbin].
    pose proof (inv_groups _ _ _ _ Hi) as Hg. rewrite Forall_forall in Hg. by apply Hg, Ha. }
  unfold seal_path_dry.
  change (resolve_seal_target (no_hold w) p actor) with (resolve_seal_target w p actor). rewrite Ht.
  pose proof (inv_entries _ _ _ _ Hi) as Hent. rewrite Forall_forall in Hent.
  unfold merge_seal in Hm. destruct (seal_at kind m k) as [pv|] eqn:Es.
  - destruct (sv_actor_count pv =? 0) eqn:E1; [|done]. destruct (sv_actor_count sv0 =? 0) eqn:E2; [|done].
    injection Hm as <-. cbn [sv_flags]. rewrite Hf0, Hc0.
    pose proof (inv_recorded _ _ _ _ Hi k pv Es) as Hr.
    assert (Hold : forall e, e ∈ ps_seals ps -> se_key e = k -> se_flags e = sv_flags pv /\ se_has_actor e = false).
    { intros e He <-. destruct (Hent e He) as (v & Hv & Hfl & Hha). rewrite Es in Hv. simplify_eq.
      by rewrite Hha, E1. }
    unfold profile_state_record_seal. rewrite record_merged; [|naive_solver|done].
    destruct (list_find _ (ps_seals ps)) as [[i e]|] eqn:El; [|done].
    apply list_find_Some in El as (El & He & _). apply list_elem_of_lookup_2 in El.
    destruct (Hold e El He) as [_ ->]. done.
  - injection Hm as ->. destruct (list_find _ (ps_seals ps)) as [[i e]|] eqn:El; [|by rewrite Hf0].
    apply list_find_Some in El as (El & He & _). apply list_elem_of_lookup_2 in El.
    destruct (Hent e El) as (v & Hv & _). by rewrite He, Es in Hv.
Qed.

(** ** Lines *)

(** The dry run's state beside the real one. *)
Definition dry_sim (s d : load_state) : Prop :=
  l_ps d = l_ps s /\ l_sealed d = l_sealed s /\ l_candidate d = l_candidate s /\ l_errs d = 0%nat.

Lemma after_decl_dry decl s d :
  (forall ps, decl = Some ps -> exists ag n,
     ps = ProfileState (ps_actors (l_ps s) ++ [ag]) (ps_seals (l_ps s)) n (ps_gen (l_ps s))) ->
  dry_sim s d -> l_errs (after_decl RealLoad w decl s) = 0%nat ->
  dry_sim (after_decl RealLoad w decl s) (after_decl DryRun (no_hold w) decl d).
Proof.
  intros Hd (H1 & H2 & H3 & H4) He. destruct decl as [ps|]; [|done].
  destruct (Hd ps eq_refl) as (ag & n & ->). unfold after_decl in *. rewrite !resolve_last_snoc in *. cbn zeta in *.
  destruct (mapM (actor_resolve_path w) (ag_paths ag)) as [bins|] eqn:Em; [|done].
  by rewrite (actors_resolve_no_hold _ _ Em).
Qed.

Lemma seal_line_dry rest s d :
  load_inv w kind (l_ps s) (l_maps s) -> dry_sim s d -> l_errs (seal_line RealLoad w rest s) = 0%nat ->
  dry_sim (seal_line RealLoad w rest s) (seal_line DryRun (no_hold w) rest d).
Proof.
  intros Hi (H1 & H2 & H3 & H4). unfold seal_line. destruct (strtok_r ws_delim rest) as [[target fs]|]; [|done].
  destruct (parse_flagspec fs) as [[flags name]|] eqn:Ef; [|done]. rewrite H1.
  destruct (find_named (l_ps s) name) as [actor|] eqn:En; [|done]. unfold apply_seal. rewrite H1.
  destruct (seal_path w target flags actor (l_ps s) (l_maps s)) as [[ps m] ok] eqn:Es.
  destruct ok; [|done]. intros _.
  rewrite (seal_path_dry_follows _ _ _ _ _ _ _ Es); try done.
  - split; [done|]. cbn. by rewrite H2.
  - by eapply parse_flagspec_nonzero.
  - intros ag ->. by eapply find_named_elem.
Qed.

Lemma conf_directive_dry line s d :
  load_inv w kind (l_ps s) (l_maps s) -> dry_sim s d -> l_errs (conf_directive RealLoad w line s) = 0%nat ->
  dry_sim (conf_directive RealLoad w line s) (conf_directive DryRun (no_hold w) line d).
Proof.
  intros Hi Hs. pose proof Hs as (H1 & _). unfold conf_directive. rewrite H1.
  destruct (strtok_r ws_delim (trim line)) as [[dir rest]|]; [|done].
  destruct (streq dir (lit "actor")).
  { apply after_decl_dry; [|done]. intros ps Hp.
    destruct (parse_actor_decl_tokens _ _ _ Hp) as (ag & n & -> & _). by exists ag, n. }
  destruct (streq dir (lit "actor-strict")).
  { apply after_decl_dry; [|done]. intros ps Hp.
    destruct (parse_actor_strict_decl_tokens _ _ _ Hp) as (ag & n & tgt & l & -> & _). by exists ag, n. }
  destruct (streq dir (lit "env")); [done|]. destruct (streq dir (lit "seal")); [by apply seal_line_dry|done].
Qed.

Lemma conf_lines_dry chunks s d :
  load_inv w kind (l_ps s) (l_maps s) -> dry_sim s d ->
  l_errs (conf_lines RealLoad w false chunks s) = 0%nat ->
  dry_sim (conf_lines RealLoad w false chunks s) (conf_lines DryRun (no_hold w) false chunks d).
Proof.
  revert s d. induction chunks as [|c chunks IH]; intros s d Hi Hs; cbn [conf_lines]; [done|].
  destruct (embedded_nul c). { intros He. by destruct (conf_lines_ok w kind _ _ _ Hstable He). }
  case_match. { intros He. by destruct (conf_lines_ok w kind _ _ _ Hstable He). }
  set (s1 := if is_candidate_line _ then LoadState (l_ps s) _ _ _ _ else s).
  set (d1 := if is_candidate_line _ then LoadState (l_ps d) _ _ _ _ else d). intros He.
  assert (Hs1 : dry_sim s1 d1 /\ l_ps s1 = l_ps s /\ l_maps s1 = l_maps s).
  { destruct Hs as (? & ? & ? & ?). unfold s1, d1. by case_match. }
  destruct Hs1 as (Hs1 & Hp1 & Hm1). rewrite <- Hp1, <- Hm1 in Hi.
  destruct (conf_lines_ok w kind _ _ _ Hstable He) as [He1 _].
  destruct (conf_directive_ok w kind _ s1 Hstable He1) as [_ Hi1].
  apply IH; [by apply Hi1|by apply conf_directive_dry|done].
Qed.
End Dry.

(** The final passes do not change the number of seals. *)
Lemma conf_finish_sealed mode w pin_enforce allow_candidate st :
  l_sealed (conf_finish mode w pin_enforce allow_candidate st) = l_sealed st.
Proof.
  unfold conf_finish, strict_validate_launchers, err_if.
  destruct mode; repeat (case_match; simplify_eq/=; try done).
Qed.

Lemma load_conf_sealed w content allow_empty pin_enforce allow_candidate m :
  load_conf RealLoad w content allow_empty pin_enforce allow_candidate = Some m ->
  l_sealed (after_lines w content) <> 0%nat \/ allow_empty = true.
Proof.
  unfold load_conf. cbn zeta. rewrite conf_finish_sealed. cbn [mode_world]. fold (after_lines w content).
  destruct (negb _); [done|]. destruct allow_empty; [by right|].
  destruct (Nat.eqb_spec (l_sealed (after_lines w content)) 0); [done|]. by left.
Qed.
