(* ===== verification/LoaderSafety.v ===== *)
(** * A loaded policy protects the binaries it trusts

    Composes the loader with the hooks: the maps a successful [load_conf]
    leaves, read by the hook programs, refuse every change of an actor binary,
    of a launcher and of a launcher's target, whoever the caller is.  The dry
    run is compared with the real load. *)

From S2P Require Import Prelude Abi Kernel Demo SealCore Hooks SealSpec SealRefine HookSpec HookRefine HookProps CLib Config Loader LoaderProps LoaderRun LoaderDry.
From Stdlib Require Import Ascii.

#[local] Open Scope Z_scope.

(** ** Calls that change an inode *)

Section Tampering.
Context (E : env).
Local Abbreviation K := (e_kernel E).

Definition file_inode (f : ptr) : ptr := read_ptr (k_files K) f_inode f.

(** The call writes the contents or the metadata of the inode [i], removes,
    renames, replaces or links one of its names, or covers it with a mount. *)
Definition tampers (i : ptr) (h : hook) : Prop :=
  match h with
  | HFileOpen f => file_inode f = i /\ (read_val (k_files K) f_mode f &? FMODE_WRITE) = true
  | HFilePermission f mask => file_inode f = i /\ (mask &? MAY_WRITE) = true
  | HFileTruncate f => file_inode f = i
  | HMmapFile f reqprot prot flags =>
      file_inode f = i /\ (Z.lor prot reqprot &? PROT_WRITE) = true /\ (flags &? MAP_SHARED) = true
  | HFileMprotect vma prot =>
      file_inode (read_ptr (k_vmas K) vm_file vma) = i /\ (prot &? PROT_WRITE) = true
      /\ (read_val (k_vmas K) vm_flags vma &? VM_SHARED) = true
  | HInodeUnlink d | HInodeRmdir d => inode_of E d = i
  | HInodeRename o n => inode_of E o = i \/ inode_of E n = i
  | HInodeLink o _ => inode_of E o = i
  | HInodeSetattr d ia => inode_of E d = i /\ size_change ia || meta_change ia = true
  | HInodeSetxattr d | HInodeRemovexattr d | HInodeSetAcl d | HInodeRemoveAcl d => inode_of E d = i
  | HFileIoctl f cmd =>
      file_inode f = i
      /\ cmd ∈ [COMP_FS_IOC_SETFLAGS; COMP_FS_IOC32_SETFLAGS; COMP_FS_IOC_FSSETXATTR;
                COMP_FS_IOC_SETVERSION; COMP_FS_IOC32_SETVERSION]
  | HSbMount d flags => inode_of E d = i /\ mount_exempt flags = false
  | HMoveMount _ _ d => inode_of E d = i
  | _ => False
  end.
End Tampering.

Section Uniform.
Context (E : env) (d : dyn) (i : ptr) (sv : seal_value).
Hypothesis (Hi : is_null i = false).
Hypothesis (Hdev : key_dev (inode_key_of E i) <> 0).
Hypothesis (Hsv : sealed_inodes (e_policy E) !! inode_key_of E i = Some sv).
Hypothesis (Hfull : Z.land (sv_flags sv) required_full = required_full).
Hypothesis (Hcount : sv_actor_count sv = 0).

Lemma full_hasbit mask : hasbit required_full mask = true -> hasbit (sv_flags sv) mask = true.
Proof.
  unfold hasbit. rewrite !negb_true_iff, !Z.eqb_neq. intros H H0. apply H. rewrite <- Hfull.
  by rewrite (Z.land_comm (sv_flags sv)), <- Z.land_assoc, H0, Z.land_0_r.
Qed.

(** A list of checks that contains those on the inode refuses every caller. *)
Lemma uniform_refused l mask action :
  hasbit required_full mask = true -> inode_checks E i mask action ⊆ l -> refused E d l.
Proof.
  intros Hm Hl. exists (Check sv mask action (inode_key_of E i)). split.
  - apply Hl. unfold inode_checks. rewrite Hi, Hsv. unfold key_set.
    rewrite (proj2 (Z.eqb_neq _ _) Hdev). cbn. left.
  - unfold check_denies, satisfies. cbn [ck_seal ck_mask]. by rewrite full_hasbit, Hcount.
Qed.

Lemma checks_verdict l h mask action :
  hook_outcome E (actor_marker_map d) h = checks_outcome E (actor_marker_map d) l ->
  hasbit required_full mask = true -> inode_checks E i mask action ⊆ l -> verdict E h d = - EACCES.
Proof. intros Ho Hm Hl. apply (denies_iff_checks E d h l Ho). by eapply uniform_refused. Qed.

Lemma writes_refused f h :
  file_inode E f = i ->
  hook_outcome E (actor_marker_map d) h = checks_outcome E (actor_marker_map d) (write_checks E f) ->
  verdict E h d = - EACCES.
Proof.
  intros Hf Ho. eapply checks_verdict with (mask := SEAL_NO_WRITE) (action := ACTION_DENY_WRITE); [exact Ho|done|].
  unfold write_checks. fold (file_inode E f). rewrite Hf. set_solver.
Qed.

Lemma chmods_refused dn h :
  hook_outcome E (actor_marker_map d) h = checks_outcome E (actor_marker_map d) (chmod_checks E i dn) ->
  verdict E h d = - EACCES.
Proof.
  intros Ho. eapply checks_verdict with (mask := SEAL_NO_CHMOD) (action := ACTION_DENY_CHMOD); [exact Ho|done|]. unfold chmod_checks. set_solver.
Qed.

Lemma mount_rc dn : inode_of E dn = i -> o_rc (mount_outcome E (actor_marker_map d) dn) = - EACCES.
Proof.
  intros Hd. unfold mount_outcome. apply o_seqs_rc_deny.
  - repeat (apply Forall_cons; split); [..|by apply Forall_nil]; auto with comp_db.
  - right. left. apply checks_refused. eapply uniform_refused with (mask := SEAL_FULL) (action := ACTION_DENY_MOUNT); [done|].
    unfold mount_checks. rewrite Hd. set_solver.
Qed.

(** Every call that changes the inode is refused. *)
Lemma tampering_refused h : tampers E i h -> verdict E h d = - EACCES.
Proof.
  destruct h; cbn [tampers]; try done.
  - intros Ht. pose proof (unlink_iff E d dentry) as H. apply Forall_cons in H as [H _]. apply H. right.
    eapply uniform_refused with (mask := SEAL_NO_UNLINK) (action := ACTION_DENY_UNLINK); [done|].
    unfold unlink_checks. rewrite Ht. set_solver.
  - intros Ht. apply rename_iff. right. right. right. right. right. unfold rename_inode_checks. destruct Ht as [Ht|Ht].
    + eapply uniform_refused with (mask := Z.lor SEAL_NO_RENAME SEAL_NO_UNLINK) (action := ACTION_DENY_RENAME); [done|].
      rewrite Ht. set_solver.
    + eapply uniform_refused with (mask := Z.lor (Z.lor SEAL_NO_RENAME SEAL_NO_UNLINK) SEAL_NO_WRITE)
        (action := ACTION_DENY_RENAME); [done|]. rewrite Ht. set_solver.
  - intros Ht. pose proof (unlink_iff E d dentry) as H. apply Forall_cons in H as [_ H].
    apply Forall_cons in H as [H _]. apply H. right.
    eapply uniform_refused with (mask := SEAL_NO_UNLINK) (action := ACTION_DENY_UNLINK); [done|].
    unfold unlink_checks. rewrite Ht. set_solver.
  - intros Ht. apply link_iff. left.
    eapply uniform_refused with (mask := SEAL_NO_WRITE) (action := ACTION_DENY_CREATE); [done|].
    unfold link_checks. rewrite Ht. set_solver.
  - intros [Hf Hm]. apply (writes_refused f); [done|]. cbn [hook_outcome]. fold (file_inode E f). by rewrite Hm, Hf, Hi.
  - intros [Hf Hm]. apply (writes_refused f); [done|]. cbn [hook_outcome]. by rewrite Hm.
  - intros Hf. by apply (writes_refused f).
  - intros (Hf & Hp & Hm). apply (writes_refused f); [done|]. cbn [hook_outcome]. by rewrite Hp, Hm.
  - intros (Hf & Hp & Hm). apply (writes_refused _ _ Hf). cbn [hook_outcome]. by rewrite Hp, Hm.
  - intros [Ht Hia]. apply orb_true_iff in Hia as [Hia|Hia].
    + eapply checks_verdict with (mask := SEAL_NO_WRITE) (action := ACTION_DENY_WRITE); [reflexivity|done|].
      unfold setattr_checks. rewrite Ht, Hia. set_solver.
    + eapply checks_verdict with (mask := SEAL_NO_CHMOD) (action := ACTION_DENY_CHMOD); [reflexivity|done|].
      unfold setattr_checks. rewrite Ht, Hia. set_solver.
  - intros Ht. apply (chmods_refused dentry). cbn [hook_outcome]. by rewrite Ht.
  - intros Ht. apply (chmods_refused dentry). cbn [hook_outcome]. by rewrite Ht.
  - intros Ht. apply (chmods_refused dentry). cbn [hook_outcome]. by rewrite Ht.
  - intros Ht. apply (chmods_refused dentry). cbn [hook_outcome]. by rewrite Ht.
  - intros [Hf Hc]. eapply chmods_refused. cbn [hook_outcome]. fold (file_inode E f).
    by rewrite bool_decide_eq_true_2, Hf, Hi.
  - intros [Ht He]. rewrite verdict_outcome. cbn [hook_outcome]. rewrite He. by apply mount_rc.
  - intros Ht. rewrite verdict_outcome. cbn [hook_outcome]. apply o_seqs_rc_deny.
    + repeat (apply Forall_cons; split); [..|by apply Forall_nil].
      * destruct (negb _ && _ && _); [apply umount_outcome_ok|by left].
      * right. by apply mount_rc.
    + right. left. by apply mount_rc.
Qed.
End Uniform.

(** C6: trusted binaries are immutable.  After a successful real load, with the
    hooks reading the maps it left, every call that would change a binary the
    policy's decisions rest on is refused with [-EACCES], whoever makes it and
    whatever the mutable state is: an executable that any seal names as actor,
    every launcher, and the target of every launcher.  [tampers] covers opening
    and writing, truncating, shared writable mappings, unlink, rename onto and
    away, hard links, attribute, xattr, ACL and flag changes, and mounts over
    the file. *)
Theorem trusted_binaries_immutable w kind content allow_empty pin_enforce allow_candidate m E d i h :
  inodes_stable w kind ->
  load_conf RealLoad w content allow_empty pin_enforce allow_candidate = Some m ->
  sealed_inodes (e_policy E) = m_inodes m ->
  is_null i = false -> trusted_binary m (inode_key_of E i) ->
  tampers E i h -> verdict E h d = - EACCES.
Proof.
  intros Hs Hl HE Hi Ht Hh. destruct (load_conf_loaded w kind _ _ _ _ m Hs Hl) as (_ & ps' & Hld).
  destruct (trusted_sealed w kind _ ps' _ m _ Hs Hld Ht) as (sv & Hsv & Hf & Hc & Hd).
  apply (tampering_refused E d i sv); try done. by rewrite HE.
Qed.

(** ** A concrete profile *)

Module Example.
(** The executables of the demo kernel, its file [/etc/conf], and a second
    launcher in the world-writable directory [/opt]. *)
Definition file_at (p : cstring) : option lstat :=
  if streq p (lit "/bin/editor") then Some (LStat 0x81ED 0 8 200 4096 1)
  else if streq p (lit "/bin/launch") then Some (LStat 0x81ED 0 8 201 120 1)
  else if streq p (lit "/bin/vi") then Some (LStat 0x81ED 0 8 202 4096 1)
  else if streq p (lit "/opt/launch") then Some (LStat 0x81ED 0 8 203 120 1)
  else if streq p (lit "/etc/conf") then Some (LStat 0x81A4 0 8 101 10 1)
  else None.

(** A 64-bit ELF file with one [PT_LOAD] header. *)
Definition static_elf : list Z :=
  [0x7f; 0x45; 0x4c; 0x46; 2; 1; 1; 0] ++ replicate 24 0
  ++ [64] ++ replicate 21 0 ++ [56; 0; 1; 0] ++ replicate 6 0
  ++ [1] ++ replicate 55 0.

Definition world : lworld := {|
  lw_open := file_at;
  lw_open_rd := file_at;
  lw_fstype := fun _ => Some 0xEF53;
  lw_dirmode := fun p => Some (if streq p (lit "/opt") then 0x41FF else 0x41ED);
  lw_bytes := fun _ => static_elf;
  lw_nftw := fun _ => ([], true);
  lw_update_seal := fun _ => true;
  lw_update_dev := fun _ => true;
  lw_update_launcher := fun _ => true;
  lw_update_state := true;
  lw_hold := fun _ => true
|}.

Lemma file_at_reg p st : file_at p = Some st -> is_type (ls_mode st) S_IFDIR = false.
Proof. unfold file_at. intros H. repeat case_match; simplify_eq; reflexivity. Qed.

Lemma world_stable : inodes_stable world (fun _ => false).
Proof. split; intros p st; [intros dev H _|intros H]; by apply file_at_reg in H. Qed.

(** Two actors that share a launcher. *)
Definition shared_profile : cstring :=
  lit "actor-strict ed = /bin/editor launcher=/bin/launch" ++ [LF] ++
  lit "actor-strict vi = /bin/vi launcher=/bin/launch" ++ [LF] ++
  lit "seal /bin/editor full" ++ [LF] ++ lit "seal /bin/vi full" ++ [LF] ++
  lit "seal /bin/launch full" ++ [LF] ++
  lit "seal /etc/conf no-write,strict-launch actor=ed" ++ [LF].

(** A launcher in a world-writable directory. *)
Definition opt_profile : cstring :=
  lit "actor-strict ed = /bin/editor launcher=/opt/launch" ++ [LF] ++
  lit "seal /bin/editor full" ++ [LF] ++ lit "seal /opt/launch full" ++ [LF].

Definition profile : cstring :=
  lit "actor-strict ed = /bin/editor launcher=/bin/launch" ++ [LF] ++
  lit "seal /bin/editor full" ++ [LF] ++
  lit "seal /bin/launch" ++ [LF] ++
  lit "seal /etc/conf no-write,strict-launch actor=ed  # the configuration" ++ [LF].

Definition maps_of (o : option maps) : maps := default maps_empty o.
Definition loaded_maps : maps := maps_of (load_conf RealLoad world profile false true false).

(** The demo kernel under the loaded policy. *)
Definition loaded_env (cur : ptr) : env := {|
  e_kernel := demo_kernel;
  e_policy := Policy (m_inodes loaded_maps) (m_dirs loaded_maps) (m_devs loaded_maps)
                (m_launchers loaded_maps) (m_state loaded_maps) ∅ ∅ ∅ None;
  e_current := cur; e_ktime := 0; e_pid_tgid := 0; e_uid_gid := 0; e_comm := demo_name;
  e_reserve := fun _ => true; e_storage_alloc := true
|}.
End Example.

Lemma trusted_binaries_immutable_witness :
  verdict (Example.loaded_env (Some 1%positive)) (HFilePermission (Some 2%positive) MAY_WRITE) demo_dyn_marked
  = - EACCES.
Proof.
  apply (trusted_binaries_immutable Example.world (fun _ => false) Example.profile false true false
           Example.loaded_maps _ _ (Some 200%positive)).
  - apply Example.world_stable.
  - vm_compute. reflexivity.
  - reflexivity.
  - reflexivity.
  - right. right. exists (InodeKey 8 201), (LauncherActor (InodeKey 8 200) 1 1). split; vm_compute; reflexivity.
  - split; reflexivity.
Defined.

(** ** What an accepted profile means *)

(** The profile as the parser reads it. *)
Definition profile_lines (content : cstring) : list cstring := (fgets_all (LINE_SIZE - 1) content).*1.

(** C7: every [seal] line of an accepted profile is in force.  When the real load
    succeeds, each line of the profile that is a [seal] directive parsed into a
    target, flags and an optional actor; the inode its target resolves to is in
    the map of its kind (directories or other inodes) with at least these flags;
    without [actor=] nobody is exempt, and with [actor=NAME] the exempt binaries
    are exactly the resolved binaries of a declaration of [NAME] in the same
    profile; and the tree under a sealed directory was walked to the end without
    finding a symbolic link, a hard-linked file or an entry deeper than the
    ancestors a hook looks at.  No line is dropped: over-long lines, embedded NULs and unknown
    directives fail the whole load. *)
Theorem seal_lines_enforced w kind content allow_empty pin_enforce allow_candidate m c :
  inodes_stable w kind ->
  load_conf RealLoad w content allow_empty pin_enforce allow_candidate = Some m ->
  c ∈ profile_lines content ->
  line_in_force w (declared_in (profile_lines content)) (line_of c) m.
Proof.
  intros Hs Hl Hc. destruct (load_conf_loaded w kind _ _ _ _ m Hs Hl) as (He & ps' & [Hi _ _ Hp]).
  destruct (strict_populate_maps_spec w kind _ _ m (inv_launchers _ _ _ _ Hi) Hp) as (Hm1 & Hm2 & _).
  destruct (conf_lines_spec w kind Hs (profile_lines content) load_init (load_init_inv w kind) He) as [_ Hall].
  eapply line_in_force_mono; [exact Hs| |..|by apply Hall].
  - intros n l [(ag & Hag & _)|Hd]; [cbn in Hag; set_solver|done].
  - intros k sv Hk. exists sv. split; [|reflexivity]. unfold seal_at in *. by rewrite Hm1, Hm2.
Qed.

Lemma seal_lines_enforced_witness :
  line_in_force Example.world (declared_in (profile_lines Example.profile))
    (line_of (lit "seal /etc/conf no-write,strict-launch actor=ed  # the configuration" ++ [LF]))
    Example.loaded_maps.
Proof.
  apply (seal_lines_enforced Example.world (fun _ => false) Example.profile false true false).
  - apply Example.world_stable.
  - vm_compute. reflexivity.
  - apply list_elem_of_In. vm_compute. tauto.
Defined.

(** ** The dry run *)

(** The dry run never rejects what the real load accepts.  On the same file
    system, when the real load of a profile succeeds then [--dry-run] succeeds
    too (candidate profiles included: the dry run only warns about them). *)
Theorem dry_run_accepts w kind content allow_empty pin_enforce allow_candidate allow_candidate' m :
  inodes_stable w kind ->
  load_conf RealLoad w content allow_empty pin_enforce allow_candidate = Some m ->
  is_Some (load_conf DryRun w content allow_empty false allow_candidate').
Proof.
  intros Hs Hl. destruct (load_conf_loaded w kind _ _ _ _ m Hs Hl) as (He & ps' & [Hi Hen Hv _]).
  assert (Hd : dry_sim (after_lines w content)
    (conf_lines DryRun (no_hold w) false (profile_lines content) load_init)).
  { apply (conf_lines_dry w kind Hs); [apply load_init_inv|done..]. }
  destruct Hd as (H1 & H2 & H3 & H4). unfold load_conf. cbn [mode_world]. fold (profile_lines content).
  set (d := conf_lines DryRun _ _ _ _) in *. clearbody d.
  unfold conf_finish. rewrite andb_false_r. cbn [andb err_if]. rewrite H1, Hen. cbn [negb err_if].
  unfold strict_validate_launchers in *. destruct (strict_validate_loop w _ _) as [l ok] eqn:Ev. simplify_eq.
  rewrite H1, (strict_validate_no_hold _ _ _ _ Ev). cbn. rewrite H4. cbn.
  apply load_conf_sealed in Hl. rewrite H2. destruct Hl as [Hl|Hl]; [|by rewrite Hl, andb_false_r].
  by rewrite (proj2 (Nat.eqb_neq _ _) Hl).
Qed.

Lemma dry_run_accepts_witness :
  is_Some (load_conf DryRun Example.world Example.profile false false false).
Proof.
  apply (dry_run_accepts Example.world (fun _ => false) Example.profile false true false false Example.loaded_maps).
  - apply Example.world_stable.
  - vm_compute. reflexivity.
Defined.

(** The dry run is not exact.  A [strict-launch] seal without an [actor=] of a
    strict declaration passes [--dry-run], and the real load of the same profile
    on the same file system fails. *)
Theorem dry_run_not_exact :
  exists content, is_Some (load_conf DryRun Example.world content false false false)
    /\ load_conf RealLoad Example.world content false false false = None.
Proof. exists (lit "seal /etc/conf no-write,strict-launch"). split; vm_compute; [by eexists|reflexivity]. Qed.

(** A launcher declared for two strict actors serves only the last one.  The
    profile loads, the seal that names the first actor is in force, and no entry
    of the launcher map carries the slot this seal asks for: no launch can ever
    give a task the marker that opens it. *)
Theorem shared_launcher_overwritten :
  exists m sv, load_conf RealLoad Example.world Example.shared_profile false true false = Some m
    /\ m_inodes m !! InodeKey 8 101 = Some sv
    /\ (sv_flags sv &? SEAL_STRICT_LAUNCH) = true
    /\ forall k la, m_launchers m !! k = Some la -> la_actor_slot la <> sv_strict_actor_slot sv.
Proof.
  eexists _, _. split; [vm_compute; reflexivity|]. split; [vm_compute; reflexivity|]. split; [reflexivity|].
  intros k la Hk.
  assert (Hm : forall m : gmap inode_key launcher_actor, m = {[ InodeKey 8 201 := LauncherActor (InodeKey 8 202) 2 1 ]} ->
                         m !! k = Some la -> la_actor_slot la = 2).
  { intros m -> H. apply lookup_singleton_Some in H as [_ <-]. done. }
  apply Hm in Hk; [|vm_compute; reflexivity]. rewrite Hk. vm_compute. discriminate.
Qed.

(** The directory of a launcher is not checked.  The real load accepts a strict
    actor whose launcher sits in a world-writable directory, while the check of
    actor binaries refuses the very same file for that reason. *)
Theorem launcher_parent_not_checked :
  is_Some (load_conf RealLoad Example.world Example.opt_profile false true false)
  /\ (writable_by_others <$> (parent_of (lit "/opt/launch") ≫= lw_dirmode Example.world)) = Some true
  /\ actor_resolve_path Example.world (lit "/opt/launch") = None.
Proof. split; [vm_compute; by eexists|]. split; vm_compute; reflexivity. Qed.

(** ** The loaded policy and the other hooks *)

(** The loaded maps are well formed and arm the hooks.  For every sealed object
    of a successful load: its seal has a flag and an actor array of four entries of
    which at most four count; it is in the directory map exactly when it is a
    directory; the file system it lives on cannot be unmounted; and if the seal is
    strict it names an actor, carries the current policy generation, and with it
    [PR_SET_MM] is refused to everyone. *)
Theorem loaded_policy_armed w kind content allow_empty pin_enforce allow_candidate m E d k sv mnt sb root :
  inodes_stable w kind ->
  load_conf RealLoad w content allow_empty pin_enforce allow_candidate = Some m ->
  sealed_devs (e_policy E) = m_devs m -> policy_state_map (e_policy E) = m_state m ->
  seal_of m k sv ->
  read_ptr (k_mounts (e_kernel E)) mnt_sb (Some mnt) = Some sb ->
  read_ptr (k_mounts (e_kernel E)) mnt_root (Some mnt) = Some root ->
  read_ptr (k_sbs (e_kernel E)) s_root (Some sb) = Some root ->
  read_val (k_sbs (e_kernel E)) s_dev (Some sb) = key_dev k ->
  length (sv_actor sv) = COMPARTMENT_MAX_ACTORS_PER_SEAL /\ 0 <= sv_actor_count sv <= 4 /\ sv_flags sv <> 0
  /\ kind k = bool_decide (is_Some (m_dirs m !! k))
  /\ verdict E (HSbUmount (Some mnt)) d = - EACCES
  /\ ((sv_flags sv &? SEAL_STRICT_LAUNCH) = true ->
        sv_actor_count sv <> 0 /\ sv_strict_generation sv = cur_strict_generation E
        /\ verdict E (HTaskPrctl PR_SET_MM) d = - EPERM).
Proof.
  intros Hs Hl HEd HEs Hk Hsb Hrt Hrt2 Hdev. destruct (load_conf_loaded w kind _ _ _ _ m Hs Hl) as (_ & ps' & Hld).
  destruct (loaded_seal w kind _ _ _ m k sv Hld Hk) as ((H1 & H2 & H3 & _ & H4) & Hkind & [_ Hd] & Hst).
  do 4 (split; [done|]). split.
  - rewrite verdict_outcome. cbn [hook_outcome]. unfold umount_outcome, umount_protected.
    rewrite Hsb, Hrt, Hrt2, Hdev, HEd, bool_decide_eq_true_2 by done. unfold ptr_eqb.
    by rewrite bool_decide_eq_true_2.
  - intros Hb. destruct (H4 Hb) as [Hc _]. specialize (Hst Hb). split; [done|].
    unfold cur_strict_generation. rewrite HEs, Hst. split; [done|].
    rewrite verdict_outcome. cbn [hook_outcome]. unfold side_deny, cur_strict_loaded. by rewrite HEs, Hst.
Qed.

Lemma loaded_policy_armed_witness :
  verdict (Example.loaded_env (Some 1%positive)) (HSbUmount (Some 1%positive)) demo_dyn = - EACCES
  /\ verdict (Example.loaded_env (Some 1%positive)) (HTaskPrctl PR_SET_MM) demo_dyn = - EPERM.
Proof.
  destruct (m_inodes Example.loaded_maps !! InodeKey 8 101) as [sv|] eqn:Esv; [|vm_compute in Esv; discriminate].
  assert (Hb : (sv_flags sv &? SEAL_STRICT_LAUNCH) = true) by (vm_compute in Esv; by simplify_eq).
  destruct (loaded_policy_armed Example.world (fun _ => false) Example.profile false true false
    Example.loaded_maps (Example.loaded_env (Some 1%positive)) demo_dyn (InodeKey 8 101) sv 1 1 1) as (_ & _ & _ & _ & Hu & Hp).
  - apply Example.world_stable.
  - vm_compute. reflexivity.
  - reflexivity.
  - reflexivity.
  - by left.
  - reflexivity.
  - reflexivity.
  - reflexivity.
  - reflexivity.
  - split; [exact Hu|]. by destruct (Hp Hb) as (_ & _ & ?).
Defined.

(** ** Printing and parsing flags *)

(** Printing a set of seal flags and parsing the text gives the set back, with
    no actor, and the text with its terminator fits the 64-byte buffer the callers
    of [fmt_flags] pass.  This covers every combination of the four deny flags;
    [strict-launch] is not printed. *)
Theorem flag_spec_roundtrip f :
  0 < f <= SEAL_FULL -> parse_flagspec (fmt_flags f) = Some (f, None) /\ (length (fmt_flags f) < 64)%nat.
Proof.
  intros Hf. change SEAL_FULL with 15 in Hf.
  assert (Hall : forallb (fun n => bool_decide (parse_flagspec (fmt_flags (Z.of_nat n)) = Some (Z.of_nat n, None))
    && Nat.ltb (length (fmt_flags (Z.of_nat n))) 64) (seq 1 15) = true) by (vm_compute; reflexivity).
  rewrite forallb_forall in Hall. specialize (Hall (Z.to_nat f)). rewrite Z2Nat.id in Hall by lia.
  apply andb_true_iff in Hall as [H1 H2]; [|apply in_seq; lia].
  apply bool_decide_eq_true in H1. apply Nat.ltb_lt in H2. done.
Qed.

Lemma flag_spec_roundtrip_witness : fmt_flags 6 = lit "no-rename,no-write" /\ parse_flagspec (fmt_flags 6) = Some (6, None).
Proof. split; [reflexivity|]. apply flag_spec_roundtrip. vm_compute. split; [reflexivity|discriminate]. Defined.

(** ** The launcher's ELF image *)

(** The type of the [i]-th program header. *)
Definition phdr_type (bytes : list Z) (phoff : Z) (i : nat) : option Z :=
  (fun ph => field ph 0 4) <$> pread bytes (phoff + Z.of_nat i * 56) 56.

Lemma phdr_loop_spec bytes phoff i n b :
  phdr_loop bytes phoff i n = Some b ->
  if b then exists j, (i <= j < i + n)%nat /\ phdr_type bytes phoff j = Some PT_INTERP
  else forall j, (i <= j < i + n)%nat -> exists t, phdr_type bytes phoff j = Some t /\ t <> PT_INTERP.
Proof.
  revert i. induction n as [|n IH]; intros i; cbn [phdr_loop]; [intros [= <-] j ?; lia|].
  destruct (pread bytes (phoff + Z.of_nat i * 56) 56) as [ph|] eqn:Ep; [|done].
  assert (Ht : phdr_type bytes phoff i = Some (field ph 0 4)) by (unfold phdr_type; by rewrite Ep).
  destruct (Z.eqb_spec (field ph 0 4) PT_INTERP) as [E|E].
  - intros [= <-]. exists i. split; [lia|]. by rewrite Ht, E.
  - intros H. specialize (IH (S i) H). destruct b.
    + destruct IH as (j & ? & ?). exists j. split; [lia|done].
    + intros j Hj. destruct (decide (j = i)) as [->|Hn]; [by exists (field ph 0 4)|]. apply IH. lia.
Qed.

(** The check that a launcher is statically linked is exact.  When
    [elf_has_interp] answers, the file is a 64-bit ELF image with between 1 and 256
    program headers of 56 bytes; it answers dynamic exactly when some header is
    [PT_INTERP], and static only after reading every header and finding none.
    Everything else is refused. *)
Theorem elf_has_interp_exact bytes b :
  elf_has_interp bytes = Some b ->
  let eh := take 64 bytes in
  let phoff := field eh 32 8 in
  let phnum := Z.to_nat (field eh 56 2) in
  take 4 bytes = [0x7f; 0x45; 0x4c; 0x46] /\ field eh 54 2 = 56 /\ (phnum <= 256)%nat
  /\ if b then exists i, (i < phnum)%nat /\ phdr_type bytes phoff i = Some PT_INTERP
     else forall i, (i < phnum)%nat -> exists t, phdr_type bytes phoff i = Some t /\ t <> PT_INTERP.
Proof.
  unfold elf_has_interp. destruct (pread bytes 0 16) as [ident|] eqn:Ei; [|done].
  case_bool_decide as Hm; [|done]. cbn [negb]. destruct (negb (field ident 4 1 =? 2)); [done|].
  destruct (pread bytes 0 64) as [eh|] eqn:Ee; [|done]. unfold pread in Ei, Ee.
  change (drop (Z.to_nat 0) bytes) with bytes in *. cbn [orb Z.ltb Z.compare] in *.
  destruct (negb (length (take 64 bytes) =? 64)%nat); [done|]. destruct (negb (length (take 16 bytes) =? 16)%nat); [done|].
  injection Ei as <-. injection Ee as <-. rewrite take_take in Hm. cbn zeta.
  case_match eqn:E1; [done|]. apply orb_false_iff in E1 as [_ E1]. apply negb_false_iff, Z.eqb_eq in E1.
  destruct (Z.ltb_spec 256 (field (take 64 bytes) 56 2)); [done|]. intros Hl%phdr_loop_spec.
  split; [done|]. split; [done|]. split; [lia|]. destruct b.
  - destruct Hl as (i & ? & ?). exists i. split; [lia|done].
  - intros i Hi. apply Hl. lia.
Qed.

Lemma elf_has_interp_exact_witness :
  elf_has_interp Example.static_elf = Some false
  /\ exists t, phdr_type Example.static_elf 64 0 = Some t /\ t <> PT_INTERP.
Proof.
  assert (H : elf_has_interp Example.static_elf = Some false) by (vm_compute; reflexivity).
  split; [exact H|]. apply (elf_has_interp_exact _ _ H). apply Nat.ltb_lt. vm_compute. reflexivity.
Defined.
