(* ===== verification/ObserveBpf.v ===== *)
(** * The observer's BPF programs

    Models [src/compartment-bpf/compartment-observe.bpf.c]: learning mode.  The
    programs mark tasks that run an actor binary (and their descendants), and
    aggregate the file system operations of marked tasks per (actor, operation
    class, inode, parent).  They never refuse anything.

    As in [Kernel], a hook runs atomically on the state [odyn]; the kernel
    objects, the clock and the answers of the helpers are the record [oenv].
    The clock is read several times in one call, so it is indexed by the number
    of reads. *)

From S2P Require Import Prelude Abi Kernel.

(** ** Constants *)

Definition AO_EV_ACTOR_EXEC : Z := 1.
Definition AO_EV_ACTOR_EXEC_HELPER : Z := 3.
Definition AO_EV_FS_FIRST_SIGHTING : Z := 6.
Definition AO_EV_FS_CREATE : Z := 7.
Definition AO_EV_FS_UNLINK : Z := 8.
Definition AO_EV_FS_RENAME : Z := 9.
Definition AO_EV_FS_MKDIR : Z := 10.
Definition AO_EV_FS_RMDIR : Z := 11.
Definition AO_EV_FS_LINK : Z := 12.
Definition AO_EV_FS_MKNOD : Z := 13.
Definition AO_EV_FS_SYMLINK : Z := 14.

Definition AO_OP_OPEN_R : Z := 1.
Definition AO_OP_OPEN_W : Z := 2.
Definition AO_OP_OPEN_RW : Z := 3.
Definition AO_OP_OPEN_TRUNC : Z := 4.
Definition AO_OP_CREATE : Z := 5.
Definition AO_OP_UNLINK : Z := 6.
Definition AO_OP_RENAME : Z := 7.
Definition AO_OP_MKDIR : Z := 8.
Definition AO_OP_RMDIR : Z := 9.
Definition AO_OP_LINK : Z := 10.
Definition AO_OP_MKNOD : Z := 11.
Definition AO_OP_SYMLINK : Z := 12.
Definition AO_OP_RENAME_DST : Z := 13.

Definition O_TRUNC : Z := 0x200.        (* 00001000 *)
Definition O_RDWR : Z := 2.
Definition O_ACCMODE : Z := 3.
Definition AO_FMODE_WRITE : Z := 2.
Definition ENOSPC : Z := 28.

Inductive ocounter :=
  | C_EVENTS_SEEN_TOTAL | C_EVENTS_SAMPLED_TOTAL | C_EVENTS_RINGBUF_DROP_TOTAL
  | C_OBSERVED_FILES_TOTAL | C_OBSERVED_FILES_OVERFLOW_TOTAL
  | C_CURRENT_ACTOR_COPY_FORK_TOTAL | C_LINEAGE_COPY_FORK_TOTAL
  | C_LINEAGE_EXEC_HELPER_TOTAL | C_PATH_RESOLVE_FAIL_TOTAL.

#[export] Instance ocounter_eq_dec : EqDecision ocounter.
Proof. solve_decision. Defined.

(** ** Structures *)

Record file_id := FileId { fid_dev : Z; fid_ino : Z }.

#[export] Instance file_id_eq_dec : EqDecision file_id.
Proof. solve_decision. Defined.
#[export] Instance file_id_countable : Countable file_id.
Proof.
  apply (inj_countable' (fun k => (fid_dev k, fid_ino k)) (fun p => FileId p.1 p.2)). by intros [].
Defined.

Record current_actor_marker := CurrentActorMarker { cam_actor_slot : Z; cam_generation : Z }.

Record lineage_marker := LineageMarker {
  lm_origin_actor_slot : Z; lm_generation : Z; lm_observation_only : Z
}.

Record observed_key := ObservedKey {
  ok_actor_slot : Z; ok_op_class : Z; ok_dev : Z; ok_ino : Z; ok_parent_dev : Z; ok_parent_ino : Z
}.

#[export] Instance observed_key_eq_dec : EqDecision observed_key.
Proof. solve_decision. Defined.
#[export] Instance observed_key_countable : Countable observed_key.
Proof.
  apply (inj_countable'
    (fun k => (ok_actor_slot k, ok_op_class k, ok_dev k, ok_ino k, ok_parent_dev k, ok_parent_ino k))
    (fun '(a, b, c, d, e, f) => ObservedKey a b c d e f)). by intros [].
Defined.

(** [flags_seen] is never written; the spin lock has no counterpart here. *)
Record observed_value := ObservedValue {
  ov_count : Z; ov_first_ns : Z; ov_last_ns : Z; ov_sample_pid : Z; ov_sample_tgid : Z;
  ov_under_current_actor : bool; ov_under_actor_lineage : bool
}.

Record launcher_key := LauncherKey { lk_actor_slot : Z; lk_parent_dev : Z; lk_parent_ino : Z }.

#[export] Instance launcher_key_eq_dec : EqDecision launcher_key.
Proof. solve_decision. Defined.
#[export] Instance launcher_key_countable : Countable launcher_key.
Proof.
  apply (inj_countable' (fun k => (lk_actor_slot k, lk_parent_dev k, lk_parent_ino k))
    (fun '(a, b, c) => LauncherKey a b c)). by intros [].
Defined.

Record launcher_value := LauncherValue {
  lv_count : Z; lv_sample_pid : Z; lv_sample_ppid : Z; lv_sample_cgroup_id : Z
}.

Record ao_event := AoEvent {
  ao_type : Z; ao_actor_slot : Z; ao_dev : Z; ao_ino : Z; ao_parent_dev : Z; ao_parent_ino : Z;
  ao_op_class : Z; ao_pid : Z; ao_tgid : Z; ao_ppid : Z; ao_timestamp_ns : Z; ao_cgroup_id : Z;
  ao_under_current_actor : bool; ao_under_actor_lineage : bool
}.

(** ** Environment and state *)

Record odyn := ODyn {
  current_actor_markers : gmap positive current_actor_marker;
  lineage_markers : gmap positive lineage_marker;
  observed_files : gmap observed_key observed_value;
  observed_launchers : gmap launcher_key launcher_value;
  event_counters : ocounter -> Z;
  events : list ao_event;
  o_ticks : nat                                 (* clock reads so far *)
}.

Record oenv := OEnv {
  oe_kernel : kernel;
  oe_f_flags : ptr -> Z;                        (* BPF_CORE_READ (file, f_flags) *)
  oe_current : ptr;
  oe_ktime : nat -> Z;
  oe_pid_tgid : Z;
  oe_cgroup_id : Z;
  oe_reserve : list ao_event -> bool;           (* bpf_ringbuf_reserve () != NULL *)
  oe_cam_alloc : bool;                          (* task storage F_CREATE succeeds *)
  oe_lm_alloc : bool;
  oe_update_files : gmap observed_key observed_value -> Z;      (* BPF_NOEXIST of an absent key *)
  oe_update_launchers : gmap launcher_key launcher_value -> Z;
  oe_actor_targets : gmap file_id Z;            (* frozen before attachment *)
  oe_enable_lane2 : Z;
  oe_generation : Z
}.

Definition OM (A : Type) : Type := odyn -> A * odyn.
#[export] Instance OM_ret : MRet OM := fun A x s => (x, s).
#[export] Instance OM_bind : MBind OM := fun A B k m s => let '(x, s') := m s in k x s'.

Definition ogets {A} (f : odyn -> A) : OM A := fun s => (f s, s).
Definition omodify (f : odyn -> odyn) : OM unit := fun s => (tt, f s).

Definition set_cam (m : gmap positive current_actor_marker) (d : odyn) : odyn :=
  ODyn m (lineage_markers d) (observed_files d) (observed_launchers d) (event_counters d) (events d) (o_ticks d).
Definition set_lm (m : gmap positive lineage_marker) (d : odyn) : odyn :=
  ODyn (current_actor_markers d) m (observed_files d) (observed_launchers d) (event_counters d) (events d) (o_ticks d).
Definition set_files (m : gmap observed_key observed_value) (d : odyn) : odyn :=
  ODyn (current_actor_markers d) (lineage_markers d) m (observed_launchers d) (event_counters d) (events d) (o_ticks d).
Definition set_launchers (m : gmap launcher_key launcher_value) (d : odyn) : odyn :=
  ODyn (current_actor_markers d) (lineage_markers d) (observed_files d) m (event_counters d) (events d) (o_ticks d).
Definition push_event (e : ao_event) (d : odyn) : odyn :=
  ODyn (current_actor_markers d) (lineage_markers d) (observed_files d) (observed_launchers d)
    (event_counters d) (events d ++ [e]) (o_ticks d).
Definition tick (d : odyn) : odyn :=
  ODyn (current_actor_markers d) (lineage_markers d) (observed_files d) (observed_launchers d)
    (event_counters d) (events d) (S (o_ticks d)).

(** [__sync_fetch_and_add] on a [__u64] array cell. *)
Definition cnt_add (c : ocounter) (d : odyn) : odyn :=
  ODyn (current_actor_markers d) (lineage_markers d) (observed_files d) (observed_launchers d)
    (fun c' => if decide (c' = c) then wrap64 (event_counters d c' + 1) else event_counters d c')
    (events d) (o_ticks d).
Definition cnt_inc (c : ocounter) : OM unit := omodify (cnt_add c).

(** ** Helpers *)

Section Programs.
Context (E : oenv).
Local Abbreviation K := (oe_kernel E).

Definition get_ktime : OM Z :=
  n ← ogets o_ticks; omodify tick;; mret (oe_ktime E n).

Definition inode_to_id (i : ptr) : option file_id :=
  if is_null i then None
  else
    let ino := read_val (k_inodes K) i_ino i in
    let sb := read_ptr (k_inodes K) i_sb i in
    Some (FileId (if is_null sb then 0 else read_val (k_sbs K) s_dev sb) ino).

Definition file_to_id (f : ptr) : option file_id :=
  if is_null f then None else inode_to_id (read_ptr (k_files K) f_inode f).

(** An identity initialised to zero and left so when the helper fails. *)
Definition id_or_zero (o : option file_id) : file_id := default (FileId 0 0) o.

(** [(__s32)] of a [__u32]. *)
Definition s32 (z : Z) : Z := if z <? 2 ^ 31 then z else z - 2 ^ 32.

(** The slot (negative: none), and whether it came from the lineage marker. *)
Definition resolve_lane2_actor (t : ptr) : OM (Z * bool) :=
  ogets (fun s =>
    match t ≫= (fun a => current_actor_markers s !! a) with
    | Some cam => (s32 (cam_actor_slot cam), false)
    | None =>
        match t ≫= (fun a => lineage_markers s !! a) with
        | Some lm => (s32 (lm_origin_actor_slot lm), true)
        | None => (-1, false)
        end
    end).

Definition emit (type actor_slot dev ino pdev pino op_class : Z) (under_cur under_lin : bool) : OM unit :=
  rb ← ogets events;
  if oe_reserve E rb then
    ts ← get_ktime;
    cnt_inc C_EVENTS_SAMPLED_TOTAL;;
    omodify (push_event
      (AoEvent type actor_slot dev ino pdev pino op_class
         (Z.land (oe_pid_tgid E) 0xffffffff) (Z.shiftr (oe_pid_tgid E) 32)
         (read_val (k_tasks K) t_tgid (read_ptr (k_tasks K) t_real_parent (oe_current E)))
         ts (oe_cgroup_id E) under_cur under_lin))
  else cnt_inc C_EVENTS_RINGBUF_DROP_TOTAL.

Definition agg_obs (key : observed_key) (pid tgid ev_type actor_slot ev_dev ev_ino ev_pdev ev_pino op_class : Z)
  (is_lineage : bool) : OM unit :=
  ts ← get_ktime;
  files ← ogets observed_files;
  match files !! key with
  | Some ex =>
      omodify (set_files (<[key := ObservedValue (wrap64 (ov_count ex + 1)) (ov_first_ns ex) ts
        (ov_sample_pid ex) (ov_sample_tgid ex)
        (ov_under_current_actor ex || negb is_lineage) (ov_under_actor_lineage ex || is_lineage)]> files))
  | None =>
      let r := oe_update_files E files in
      if r =? 0 then
        omodify (set_files (<[key := ObservedValue 1 ts ts pid tgid (negb is_lineage) is_lineage]> files));;
        cnt_inc C_OBSERVED_FILES_TOTAL;;
        emit ev_type actor_slot ev_dev ev_ino ev_pdev ev_pino op_class (negb is_lineage) is_lineage
      else if r =? - ENOSPC then cnt_inc C_OBSERVED_FILES_OVERFLOW_TOTAL
      else mret tt
  end.

(** ** Lane 1: markers *)

(** The launcher record of an actor exec. *)
Definition record_launcher (slot : Z) (t : ptr) : OM unit :=
  let parent := read_ptr (k_tasks K) t_real_parent t in
  let pmm := read_ptr (k_tasks K) t_mm parent in
  let pexe := read_ptr (k_mms K) exe_file pmm in
  if is_null parent || is_null pmm || is_null pexe then mret tt
  else match file_to_id pexe with
       | None => mret tt
       | Some pfid =>
           let lk := LauncherKey slot (fid_dev pfid) (fid_ino pfid) in
           ls ← ogets observed_launchers;
           match ls !! lk with
           | Some lv => omodify (set_launchers (<[lk := LauncherValue (wrap64 (lv_count lv + 1))
                          (lv_sample_pid lv) (lv_sample_ppid lv) (lv_sample_cgroup_id lv)]> ls))
           | None =>
               if oe_update_launchers E ls =? 0
               then omodify (set_launchers (<[lk := LauncherValue 1 (Z.land (oe_pid_tgid E) 0xffffffff)
                      (read_val (k_tasks K) t_tgid parent) (oe_cgroup_id E)]> ls))
               else mret tt
           end
       end.

(** [bpf_task_storage_get] with [F_CREATE], then every field written. *)
Definition put_cam (t : positive) (m : current_actor_marker) : OM bool :=
  if oe_cam_alloc E
  then omodify (fun s => set_cam (<[t := m]> (current_actor_markers s)) s);; mret true
  else mret false.
Definition put_lm (t : positive) (m : lineage_marker) : OM bool :=
  if oe_lm_alloc E
  then omodify (fun s => set_lm (<[t := m]> (lineage_markers s)) s);; mret true
  else mret false.

Definition ao_bprm (bprm_file : ptr) (ret : Z) : OM Z :=
  if negb (ret =? 0) then mret ret
  else match oe_current E with
  | None => mret 0
  | Some t =>
      cnt_inc C_EVENTS_SEEN_TOTAL;;
      match file_to_id bprm_file with
      | None => mret 0
      | Some exec_id =>
          match oe_actor_targets E !! exec_id with
          | Some slot =>
              put_cam t (CurrentActorMarker slot (oe_generation E));;
              put_lm t (LineageMarker slot (oe_generation E) 1);;
              record_launcher slot (Some t);;
              emit AO_EV_ACTOR_EXEC slot (fid_dev exec_id) (fid_ino exec_id) 0 0 0 true true;;
              mret 0
          | None =>
              cams ← ogets current_actor_markers;
              match cams !! t with
              | None => mret 0
              | Some cam =>
                  omodify (set_cam (delete t cams));;
                  cnt_inc C_LINEAGE_EXEC_HELPER_TOTAL;;
                  emit AO_EV_ACTOR_EXEC_HELPER (cam_actor_slot cam) (fid_dev exec_id) (fid_ino exec_id)
                    0 0 0 false true;;
                  mret 0
              end
          end
      end
  end.

(** [task]: the new task, never [NULL]. *)
Definition ao_task_alloc (task : positive) (ret : Z) : OM Z :=
  if negb (ret =? 0) then mret ret
  else match oe_current E with
  | None => mret 0
  | Some parent =>
      cams ← ogets current_actor_markers;
      match cams !! parent with
      | Some p_cam =>
          ok ← put_cam task (CurrentActorMarker (cam_actor_slot p_cam) (cam_generation p_cam));
          if ok : bool then cnt_inc C_CURRENT_ACTOR_COPY_FORK_TOTAL else mret tt
      | None => mret tt
      end;;
      lms ← ogets lineage_markers;
      match lms !! parent with
      | Some p_lm =>
          ok ← put_lm task (LineageMarker (lm_origin_actor_slot p_lm) (lm_generation p_lm) (lm_observation_only p_lm));
          if ok : bool then cnt_inc C_LINEAGE_COPY_FORK_TOTAL else mret tt
      | None => mret tt
      end;;
      mret 0
  end.

Definition ao_task_free (task : positive) : OM unit :=
  omodify (fun s => set_cam (delete task (current_actor_markers s)) s);;
  omodify (fun s => set_lm (delete task (lineage_markers s)) s).

(** ** Lane 2: file system operations *)

(** The common prologue: earlier verdict, the knob, the attribution. *)
Definition lane2 (ret : Z) (k : Z -> bool -> OM Z) : OM Z :=
  if negb (ret =? 0) then mret ret
  else if oe_enable_lane2 E =? 0 then mret 0
  else
    r ← resolve_lane2_actor (oe_current E);
    if r.1 <? 0 then mret 0 else k r.1 r.2.

(** [agg_obs] with the caller's pids and a key built from the two identities. *)
Definition observe (slot : Z) (op_class ev_type : Z) (fid pfid : file_id) (is_lineage : bool) : OM unit :=
  agg_obs (ObservedKey (wrap32 slot) op_class (fid_dev fid) (fid_ino fid) (fid_dev pfid) (fid_ino pfid))
    (Z.land (oe_pid_tgid E) 0xffffffff) (Z.shiftr (oe_pid_tgid E) 32)
    ev_type (wrap32 slot) (fid_dev fid) (fid_ino fid) (fid_dev pfid) (fid_ino pfid) op_class is_lineage.

Definition open_op_class (f : ptr) : Z :=
  if read_val (k_files K) f_mode f &? AO_FMODE_WRITE then
    let flags := oe_f_flags E f in
    if flags &? O_TRUNC then AO_OP_OPEN_TRUNC
    else if Z.land flags O_ACCMODE =? O_RDWR then AO_OP_OPEN_RW
    else AO_OP_OPEN_W
  else AO_OP_OPEN_R.

Definition ao_file_open (f : ptr) (ret : Z) : OM Z :=
  lane2 ret (fun slot lin =>
    match file_to_id f with
    | None => cnt_inc C_PATH_RESOLVE_FAIL_TOTAL;; mret 0
    | Some fid =>
        let dentry := read_ptr (k_files K) f_path_dentry f in
        let pdentry := read_ptr (k_dentries K) d_parent dentry in
        let pinode := read_ptr (k_dentries K) d_inode pdentry in
        observe slot (open_op_class f) AO_EV_FS_FIRST_SIGHTING fid (id_or_zero (inode_to_id pinode)) lin;;
        mret 0
    end).

(** Operations keyed by the parent directory. *)
Definition observe_in_dir (op_class ev_type : Z) (dir : ptr) (ret : Z) : OM Z :=
  lane2 ret (fun slot lin =>
    match inode_to_id dir with
    | None => mret 0
    | Some dfid => observe slot op_class ev_type dfid (FileId 0 0) lin;; mret 0
    end).

(** Operations keyed by an inode and the directory it is named in. *)
Definition observe_entry (op_class ev_type : Z) (i dir : ptr) (ret : Z) : OM Z :=
  lane2 ret (fun slot lin =>
    match inode_to_id i with
    | None => mret 0
    | Some fid => observe slot op_class ev_type fid (id_or_zero (inode_to_id dir)) lin;; mret 0
    end).

Definition ao_inode_create (dir : ptr) (ret : Z) : OM Z := observe_in_dir AO_OP_CREATE AO_EV_FS_CREATE dir ret.
Definition ao_inode_mkdir (dir : ptr) (ret : Z) : OM Z := observe_in_dir AO_OP_MKDIR AO_EV_FS_MKDIR dir ret.
Definition ao_inode_mknod (dir : ptr) (ret : Z) : OM Z := observe_in_dir AO_OP_MKNOD AO_EV_FS_MKNOD dir ret.
Definition ao_inode_symlink (dir : ptr) (ret : Z) : OM Z := observe_in_dir AO_OP_SYMLINK AO_EV_FS_SYMLINK dir ret.

Definition ao_inode_unlink (dir victim : ptr) (ret : Z) : OM Z :=
  observe_entry AO_OP_UNLINK AO_EV_FS_UNLINK (read_ptr (k_dentries K) d_inode victim) dir ret.
Definition ao_inode_rmdir (dir dentry : ptr) (ret : Z) : OM Z :=
  observe_entry AO_OP_RMDIR AO_EV_FS_RMDIR (read_ptr (k_dentries K) d_inode dentry) dir ret.
Definition ao_inode_link (old_dentry dir : ptr) (ret : Z) : OM Z :=
  observe_entry AO_OP_LINK AO_EV_FS_LINK (read_ptr (k_dentries K) d_inode old_dentry) dir ret.

Definition ao_inode_rename (old_dir old_dentry new_dir : ptr) (ret : Z) : OM Z :=
  lane2 ret (fun slot lin =>
    match inode_to_id (read_ptr (k_dentries K) d_inode old_dentry) with
    | None => mret 0
    | Some fid =>
        let old_dfid := id_or_zero (inode_to_id old_dir) in
        let new_dfid := id_or_zero (inode_to_id new_dir) in
        observe slot AO_OP_RENAME AO_EV_FS_RENAME fid old_dfid lin;;
        (if negb (fid_dev new_dfid =? 0) || negb (fid_ino new_dfid =? 0)
         then observe slot AO_OP_RENAME_DST AO_EV_FS_RENAME fid new_dfid lin else mret tt);;
        mret 0
    end).
End Programs.

(** ** The calls the kernel can make *)

Inductive ohook :=
  | OBprm (file : ptr)
  | OTaskAlloc (task : positive)
  | OTaskFree (task : positive)
  | OFileOpen (f : ptr)
  | OInodeCreate (dir : ptr)
  | OInodeMkdir (dir : ptr)
  | OInodeMknod (dir : ptr)
  | OInodeSymlink (dir : ptr)
  | OInodeUnlink (dir victim : ptr)
  | OInodeRmdir (dir dentry : ptr)
  | OInodeLink (old_dentry dir : ptr)
  | OInodeRename (old_dir old_dentry new_dir : ptr).

(** [task_free] returns nothing: the kernel goes on with its own result. *)
Definition ohook_code (E : oenv) (h : ohook) (ret : Z) : OM Z :=
  match h with
  | OBprm f => ao_bprm E f ret
  | OTaskAlloc t => ao_task_alloc E t ret
  | OTaskFree t => ao_task_free t;; mret ret
  | OFileOpen f => ao_file_open E f ret
  | OInodeCreate d => ao_inode_create E d ret
  | OInodeMkdir d => ao_inode_mkdir E d ret
  | OInodeMknod d => ao_inode_mknod E d ret
  | OInodeSymlink d => ao_inode_symlink E d ret
  | OInodeUnlink d v => ao_inode_unlink E d v ret
  | OInodeRmdir d v => ao_inode_rmdir E d v ret
  | OInodeLink o d => ao_inode_link E o d ret
  | OInodeRename od o nd => ao_inode_rename E od o nd ret
  end.

Definition odyn_init : odyn := ODyn ∅ ∅ ∅ ∅ (fun _ => 0) [] 0.
