(* ===== verification/ObserveSpec.v ===== *)
(** * What the observer's programs record

    Three facts about [ObserveBpf]: the programs never change a verdict; on
    every reachable state the markers are a function of the exec history of a
    task and its ancestors, so operations are attributed exactly; and the table
    of observed files is the exact count of the attributed operations, with one
    event per table entry. *)

From S2P Require Import Prelude Abi Kernel Demo ObserveBpf.

(** ** Passivity *)

Definition returns {A} (m : OM A) (r : A) : Prop := forall s, (m s).1 = r.

Lemma returns_ret {A} (r : A) : returns (mret r) r.
Proof. done. Qed.

Lemma returns_bind {A B} (m : OM A) (k : A -> OM B) r :
  (forall x, returns (k x) r) -> returns (m ≫= k) r.
Proof.
  intros H s. unfold mbind, OM_bind. destruct (m s) as [x s'] eqn:E. apply H.
Qed.

Create HintDb obs_db.
#[export] Hint Resolve returns_ret : obs_db.
#[export] Hint Extern 3 (returns (_ ≫= _) _) => apply returns_bind; intros : obs_db.

Lemma lane2_returns E ret k :
  (forall slot lin, returns (k slot lin) 0) -> returns (lane2 E ret k) ret.
Proof.
  intros H. unfold lane2. destruct (Z.eqb_spec ret 0) as [->|_]; cbn [negb]; [|apply returns_ret].
  case_match; [apply returns_ret|]. apply returns_bind. intros [slot lin].
  case_match; auto with obs_db.
Qed.

Ltac solve_returns :=
  repeat (first [apply lane2_returns; intros | apply returns_ret | apply returns_bind; intros | case_match]).

(** After a refusal by an earlier module the state is left alone. *)
Lemma refused_hook_id E h ret d :
  ret <> 0 -> (forall t, h <> OTaskFree t) -> (ohook_code E h ret d).2 = d.
Proof.
  intros Hr Hf. apply Z.eqb_neq in Hr. destruct h; try (by edestruct Hf); cbn [ohook_code];
    unfold ao_bprm, ao_task_alloc, ao_file_open, ao_inode_create, ao_inode_mkdir, ao_inode_mknod,
      ao_inode_symlink, ao_inode_unlink, ao_inode_rmdir, ao_inode_link, ao_inode_rename, observe_in_dir,
      observe_entry, lane2; by rewrite Hr.
Qed.

(** The observer is passive.  Whatever the state and the call, a program returns
    the verdict it was given: it never refuses an operation another module
    allowed and never overrides a refusal, and after a refusal by an earlier
    module it leaves the state alone, except that [task_free] always cleans up. *)
Theorem observer_passive E h ret d :
  (ohook_code E h ret d).1 = ret
  /\ (ret <> 0 -> (forall t, h <> OTaskFree t) -> (ohook_code E h ret d).2 = d).
Proof.
  split.
  - revert d. change (returns (ohook_code E h ret) ret). destruct h; cbn [ohook_code].
    1,2: unfold ao_bprm, ao_task_alloc; destruct (Z.eqb_spec ret 0) as [->|_]; cbn [negb]; solve_returns.
    all: unfold ao_file_open, ao_inode_create, ao_inode_mkdir, ao_inode_mknod, ao_inode_symlink,
      ao_inode_unlink, ao_inode_rmdir, ao_inode_link, ao_inode_rename, observe_in_dir, observe_entry; solve_returns.
  - apply refused_hook_id.
Qed.

Definition demo_oenv : oenv := {|
  oe_kernel := demo_kernel; oe_f_flags := fun _ => 2; oe_current := Some 1%positive;
  oe_ktime := Z.of_nat; oe_pid_tgid := Z.shiftl 4242 32; oe_cgroup_id := 1;
  oe_reserve := fun l => (length l <? 100)%nat; oe_cam_alloc := true; oe_lm_alloc := true;
  oe_update_files := fun m => if Z.of_nat (size m) <? 65536 then 0 else - ENOSPC;
  oe_update_launchers := fun m => if Z.of_nat (size m) <? 256 then 0 else - ENOSPC;
  oe_actor_targets := {[ FileId 8 200 := 3 ]}; oe_enable_lane2 := 1; oe_generation := 1
|}.

Lemma observer_passive_witness :
  (ohook_code demo_oenv (OFileOpen (Some 1%positive)) (-13) odyn_init).2 = odyn_init.
Proof. apply observer_passive; [lia|discriminate]. Defined.

(** ** Markers *)

(** The program leaves the markers alone. *)
Definition keeps_markers {A} (m : OM A) : Prop :=
  forall s, current_actor_markers (m s).2 = current_actor_markers s
            /\ lineage_markers (m s).2 = lineage_markers s.

Lemma keeps_ret {A} (x : A) : keeps_markers (mret x).
Proof. done. Qed.

Lemma keeps_bind {A B} (m : OM A) (k : A -> OM B) :
  keeps_markers m -> (forall x, keeps_markers (k x)) -> keeps_markers (m ≫= k).
Proof.
  intros Hm Hk s. unfold mbind, OM_bind. specialize (Hm s). destruct (m s) as [x s'].
  specialize (Hk x s'). cbn in *. destruct Hm, Hk. split; congruence.
Qed.

Lemma keeps_gets {A} (f : odyn -> A) : keeps_markers (ogets f).
Proof. done. Qed.

Lemma keeps_modify f :
  (forall s, current_actor_markers (f s) = current_actor_markers s /\ lineage_markers (f s) = lineage_markers s) ->
  keeps_markers (omodify f).
Proof. intros H s. apply H. Qed.

#[export] Hint Resolve keeps_ret keeps_gets : obs_db.
#[export] Hint Extern 1 (keeps_markers (omodify _)) => apply keeps_modify; done : obs_db.
#[export] Hint Extern 1 (keeps_markers (cnt_inc _)) => apply keeps_modify; done : obs_db.

Ltac solve_keeps :=
  repeat (first [solve [auto with obs_db] | apply keeps_bind; [|intros] | case_match]).

Lemma emit_keeps E ty sl dv io pd pi op c l : keeps_markers (emit E ty sl dv io pd pi op c l).
Proof. unfold emit, get_ktime. solve_keeps. Qed.
#[export] Hint Resolve emit_keeps : obs_db.

Lemma agg_obs_keeps E k p t et sl dv io pd pi op l : keeps_markers (agg_obs E k p t et sl dv io pd pi op l).
Proof. unfold agg_obs, get_ktime. solve_keeps. Qed.
#[export] Hint Resolve agg_obs_keeps : obs_db.

Lemma record_launcher_keeps E slot t : keeps_markers (record_launcher E slot t).
Proof. unfold record_launcher. solve_keeps. Qed.
#[export] Hint Resolve record_launcher_keeps : obs_db.

Definition marker_hook (h : ohook) : bool :=
  match h with OBprm _ | OTaskAlloc _ | OTaskFree _ => true | _ => false end.

Lemma lane2_keeps E h ret : marker_hook h = false -> keeps_markers (ohook_code E h ret).
Proof.
  destruct h; try done; intros _; cbn [ohook_code];
    unfold ao_file_open, ao_inode_create, ao_inode_mkdir, ao_inode_mknod, ao_inode_symlink,
      ao_inode_unlink, ao_inode_rmdir, ao_inode_link, ao_inode_rename, observe_in_dir, observe_entry,
      lane2, resolve_lane2_actor, observe; solve_keeps.
Qed.

(** *** Attribution *)

(** The executables a task and its ancestors ran, latest first. *)
Definition hist_of (h : gmap positive (list file_id)) (t : positive) : list file_id := default [] (h !! t).

(** The actor whose binary was executed last, and the latest actor executed. *)
Definition direct_actor (T : gmap file_id Z) (l : list file_id) : option Z := head l ≫= (fun k => T !! k).
Definition origin_actor (T : gmap file_id Z) (l : list file_id) : option Z := head (omap (fun k => T !! k) l).

(** Execs, forks, exits and file operations, with the history as ghost state.
    An exec whose file cannot be identified leaves no trace in the history. *)
Inductive ostep (T : gmap file_id Z) :
  gmap positive (list file_id) * odyn -> gmap positive (list file_id) * odyn -> Prop :=
  | os_exec E t f k h d :
      oe_actor_targets E = T -> oe_current E = Some t -> oe_cam_alloc E = true -> oe_lm_alloc E = true ->
      file_to_id E f = Some k ->
      ostep T (h, d) (<[t := k :: hist_of h t]> h, (ao_bprm E f 0 d).2)
  | os_exec_unidentified E f h d :
      file_to_id E f = None -> ostep T (h, d) (h, (ao_bprm E f 0 d).2)
  | os_fork E p c h d :
      oe_current E = Some p -> oe_cam_alloc E = true -> oe_lm_alloc E = true -> h !! c = None -> c <> p ->
      ostep T (h, d) (<[c := hist_of h p]> h, (ao_task_alloc E c 0 d).2)
  | os_exit t h d :
      ostep T (h, d) (delete t h, (ao_task_free t d).2)
  | os_other E hk ret h d :
      marker_hook hk = false \/ (ret <> 0 /\ forall t, hk <> OTaskFree t) ->
      ostep T (h, d) (h, (ohook_code E hk ret d).2).

Lemma bind_run {A B} (m : OM A) (k : A -> OM B) s : (m ≫= k) s = k (m s).1 (m s).2.
Proof. unfold mbind, OM_bind. by destruct (m s). Qed.

Lemma bprm_actor E f d t k slot :
  oe_current E = Some t -> oe_cam_alloc E = true -> oe_lm_alloc E = true ->
  file_to_id E f = Some k -> oe_actor_targets E !! k = Some slot ->
  current_actor_markers (ao_bprm E f 0 d).2
    = <[t := CurrentActorMarker slot (oe_generation E)]> (current_actor_markers d)
  /\ lineage_markers (ao_bprm E f 0 d).2
    = <[t := LineageMarker slot (oe_generation E) 1]> (lineage_markers d).
Proof.
  intros Ht Hc Hl Hk Hs. unfold ao_bprm. cbn [negb Z.eqb]. rewrite Ht, Hk, Hs.
  unfold put_cam, put_lm. rewrite Hc, Hl. do 3 rewrite bind_run. cbn [fst snd].
  match goal with |- context [(?m ?s).2] =>
    assert (Hkeep : keeps_markers m) by solve_keeps; destruct (Hkeep s) as [-> ->] end.
  split; reflexivity.
Qed.

Lemma bprm_helper E f d t k :
  oe_current E = Some t -> file_to_id E f = Some k -> oe_actor_targets E !! k = None ->
  current_actor_markers (ao_bprm E f 0 d).2 = delete t (current_actor_markers d)
  /\ lineage_markers (ao_bprm E f 0 d).2 = lineage_markers d.
Proof.
  intros Ht Hk Hs. unfold ao_bprm. cbn [negb Z.eqb]. rewrite Ht, Hk, Hs.
  rewrite bind_run, bind_run. cbn [fst snd ogets cnt_inc omodify].
  change (current_actor_markers (cnt_add C_EVENTS_SEEN_TOTAL d)) with (current_actor_markers d).
  destruct (current_actor_markers d !! t) eqn:Ec; [|cbn; by rewrite delete_id].
  rewrite bind_run. cbn [fst snd omodify].
  match goal with |- context [(?m ?s).2] =>
    assert (Hkeep : keeps_markers m) by solve_keeps; destruct (Hkeep s) as [-> ->] end.
  split; reflexivity.
Qed.

Lemma bprm_unidentified E f d :
  file_to_id E f = None ->
  current_actor_markers (ao_bprm E f 0 d).2 = current_actor_markers d
  /\ lineage_markers (ao_bprm E f 0 d).2 = lineage_markers d.
Proof.
  intros Hk. revert d. change (keeps_markers (ao_bprm E f 0)). unfold ao_bprm. rewrite Hk. solve_keeps.
Qed.

(** A child starts with its parent's markers. *)
Lemma task_alloc_markers E c d p :
  oe_current E = Some p -> oe_cam_alloc E = true -> oe_lm_alloc E = true ->
  current_actor_markers (ao_task_alloc E c 0 d).2
    = match current_actor_markers d !! p with
      | Some m => <[c := m]> (current_actor_markers d) | None => current_actor_markers d end
  /\ lineage_markers (ao_task_alloc E c 0 d).2
    = match lineage_markers d !! p with
      | Some m => <[c := m]> (lineage_markers d) | None => lineage_markers d end.
Proof.
  intros Ht Hc Hl. unfold ao_task_alloc. cbn [negb Z.eqb]. rewrite Ht. unfold put_cam, put_lm. rewrite Hc, Hl.
  unfold mbind, OM_bind, ogets, omodify, cnt_inc. destruct (current_actor_markers d !! p) as [[a g]|] eqn:E1; cbn;
    destruct (lineage_markers d !! p) as [[x y z]|] eqn:E2; cbn; done.
Qed.

Definition markers_exact (T : gmap file_id Z) (hd : gmap positive (list file_id) * odyn) : Prop :=
  forall t, cam_actor_slot <$> (current_actor_markers hd.2 !! t) = direct_actor T (hist_of hd.1 t)
         /\ lm_origin_actor_slot <$> (lineage_markers hd.2 !! t) = origin_actor T (hist_of hd.1 t).

Lemma hist_insert h t l t' : hist_of (<[t := l]> h) t' = if decide (t' = t) then l else hist_of h t'.
Proof. unfold hist_of. destruct (decide (t' = t)) as [->|Hn]; [by rewrite lookup_insert_eq|by rewrite lookup_insert_ne]. Qed.

Lemma hist_delete h t t' : hist_of (delete t h) t' = if decide (t' = t) then [] else hist_of h t'.
Proof. unfold hist_of. destruct (decide (t' = t)) as [->|Hn]; [by rewrite lookup_delete_eq|by rewrite lookup_delete_ne]. Qed.

Lemma exec_exact T E t f k h d :
  oe_actor_targets E = T -> oe_current E = Some t -> oe_cam_alloc E = true -> oe_lm_alloc E = true ->
  file_to_id E f = Some k -> markers_exact T (h, d) ->
  markers_exact T (<[t := k :: hist_of h t]> h, (ao_bprm E f 0 d).2).
Proof.
  intros HT Ht Hc Hl Hk Hi t'. specialize (Hi t') as [Hi1 Hi2]. cbn [fst snd] in *. rewrite hist_insert.
  destruct (T !! k) as [slot|] eqn:Es; rewrite <- HT in Es.
  - destruct (bprm_actor E f d t k slot Ht Hc Hl Hk Es) as [-> ->].
    destruct (decide (t' = t)) as [->|Hn]; [|by rewrite !lookup_insert_ne].
    rewrite !lookup_insert_eq. unfold direct_actor, origin_actor. cbn. by rewrite <- HT, Es.
  - destruct (bprm_helper E f d t k Ht Hk Es) as [-> ->]. destruct (decide (t' = t)) as [->|Hn].
    + rewrite lookup_delete_eq, Hi2. unfold direct_actor, origin_actor. cbn. by rewrite <- HT, Es.
    + by rewrite lookup_delete_ne.
Qed.

Lemma fork_exact T E p c h d :
  oe_current E = Some p -> oe_cam_alloc E = true -> oe_lm_alloc E = true -> h !! c = None -> c <> p ->
  markers_exact T (h, d) -> markers_exact T (<[c := hist_of h p]> h, (ao_task_alloc E c 0 d).2).
Proof.
  intros Hp Hc Hl Hf Hne Hi t'. cbn [fst snd]. rewrite hist_insert.
  destruct (task_alloc_markers E c d p Hp Hc Hl) as [-> ->].
  pose proof (Hi p) as [Hp1 Hp2]. pose proof (Hi c) as [Hc1 Hc2]. pose proof (Hi t') as [Ht1 Ht2]. cbn [fst snd] in *.
  assert (Hh : hist_of h c = []) by (unfold hist_of; by rewrite Hf).
  rewrite Hh in Hc1, Hc2. cbn in Hc1, Hc2. apply fmap_None in Hc1, Hc2.
  destruct (decide (t' = c)) as [->|Hn].
  - rewrite <- Hp1, <- Hp2. split.
    + destruct (current_actor_markers d !! p); [by rewrite lookup_insert_eq|by rewrite Hc1].
    + destruct (lineage_markers d !! p); [by rewrite lookup_insert_eq|by rewrite Hc2].
  - split; (case_match; [by rewrite lookup_insert_ne|done]).
Qed.

Lemma ostep_exact T hd hd' : ostep T hd hd' -> markers_exact T hd -> markers_exact T hd'.
Proof.
  intros [E t f k h d|E f h d Hk|E p c h d|t h d|E hk ret h d Hn] Hi.
  - by apply exec_exact.
  - intros t. cbn [fst snd]. destruct (bprm_unidentified E f d Hk) as [-> ->]. apply Hi.
  - by apply fork_exact.
  - intros t'. cbn [fst snd]. rewrite hist_delete.
    change (current_actor_markers (ao_task_free t d).2) with (delete t (current_actor_markers d)).
    change (lineage_markers (ao_task_free t d).2) with (delete t (lineage_markers d)). destruct (decide (t' = t)) as [->|Hne].
    + by rewrite !lookup_delete_eq.
    + rewrite !lookup_delete_ne by done. apply Hi.
  - intros t. cbn [fst snd]. destruct Hn as [Hn|[Hr Hf]].
    + destruct (lane2_keeps E hk ret Hn d) as [-> ->]. apply Hi.
    + rewrite refused_hook_id by done. apply Hi.
Qed.

(** C20: observed operations are attributed exactly.  After any sequence of execs,
    forks, exits and other calls from an empty state, with storage available, the
    actor an operation of a task is charged to is determined by the executables
    the task and its ancestors ran: directly the actor whose binary was executed
    last, and by lineage, if that was no actor, the actor executed most recently;
    tasks with no actor in their history are not observed. *)
Theorem observer_attribution_exact T h d t :
  rtc (ostep T) (∅, odyn_init) (h, d) ->
  (resolve_lane2_actor (Some t) d).1 =
    match direct_actor T (hist_of h t) with
    | Some slot => (s32 slot, false)
    | None => match origin_actor T (hist_of h t) with
              | Some slot => (s32 slot, true)
              | None => (-1, false)
              end
    end.
Proof.
  intros Hr.
  assert (Hi : markers_exact T (h, d)).
  { eapply rtc_invariant; [|exact Hr|done]. apply ostep_exact. }
  destruct (Hi t) as [H1 H2]. cbn [fst snd] in *. unfold resolve_lane2_actor, ogets. cbn [fst mbind option_bind].
  rewrite <- H1, <- H2. destruct (current_actor_markers d !! t); [done|]. by destruct (lineage_markers d !! t).
Qed.

(** Task 1 runs the editor (an actor), forks task 5, which runs the launcher. *)
Definition demo_history : gmap positive (list file_id) :=
  <[5%positive := [FileId 8 201; FileId 8 200]]> (<[5%positive := [FileId 8 200]]> {[ 1%positive := [FileId 8 200] ]}).

Definition with_current (E : oenv) (t : ptr) : oenv :=
  OEnv (oe_kernel E) (oe_f_flags E) t (oe_ktime E) (oe_pid_tgid E) (oe_cgroup_id E) (oe_reserve E)
    (oe_cam_alloc E) (oe_lm_alloc E) (oe_update_files E) (oe_update_launchers E) (oe_actor_targets E)
    (oe_enable_lane2 E) (oe_generation E).

Lemma observer_attribution_exact_witness :
  exists d, rtc (ostep {[ FileId 8 200 := 3 ]}) (∅, odyn_init) (demo_history, d)
    /\ (resolve_lane2_actor (Some 5%positive) d).1 = (3, true)
    /\ (resolve_lane2_actor (Some 1%positive) d).1 = (3, false).
Proof.
  eexists.
  match goal with |- ?P /\ _ => assert (Hr : P) end.
  { eapply rtc_l; [by apply (os_exec _ demo_oenv 1 (Some 2%positive) (FileId 8 200))|].
    eapply rtc_l; [by apply (os_fork _ demo_oenv 1 5)|].
    eapply rtc_l; [by apply (os_exec _ (with_current demo_oenv (Some 5%positive)) 5 (Some 3%positive) (FileId 8 201))|].
    apply rtc_refl. }
  split; [exact Hr|]. split.
  - rewrite (observer_attribution_exact _ _ _ 5 Hr). reflexivity.
  - rewrite (observer_attribution_exact _ _ _ 1 Hr). reflexivity.
Defined.

(** ** Aggregation *)

(** What a call touches: operation class, inode and directory. *)
Definition touched (E : oenv) (h : ohook) : list (Z * file_id * file_id) :=
  let K := oe_kernel E in
  let ino d := inode_to_id E (read_ptr (k_dentries K) d_inode d) in
  let dir d := id_or_zero (inode_to_id E d) in
  let one op (i : option file_id) p := match i with Some f => [(op, f, p)] | None => [] end in
  match h with
  | OBprm _ | OTaskAlloc _ | OTaskFree _ => []
  | OFileOpen f =>
      one (open_op_class E f) (file_to_id E f)
        (dir (read_ptr (k_dentries K) d_inode (read_ptr (k_dentries K) d_parent (read_ptr (k_files K) f_path_dentry f))))
  | OInodeCreate d => one AO_OP_CREATE (inode_to_id E d) (FileId 0 0)
  | OInodeMkdir d => one AO_OP_MKDIR (inode_to_id E d) (FileId 0 0)
  | OInodeMknod d => one AO_OP_MKNOD (inode_to_id E d) (FileId 0 0)
  | OInodeSymlink d => one AO_OP_SYMLINK (inode_to_id E d) (FileId 0 0)
  | OInodeUnlink d v => one AO_OP_UNLINK (ino v) (dir d)
  | OInodeRmdir d v => one AO_OP_RMDIR (ino v) (dir d)
  | OInodeLink o d => one AO_OP_LINK (ino o) (dir d)
  | OInodeRename od o nd =>
      one AO_OP_RENAME (ino o) (dir od)
      ++ (if bool_decide (dir nd = FileId 0 0) then [] else one AO_OP_RENAME_DST (ino o) (dir nd))
  end.

(** The observations of a call: what it touches, if its task is attributed. *)
Definition hook_obs (E : oenv) (h : ohook) (d : odyn) : list (observed_key * bool) :=
  let '(slot, lin) := (resolve_lane2_actor (oe_current E) d).1 in
  if (oe_enable_lane2 E =? 0) || (slot <? 0) then []
  else (fun '(op, f, p) => (ObservedKey (wrap32 slot) op (fid_dev f) (fid_ino f) (fid_dev p) (fid_ino p), lin))
         <$> touched E h.

(** The table entry for a list of observations of one key: how many, whether one
    was by the actor itself, whether one was by lineage. *)
Definition tally (l : list bool) : option (Z * bool * bool) :=
  match l with
  | [] => None
  | _ => Some (wrap64 (Z.of_nat (length l)), existsb negb l, existsb id l)
  end.

Definition of_key (k : observed_key) (l : list (observed_key * bool)) : list bool :=
  (List.filter (fun o => bool_decide (o.1 = k)) l).*2.

Definition entry_tally (v : observed_value) : Z * bool * bool :=
  (ov_count v, ov_under_current_actor v, ov_under_actor_lineage v).

Definition files_exact (l : list (observed_key * bool)) (d : odyn) : Prop :=
  forall k, entry_tally <$> observed_files d !! k = tally (of_key k l).

Lemma wrap64_succ z : wrap64 (wrap64 z + 1) = wrap64 (z + 1).
Proof. unfold wrap64. by rewrite Zplus_mod_idemp_l. Qed.

Lemma tally_snoc l b :
  tally (l ++ [b]) = Some (match tally l with
    | None => (1, negb b, b)
    | Some (n, c, i) => (wrap64 (n + 1), c || negb b, i || b)
    end).
Proof.
  destruct l as [|x l]; [by destruct b|]. unfold tally. cbn [app].
  rewrite !app_comm_cons, length_app, !existsb_app. cbn [length existsb]. rewrite !orb_false_r, wrap64_succ.
  unfold id. repeat f_equal. lia.
Qed.

(** The table is only written by [agg_obs]. *)
Definition keeps_files {A} (m : OM A) : Prop := forall s, observed_files (m s).2 = observed_files s.

Lemma keepsf_bind {A B} (m : OM A) (k : A -> OM B) :
  keeps_files m -> (forall x, keeps_files (k x)) -> keeps_files (m ≫= k).
Proof. intros Hm Hk s. rewrite bind_run, Hk. apply Hm. Qed.

Lemma keepsf_ret {A} (x : A) : keeps_files (mret x).
Proof. done. Qed.
Lemma keepsf_gets {A} (f : odyn -> A) : keeps_files (ogets f).
Proof. done. Qed.
Lemma keepsf_modify f : (forall s, observed_files (f s) = observed_files s) -> keeps_files (omodify f).
Proof. intros H s. apply H. Qed.

#[export] Hint Resolve keepsf_ret keepsf_gets : obs_db.
#[export] Hint Extern 1 (keeps_files (omodify _)) => apply keepsf_modify; done : obs_db.
#[export] Hint Extern 1 (keeps_files (cnt_inc _)) => apply keepsf_modify; done : obs_db.

Ltac solve_keepsf :=
  repeat (first [solve [auto with obs_db] | apply keepsf_bind; [|intros] | case_match]).

Lemma emit_keepsf E ty sl dv io pd pi op c l : keeps_files (emit E ty sl dv io pd pi op c l).
Proof. unfold emit, get_ktime. solve_keepsf. Qed.
#[export] Hint Resolve emit_keepsf : obs_db.

Lemma marker_hook_keepsf E h ret : marker_hook h = true -> keeps_files (ohook_code E h ret).
Proof.
  destruct h; try done; intros _; cbn [ohook_code];
    unfold ao_bprm, ao_task_alloc, ao_task_free, put_cam, put_lm, record_launcher; solve_keepsf.
Qed.

(** One observation. *)
Lemma observe_exact E slot op ty f p lin l d :
  (forall m, oe_update_files E m = 0) -> files_exact l d ->
  files_exact (l ++ [(ObservedKey (wrap32 slot) op (fid_dev f) (fid_ino f) (fid_dev p) (fid_ino p), lin)])
    (observe E slot op ty f p lin d).2.
Proof.
  intros Hu Hd. unfold observe, agg_obs. set (key := ObservedKey _ _ _ _ _ _).
  rewrite bind_run, bind_run. cbn [fst snd ogets get_ktime].
  change (observed_files (get_ktime E d).2) with (observed_files d).
  assert (Hk : forall k, of_key k (l ++ [(key, lin)]) = of_key k l ++ if bool_decide (key = k) then [lin] else []).
  { intros k. unfold of_key. rewrite List.filter_app, fmap_app. cbn. by case_bool_decide. }
  destruct (observed_files d !! key) as [ex|] eqn:Ex.
  - intros k. cbn [snd omodify observed_files set_files]. rewrite Hk. specialize (Hd k). case_bool_decide as Ek.
    + subst k. rewrite lookup_insert_eq, tally_snoc, <- Hd, Ex. done.
    + rewrite lookup_insert_ne, app_nil_r by done. apply Hd.
  - cbn zeta. rewrite Hu. cbn [Z.eqb]. rewrite bind_run. cbn [fst snd omodify].
    match goal with |- files_exact _ (?m ?s).2 =>
      assert (Hkeep : keeps_files m) by solve_keepsf end.
    intros k. rewrite Hkeep, Hk. cbn [observed_files set_files]. specialize (Hd k). case_bool_decide as Ek.
    + subst k. rewrite lookup_insert_eq, tally_snoc, <- Hd, Ex. done.
    + rewrite lookup_insert_ne, app_nil_r by done. apply Hd.
Qed.

Lemma if_nil {A} (b : bool) : (if b then [] else []) = @nil A.
Proof. by destruct b. Qed.

(** The observations of a call are what it adds to the table. *)
Lemma hook_files_exact E h l d :
  (forall m, oe_update_files E m = 0) -> files_exact l d ->
  files_exact (l ++ hook_obs E h d) (ohook_code E h 0 d).2.
Proof.
  intros Hu Hd. unfold hook_obs. destruct (marker_hook h) eqn:Em.
  { replace (touched E h) with (@nil (Z * file_id * file_id)) by (by destruct h).
    destruct (resolve_lane2_actor (oe_current E) d).1 as [slot lin]. cbn [fmap list_fmap].
    rewrite if_nil, app_nil_r. intros k. rewrite (marker_hook_keepsf E h 0 Em d). apply Hd. }
  assert (Hpro : forall k : Z -> bool -> OM Z, let '(slot, lin) := (resolve_lane2_actor (oe_current E) d).1 in
    lane2 E 0 k d = if (oe_enable_lane2 E =? 0) || (slot <? 0) then (0, d) else k slot lin d).
  { intros k. unfold lane2. cbn [negb Z.eqb]. destruct (oe_enable_lane2 E =? 0); cbn [orb].
    - by destruct (resolve_lane2_actor (oe_current E) d).1.
    - rewrite bind_run. change (resolve_lane2_actor (oe_current E) d).2 with d.
      destruct (resolve_lane2_actor (oe_current E) d).1 as [slot lin]. cbn [fst snd]. by case_match. }
  destruct (resolve_lane2_actor (oe_current E) d).1 as [slot lin].
  destruct h; try done; cbn [ohook_code touched];
    unfold ao_file_open, ao_inode_create, ao_inode_mkdir, ao_inode_mknod, ao_inode_symlink,
      ao_inode_unlink, ao_inode_rmdir, ao_inode_link, ao_inode_rename, observe_in_dir, observe_entry;
    rewrite Hpro; (case_match; [by rewrite app_nil_r|]).
  1: destruct (file_to_id E f) as [fid|]; [|rewrite app_nil_r; exact Hd]; rewrite bind_run; by apply observe_exact.
  1-4: destruct (inode_to_id E dir) as [fid|]; [|by rewrite app_nil_r]; rewrite bind_run; by apply observe_exact.
  1-3: destruct (inode_to_id E _) as [fid|]; [|by rewrite app_nil_r]; rewrite bind_run; by apply observe_exact.
  destruct (inode_to_id E (read_ptr _ _ old_dentry)) as [fid|].
  2: { rewrite if_nil. by rewrite app_nil_r. }
  rewrite bind_run, bind_run. cbn [fst snd]. rewrite fmap_app, app_assoc.
  pose proof (observe_exact E slot AO_OP_RENAME AO_EV_FS_RENAME fid (id_or_zero (inode_to_id E old_dir)) lin l d Hu Hd) as H1.
  destruct (id_or_zero (inode_to_id E new_dir)) as [nd ni] eqn:En. cbn [fid_dev fid_ino].
  case_bool_decide as Hz.
  - simplify_eq. rewrite app_nil_r. exact H1.
  - replace (negb (nd =? 0) || negb (ni =? 0)) with true.
    + change nd with (fid_dev (FileId nd ni)). change ni with (fid_ino (FileId nd ni)). by apply observe_exact.
    + symmetry. destruct (Z.eqb_spec nd 0), (Z.eqb_spec ni 0); subst; done.
Qed.

(** A sequence of calls that no earlier module refused, each in its own
    environment, and the observations it makes. *)
Fixpoint run_calls (l : list (oenv * ohook)) (d : odyn) : odyn :=
  match l with
  | [] => d
  | (E, h) :: rest => run_calls rest (ohook_code E h 0 d).2
  end.

Fixpoint calls_obs (l : list (oenv * ohook)) (d : odyn) : list (observed_key * bool) :=
  match l with
  | [] => []
  | (E, h) :: rest => hook_obs E h d ++ calls_obs rest (ohook_code E h 0 d).2
  end.

Lemma run_calls_exact l obs d :
  Forall (fun c : oenv * ohook => forall m, oe_update_files c.1 m = 0) l -> files_exact obs d ->
  files_exact (obs ++ calls_obs l d) (run_calls l d).
Proof.
  intros Hl. revert obs d. induction Hl as [|[E h] l Hu Hl IH]; intros obs d Hd; cbn [run_calls calls_obs].
  - by rewrite app_nil_r.
  - rewrite app_assoc. apply IH. by apply hook_files_exact.
Qed.

(** The table of observed files is exact.  After any sequence of calls from the
    empty state, while the table has room, the entry of a key (actor, operation
    class, inode, parent) exists exactly when an attributed operation with that
    key was made, its count is the number of them (as a 64-bit counter), and its
    flags say whether one came from the actor itself and whether one came from a
    descendant.  A rename is recorded under its old and its new directory. *)
Theorem observed_files_exact l k :
  Forall (fun c : oenv * ohook => forall m, oe_update_files c.1 m = 0) l ->
  entry_tally <$> observed_files (run_calls l odyn_init) !! k = tally (of_key k (calls_obs l odyn_init)).
Proof. intros Hl. by apply (run_calls_exact l [] odyn_init). Qed.

(** Room for any number of keys. *)
Definition roomy (E : oenv) : oenv :=
  OEnv (oe_kernel E) (oe_f_flags E) (oe_current E) (oe_ktime E) (oe_pid_tgid E) (oe_cgroup_id E) (oe_reserve E)
    (oe_cam_alloc E) (oe_lm_alloc E) (fun _ => 0) (oe_update_launchers E) (oe_actor_targets E)
    (oe_enable_lane2 E) (oe_generation E).

Lemma observed_files_exact_witness :
  let calls := [(roomy demo_oenv, OBprm (Some 2%positive)); (roomy demo_oenv, OFileOpen (Some 1%positive));
                (roomy demo_oenv, OFileOpen (Some 1%positive))] in
  entry_tally <$> observed_files (run_calls calls odyn_init) !! ObservedKey 3 AO_OP_OPEN_RW 8 101 8 100
  = Some (2, true, false).
Proof.
  intros calls.
  rewrite (observed_files_exact calls (ObservedKey 3 AO_OP_OPEN_RW 8 101 8 100));
    [vm_compute; reflexivity|].
  repeat constructor.
Defined.
