(* ===== verification/Observe.v ===== *)
(** * The observer's profile generator

    Models the userspace half of learning mode,
    [src/compartment-bpf/compartment-observe.c]: the options, the registration
    of actors, the resolution of observed inodes to paths, and the transform of
    the table of observed files into a candidate profile.  A profile is a list
    of lines; [render_line] is the text of each [fprintf].  The live formats
    are the text of one event.

    [oworld] holds what the tool reads from the host.  The descriptors under
    [/proc/*/fd] are a list in the order the scan meets them, each with its
    [stat] and its link text.  Loading, attaching and polling the programs,
    output files and the provenance record are not modelled. *)

From S2P Require Import Prelude Abi Kernel CLib Config Loader ObserveBpf.
From Stdlib Require Import Ascii.

#[local] Open Scope Z_scope.

(** ** Host and data *)

Record fd_link := FdLink { fl_major : Z; fl_minor : Z; fl_ino : Z; fl_target : cstring }.

Record oworld := OWorld {
  ow_fs : lworld;                                (* open with O_PATH, parent directories *)
  ow_realpath : cstring -> option cstring;
  ow_access_x : cstring -> bool;
  ow_stat : cstring -> option lstat;             (* follows links *)
  ow_getenv_path : option cstring;
  ow_proc_fds : list fd_link;
  ow_mounts : option cstring;                    (* /proc/mounts *)
  ow_abi_cell : option Z;                        (* PIN_ROOT/maps/abi_version_map[0] *)
  ow_policy_pin : bool;                          (* PIN_ROOT/maps/policy_state_map opens *)
  ow_now : cstring                               (* iso_now () *)
}.

Record actor_reg := ActorReg {
  ar_name : cstring; ar_path : cstring; ar_dev : Z; ar_ino : Z; ar_slot : Z; ar_inferred : bool
}.

Record obs_entry := ObsEntry {
  en_key : observed_key; en_val : observed_value; en_path_hint : cstring; en_parent_hint : cstring
}.

Definition AO_MAX_ACTORS : nat := 32.
Definition AO_DIR_COLLAPSE : Z := 3.
Definition AO_PROFILE_ACTOR_NAME_MAX : nat := 16.

(** [snprintf (buf, n, "%s", s)]. *)
Definition trunc (n : nat) (s : cstring) : cstring := take (n - 1) s.

(** [%PRIx64]. *)
Fixpoint hex_digits (fuel : nat) (z : Z) (acc : cstring) : cstring :=
  match fuel with
  | O => acc
  | S fuel' =>
      let d := z mod 16 in
      let c := chr (Z.to_nat (if d <? 10 then 48 + d else 87 + d)) in
      if z <? 16 then c :: acc else hex_digits fuel' (z / 16) (c :: acc)
  end.
Definition print_x (z : Z) : cstring := hex_digits 16 z [].

(** ** Helpers *)

(** The shift is on [unsigned int]. *)
Definition to_kernel_dev (maj min : Z) : Z := Z.lor (wrap32 (Z.shiftl maj 20)) (Z.land min 0xfffff).

Definition path_to_file_id (w : oworld) (p : cstring) : option file_id :=
  match ow_stat w p with
  | None => None
  | Some st => Some (FileId (to_kernel_dev (ls_major st) (ls_minor st)) (ls_ino st))
  end.

Definition op_class_str (op : Z) : cstring :=
  if op =? AO_OP_OPEN_R then lit "open_r" else if op =? AO_OP_OPEN_W then lit "open_w"
  else if op =? AO_OP_OPEN_RW then lit "open_rw" else if op =? AO_OP_OPEN_TRUNC then lit "open_trunc"
  else if op =? AO_OP_CREATE then lit "create" else if op =? AO_OP_UNLINK then lit "unlink"
  else if op =? AO_OP_RENAME then lit "rename" else if op =? AO_OP_MKDIR then lit "mkdir"
  else if op =? AO_OP_RMDIR then lit "rmdir" else if op =? AO_OP_LINK then lit "link"
  else if op =? AO_OP_MKNOD then lit "mknod" else if op =? AO_OP_SYMLINK then lit "symlink"
  else if op =? AO_OP_RENAME_DST then lit "rename_dst" else lit "?".

Definition actor_name_for_slot (actors : list actor_reg) (slot : Z) : cstring :=
  match list_find (fun a => ar_slot a = slot) actors with Some (_, a) => ar_name a | None => lit "?" end.

Definition actor_name_valid_profile (name : cstring) : bool :=
  match name with
  | [] => false
  | c :: rest =>
      negb (Nat.ltb AO_PROFILE_ACTOR_NAME_MAX (length name + 1))
      && (isalpha c || Ascii.eqb c "_"%char)
      && forallb (fun x => isalnum x || Ascii.eqb x "_"%char || Ascii.eqb x "-"%char) rest
  end.

(** The copying loop: the output so far is reversed. *)
Fixpoint normalize_loop (src out : cstring) (dstsz : nat) (changed : bool) : cstring * bool :=
  match src with
  | [] => (out, changed)
  | c :: rest =>
      if Nat.ltb (length out + 1) dstsz then
        if isalnum c || Ascii.eqb c "_"%char || Ascii.eqb c "-"%char
        then normalize_loop rest (c :: out) dstsz changed
        else normalize_loop rest ("_"%char :: out) dstsz true
      else (out, changed)
  end.

(** The name and whether it differs from the source; [None]: the buffer is too
    small. *)
Definition normalize_actor_name (src : cstring) (dstsz : nat) : option (cstring * bool) :=
  if Nat.ltb dstsz 2 then None
  else match src with
  | [] => Some (trunc dstsz (lit "_actor"), true)
  | c :: _ =>
      let ok := isalpha c || Ascii.eqb c "_"%char in
      let '(out, changed) := normalize_loop src (if ok then [] else ["_"%char]) dstsz (negb ok) in
      let changed := changed || Nat.ltb dstsz (length src + 1) in
      let dst := rev out in
      if negb (actor_name_valid_profile dst) then Some (trunc dstsz (lit "_actor"), true)
      else Some (dst, changed || negb (streq dst src))
  end.

Definition actor_name_in_use (actors : list actor_reg) (name : cstring) : bool :=
  existsb (fun a => streq (ar_name a) name) actors.

Definition resolve_existing_path (w : oworld) (p : cstring) (outsz : nat) : option cstring :=
  match p with
  | [] => None
  | _ => match ow_realpath w p with
         | None => None
         | Some r => if Nat.leb outsz (length r) then None else Some r
         end
  end.

(** The search of [PATH]: the first candidate that is executable and resolves. *)
Fixpoint search_path (w : oworld) (dirs : list cstring) (cmd : cstring) (outsz : nat) : option cstring :=
  match dirs with
  | [] => None
  | dir :: rest =>
      let cand := dir ++ lit "/" ++ cmd in
      if Nat.leb PATH_MAX (length cand) then search_path w rest cmd outsz
      else if negb (ow_access_x w cand) then search_path w rest cmd outsz
      else match resolve_existing_path w cand outsz with
           | Some r => Some r
           | None => search_path w rest cmd outsz
           end
  end.

Definition resolve_command_path (w : oworld) (cmd : cstring) (outsz : nat) : option cstring :=
  match cmd with
  | [] => None
  | _ =>
      if strchr cmd "/"%char then resolve_existing_path w cmd outsz
      else
        let search := match ow_getenv_path w with
                      | Some ((_ :: _) as p) => p
                      | _ => lit "/usr/local/sbin:/usr/local/bin:/usr/sbin:/usr/bin:/sbin:/bin"
                      end in
        search_path w (strtok_all (Ascii.eqb ":"%char) search) cmd outsz
  end.

(** [true]: accepted. *)
Definition validate_loader_compatible_actor_path (w : lworld) (p : cstring) : bool :=
  match lw_open w p with
  | None => false
  | Some st =>
      if negb (is_type (ls_mode st) S_IFREG) then false
      else if negb (hasbit (ls_mode st) 0x49) then false                  (* 0111 *)
      else if ls_size st =? 0 then false
      else if writable_by_others (ls_mode st) then false
      else if Nat.leb PATH_MAX (length p) then false
      else match parent_of p ≫= lw_dirmode w with
           | None => false
           | Some pm => negb (writable_by_others pm)
           end
  end.

(** ** From inodes to paths *)

Definition deleted_suffix : cstring := lit " (deleted)".

Definition strip_deleted (p : cstring) : cstring :=
  let n := (length p - length deleted_suffix)%nat in
  if Nat.leb (length deleted_suffix) (length p) && streq (drop n p) deleted_suffix then take n p else p.

(** The bytes that would split or end a line of the profile. *)
Definition splits_line (c : ascii) : bool :=
  Ascii.eqb c LF || Ascii.eqb c CR || Ascii.eqb c "#"%char || Ascii.eqb c SP || Ascii.eqb c TAB.

(** The cleaned path, or refusal. *)
Definition sanitize_observed_path (p : cstring) : option cstring :=
  match p with
  | [] => None
  | _ =>
      let q := strip_deleted p in
      if negb (is_absolute q) then None
      else if existsb splits_line q then None
      else Some q
  end.

(** The first descriptor on the inode whose link text is usable. *)
Fixpoint resolve_by_procfd (fds : list fd_link) (dev ino : Z) (bufsz : nat) : option cstring :=
  match fds with
  | [] => None
  | f :: rest =>
      if (to_kernel_dev (fl_major f) (fl_minor f) =? dev) && (fl_ino f =? ino) then
        match sanitize_observed_path (take (bufsz - 1) (fl_target f)) with
        | Some p => Some p
        | None => resolve_by_procfd rest dev ino bufsz
        end
      else resolve_by_procfd rest dev ino bufsz
  end.

(** [sscanf (line, "%255s %255s ...") >= 2]: the second field. *)
Definition scan_mountpoint (line : cstring) : option cstring :=
  let s1 := skip isspace line in
  let d := take 255 (span isspace s1).1 in
  match d with
  | [] => None
  | _ => let s2 := skip isspace (drop (length d) s1) in
         match take 255 (span isspace s2).1 with [] => None | mp => Some mp end
  end.

Fixpoint mount_lines (w : oworld) (dev : Z) (lines : list cstring) : option cstring :=
  match lines with
  | [] => None
  | line :: rest =>
      match scan_mountpoint (until_nul line) with
      | None => mount_lines w dev rest
      | Some mp =>
          match ow_stat w mp with
          | None => mount_lines w dev rest
          | Some st =>
              if to_kernel_dev (ls_major st) (ls_minor st) =? dev then
                match sanitize_observed_path mp with
                | None => mount_lines w dev rest
                | Some q => Some q
                end
              else mount_lines w dev rest
          end
      end
  end.

Definition dev_to_mountpoint (w : oworld) (dev : Z) : option cstring :=
  match ow_mounts w with
  | None => None
  | Some content => mount_lines w dev (fgets_all 511 content).*1
  end.

(** How a path was found: the counters are incremented accordingly. *)
Inductive how_resolved := ByFd | ByMount | NotFound.

(** The path hint and the parent hint ([parbuf] given). *)
Definition resolve_path (w : oworld) (dev ino : Z) : cstring * cstring * how_resolved :=
  match resolve_by_procfd (ow_proc_fds w) dev ino PATH_MAX with
  | Some p => (p, match parent_of p with Some d => d | None => [] end, ByFd)
  | None =>
      match dev_to_mountpoint w dev with
      | Some mp =>
          let base := if streq mp (lit "/") then [] else mp in
          (trunc PATH_MAX (base ++ lit "/<ino=" ++ print_u ino ++ lit ">"), [], ByMount)
      | None => (lit "<dev=0x" ++ print_x dev ++ lit ",ino=" ++ print_u ino ++ lit ">", [], NotFound)
      end
  end.

(** The entry of one row of the table. *)
Definition make_entry (w : oworld) (no_resolve_paths : bool) (kv : observed_key * observed_value) : obs_entry :=
  let '(k, v) := kv in
  if no_resolve_paths then ObsEntry k v [] []
  else
    let '(p, par, _) := resolve_path w (ok_dev k) (ok_ino k) in
    let par' := match par with
                | [] => if negb (ok_parent_dev k =? 0) || negb (ok_parent_ino k =? 0)
                        then (resolve_path w (ok_parent_dev k) (ok_parent_ino k)).1.1 else []
                | _ => par
                end in
    ObsEntry k v p par'.

(** ** Operation classes and duplicates *)

Definition is_create_like_op (op : Z) : bool :=
  (op =? AO_OP_CREATE) || (op =? AO_OP_MKDIR) || (op =? AO_OP_MKNOD) || (op =? AO_OP_SYMLINK).

Definition forces_dir_rule_op (op : Z) : bool :=
  is_create_like_op op || (op =? AO_OP_RENAME) || (op =? AO_OP_RENAME_DST).

Definition same_emitted_rule (a b : obs_entry) : bool :=
  ((ok_dev (en_key a) =? ok_dev (en_key b)) && (ok_ino (en_key a) =? ok_ino (en_key b)))
  || (negb (bool_decide (en_path_hint a = [])) && negb (bool_decide (en_path_hint b = []))
      && streq (en_path_hint a) (en_path_hint b)).

Definition earlier_rule_for_group (earlier : list obs_entry) (needle : obs_entry) : bool :=
  existsb (fun prev =>
    (ok_actor_slot (en_key prev) =? ok_actor_slot (en_key needle))
    && negb (is_create_like_op (ok_op_class (en_key prev)))
    && (ok_parent_dev (en_key prev) =? ok_parent_dev (en_key needle))
    && (ok_parent_ino (en_key prev) =? ok_parent_ino (en_key needle))
    && same_emitted_rule prev needle) earlier.

Definition is_broad_root (p : cstring) : bool :=
  existsb (streq p)
    [lit "/"; lit "/usr"; lit "/etc"; lit "/var"; lit "/var/lib"; lit "/run"; lit "/tmp";
     lit "/opt"; lit "/home"; lit "/snap"; lit "/lib"; lit "/lib64"].

Definition detect_runtime_abi (w : oworld) (force_old : bool) : Z :=
  if force_old then 0x0004
  else match ow_abi_cell w with
       | Some abi => if (0x0004 <=? abi) && (abi <=? COMPARTMENT_ABI_VERSION) then abi else COMPARTMENT_ABI_VERSION
       | None => if ow_policy_pin w then 0x0004 else COMPARTMENT_ABI_VERSION
       end.

(** ** Directory groups *)

Record dir_group := DirGroup {
  dg_pdev : Z; dg_pino : Z; dg_ppath : cstring; dg_count : Z; dg_has_creates : bool; dg_force_dir_rule : bool
}.

Definition MAX_DIRS : nat := 512.

(** Updating the first group of a directory, if there is one. *)
Fixpoint update_dir (pdev pino : Z) (f : dir_group -> dir_group) (l : list dir_group) : option (list dir_group) :=
  match l with
  | [] => None
  | g :: rest =>
      if (dg_pdev g =? pdev) && (dg_pino g =? pino) then Some (f g :: rest)
      else match update_dir pdev pino f rest with Some r => Some (g :: r) | None => None end
  end.

(** ... or appending a new one while there is room. *)
Definition upsert_dir (pdev pino : Z) (f : dir_group -> dir_group) (new : dir_group) (l : list dir_group)
  : list dir_group :=
  match update_dir pdev pino f l with
  | Some l' => l'
  | None => if Nat.ltb (length l) MAX_DIRS then l ++ [new] else l
  end.

Definition group_entry (slot : Z) (dirs : list dir_group) (e : obs_entry) : list dir_group :=
  let k := en_key e in
  if negb (ok_actor_slot k =? slot) then dirs
  else if ov_under_actor_lineage (en_val e) && negb (ov_under_current_actor (en_val e)) then dirs
  else if is_create_like_op (ok_op_class k) then
    upsert_dir (ok_dev k) (ok_ino k)
      (fun g => DirGroup (dg_pdev g) (dg_pino g) (dg_ppath g) (dg_count g) true true)
      (DirGroup (ok_dev k) (ok_ino k) (en_path_hint e) 0 true true) dirs
  else if (ok_parent_dev k =? 0) && (ok_parent_ino k =? 0) then dirs
  else
    upsert_dir (ok_parent_dev k) (ok_parent_ino k)
      (fun g => DirGroup (dg_pdev g) (dg_pino g)
                  (if bool_decide (dg_ppath g = []) && negb (bool_decide (en_parent_hint e = []))
                   then en_parent_hint e else dg_ppath g)
                  (dg_count g + 1) (dg_has_creates g)
                  (dg_force_dir_rule g || forces_dir_rule_op (ok_op_class k)))
      (DirGroup (ok_parent_dev k) (ok_parent_ino k) (en_parent_hint e) 1 false
         (forces_dir_rule_op (ok_op_class k))) dirs.

Definition build_dirs (slot : Z) (entries : list obs_entry) : list dir_group :=
  foldl (group_entry slot) [] entries.

(** ** The profile *)

Inductive pline :=
  | PComment (text : cstring)                  (* "#" and the text *)
  | PBlank
  | PActor (name path : cstring)
  | PSealBinary (path : cstring)
  | PSealDir (path actor : cstring)
  | PSealFile (path actor : cstring).

Definition render_line (l : pline) : cstring :=
  match l with
  | PComment t => lit "#" ++ t
  | PBlank => []
  | PActor n p => lit "actor " ++ n ++ lit " = " ++ p
  | PSealBinary p => lit "seal " ++ p ++ lit " full"
  | PSealDir p a => lit "seal " ++ p ++ lit " no-write no-unlink no-rename no-chmod actor=" ++ a
  | PSealFile p a => lit "seal " ++ p ++ lit " no-write no-unlink no-rename actor=" ++ a
  end.

Definition render (l : list pline) : cstring := mjoin ((fun x => render_line x ++ [LF]) <$> l).

Definition comment (s : string) : pline := PComment (lit s).

Fixpoint join_names (sep : cstring) (l : list cstring) : cstring :=
  match l with
  | [] => []
  | [x] => x
  | x :: rest => x ++ sep ++ join_names sep rest
  end.

Record run_stats := RunStats {
  rs_ringbuf_drops : Z; rs_obs_overflow : Z; rs_resolve_fail : Z; rs_resolve_fallback : Z
}.

Definition warn_if (n : Z) (l : list pline) : list pline := if 0 <? n then l else [].

Definition header_lines (w : oworld) (actors : list actor_reg) (dir_dest : bool) (st : run_stats) : list pline :=
  [comment " generated by compartment-bpf observe";
   comment "@compartment-bpf-profile-status: candidate";
   PComment (lit " generated: " ++ ow_now w);
   PComment (lit " actors: " ++ join_names (lit ",") (ar_name <$> actors));
   PComment (lit " observed_at: " ++ ow_now w);
   comment " validation: candidate only; run deny-first before enforcing"]
  ++ (if dir_dest then [] else
      [comment " WARNING: running compartment-bpf does not expose exact directory-destination";
       comment " semantics here. Emitting per-file rules as fallback."])
  ++ warn_if (rs_ringbuf_drops st)
      [PComment (lit " WARNING: " ++ print_u (rs_ringbuf_drops st)
                 ++ lit " ringbuf events dropped; observed_files map is authoritative.")]
  ++ warn_if (rs_obs_overflow st)
      [PComment (lit " WARNING: " ++ print_u (rs_obs_overflow st)
                 ++ lit " observed_files overflow(s); map full " ++ [chr 226; chr 128; chr 148]
                 ++ lit " some observations lost.")]
  ++ warn_if (rs_resolve_fail st)
      [PComment (lit " WARNING: " ++ print_u (rs_resolve_fail st)
                 ++ lit " path resolution failure(s) (no path found); dev/ino records preserved.")]
  ++ warn_if (rs_resolve_fallback st)
      [PComment (lit " NOTE: " ++ print_u (rs_resolve_fallback st)
                 ++ lit " path(s) resolved via mountpoint fallback (dev/ino synthetic path, not /proc/fd).")].

Definition launcher_lines (w : oworld) (no_resolve_paths : bool) (slot : Z)
  (launchers : list (launcher_key * launcher_value)) : list pline :=
  let mine := List.filter (fun lv : launcher_key * launcher_value => lk_actor_slot lv.1 =? slot) launchers in
  comment " observed launchers:"
  :: (match mine with
      | [] => [comment " (none observed)"]
      | _ =>
          (fun lv : launcher_key * launcher_value =>
             let p := if no_resolve_paths then []
                      else (resolve_path w (lk_parent_dev lv.1) (lk_parent_ino lv.1)).1.1 in
             match p with
             | [] => PComment (lit " parent dev=0x" ++ print_x (lk_parent_dev lv.1) ++ lit " ino="
                       ++ print_u (lk_parent_ino lv.1) ++ lit " count=" ++ print_u (lv_count lv.2))
             | _ => PComment (lit " parent " ++ p ++ lit " count=" ++ print_u (lv_count lv.2))
             end) <$> mine
      end).

(** The per-file rules of a group; [earlier]: the entries before these. *)
Fixpoint file_rules (a : actor_reg) (g : dir_group) (earlier entries : list obs_entry) : list pline :=
  match entries with
  | [] => []
  | e :: rest =>
      let k := en_key e in
      let emit_it :=
        (ok_actor_slot k =? ar_slot a) && negb (is_create_like_op (ok_op_class k))
        && (ok_parent_dev k =? dg_pdev g) && (ok_parent_ino k =? dg_pino g)
        && negb (bool_decide (en_path_hint e = [])) && negb (earlier_rule_for_group earlier e) in
      (if emit_it then [PSealFile (en_path_hint e) (ar_name a)] else [])
      ++ file_rules a g (earlier ++ [e]) rest
  end.

Definition or_unresolved (p : cstring) : cstring := match p with [] => lit "<unresolved-parent>" | _ => p end.

Definition dir_rules (dir_dest recursive : bool) (a : actor_reg) (entries : list obs_entry) (g : dir_group)
  : list pline :=
  let p := dg_ppath g in
  let collapse := ((AO_DIR_COLLAPSE <=? dg_count g) || (dir_dest && dg_force_dir_rule g))
                  && is_absolute p && negb (is_broad_root p) in
  if collapse then
    (if dir_dest then
       [if recursive then comment " recursive subtree directory rule."
        else comment " directory destination rule; one-level child protection, not recursive.";
        PSealDir p (ar_name a)]
     else comment " enumerated fallback (dir-destination not supported):" :: file_rules a g [] entries)
    ++ (if dg_has_creates g && negb recursive then
          [PComment (lit " WARNING: actor created new files under " ++ p ++ lit ".");
           comment " Directory-destination seals cover immediate child files only.";
           comment " Full subtree write protection requires sealing observed subdirs";
           comment " or a future recursive-subtree primitive."] else [])
    ++ (if dg_has_creates g && negb dir_dest then
          [PComment (lit " WARNING: actor created entries under " ++ p
             ++ lit ", but the running enforcement ABI lacks directory-destination support.");
           comment " Create-like activity cannot be represented precisely as per-file rules before child allocation."]
        else [])
  else if 0 <? dg_count g then
    file_rules a g [] entries
    ++ (if dg_has_creates g then
          [PComment (lit " WARNING: actor created entries under " ++ or_unresolved p ++ lit ".");
           comment " Per-file fallback cannot name child paths before allocation; enable directory-destination-capable enforcement for precise create coverage."]
        else [])
  else if dg_has_creates g then
    [PComment (lit " WARNING: actor created entries under " ++ or_unresolved p
       ++ lit " but no stable child path could be emitted.");
     comment " Directory-destination support is required for precise create-only coverage."]
  else [].

Definition unresolved_lines (a : actor_reg) (entries : list obs_entry) : list pline :=
  (fun e => PComment (lit " unresolved: op=" ++ op_class_str (ok_op_class (en_key e)) ++ lit " dev=0x"
     ++ print_x (ok_dev (en_key e)) ++ lit " ino=" ++ print_u (ok_ino (en_key e)) ++ lit " count="
     ++ print_u (ov_count (en_val e))))
  <$> List.filter (fun e => (ok_actor_slot (en_key e) =? ar_slot a)
        && negb (is_create_like_op (ok_op_class (en_key e)))
        && (ok_parent_dev (en_key e) =? 0) && (ok_parent_ino (en_key e) =? 0)) entries.

Definition actor_block (w : oworld) (no_resolve_paths dir_dest recursive : bool) (entries : list obs_entry)
  (launchers : list (launcher_key * launcher_value)) (a : actor_reg) : list pline :=
  [PBlank; PComment (lit " target: " ++ ar_name a); PActor (ar_name a) (ar_path a); PSealBinary (ar_path a);
   PBlank]
  ++ launcher_lines w no_resolve_paths (ar_slot a) launchers
  ++ [PBlank]
  ++ mjoin (dir_rules dir_dest recursive a entries <$> build_dirs (ar_slot a) entries)
  ++ unresolved_lines a entries.

Definition emit_profile (w : oworld) (no_dir_dest no_resolve_paths : bool) (entries : list obs_entry)
  (actors : list actor_reg) (launchers : list (launcher_key * launcher_value)) (st : run_stats) : list pline :=
  let abi := detect_runtime_abi w no_dir_dest in
  let dir_dest := 0x0005 <=? abi in
  let recursive := 0x0006 <=? abi in
  header_lines w actors dir_dest st
  ++ mjoin (actor_block w no_resolve_paths dir_dest recursive entries launchers <$> actors).
