(* ===== verification/ObserveMain.v ===== *)
(** * The observer's command line and life cycle

    The rest of [src/compartment-bpf/compartment-observe.c]: option parsing and
    actor registration of [observe_main], the maps it fills, the texts of
    [handle_event] and the termination of the observed command.  [inl] carries an
    exit status. *)

From S2P Require Import Prelude Abi Kernel CLib Config Loader ObserveBpf Observe.
From Stdlib Require Import Ascii.

#[local] Open Scope Z_scope.

(** ** Options *)

Inductive oformat := FMT_PROFILE | FMT_COMPACT | FMT_JSONL | FMT_AUDIT.

Record observe_opts := ObserveOpts {
  oo_actors : list actor_reg;
  oo_pid_seed : Z; oo_duration : Z; oo_format : oformat;
  oo_verbose : bool; oo_include_stat : bool; oo_no_resolve_paths : bool; oo_no_dir_dest : bool;
  oo_output : cstring; oo_provenance_out : cstring;
  oo_cmd : list cstring
}.

Definition observe_opts_init : observe_opts :=
  ObserveOpts [] (-1) (-1) FMT_PROFILE false false false false [] [] [].

Definition set_actors (l : list actor_reg) (o : observe_opts) : observe_opts :=
  ObserveOpts l (oo_pid_seed o) (oo_duration o) (oo_format o) (oo_verbose o) (oo_include_stat o)
    (oo_no_resolve_paths o) (oo_no_dir_dest o) (oo_output o) (oo_provenance_out o) (oo_cmd o).

(** [atoi]: the [long] result converted to [int]. *)
Definition atoi (s : cstring) : Z := match strtol 10 s with Some (v, _, _) => s32 (wrap32 v) | None => 0 end.

Definition parse_format (s : cstring) : option oformat :=
  if streq s (lit "profile") then Some FMT_PROFILE
  else if streq s (lit "compact") then Some FMT_COMPACT
  else if streq s (lit "jsonl") then Some FMT_JSONL
  else if streq s (lit "audit") then Some FMT_AUDIT
  else None.

(** [--actor NAME=PATH]. *)
Definition add_actor_arg (arg : cstring) (o : observe_opts) : option observe_opts :=
  match span (Ascii.eqb "="%char) arg with
  | (_, []) => None
  | (raw_name, _ :: p) =>
      if Nat.leb AO_MAX_ACTORS (length (oo_actors o)) then None
      else if bool_decide (raw_name = []) || Nat.leb 64 (length raw_name) then None
      else if negb (actor_name_valid_profile raw_name) then None
      else if actor_name_in_use (oo_actors o) raw_name then None
      else Some (set_actors (oo_actors o ++
                   [ActorReg raw_name (trunc PATH_MAX p) 0 0 (Z.of_nat (length (oo_actors o))) false]) o)
  end.

(** The options that take no argument. *)
Definition flag_option (a : cstring) (o : observe_opts) : option observe_opts :=
  let mk v i r d := ObserveOpts (oo_actors o) (oo_pid_seed o) (oo_duration o) (oo_format o)
                      v i r d (oo_output o) (oo_provenance_out o) (oo_cmd o) in
  let v := oo_verbose o in let i := oo_include_stat o in
  let r := oo_no_resolve_paths o in let d := oo_no_dir_dest o in
  if streq a (lit "--verbose") then Some (mk true i r d)
  else if streq a (lit "--include-stat") then Some (mk v true r d)
  else if streq a (lit "--no-resolve-paths") then Some (mk v i true d)
  else if streq a (lit "--no-dir-dest") then Some (mk v i r true)
  else None.

Definition takes_arg (a : cstring) : bool :=
  existsb (streq a) [lit "--actor"; lit "--pid"; lit "--duration"; lit "--format"; lit "-o"; lit "--provenance-out"].

(** The options with an argument; [None]: exit with status 2. *)
Definition arg_option (a arg : cstring) (o : observe_opts) : option observe_opts :=
  let mk p t f out prov := ObserveOpts (oo_actors o) p t f (oo_verbose o) (oo_include_stat o)
                             (oo_no_resolve_paths o) (oo_no_dir_dest o) out prov (oo_cmd o) in
  let p := oo_pid_seed o in let t := oo_duration o in let f := oo_format o in
  let out := oo_output o in let prov := oo_provenance_out o in
  if streq a (lit "--actor") then add_actor_arg arg o
  else if streq a (lit "--pid") then Some (mk (atoi arg) t f out prov)
  else if streq a (lit "--duration") then Some (mk p (atoi arg) f out prov)
  else if streq a (lit "--format") then
    match parse_format arg with Some f' => Some (mk p t f' out prov) | None => None end
  else if streq a (lit "-o") then Some (mk p t f (if streq arg (lit "-") then [] else trunc PATH_MAX arg) prov)
  else Some (mk p t f out (trunc PATH_MAX arg)).

Fixpoint parse_opts (args : list cstring) (o : observe_opts) : Z + observe_opts :=
  match args with
  | [] => inr o
  | a :: rest =>
      if takes_arg a then
        match rest with
        | [] => inl 2
        | arg :: rest' => match arg_option a arg o with None => inl 2 | Some o' => parse_opts rest' o' end
        end
      else if streq a (lit "--") then
        inr (ObserveOpts (oo_actors o) (oo_pid_seed o) (oo_duration o) (oo_format o) (oo_verbose o)
               (oo_include_stat o) (oo_no_resolve_paths o) (oo_no_dir_dest o) (oo_output o)
               (oo_provenance_out o) rest)
      else match flag_option a o with
           | Some o' => parse_opts rest o'
           | None => if streq a (lit "-h") || streq a (lit "--help") then inl 0 else inl 2
           end
  end.

(** ** Actors *)

Definition after_last_slash (p : cstring) : cstring := rev (span (Ascii.eqb "/"%char) (rev p)).1.

(** The actor of [-- COMMAND] when no [--actor] was given. *)
Definition infer_actor (w : oworld) (o : observe_opts) : Z + observe_opts :=
  match oo_actors o, oo_cmd o with
  | [], cmd0 :: _ =>
      match resolve_command_path w cmd0 PATH_MAX with
      | None => inl 1
      | Some resolved =>
          match normalize_actor_name (after_last_slash resolved) AO_PROFILE_ACTOR_NAME_MAX with
          | None => inl 1
          | Some (name, _) => inr (set_actors [ActorReg name resolved 0 0 0 true] o)
          end
      end
  | _, _ => inr o
  end.

Definition resolve_actor (w : oworld) (a : actor_reg) : option actor_reg :=
  match resolve_existing_path w (ar_path a) PATH_MAX with
  | None => None
  | Some p =>
      if negb (validate_loader_compatible_actor_path (ow_fs w) p) then None
      else match path_to_file_id w p with
           | None => None
           | Some id => Some (ActorReg (ar_name a) p (fid_dev id) (fid_ino id) (ar_slot a) (ar_inferred a))
           end
  end.

(** Everything before the programs are loaded. *)
Definition observe_setup (w : oworld) (args : list cstring) : Z + observe_opts :=
  match parse_opts args observe_opts_init with
  | inl rc => inl rc
  | inr o =>
      if 0 <=? oo_pid_seed o then inl 2
      else if oo_include_stat o then inl 2
      else if bool_decide (oo_actors o = []) && bool_decide (oo_cmd o = []) then inl 2
      else match infer_actor w o with
           | inl rc => inl rc
           | inr o' =>
               match mapM (resolve_actor w) (oo_actors o') with
               | None => inl 1
               | Some l => inr (set_actors l o')
               end
           end
  end.

(** The map of tracked binaries: a later actor overwrites an earlier one on the
    same inode ([BPF_ANY]). *)
Definition actor_targets_of (actors : list actor_reg) : gmap file_id Z :=
  foldl (fun m a => <[FileId (ar_dev a) (ar_ino a) := ar_slot a]> m) ∅ actors.

(** ** Live formats *)

Definition quoted (s : cstring) : cstring := [chr 34] ++ s ++ [chr 34].

Definition evtype_str (t : Z) : cstring :=
  if t =? AO_EV_ACTOR_EXEC then lit "actor_exec" else if t =? AO_EV_ACTOR_EXEC_HELPER then lit "exec_helper"
  else if t =? AO_EV_FS_CREATE then lit "fs_create" else if t =? AO_EV_FS_UNLINK then lit "fs_unlink"
  else if t =? AO_EV_FS_RENAME then lit "fs_rename" else if t =? AO_EV_FS_MKDIR then lit "fs_mkdir"
  else if t =? AO_EV_FS_RMDIR then lit "fs_rmdir" else if t =? AO_EV_FS_LINK then lit "fs_link"
  else if t =? AO_EV_FS_MKNOD then lit "fs_mknod" else if t =? AO_EV_FS_SYMLINK then lit "fs_symlink"
  else lit "fs_open".

(** [clock]: [strftime] of the event's time in the local time zone. *)
Definition handle_event (clock : Z -> cstring) (fmt : oformat) (verbose : bool) (actors : list actor_reg)
  (e : ao_event) : cstring :=
  let aname := actor_name_for_slot actors (ao_actor_slot e) in
  let op := op_class_str (ao_op_class e) in
  let ids := lit "dev=0x" ++ print_x (ao_dev e) ++ lit " ino=" ++ print_u (ao_ino e) in
  match fmt with
  | FMT_PROFILE => []
  | FMT_COMPACT =>
      let ts := clock (ao_timestamp_ns e / 1000000000) in
      let start := ts ++ lit " actor=" ++ aname in
      (if ao_type e =? AO_EV_ACTOR_EXEC
       then start ++ lit " pid=" ++ print_u (ao_pid e) ++ lit " ppid=" ++ print_u (ao_ppid e) ++ lit " exec"
       else if ao_type e =? AO_EV_ACTOR_EXEC_HELPER
       then start ++ lit " lineage pid=" ++ print_u (ao_pid e) ++ lit " helper " ++ ids
       else start ++ lit " pid=" ++ print_u (ao_pid e) ++ lit " op=" ++ op ++ lit " " ++ ids
            ++ (if verbose
                then lit " pdev=0x" ++ print_x (ao_parent_dev e) ++ lit " pino=" ++ print_u (ao_parent_ino e)
                     ++ lit " cgroup=" ++ print_u (ao_cgroup_id e)
                else [])) ++ [LF]
  | FMT_JSONL =>
      lit "{" ++ quoted (lit "type") ++ lit ":" ++ quoted (evtype_str (ao_type e)) ++ lit ","
      ++ quoted (lit "actor") ++ lit ":" ++ quoted aname ++ lit ","
      ++ quoted (lit "pid") ++ lit ":" ++ print_u (ao_pid e) ++ lit ","
      ++ quoted (lit "ppid") ++ lit ":" ++ print_u (ao_ppid e) ++ lit ","
      ++ quoted (lit "op") ++ lit ":" ++ quoted op ++ lit ","
      ++ quoted (lit "dev") ++ lit ":" ++ quoted (lit "0x" ++ print_x (ao_dev e)) ++ lit ","
      ++ quoted (lit "ino") ++ lit ":" ++ print_u (ao_ino e) ++ lit ","
      ++ quoted (lit "ts_ns") ++ lit ":" ++ print_u (ao_timestamp_ns e) ++ lit "}" ++ [LF]
  | FMT_AUDIT =>
      lit "type=COMP_OBSERVE actor=" ++ aname ++ lit " pid=" ++ print_u (ao_pid e)
      ++ lit " ppid=" ++ print_u (ao_ppid e) ++ lit " op=" ++ op ++ lit " " ++ ids ++ [LF]
  end.

(** ** Stopping the observed command *)

(** One answer of [waitpid]: the child was reaped, it is still running
    ([WNOHANG]), or an error. *)
Inductive wait_result := WReaped | WRunning | WIntr | WNoChild | WError.

(** What the tool does, in order. *)
Inductive term_action := Wait (nohang : bool) | KillTerm | KillKill | Sleep100ms.

Inductive kill_result := KOk | KNoProc | KError.

Definition SIGTERM_POLLS : nat := 20.

(** The answers of the kernel depend on everything done so far. *)
Record kernel_answers := KernelAnswers {
  ka_wait : list term_action -> wait_result;
  ka_kill : list term_action -> kill_result
}.

(** [waitpid_retry]: the answer that is not [EINTR] and the actions so far;
    [None]: out of fuel. *)
Fixpoint waitpid_retry (K : kernel_answers) (fuel : nat) (nohang : bool) (h : list term_action)
  : option (wait_result * list term_action) :=
  match fuel with
  | O => None
  | S fuel' =>
      let h' := h ++ [Wait nohang] in
      match ka_wait K h' with
      | WIntr => waitpid_retry K fuel' nohang h'
      | r => Some (r, h')
      end
  end.

(** The loop of the grace period: [Some (inl rc)] returns. *)
Fixpoint grace_loop (K : kernel_answers) (fuel polls : nat) (h : list term_action)
  : option (Z * list term_action + list term_action) :=
  match polls with
  | O => Some (inr h)
  | S polls' =>
      match waitpid_retry K fuel true (h ++ [Sleep100ms]) with
      | None => None
      | Some (WNoChild, h') | Some (WReaped, h') => Some (inl (0, h'))
      | Some (WRunning, h') => grace_loop K fuel polls' h'
      | Some (_, h') => Some (inl (-1, h'))
      end
  end.

(** The return value and what was done; [pid > 0]. *)
Definition terminate_observe_child (K : kernel_answers) (fuel : nat) : option (Z * list term_action) :=
  match waitpid_retry K fuel true [] with
  | None => None
  | Some (WNoChild, h) | Some (WReaped, h) => Some (0, h)
  | Some (WRunning, h) =>
      let h1 := h ++ [KillTerm] in
      match ka_kill K h1 with
      | KError => Some (-1, h1)
      | _ =>
          match grace_loop K fuel SIGTERM_POLLS h1 with
          | None => None
          | Some (inl r) => Some r
          | Some (inr h2) =>
              let h3 := h2 ++ [KillKill] in
              match ka_kill K h3 with
              | KError => Some (-1, h3)
              | _ =>
                  match waitpid_retry K fuel false h3 with
                  | None => None
                  | Some (WError, h4) => Some (-1, h4)
                  | Some (_, h4) => Some (0, h4)
                  end
              end
          end
      end
  | Some (_, h) => Some (-1, h)
  end.
