(* ===== verification/ObserveSetup.v ===== *)
(** * The observer's set-up and shutdown

    Actors that pass the set-up are actors the loader accepts, under the same
    inode identity, and the observed command is always stopped. *)

From S2P Require Import Prelude Abi Kernel CLib Config Loader ObserveBpf Observe ObserveMain.
From Stdlib Require Import Ascii.

#[local] Open Scope Z_scope.

(** ** Names *)

Lemma profile_name_valid n : actor_name_valid_profile n = actor_name_valid n.
Proof. by destruct n. Qed.

Lemma normalize_valid src n name changed :
  (7 <= n <= 16)%nat -> normalize_actor_name src n = Some (name, changed) -> actor_name_valid name = true.
Proof.
  intros Hn. unfold normalize_actor_name. case_match eqn:E2; [done|].
  assert (Ha : actor_name_valid (trunc n (lit "_actor")) = true).
  { unfold trunc. rewrite take_ge; [done|]. change (length (lit "_actor")) with 6%nat. lia. }
  destruct src as [|c src]; [by intros [= <- _]|]. cbn zeta.
  destruct (normalize_loop _ _ _ _) as [out chg]. case_match eqn:Ev; [by intros [= <- _]|].
  apply negb_false_iff in Ev. rewrite profile_name_valid in Ev. by intros [= <- _].
Qed.

(** ** Options *)

(** The registered actors: valid distinct names, slots in order, room in the
    table. *)
Definition actors_ok (l : list actor_reg) : Prop :=
  (length l <= AO_MAX_ACTORS)%nat /\ NoDup (ar_name <$> l)
  /\ forall i a, l !! i = Some a -> actor_name_valid (ar_name a) = true /\ ar_slot a = Z.of_nat i.

Lemma actors_ok_nil : actors_ok [].
Proof. split; [by apply Nat.leb_le|]. split; [constructor|]. intros i a Hi. by rewrite lookup_nil in Hi. Qed.

Lemma not_in_use l n : actor_name_in_use l n = false -> n ∉ ar_name <$> l.
Proof.
  unfold actor_name_in_use. intros H Hin. apply list_elem_of_fmap in Hin as (a & -> & Ha).
  apply not_true_iff_false in H. apply H, existsb_exists. exists a. split; [by apply list_elem_of_In|by apply streq_true].
Qed.

Lemma actors_ok_snoc l a :
  actors_ok l -> (length l < AO_MAX_ACTORS)%nat -> actor_name_valid (ar_name a) = true ->
  ar_slot a = Z.of_nat (length l) -> ar_name a ∉ ar_name <$> l -> actors_ok (l ++ [a]).
Proof.
  intros (H1 & H2 & H3) Hl Hv Hs Hn. split; [rewrite length_app; cbn; lia|]. split.
  - rewrite fmap_app. apply NoDup_app. split; [done|]. split; [set_solver|apply NoDup_singleton].
  - intros i b Hb. apply lookup_app_Some in Hb as [Hb|[Hge Hb]]; [by apply H3|].
    apply list_lookup_singleton_Some in Hb as [Hi <-]. split; [done|]. rewrite Hs. lia.
Qed.

Lemma add_actor_arg_ok arg o o' :
  actors_ok (oo_actors o) -> add_actor_arg arg o = Some o' -> actors_ok (oo_actors o').
Proof.
  intros Ho. unfold add_actor_arg. destruct (span _ arg) as [raw [|c p]]; [done|].
  destruct (Nat.leb_spec AO_MAX_ACTORS (length (oo_actors o))); [done|]. case_match; [done|].
  destruct (negb (actor_name_valid_profile raw)) eqn:Ev; [done|]. apply negb_false_iff in Ev.
  destruct (actor_name_in_use (oo_actors o) raw) eqn:Eu; [done|]. intros [= <-]. cbn [oo_actors set_actors].
  apply actors_ok_snoc; [done|done|by rewrite <- profile_name_valid|done|by apply not_in_use].
Qed.

Lemma flag_option_actors a o o' : flag_option a o = Some o' -> oo_actors o' = oo_actors o.
Proof. unfold flag_option. repeat case_match; intros; simplify_eq; done. Qed.

Lemma arg_option_ok a arg o o' :
  actors_ok (oo_actors o) -> arg_option a arg o = Some o' -> actors_ok (oo_actors o').
Proof.
  intros Ho. unfold arg_option. case_match; [by apply add_actor_arg_ok|]. repeat case_match; intros; simplify_eq; done.
Qed.

Lemma parse_opts_ok args o o' :
  actors_ok (oo_actors o) -> parse_opts args o = inr o' -> actors_ok (oo_actors o').
Proof.
  assert (Hn : (length args <= length args)%nat) by done. revert Hn. generalize (length args) at 2. intros n.
  revert args o. induction n as [|n IH]; intros [|a args] o Hn Ho; cbn in Hn; try lia; cbn [parse_opts];
    try by intros [= <-].
  case_match.
  - destruct args as [|arg args]; [done|]. destruct (arg_option a arg o) as [o1|] eqn:E; [|done].
    apply IH; [cbn in Hn; lia|by eapply arg_option_ok].
  - case_match; [by intros [= <-]|]. destruct (flag_option a o) as [o1|] eqn:E; [|by case_match].
    apply IH; [lia|by rewrite (flag_option_actors _ _ _ E)].
Qed.

Lemma infer_actor_ok w o o' :
  actors_ok (oo_actors o) -> (oo_actors o <> [] \/ oo_cmd o <> []) -> infer_actor w o = inr o' ->
  actors_ok (oo_actors o') /\ oo_actors o' <> [].
Proof.
  intros Ho Hne. unfold infer_actor. destruct (oo_actors o) as [|a l] eqn:Ea.
  - destruct (oo_cmd o) as [|cmd0 r]; [by destruct Hne|]. destruct (resolve_command_path _ _ _) as [p|]; [|done].
    destruct (normalize_actor_name _ _) as [[name chg]|] eqn:En; [|done]. intros [= <-]. split; [|done].
    apply (actors_ok_snoc []); [apply actors_ok_nil|by apply Nat.ltb_lt| |done|apply not_elem_of_nil].
    apply (normalize_valid _ AO_PROFILE_ACTOR_NAME_MAX name chg) in En; [done|]. unfold AO_PROFILE_ACTOR_NAME_MAX. lia.
  - intros [= <-]. rewrite Ea. done.
Qed.

(** ** Paths *)

(** The observer's check and the loader's: one file is accepted by both or by
    neither, up to what only the loader looks at. *)
Lemma loader_accepts_iff w p :
  is_Some (actor_resolve_path w p) <->
  validate_loader_compatible_actor_path w p = true /\ anon_bdev_refuse w p = true /\ lw_hold w p = true
  /\ exists st dev, lw_open w p = Some st /\ kdev st = Some dev /\ dev <> 0.
Proof.
  unfold actor_resolve_path, validate_loader_compatible_actor_path.
  destruct (lw_open w p) as [st|]; [|split; [by intros []|by intros (? & _)]].
  assert (Hlnk : is_type (ls_mode st) S_IFREG = true -> is_type (ls_mode st) S_IFLNK = false).
  { unfold is_type. intros ->%Z.eqb_eq. done. }
  destruct (is_type (ls_mode st) S_IFREG) eqn:Er; cbn [negb]; [rewrite Hlnk by done|].
  2: { split; [|by intros (? & _)]. intros Hs. repeat case_match; by destruct Hs. }
  destruct (anon_bdev_refuse w p) eqn:Ean; cbn [negb]; [|split; [by intros []|naive_solver]].
  destruct (writable_by_others (ls_mode st)) eqn:Ew.
  { split; [by intros []|]. intros (Hv & _). repeat case_match; done. }
  destruct (Nat.leb PATH_MAX (length p)) eqn:El.
  { split; [by intros []|]. intros (Hv & _). repeat case_match; done. }
  destruct (parent_of p ≫= lw_dirmode w) as [pm|].
  2: { split; [by intros []|]. intros (Hv & _). repeat case_match; done. }
  destruct (writable_by_others pm); cbn [negb].
  { split; [by intros []|]. intros (Hv & _). repeat case_match; done. }
  destruct (ls_size st =? 0) eqn:Es, (hasbit (ls_mode st) 0x49); cbn [negb]; try (split; [by intros []|by intros (? & _)]).
  destruct (kdev st) as [dev|] eqn:Ek; [|split; [by intros []|naive_solver]].
  destruct (Z.eqb_spec dev 0); [split; [by intros []|naive_solver]|].
  destruct (lw_hold w p); [|split; [by intros []|naive_solver]]. split; [|done]. intros _. naive_solver.
Qed.

Lemma actor_resolve_id w p a :
  actor_resolve_path w p = Some a ->
  exists st dev, lw_open w p = Some st /\ kdev st = Some dev /\ a = ActorId dev (ls_ino st).
Proof.
  unfold actor_resolve_path. destruct (lw_open w p) as [st|]; [|done]. intros H. repeat (case_match; try done).
  simplify_eq. eauto.
Qed.

Lemma to_kernel_dev_kdev st dev :
  0 <= ls_major st -> 0 <= ls_minor st -> kdev st = Some dev -> to_kernel_dev (ls_major st) (ls_minor st) = dev.
Proof.
  intros Hj Hn. unfold kdev, to_kernel_dev. case_match eqn:E; [done|]. intros [= <-].
  apply orb_false_iff in E as [Ej%Z.leb_gt En%Z.leb_gt]. change (Z.shiftl 1 12) with 4096 in Ej.
  change (Z.shiftl 1 20) with (2 ^ 20) in En. f_equal.
  - apply Z.mod_small. rewrite Z.shiftl_mul_pow2 by lia. unfold u32_mod. lia.
  - change 0xfffff with (Z.ones 20). rewrite Z.land_ones by lia. apply Z.mod_small. lia.
Qed.

(** What only the loader looks at: the file system of the path, a device number
    that does not fit or is 0, and the descriptor it keeps open. *)
Inductive loader_refuses (w : lworld) (p : cstring) : Prop :=
  | refuses_unknown_fs : lw_fstype w p = None -> loader_refuses w p
  | refuses_anon_bdev t :
      lw_fstype w p = Some t -> t ∈ [BTRFS_SUPER_MAGIC; OVERLAYFS_SUPER_MAGIC; FUSE_SUPER_MAGIC] -> loader_refuses w p
  | refuses_wide_device st : lw_open w p = Some st -> 4096 <= ls_major st \/ 1048576 <= ls_minor st -> loader_refuses w p
  | refuses_no_device st : lw_open w p = Some st -> ls_major st = 0 -> ls_minor st = 0 -> loader_refuses w p
  | refuses_no_fd : lw_hold w p = false -> loader_refuses w p.

Lemma anon_bdev_refuse_spec w p :
  anon_bdev_refuse w p = true
  <-> exists t, lw_fstype w p = Some t /\ t ∉ [BTRFS_SUPER_MAGIC; OVERLAYFS_SUPER_MAGIC; FUSE_SUPER_MAGIC].
Proof.
  unfold anon_bdev_refuse. destruct (lw_fstype w p) as [t|]; [|naive_solver].
  rewrite negb_true_iff, !orb_false_iff, !Z.eqb_neq. split.
  - intros [[H1 H2] H3]. exists t. split; [done|]. rewrite !not_elem_of_cons. auto using not_elem_of_nil.
  - intros (? & [= <-] & Ht). rewrite !not_elem_of_cons in Ht. tauto.
Qed.

Lemma kdev_spec st : 0 <= ls_major st -> 0 <= ls_minor st ->
  (exists dev, kdev st = Some dev /\ dev <> 0)
  <-> ls_major st < 4096 /\ ls_minor st < 1048576 /\ ~ (ls_major st = 0 /\ ls_minor st = 0).
Proof.
  intros Hj Hm. unfold kdev. change (Z.shiftl 1 12) with 4096. change (Z.shiftl 1 20) with 1048576.
  destruct (Z.leb_spec 4096 (ls_major st)); cbn [orb]; [naive_solver lia|].
  destruct (Z.leb_spec 1048576 (ls_minor st)); cbn [orb]; [naive_solver lia|].
  assert (Hz : Z.lor (Z.shiftl (ls_major st) 20) (ls_minor st) = 0 <-> ls_major st = 0 /\ ls_minor st = 0).
  { rewrite Z.lor_eq_0_iff, Z.shiftl_eq_0_iff by lia. done. }
  split; [intros (? & [= <-] & Hn); rewrite Hz in Hn; done|]. intros (_ & _ & Hn). eexists. split; [done|]. by rewrite Hz.
Qed.

(** The loader takes the path as the inode the observer tracks, unless one of
    these reasons applies. *)
Definition loads_or_refused (w : lworld) (a : actor_reg) : Prop :=
  (actor_resolve_path w (ar_path a) = Some (ActorId (ar_dev a) (ar_ino a)) /\ ~ loader_refuses w (ar_path a))
  \/ (actor_resolve_path w (ar_path a) = None /\ loader_refuses w (ar_path a)).

(** Device numbers are unsigned. *)
Definition devices_unsigned (w : lworld) : Prop :=
  forall p st, lw_open w p = Some st -> 0 <= ls_major st /\ 0 <= ls_minor st.

Lemma accepted_not_refused w p : devices_unsigned w ->
  is_Some (actor_resolve_path w p) -> ~ loader_refuses w p.
Proof.
  intros Hd (_ & (t & Hf & Ht)%anon_bdev_refuse_spec & Hh & st & dev & Ho & Hk)%loader_accepts_iff Hr.
  destruct (Hd _ _ Ho) as [Hj Hm]. destruct (proj1 (kdev_spec st Hj Hm)) as (H1 & H2 & H3); [eauto|].
  destruct Hr as [Hx|t2 Hx Ht2|st2 Hx Hs|st2 Hx H4 H5|Hx]; [congruence| | | |congruence].
  - rewrite Hf in Hx. injection Hx as <-. done.
  - rewrite Ho in Hx. injection Hx as <-. lia.
  - rewrite Ho in Hx. injection Hx as <-. by apply H3.
Qed.

Lemma not_accepted_refused w p st : devices_unsigned w ->
  validate_loader_compatible_actor_path w p = true -> lw_open w p = Some st ->
  actor_resolve_path w p = None -> loader_refuses w p.
Proof.
  intros Hd Hv Ho Hn. destruct (Hd _ _ Ho) as [Hj Hm].
  destruct (lw_hold w p) eqn:Eh; [|by apply refuses_no_fd].
  destruct (lw_fstype w p) as [t|] eqn:Ef; [|by apply refuses_unknown_fs].
  destruct (decide (t ∈ [BTRFS_SUPER_MAGIC; OVERLAYFS_SUPER_MAGIC; FUSE_SUPER_MAGIC])) as [Ht|Ht]; [by eapply refuses_anon_bdev|].
  destruct (decide (4096 <= ls_major st \/ 1048576 <= ls_minor st)) as [?|Hs]; [by eapply refuses_wide_device|].
  destruct (decide (ls_major st = 0 /\ ls_minor st = 0)) as [[]|Hz]; [by eapply refuses_no_device|].
  destruct (proj2 (kdev_spec st Hj Hm)) as (dev & Hk & Hne); [split_and!; [lia|lia|done]|].
  assert (Hs' : is_Some (actor_resolve_path w p)); [|rewrite Hn in Hs'; by destruct Hs'].
  apply loader_accepts_iff. split_and!; [done|apply anon_bdev_refuse_spec; eauto|done|eauto].
Qed.

Section Resolve.
Context (w : oworld).
(** [stat] of a path [realpath] gave is the loader's [open] of it. *)
Hypothesis Hw : forall p q, ow_realpath w p = Some q -> ow_stat w q = lw_open (ow_fs w) q.
Hypothesis Hd : devices_unsigned (ow_fs w).

Lemma resolve_actor_loads a a' :
  resolve_actor w a = Some a' ->
  ar_name a' = ar_name a /\ ar_slot a' = ar_slot a /\ loads_or_refused (ow_fs w) a'.
Proof.
  unfold resolve_actor, resolve_existing_path. destruct (ar_path a) as [|c p]; [done|].
  destruct (ow_realpath w (c :: p)) as [q|] eqn:Eq; [|done].
  destruct (Nat.leb PATH_MAX (length q)); [done|].
  destruct (validate_loader_compatible_actor_path (ow_fs w) q) eqn:Ev; [|done]. cbn [negb].
  unfold path_to_file_id. rewrite (Hw _ _ Eq). destruct (lw_open (ow_fs w) q) as [st|] eqn:Eo; [|done].
  intros [= <-]. cbn [ar_name ar_slot]. split_and!; [done..|].
  unfold loads_or_refused. cbn [ar_path ar_dev ar_ino fid_dev fid_ino].
  destruct (actor_resolve_path (ow_fs w) q) as [aid|] eqn:Er; [left|right; split; [done|by eapply not_accepted_refused]].
  split; [|apply accepted_not_refused; [done|by rewrite Er]].
  apply actor_resolve_id in Er as (st' & dev & Ho & Hk & ->). rewrite Eo in Ho. injection Ho as <-.
  destruct (Hd _ _ Eo). by rewrite (to_kernel_dev_kdev st dev).
Qed.

Lemma resolve_actors_ok l l' :
  mapM (resolve_actor w) l = Some l' -> actors_ok l ->
  actors_ok l' /\ length l' = length l
  /\ Forall (loads_or_refused (ow_fs w)) l'.
Proof.
  intros Hm (H1 & H2 & H3). apply mapM_Some in Hm.
  assert (Hlen : length l' = length l) by (symmetry; by eapply Forall2_length).
  assert (Hnames : ar_name <$> l' = ar_name <$> l).
  { apply list_eq. intros i. rewrite !list_lookup_fmap. destruct (l' !! i) as [a'|] eqn:Ei.
    - destruct (Forall2_lookup_r _ _ _ _ _ Hm Ei) as (a & Ea & Hr). rewrite Ea. cbn. f_equal.
      by destruct (resolve_actor_loads a a' Hr).
    - apply lookup_ge_None in Ei. rewrite Hlen in Ei. by rewrite (lookup_ge_None_2 l). }
  split; [|split; [done|]].
  - split; [by rewrite Hlen|]. split; [by rewrite Hnames|]. intros i a' Hi.
    destruct (Forall2_lookup_r _ _ _ _ _ Hm Hi) as (a & Ea & Hr).
    destruct (resolve_actor_loads a a' Hr) as (-> & -> & _). by apply H3.
  - apply Forall_forall. intros a' Ha'. apply list_elem_of_lookup in Ha' as [i Hi].
    destruct (Forall2_lookup_r _ _ _ _ _ Hm Hi) as (a & Ea & Hr). by destruct (resolve_actor_loads a a' Hr) as (_ & _ & ?).
Qed.

End Resolve.

(** C34: what the observer's set-up lets through is what the loader takes, up to
    the checks only the loader makes.  There is at least one actor and at most
    AO_MAX_ACTORS, their names are distinct and in the loader's grammar (also a name
    inferred from a command), slots number them, and the loader either resolves the
    path of each to exactly the device and inode the observer tracks, or refuses it,
    and it refuses it exactly when the file system is btrfs, overlayfs, FUSE or
    unknown, the device number is 0 or does not fit the kernel's 12 and 20 bits, or
    the descriptor cannot be kept.  (Device numbers are unsigned, and [stat] and
    [open] of one resolved path find the same file.) *)
Theorem observed_actors_loadable w args o :
  (forall p q, ow_realpath w p = Some q -> ow_stat w q = lw_open (ow_fs w) q) -> devices_unsigned (ow_fs w) ->
  observe_setup w args = inr o ->
  oo_actors o <> [] /\ (length (oo_actors o) <= AO_MAX_ACTORS)%nat /\ NoDup (ar_name <$> oo_actors o)
  /\ forall i a, oo_actors o !! i = Some a ->
       actor_name_valid (ar_name a) = true /\ ar_slot a = Z.of_nat i /\ loads_or_refused (ow_fs w) a.
Proof.
  intros Hw Hd. unfold observe_setup. destruct (parse_opts args observe_opts_init) as [rc|o1] eqn:Ep; [done|].
  apply parse_opts_ok in Ep; [|apply actors_ok_nil]. do 2 (case_match; [done|]). case_match eqn:Ene; [done|].
  destruct (infer_actor w o1) as [rc|o2] eqn:Ei; [done|]. apply infer_actor_ok in Ei as [Hok Hne]; [|done|].
  2: { apply andb_false_iff in Ene as [Ha|Ha]; apply bool_decide_eq_false in Ha; auto. }
  destruct (mapM (resolve_actor w) (oo_actors o2)) as [l|] eqn:Em; [|done]. intros [= <-]. cbn [oo_actors set_actors].
  destruct (resolve_actors_ok w Hw Hd _ _ Em Hok) as ((H1 & H2 & H3) & Hlen & Hf). split_and!; [|done..|].
  - intros ->. by destruct (oo_actors o2).
  - intros i a Hi. destruct (H3 i a Hi) as [Hv Hs]. rewrite Forall_forall in Hf.
    split_and!; [done|done|]. by apply Hf, (list_elem_of_lookup_2 _ i).
Qed.

(** A host with one program. *)
Module Host.
Definition file_at (p : cstring) : option lstat :=
  if streq p (lit "/bin/app") then Some (LStat 0x81ED 8 1 40 100 1)
  else if streq p (lit "/srv/data") then Some (LStat 0x81A4 8 1 41 100 1)
  else if streq p (lit "/srv") then Some (LStat 0x41ED 8 1 42 100 2)
  else None.

Definition fs : lworld := {|
  lw_open := file_at; lw_open_rd := file_at; lw_fstype := fun _ => Some 0xEF53;
  lw_dirmode := fun _ => Some 0x41ED; lw_bytes := fun _ => []; lw_nftw := fun _ => ([], true);
  lw_update_seal := fun _ => true; lw_update_dev := fun _ => true; lw_update_launcher := fun _ => true;
  lw_update_state := true; lw_hold := fun _ => true
|}.

Definition host : oworld := {|
  ow_fs := fs; ow_realpath := fun p => match file_at p with Some _ => Some p | None => None end;
  ow_access_x := fun _ => true; ow_stat := file_at; ow_getenv_path := Some (lit "/usr/bin:/bin");
  ow_proc_fds := [FdLink 8 1 41 (lit "/srv/data")]; ow_mounts := Some (lit "dev /srv ext4 rw 0 0");
  ow_abi_cell := Some COMPARTMENT_ABI_VERSION; ow_policy_pin := true; ow_now := lit "2026-05-16T00:00:00Z"
|}.

Definition app : actor_reg := ActorReg (lit "app") (lit "/bin/app") 0x800001 40 0 false.
End Host.

(** The same host with its programs on btrfs. *)
Definition on_btrfs (w : lworld) : lworld := {|
  lw_open := lw_open w; lw_open_rd := lw_open_rd w; lw_fstype := fun _ => Some BTRFS_SUPER_MAGIC;
  lw_dirmode := lw_dirmode w; lw_bytes := lw_bytes w; lw_nftw := lw_nftw w; lw_update_seal := lw_update_seal w;
  lw_update_dev := lw_update_dev w; lw_update_launcher := lw_update_launcher w; lw_update_state := lw_update_state w;
  lw_hold := lw_hold w
|}.

(** An actor on btrfs passes the check for loader-compatible output, and the loader
    refuses it. *)
Lemma btrfs_actor_not_loadable :
  validate_loader_compatible_actor_path (on_btrfs Host.fs) (lit "/bin/app") = true
  /\ actor_resolve_path (on_btrfs Host.fs) (lit "/bin/app") = None.
Proof. split; vm_compute; reflexivity. Qed.

Lemma host_devices : devices_unsigned Host.fs.
Proof. intros p st. cbn. unfold Host.file_at. repeat case_match; intros; simplify_eq; cbn; lia. Qed.

Lemma observed_actors_loadable_witness :
  exists o, observe_setup Host.host [lit "--actor"; lit "app=/bin/app"; lit "--verbose"] = inr o
  /\ oo_actors o = [Host.app] /\ ar_slot Host.app = 0
  /\ actor_resolve_path Host.fs (lit "/bin/app") = Some (ActorId 0x800001 40).
Proof.
  eexists. split; [vm_compute; reflexivity|]. split; [reflexivity|].
  destruct (observed_actors_loadable Host.host [lit "--actor"; lit "app=/bin/app"; lit "--verbose"]
    (set_actors [Host.app] (ObserveOpts [] (-1) (-1) FMT_PROFILE true false false false [] [] [])))
    as (_ & _ & _ & H); [reflexivity|exact host_devices|vm_compute; reflexivity|].
  destruct (H 0%nat Host.app eq_refl) as (_ & Hs & [[Hl _]|[Hl _]]); [by split|]. vm_compute in Hl. discriminate Hl.
Defined.

(** ** Stopping the command *)

(** The observed child as the kernel keeps it: not yet reaped, with the number of
    turns of the grace loop after which it has ended ([Some 0]: it has ended, [None]:
    it does not end by itself), or reaped. *)
Inductive fate := Unreaped (due : option nat) | Reaped.

(** A child: how it is when it is to be stopped, how many turns after SIGTERM it
    ends ([None]: it ignores SIGTERM), and which calls of [waitpid] are interrupted. *)
Record child_life := ChildLife { cl_start : fate; cl_on_term : option nat; cl_intr : nat -> bool }.

Definition sooner (a b : option nat) : option nat :=
  match a, b with Some m, Some n => Some (Nat.min m n) | None, x | x, None => x end.

Definition reap (f : fate) : fate := match f with Unreaped (Some 0%nat) => Reaped | _ => f end.

(** The child and the number of waits, after one action. *)
Definition live (L : child_life) (s : fate * nat) (a : term_action) : fate * nat :=
  let '(f, k) := s in
  match a, f with
  | Wait _, _ => (if cl_intr L k then f else reap f, S k)
  | _, Reaped => (Reaped, k)
  | KillTerm, Unreaped due => (Unreaped (sooner due (cl_on_term L)), k)
  | KillKill, Unreaped _ => (Unreaped (Some 0%nat), k)
  | Sleep100ms, Unreaped due => (Unreaped (Nat.pred <$> due), k)
  end.

Definition lived (L : child_life) (h : list term_action) : fate * nat := foldl (live L) (cl_start L, 0%nat) h.

(** [waitpid] on it.  A wait without [WNOHANG] for a child that does not end never
    returns: the answer is [WIntr], again and again. *)
Definition wait_for (f : fate) (nohang : bool) : wait_result :=
  match f with
  | Reaped => WNoChild
  | Unreaped (Some 0%nat) => WReaped
  | Unreaped _ => if nohang then WRunning else WIntr
  end.

Definition child_kernel (L : child_life) : kernel_answers := KernelAnswers
  (fun h => match last h with
            | Some (Wait nohang) =>
                let '(f, k) := lived L (removelast h) in if cl_intr L k then WIntr else wait_for f nohang
            | _ => WError
            end)
  (fun h => match (lived L (removelast h)).1 with Reaped => KNoProc | Unreaped _ => KOk end).

Definition sleeps (h : list term_action) : nat :=
  length (List.filter (fun a => match a with Sleep100ms => true | _ => false end) h).

Lemma sleeps_app h h' : sleeps (h ++ h') = (sleeps h + sleeps h')%nat.
Proof. unfold sleeps. by rewrite List.filter_app, length_app. Qed.

Lemma sleeps_waits n nh : sleeps (replicate n (Wait nh)) = 0%nat.
Proof. induction n; done. Qed.

(** The signals sent, in order. *)
Definition signals (h : list term_action) : list term_action :=
  List.filter (fun a => match a with KillTerm | KillKill => true | _ => false end) h.

Lemma signals_app h h' : signals (h ++ h') = signals h ++ signals h'.
Proof. apply List.filter_app. Qed.

Lemma signals_waits n nh : signals (replicate n (Wait nh)) = [].
Proof. induction n; done. Qed.

Section Stop.
Context (L : child_life) (fuel : nat).
(** Fewer than [fuel] interruptions in a row. *)
Hypothesis Hintr : forall k, exists j, (j < fuel)%nat /\ cl_intr L (k + j) = false.

Lemma lived_snoc h a : lived L (h ++ [a]) = live L (lived L h) a.
Proof. unfold lived. by rewrite foldl_app. Qed.

Lemma wait_answer h nh : ka_wait (child_kernel L) (h ++ [Wait nh])
  = if cl_intr L (lived L h).2 then WIntr else wait_for (lived L h).1 nh.
Proof. cbn. rewrite last_snoc, removelast_last. by destruct (lived L h). Qed.

Lemma kill_answer h a : ka_kill (child_kernel L) (h ++ [a]) = match (lived L h).1 with Reaped => KNoProc | Unreaped _ => KOk end.
Proof. cbn. by rewrite removelast_last. Qed.

(** A wait that can return does, and has then reaped a child that has ended. *)
Lemma retry_returns f nh h k :
  lived L h = (f, k) -> wait_for f nh <> WIntr ->
  exists n k', waitpid_retry (child_kernel L) fuel nh h = Some (wait_for f nh, h ++ replicate n (Wait nh))
    /\ lived L (h ++ replicate n (Wait nh)) = (reap f, k').
Proof.
  intros Hf Hn. destruct (Hintr k) as (j & Hj & Hk). clear Hintr. revert h k j Hj Hf Hk.
  induction fuel as [|fuel' IH]; intros h k j Hj Hf Hk; [lia|]. cbn [waitpid_retry]. cbn zeta.
  rewrite wait_answer, Hf. cbn [fst snd]. destruct (cl_intr L k) eqn:Ek.
  - destruct j as [|j]; [rewrite Nat.add_0_r in Hk; congruence|].
    assert (Hl : lived L (h ++ [Wait nh]) = (f, S k)) by (rewrite lived_snoc, Hf; cbn; by rewrite Ek).
    destruct (IH (h ++ [Wait nh]) (S k) j) as (n & k' & H1 & H2); [lia|done|by rewrite Nat.add_succ_r in Hk|].
    exists (S n), k'. cbn [replicate]. rewrite <- !app_assoc in *. cbn [app] in *. done.
  - exists 1%nat, (S k). cbn [replicate]. rewrite lived_snoc, Hf. cbn. rewrite Ek.
    split; [|done]. by destruct (wait_for f nh).
Qed.

Definition still (due : option nat) (p : nat) : bool := match due with Some n => Nat.ltb p n | None => true end.

(** The turns of the grace loop: a child that ends within them is reaped in the
    turn in which it ends, the first at the earliest. *)
Lemma grace_returns p : forall h due k, lived L h = (Unreaped due, k) ->
  (p = 0%nat -> due <> Some 0%nat) ->
  exists h' k',
    signals h' = signals h
    /\ if still due p
       then grace_loop (child_kernel L) fuel p h = Some (inr h') /\ sleeps h' = (sleeps h + p)%nat
            /\ exists due', lived L h' = (Unreaped due', k')
       else grace_loop (child_kernel L) fuel p h = Some (inl (0, h')) /\ lived L h' = (Reaped, k')
            /\ sleeps h' = (sleeps h + Nat.max 1 (default 0%nat due))%nat.
Proof.
  induction p as [|p IH]; intros h due k Hl H0; cbn [grace_loop].
  { exists h, k. split; [done|]. assert (Hs : still due 0 = true) by (destruct due as [[|]|]; [by specialize (H0 eq_refl)|done..]).
    rewrite Hs. split_and!; [done|lia|by exists due]. }
  assert (Hl1 : lived L (h ++ [Sleep100ms]) = (Unreaped (Nat.pred <$> due), k)) by (rewrite lived_snoc, Hl; done).
  destruct (retry_returns _ true _ _ Hl1) as (n & k' & -> & Hl2); [by destruct due as [[|[|]]|]|].
  set (h' := (h ++ [Sleep100ms]) ++ replicate n (Wait true)) in *.
  assert (Hs : sleeps h' = (sleeps h + 1)%nat) by (unfold h'; rewrite !sleeps_app, sleeps_waits; cbn; lia).
  assert (Hg : signals h' = signals h) by (unfold h'; rewrite !signals_app, signals_waits; by rewrite !app_nil_r).
  destruct (decide (due = Some 0%nat \/ due = Some 1%nat)) as [Hd|Hd].
  - exists h', k'. split; [done|]. by destruct Hd as [-> | ->].
  - assert (Hw : wait_for (Unreaped (Nat.pred <$> due)) true = WRunning) by (destruct due as [[|[|]]|]; naive_solver).
    assert (Hr : reap (Unreaped (Nat.pred <$> due)) = Unreaped (Nat.pred <$> due)) by (destruct due as [[|[|]]|]; naive_solver).
    rewrite Hw. rewrite Hr in Hl2. destruct (IH _ _ _ Hl2) as (h2 & k2 & H1 & H2); [by destruct due as [[|[|]]|]; naive_solver|].
    exists h2, k2. split; [congruence|].
    assert (He : still (Nat.pred <$> due) p = still due (S p)) by (destruct due as [[|m]|]; naive_solver).
    rewrite <- He. destruct (still _ p).
    + destruct H2 as (H2 & H3 & H4). split_and!; [done|lia|done].
    + destruct H2 as (H2 & H3 & H4). split_and!; [done|done|]. rewrite H4. destruct due as [[|[|m]]|]; cbn in *; naive_solver lia.
Qed.

(** From SIGTERM on. *)
Lemma term_returns h due k :
  lived L h = (Unreaped due, k) -> signals h = [] -> sleeps h = 0%nat ->
  let due' := sooner due (cl_on_term L) in
  exists h' k',
    match grace_loop (child_kernel L) fuel SIGTERM_POLLS (h ++ [KillTerm]) with
    | None => None
    | Some (inl r) => Some r
    | Some (inr h2) =>
        match ka_kill (child_kernel L) (h2 ++ [KillKill]) with
        | KError => Some (-1, h2 ++ [KillKill])
        | _ => match waitpid_retry (child_kernel L) fuel false (h2 ++ [KillKill]) with
               | None => None
               | Some (WError, h4) => Some (-1, h4)
               | Some (_, h4) => Some (0, h4)
               end
        end
    end = Some (0, h') /\ lived L h' = (Reaped, k')
    /\ (signals h', sleeps h')
       = if still due' SIGTERM_POLLS then ([KillTerm; KillKill], SIGTERM_POLLS) else ([KillTerm], Nat.max 1 (default 0%nat due')).
Proof.
  intros Hl Hg Hs due'. set (h1 := h ++ [KillTerm]).
  assert (Hl1 : lived L h1 = (Unreaped due', k)) by (unfold h1; by rewrite lived_snoc, Hl).
  assert (Hg1 : signals h1 = [KillTerm]) by (unfold h1; by rewrite signals_app, Hg).
  assert (Hs1 : sleeps h1 = 0%nat) by (unfold h1; by rewrite sleeps_app, Hs).
  destruct (grace_returns SIGTERM_POLLS h1 _ k Hl1) as (h2 & k2 & Hg2 & H2); [done|]. destruct (still due' SIGTERM_POLLS).
  - destruct H2 as (-> & Hs2 & due2 & Hl2). rewrite kill_answer, Hl2. cbn [fst].
    assert (Hl3 : lived L (h2 ++ [KillKill]) = (Unreaped (Some 0%nat), k2)) by (by rewrite lived_snoc, Hl2).
    destruct (retry_returns _ false _ _ Hl3) as (n & k4 & -> & Hl4); [done|]. cbn [wait_for].
    eexists _, k4. split_and!; [done|done|].
    by rewrite !signals_app, !sleeps_app, signals_waits, sleeps_waits, Hg2, Hg1, Hs2, Hs1.
  - destruct H2 as (-> & Hl2 & Hs2). exists h2, k2. split_and!; [done|done|]. by rewrite Hg2, Hg1, Hs2, Hs1.
Qed.

End Stop.

(** What a child gets, and for how many turns the tool waits for it. *)
Definition stopping (L : child_life) : list term_action * nat :=
  match cl_start L with
  | Reaped | Unreaped (Some 0%nat) => ([], 0%nat)
  | Unreaped due =>
      let due' := sooner due (cl_on_term L) in
      if still due' SIGTERM_POLLS then ([KillTerm; KillKill], SIGTERM_POLLS)
      else ([KillTerm], Nat.max 1 (default 0%nat due'))
  end.

(** C32: the observer always gets rid of the command it started.  The child is a
    concrete process: it has ended or not, it ends by itself or some turns after
    SIGTERM or never, and waits are interrupted fewer than [fuel] times in a row.
    Whatever it is, terminate_observe_child returns 0 and the child is reaped.  A
    child that has ended gets no signal.  A child that is running gets SIGTERM, and
    one that then ends within the twenty turns of the grace period is reaped in the
    turn it ends and gets no other signal; one that does not gets SIGKILL after all
    twenty.  Errors of [waitpid] and [kill] other than EINTR, ECHILD and ESRCH do not
    happen to a tool that stops its own child. *)
Theorem observed_child_stopped L fuel :
  (forall k, exists j, (j < fuel)%nat /\ cl_intr L (k + j) = false) ->
  exists h k, terminate_observe_child (child_kernel L) fuel = Some (0, h) /\ lived L h = (Reaped, k)
  /\ (signals h, sleeps h) = stopping L.
Proof.
  intros Hi. unfold terminate_observe_child, stopping.
  destruct (retry_returns L fuel Hi (cl_start L) true [] 0 eq_refl) as (n & k & -> & Hl); [by destruct (cl_start L) as [[[|]|]|]|].
  cbn [app] in Hl |- *. set (h := replicate n (Wait true)) in *.
  assert (Hh : (signals h, sleeps h) = ([], 0%nat)) by (unfold h; by rewrite signals_waits, sleeps_waits).
  destruct (cl_start L) as [[[|due]|]|]; cbn [wait_for reap] in Hl |- *; [by exists h, k| | |by exists h, k].
  all: cbn zeta; rewrite kill_answer, Hl; cbn [fst].
  all: apply (term_returns L fuel Hi h _ k Hl); by injection Hh.
Qed.

(** A child that ignores SIGTERM: it is gone once it was killed.  One that ends in
    the third turn after it. *)
Definition stubborn_child : child_life := ChildLife (Unreaped None) None Nat.even.
Definition polite_child : child_life := ChildLife (Unreaped None) (Some 3%nat) (fun _ => false).
Definition stubborn : kernel_answers := child_kernel (ChildLife (Unreaped None) None (fun _ => false)).

Lemma observed_child_stopped_witness :
  (exists h k, terminate_observe_child (child_kernel stubborn_child) 2 = Some (0, h) /\ lived stubborn_child h = (Reaped, k)
     /\ signals h = [KillTerm; KillKill] /\ sleeps h = 20%nat)
  /\ (exists h k, terminate_observe_child (child_kernel polite_child) 1 = Some (0, h) /\ lived polite_child h = (Reaped, k)
     /\ signals h = [KillTerm] /\ sleeps h = 3%nat).
Proof.
  split.
  - destruct (observed_child_stopped stubborn_child 2) as (h & k & H1 & H2 & H3).
    + intros k. destruct (Nat.even k) eqn:E; [exists 1%nat|exists 0%nat]; (split; [lia|]); cbn.
      * by rewrite Nat.add_1_r, Nat.even_succ, <- Nat.negb_even, E.
      * by rewrite Nat.add_0_r.
    + change (stopping stubborn_child) with ([KillTerm; KillKill], 20%nat) in H3. exists h, k. split_and!; congruence.
  - destruct (observed_child_stopped polite_child 1) as (h & k & H1 & H2 & H3); [intros j; exists 0%nat; split; [lia|done]|].
    change (stopping polite_child) with ([KillTerm], 3%nat) in H3. exists h, k. split_and!; congruence.
Defined.
