(* ===== verification/ObserveText.v ===== *)
(** * Profiles as text

    Facts on how the profile loader reads lines that were written word by word:
    [fgets] gives back the lines, comments are cut, and the tokenisers give back
    the words.  Used for the profiles the observer writes. *)

From S2P Require Import Prelude Abi CLib Loader Observe.
From Stdlib Require Import Ascii.

#[local] Open Scope Z_scope.

(** ** Lines *)

Definition no_char (x : ascii) (s : cstring) : Prop := Forall (fun c => c <> x) s.

(** A text that is one line of a C file. *)
Definition one_line (s : cstring) : Prop := no_char LF s /\ no_char NUL s.

Lemma fgets_line n t rest :
  no_char LF t -> (length t < n)%nat -> fgets n (t ++ LF :: rest) = (t ++ [LF], rest, false).
Proof.
  revert n. induction t as [|c t IH]; intros [|n] Ht Hn; cbn in Hn; try lia; cbn [app fgets].
  - by rewrite Ascii.eqb_refl.
  - inversion Ht as [|? ? Hc Ht']; subst. rewrite (proj2 (Ascii.eqb_neq _ _) Hc), IH; [done|done|lia].
Qed.

Lemma fgets_loop_fuel n f f' s :
  (0 < n)%nat -> (length s <= f)%nat -> (length s <= f')%nat -> fgets_loop f n s = fgets_loop f' n s.
Proof.
  intros Hn. revert f' s. induction f as [|f IH]; intros f' s H1 H2.
  - destruct s; [|cbn in H1; lia]. destruct f', n; done.
  - destruct f' as [|f']; [destruct s; [|cbn in H2; lia]; by destruct n|]. cbn.
    pose proof (fgets_spec n s) as Hs. destruct (fgets n s) as [[[|c l] rest] eof]; [done|].
    destruct Hs as (-> & _ & _ & _). f_equal. cbn in H1, H2. rewrite length_app in H1, H2. apply IH; lia.
Qed.

Lemma fgets_all_line n t rest :
  no_char LF t -> (length t < n)%nat -> fgets_all n (t ++ LF :: rest) = (t ++ [LF], false) :: fgets_all n rest.
Proof.
  intros Ht Hn. unfold fgets_all. rewrite length_app. cbn [length].
  rewrite Nat.add_succ_r. cbn [fgets_loop]. rewrite fgets_line by done.
  destruct (t ++ [LF]) as [|c l] eqn:E; [by destruct t|]. f_equal. apply fgets_loop_fuel; lia.
Qed.

Lemma until_nul_id s : no_char NUL s -> until_nul s = s.
Proof.
  unfold until_nul. induction 1 as [|c s Hc Hs IH]; cbn [span]; [done|].
  destruct (Ascii.eqb_spec NUL c) as [<-|_]; [done|]. destruct (span (Ascii.eqb NUL) s). cbn in *. by rewrite IH.
Qed.

Lemma one_line_LF t : one_line t -> no_char NUL (t ++ [LF]).
Proof. intros [_ H]. apply Forall_app. split; [done|]. by repeat constructor. Qed.

(** What the line loop does with one written line. *)
Lemma conf_lines_line mode w t rest st :
  one_line t -> (length t < LINE_SIZE - 1)%nat ->
  conf_lines mode w false ((t ++ [LF]) :: rest) st =
  conf_lines mode w false rest
    (conf_directive mode w (strip_hash (t ++ [LF]))
       (if is_candidate_line (t ++ [LF])
        then LoadState (l_ps st) (l_maps st) (l_errs st) (l_sealed st) true else st)).
Proof.
  intros Ht Hn. cbn [conf_lines]. rewrite until_nul_id by by apply one_line_LF.
  unfold embedded_nul. rewrite until_nul_id by by apply one_line_LF.
  rewrite drop_ge by lia. cbn [existsb]. rewrite last_snoc, bool_decide_eq_true_2 by done.
  by rewrite andb_false_r.
Qed.

(** ** Words *)

(** Characters that are part of a word for every tokeniser of the loader. *)
Definition word_char (c : ascii) : bool :=
  negb (ws_delim c) && negb (Ascii.eqb c "#"%char) && negb (Ascii.eqb c NUL).
Definition word (s : cstring) : Prop := Forall (fun c => word_char c = true) s.

Lemma span_all {A} (f : A -> bool) s t :
  Forall (fun c => f c = false) s -> (forall c r, t = c :: r -> f c = true) -> span f (s ++ t) = (s, t).
Proof.
  induction 1 as [|c s Hc Hs IH]; intros Ht; cbn [app span].
  - destruct t as [|c t]; [done|]. cbn. by rewrite (Ht c t eq_refl).
  - by rewrite Hc, IH.
Qed.

Lemma span_none {A} (f : A -> bool) s : Forall (fun c => f c = false) s -> span f s = (s, []).
Proof. intros H. rewrite <- (app_nil_r s) at 1. by apply span_all. Qed.

Lemma skip_head f c s : f c = false -> skip f (c :: s) = c :: s.
Proof. intros H. unfold skip. cbn. by rewrite H. Qed.

Lemma skip_one f c s : f c = true -> skip f (c :: s) = skip f s.
Proof. intros H. unfold skip. cbn. rewrite H. cbn. by destruct (span _ s). Qed.

(** A token followed by its delimiter. *)
Lemma strtok_r_word f c s d rest :
  f c = false -> Forall (fun c => f c = false) s -> f d = true ->
  strtok_r f ((c :: s) ++ d :: rest) = Some (c :: s, rest).
Proof.
  intros Hc Hs Hd. unfold strtok_r. cbn [app]. rewrite skip_head by done. rewrite app_comm_cons.
  rewrite span_all; [done|by constructor|]. intros x r [= -> ->]. done.
Qed.

Lemma tokens_from_word f cur s rest :
  Forall (fun c => f c = false) s -> tokens_from f cur (s ++ rest) = tokens_from f (rev s ++ cur) rest.
Proof.
  intros H. revert cur. induction H as [|c s Hc Hs IH]; intros cur; cbn [app tokens_from rev]; [done|].
  rewrite Hc, IH. by rewrite <- app_assoc.
Qed.

Lemma strtok_all_cons f c s d rest :
  Forall (fun c => f c = false) (c :: s) -> f d = true ->
  strtok_all f ((c :: s) ++ d :: rest) = (c :: s) :: strtok_all f rest.
Proof.
  intros Hs Hd. unfold strtok_all. rewrite tokens_from_word by done. cbn [tokens_from]. rewrite Hd, app_nil_r.
  destruct (rev (c :: s)) eqn:E; [apply (f_equal (@length ascii)) in E; rewrite length_rev in E; done|].
  by rewrite <- E, rev_involutive.
Qed.

Lemma strtok_all_last f c s : Forall (fun c => f c = false) (c :: s) -> strtok_all f (c :: s) = [c :: s].
Proof.
  intros Hs. unfold strtok_all. rewrite <- (app_nil_r (c :: s)) at 1. rewrite tokens_from_word by done.
  cbn [tokens_from]. rewrite app_nil_r.
  destruct (rev (c :: s)) eqn:E; [apply (f_equal (@length ascii)) in E; rewrite length_rev in E; done|].
  by rewrite <- E, rev_involutive.
Qed.

Lemma rstrip_last f s c : f c = false -> rstrip f (s ++ [c]) = s ++ [c].
Proof.
  intros H. unfold rstrip. rewrite rev_app_distr. cbn [rev app]. rewrite skip_head by done.
  cbn [rev]. by rewrite rev_involutive.
Qed.

Lemma rstrip_one f s c : f c = true -> rstrip f (s ++ [c]) = rstrip f s.
Proof. intros H. unfold rstrip. rewrite rev_app_distr. cbn [rev app]. by rewrite skip_one. Qed.

(** A line that starts and ends with a visible character, and its newline. *)
Lemma trim_line a s b :
  isspace a = false -> isspace b = false -> trim (a :: s ++ [b; LF]) = a :: s ++ [b].
Proof.
  intros Ha Hb. unfold trim. rewrite skip_head by done.
  replace (a :: s ++ [b; LF]) with ((a :: s ++ [b]) ++ [LF]) by (cbn; by rewrite <- app_assoc).
  rewrite rstrip_one by done. replace (a :: s ++ [b]) with ((a :: s) ++ [b]) by done. by rewrite rstrip_last.
Qed.

Lemma trim_visible a s b : isspace a = false -> isspace b = false -> trim (a :: s ++ [b]) = a :: s ++ [b].
Proof.
  intros Ha Hb. unfold trim. rewrite skip_head by done.
  replace (a :: s ++ [b]) with ((a :: s) ++ [b]) by done. by rewrite rstrip_last.
Qed.

(** ** Actor names *)

Definition name_char (c : ascii) : bool := isalnum c || Ascii.eqb c "_"%char || Ascii.eqb c "-"%char.

Lemma name_char_plain c :
  name_char c = true ->
  isspace c = false /\ word_char c = true /\ flag_sep c = false /\ ws_delim c = false /\ c <> LF.
Proof. destruct c as [[] [] [] [] [] [] [] []]; vm_compute; intros H; (discriminate H || (repeat split; discriminate)). Qed.

Lemma word_char_plain c :
  word_char c = true -> ws_delim c = false /\ c <> "#"%char /\ c <> NUL /\ c <> LF.
Proof. destruct c as [[] [] [] [] [] [] [] []]; vm_compute; intros H; (discriminate H || (repeat split; discriminate)). Qed.

Lemma actor_name_chars n : actor_name_valid n = true -> n <> [] /\ Forall (fun c => name_char c = true) n.
Proof.
  destruct n as [|c n]; [done|]. cbn [actor_name_valid]. intros [[_ Hc]%andb_true_iff Hn]%andb_true_iff.
  split; [done|]. constructor.
  - unfold name_char, isalnum. destruct (isalpha c); [done|]. cbn in *. by rewrite Hc, orb_true_r.
  - rewrite forallb_forall in Hn. apply Forall_forall. intros x Hx. by apply Hn, list_elem_of_In.
Qed.

Lemma actor_name_snoc n :
  actor_name_valid n = true -> exists n' b, n = n' ++ [b] /\ isspace b = false.
Proof.
  intros [Hn Hc]%actor_name_chars. destruct (exists_last Hn) as (n' & b & ->). exists n', b. split; [done|].
  apply Forall_app in Hc as [_ Hb]. inversion Hb; subst. by apply name_char_plain.
Qed.

(** ** Directives *)

Definition file_flags : Z := Z.lor (Z.lor SEAL_NO_WRITE SEAL_NO_UNLINK) SEAL_NO_RENAME.
Definition dir_flags : Z := Z.lor file_flags SEAL_NO_CHMOD.

Lemma flag_tokens (l : list string) n :
  Forall (fun s => Forall (fun c => flag_sep c = false) (lit s) /\ lit s <> []) l ->
  Forall (fun c => flag_sep c = false) (lit "actor=" ++ n) ->
  strtok_all flag_sep (mjoin ((fun s => lit s ++ [SP]) <$> l) ++ lit "actor=" ++ n)
  = (lit <$> l) ++ [lit "actor=" ++ n].
Proof.
  intros Hl Hn. induction Hl as [|s l [Hs Hne] Hl IH]; cbn.
  - change (lit "actor=" ++ n) with ("a"%char :: lit "ctor=" ++ n) in *. by apply strtok_all_last.
  - destruct (lit s) as [|c r] eqn:E; [done|]. etrans; [|exact (f_equal (cons _) IH)].
    rewrite <- (strtok_all_cons flag_sep c r SP) by done. f_equal. cbn. by rewrite <- !app_assoc.
Qed.

Lemma parse_flagspec_actor text words flags n :
  actor_name_valid n = true ->
  text = mjoin ((fun s => lit s ++ [SP]) <$> words) ->
  forallb (fun s => negb (bool_decide (lit s = [])) && forallb (fun c => negb (flag_sep c)) (lit s)) words = true ->
  match head text with Some c => isspace c = false | None => False end ->
  flagspec_loop (lit <$> words) 0 None false = Some (flags, None, true) ->
  flags <> 0 -> flags <> SEAL_STRICT_LAUNCH ->
  parse_flagspec (text ++ lit "actor=" ++ n) = Some (flags, Some n).
Proof.
  intros Hn -> Hw Hh Hf H0 Hs. destruct (actor_name_chars n Hn) as [Hne Hc].
  destruct (actor_name_snoc n Hn) as (n' & b & Hnb & Hb). unfold parse_flagspec.
  set (text := mjoin _) in *. destruct text as [|a text'] eqn:Et; [done|]. cbn in Hh.
  assert (Htrim : trim ((a :: text') ++ lit "actor=" ++ n) = (a :: text') ++ lit "actor=" ++ n).
  { rewrite Hnb. cbn [app]. rewrite (app_assoc (lit "actor=")), (app_assoc text'). by apply trim_visible. }
  rewrite Htrim. cbn [app]. change (a :: text' ++ ?x) with ((a :: text') ++ x). rewrite <- Et. unfold text.
  rewrite flag_tokens.
  - assert (Hloop : forall l fl sf, flagspec_loop l fl None sf = Some (flags, None, true) ->
      flagspec_loop (l ++ [lit "actor=" ++ n]) fl None sf = Some (flags, Some n, true)).
    { induction l as [|t l IH]; intros fl sf; cbn [flagspec_loop app].
      - intros [= -> ->]. change (has_prefix (lit "actor=") (lit "actor=" ++ n)) with true. cbn iota.
        change (drop 6 (lit "actor=" ++ n)) with n. by rewrite Hn.
      - destruct (has_prefix (lit "actor=") t).
        + destruct (negb (actor_name_valid (drop 6 t))); [done|]. intros Hx. exfalso. clear -Hx.
          revert fl sf Hx. generalize (drop 6 t). induction l as [|u l IH]; intros s fl sf; cbn; [done|].
          destruct (has_prefix _ u); [done|]. destruct (flag_of_token u); [apply IH|done].
        + destruct (flag_of_token t); [apply IH|done]. }
    rewrite (Hloop _ _ _ Hf). cbn. rewrite (proj2 (Z.eqb_neq _ _) H0). by rewrite (proj2 (Z.eqb_neq _ _) Hs).
  - rewrite forallb_forall in Hw. apply Forall_forall. intros s Hin.
    specialize (Hw s (proj1 (list_elem_of_In _ _) Hin)). apply andb_true_iff in Hw as [H1 H2]. split.
    + rewrite forallb_forall in H2. apply Forall_forall. intros c Hc'. apply negb_true_iff, H2. by apply list_elem_of_In.
    + by apply negb_true_iff, bool_decide_eq_false in H1.
  - apply Forall_app. split; [by repeat constructor|]. eapply Forall_impl; [exact Hc|]. intros c ?. by apply name_char_plain.
Qed.
