(* ===== verification/ObserveProps.v ===== *)
(** * What the observer's profile means to the loader

    The printed profile is read back line by line ([written_profile_read_back]);
    it parses when the observed paths were found ([observed_profile_parses]) and
    can never be enforced without the explicit override
    ([candidate_never_enforced]).  Actor names and paths the observer accepts
    are those the loader accepts. *)

From S2P Require Import Prelude Abi Kernel CLib Config Loader LoaderProps ObserveBpf Observe ObserveText.
From Stdlib Require Import Ascii.

#[local] Open Scope Z_scope.

(** ** The meaning of a written line *)

Definition mark_candidate (line : cstring) (st : load_state) : load_state :=
  if is_candidate_line line then LoadState (l_ps st) (l_maps st) (l_errs st) (l_sealed st) true else st.

Definition seal_for (mode : load_mode) (w : lworld) (p : cstring) (flags : Z) (a : cstring) (st : load_state)
  : load_state :=
  match profile_find_actor (l_ps st) a with
  | Some ag => apply_seal mode w p flags (Some ag) st
  | None => add_err st
  end.

Definition plain_group (n p : cstring) : actor_group := ActorGroup n [p] None false None (InodeKey 0 0) 0.

Definition pline_meaning (mode : load_mode) (w : lworld) (st : load_state) (l : pline) : load_state :=
  match l with
  | PComment t => mark_candidate (lit "#" ++ t ++ [LF]) st
  | PBlank => st
  | PActor n p =>
      match profile_find_actor (l_ps st) n with
      | Some _ => add_err st
      | None => after_decl mode w (Some (add_actor (plain_group n p) (l_ps st))) st
      end
  | PSealBinary p => apply_seal mode w p SEAL_FULL None st
  | PSealDir p a => seal_for mode w p dir_flags a st
  | PSealFile p a => seal_for mode w p file_flags a st
  end.

(** A path that is one word of a line; a path at the end of a line must also not
    end in white space. *)
Definition path_word (p : cstring) : Prop := word p /\ is_absolute p = true.
Definition ends_visibly (p : cstring) : Prop := match last p with Some c => isspace c = false | None => True end.

Definition pline_ok (l : pline) : Prop :=
  match l with
  | PComment t => one_line t
  | PBlank => True
  | PActor n p => actor_name_valid n = true /\ path_word p /\ ends_visibly p
  | PSealBinary p => path_word p
  | PSealDir p a | PSealFile p a => path_word p /\ actor_name_valid a = true
  end.

Lemma path_word_cons p : path_word p -> exists q, p = "/"%char :: q /\ word q.
Proof.
  intros [Hw Ha]. unfold is_absolute in Ha. destruct p as [|c q]; [done|]. apply bool_decide_eq_true in Ha.
  cbn in Ha. simplify_eq. exists q. inversion Hw. by subst.
Qed.

Lemma strip_hash_id s : no_char "#"%char s -> strip_hash s = s.
Proof.
  intros H. unfold strip_hash. rewrite span_none; [done|]. eapply Forall_impl; [exact H|].
  intros c Hc. apply Ascii.eqb_neq. congruence.
Qed.

Lemma no_char_app x s t : no_char x s -> no_char x t -> no_char x (s ++ t).
Proof. intros. by apply Forall_app. Qed.

Lemma word_no_char s x : word s -> word_char x = false -> no_char x s.
Proof. intros H Hx. eapply Forall_impl; [exact H|]. cbn. intros c Hc ->. congruence. Qed.

Lemma name_word n : actor_name_valid n = true -> word n.
Proof. intros [_ H]%actor_name_chars. eapply Forall_impl; [exact H|]. cbn. intros c ?. by apply name_char_plain. Qed.

(** Splitting a text that is put together from words and literals. *)
Ltac no_char_parts := repeat match goal with |- no_char _ (_ ++ _) => apply no_char_app end.

Ltac assoc_app := repeat first [rewrite <- app_assoc | progress cbn [app]].

Lemma pline_line l x : pline_ok l -> word_char x = false -> is_blank x = false ->
  (match l with PComment _ => x = LF \/ x = NUL | _ => True end) -> no_char x (render_line l).
Proof.
  intros Hl Hx Hb Hc.
  assert (Hlit : forall s, forallb (fun c => word_char c || is_blank c) (lit s) = true -> no_char x (lit s)).
  { intros s Hs. rewrite forallb_forall in Hs. apply Forall_forall. intros c Hin ->.
    specialize (Hs x (proj1 (list_elem_of_In _ _) Hin)). cbn in Hs. by rewrite Hx, Hb in Hs. }
  destruct l as [t| |n p|p|p a|p a]; cbn [render_line pline_ok] in *.
  - apply no_char_app; [|by destruct Hc as [-> | ->], Hl]. by destruct Hc as [-> | ->]; repeat constructor.
  - constructor.
  - destruct Hl as (Hn & [Hp _] & _). no_char_parts; [by apply Hlit|auto using word_no_char, name_word|by apply Hlit|auto using word_no_char].
  - destruct Hl as [Hp _]. no_char_parts; [by apply Hlit|auto using word_no_char|by apply Hlit].
  - destruct Hl as [[Hp _] Hn]. no_char_parts; [by apply Hlit|auto using word_no_char|by apply Hlit|auto using word_no_char, name_word].
  - destruct Hl as [[Hp _] Hn]. no_char_parts; [by apply Hlit|auto using word_no_char|by apply Hlit|auto using word_no_char, name_word].
Qed.

Lemma pline_one_line l : pline_ok l -> one_line (render_line l).
Proof. intros H. split; apply pline_line; try done; destruct l; auto. Qed.

(** ** Directives *)

Section Lines.
Context (mode : load_mode) (w : lworld).

Lemma conf_directive_words d s b :
  d <> [] -> Forall (fun c => ws_delim c = false) d -> (forall c r, d = c :: r -> isspace c = false) ->
  isspace b = false ->
  strtok_r ws_delim (trim ((d ++ [SP] ++ s ++ [b]) ++ [LF])) = Some (d, s ++ [b]).
Proof.
  intros Hd Hw Hv Hb. destruct d as [|a d]; [done|]. specialize (Hv a d eq_refl). inversion Hw; subst.
  assert (Ht : trim (((a :: d) ++ [SP] ++ s ++ [b]) ++ [LF]) = (a :: d) ++ SP :: s ++ [b]).
  { replace (((a :: d) ++ [SP] ++ s ++ [b]) ++ [LF]) with (a :: (d ++ [SP] ++ s) ++ [b; LF])
      by (by assoc_app). rewrite trim_line by done. by assoc_app. }
  rewrite Ht. by apply strtok_r_word.
Qed.

Lemma seal_text_read p text b fs st flags name :
  path_word p -> isspace b = false -> fs = text ++ [b] -> parse_flagspec fs = Some (flags, name) ->
  conf_directive mode w ((lit "seal " ++ p ++ [SP] ++ fs) ++ [LF]) st =
  match find_named (l_ps st) name with None => add_err st | Some actor => apply_seal mode w p flags actor st end.
Proof.
  intros Hp Hb -> Hf. destruct (path_word_cons p Hp) as (q & -> & Hq).
  replace (lit "seal " ++ ("/"%char :: q) ++ [SP] ++ text ++ [b])
    with (lit "seal" ++ [SP] ++ (("/"%char :: q) ++ SP :: text) ++ [b]) by (by assoc_app).
  unfold conf_directive. rewrite conf_directive_words; [|done|by repeat constructor|by intros ? ? [= <- <-]|done].
  change (streq (lit "seal") (lit "actor")) with false. change (streq (lit "seal") (lit "actor-strict")) with false.
  change (streq (lit "seal") (lit "env")) with false. change (streq (lit "seal") (lit "seal")) with true. cbn iota.
  unfold seal_line. rewrite <- (app_assoc ("/"%char :: q)). change ((SP :: text) ++ [b]) with (SP :: text ++ [b]).
  rewrite strtok_r_word; [by rewrite Hf|done| |done].
  eapply Forall_impl; [exact Hq|]. cbn. intros c ?. by apply word_char_plain.
Qed.

Lemma ws_name n : actor_name_valid n = true -> Forall (fun c => ws_delim c = false) n.
Proof. intros [_ H]%actor_name_chars. eapply Forall_impl; [exact H|]. cbn. intros c ?. by apply name_char_plain. Qed.

Lemma ws_word s : word s -> Forall (fun c => ws_delim c = false) s.
Proof. intros H. eapply Forall_impl; [exact H|]. cbn. intros c ?. by apply word_char_plain. Qed.

Lemma actor_tokens n p :
  actor_name_valid n = true -> path_word p ->
  strtok_all ws_delim (n ++ lit " = " ++ p) = [n; lit "="; p].
Proof.
  intros Hn Hp. destruct (path_word_cons p Hp) as (q & -> & Hq). destruct (actor_name_chars n Hn) as [Hne _].
  destruct n as [|c n]; [done|]. change (lit " = " ++ ?x) with (SP :: "="%char :: SP :: x).
  rewrite strtok_all_cons by (try apply ws_name; done). f_equal.
  change ("="%char :: SP :: ?x) with (["="%char] ++ SP :: x). rewrite strtok_all_cons by (try by repeat constructor; done).
  f_equal. apply strtok_all_last. constructor; [done|by apply ws_word].
Qed.

Lemma actor_text_read n p st :
  actor_name_valid n = true -> path_word p -> ends_visibly p ->
  conf_directive mode w ((lit "actor " ++ n ++ lit " = " ++ p) ++ [LF]) st =
  match profile_find_actor (l_ps st) n with
  | Some _ => add_err st
  | None => after_decl mode w (Some (add_actor (plain_group n p) (l_ps st))) st
  end.
Proof.
  intros Hn Hp He. assert (Hne : p <> []) by (by destruct (path_word_cons p Hp) as (q & -> & _)).
  destruct (exists_last Hne) as (p' & b & Hpb). unfold ends_visibly in He. rewrite Hpb, last_snoc in He.
  replace (lit "actor " ++ n ++ lit " = " ++ p) with (lit "actor" ++ [SP] ++ (n ++ lit " = " ++ p') ++ [b])
    by (rewrite Hpb; by assoc_app).
  unfold conf_directive. rewrite conf_directive_words; [|done|by repeat constructor|by intros ? ? [= <- <-]|done].
  change (streq (lit "actor") (lit "actor")) with true. cbn iota.
  rewrite <- !app_assoc, <- Hpb. unfold parse_actor_decl. rewrite actor_tokens by done. rewrite Hn. cbn [negb].
  destruct (profile_find_actor (l_ps st) n) as [g|]; [done|]. rewrite bool_decide_eq_false_2 by (by intros [? ?]).
  change (streq (lit "=") (lit "=")) with true. cbn [negb actor_paths_loop]. by destruct Hp as [_ ->].
Qed.

Lemma not_candidate s :
  match s with c :: _ => isspace c = false /\ c <> "#"%char | [] => False end -> is_candidate_line s = false.
Proof.
  destruct s as [|c s]; [done|]. intros [Hs Hc]. unfold is_candidate_line. rewrite skip_head by done.
  change candidate_marker with ("#"%char :: lit "@compartment-bpf-profile-status:"). cbn [has_prefix].
  by rewrite (proj2 (Ascii.eqb_neq _ _) (not_eq_sym Hc)).
Qed.

(** The flag texts of the two kinds of rules. *)
Lemma file_flagspec a : actor_name_valid a = true ->
  parse_flagspec (lit "no-write no-unlink no-rename actor=" ++ a) = Some (file_flags, Some a).
Proof.
  intros Ha. change (lit "no-write no-unlink no-rename actor=" ++ a)
    with (lit "no-write no-unlink no-rename " ++ lit "actor=" ++ a).
  apply (parse_flagspec_actor _ ["no-write"; "no-unlink"; "no-rename"]%string); done.
Qed.

Lemma dir_flagspec a : actor_name_valid a = true ->
  parse_flagspec (lit "no-write no-unlink no-rename no-chmod actor=" ++ a) = Some (dir_flags, Some a).
Proof.
  intros Ha. change (lit "no-write no-unlink no-rename no-chmod actor=" ++ a)
    with (lit "no-write no-unlink no-rename no-chmod " ++ lit "actor=" ++ a).
  apply (parse_flagspec_actor _ ["no-write"; "no-unlink"; "no-rename"; "no-chmod"]%string); done.
Qed.

Lemma seal_for_read p a (text : string) flags st :
  path_word p -> actor_name_valid a = true ->
  parse_flagspec (lit text ++ a) = Some (flags, Some a) ->
  conf_directive mode w ((lit "seal " ++ p ++ (SP :: lit text) ++ a) ++ [LF]) st = seal_for mode w p flags a st.
Proof.
  intros Hp Ha Hf. destruct (actor_name_snoc a Ha) as (a' & b & -> & Hb).
  change ((SP :: lit text) ++ a' ++ [b]) with ([SP] ++ lit text ++ a' ++ [b]). unfold seal_for.
  rewrite (seal_text_read p (lit text ++ a') b _ st flags (Some (a' ++ [b]))); [|done|done|by rewrite <- app_assoc|done].
  cbn [find_named]. by destruct (profile_find_actor _ _).
Qed.

Lemma line_read l st :
  pline_ok l ->
  conf_directive mode w (strip_hash (render_line l ++ [LF])) (mark_candidate (render_line l ++ [LF]) st)
  = pline_meaning mode w st l.
Proof.
  intros Hl.
  assert (Hh : (match l with PComment _ => False | _ => True end) ->
    strip_hash (render_line l ++ [LF]) = render_line l ++ [LF]).
  { intros Hc. apply strip_hash_id, no_char_app; [|by repeat constructor]. by apply pline_line; destruct l. }
  destruct l as [t| |n p|p|p a|p a]; [done|done|rewrite Hh by done..];
    unfold mark_candidate; cbn [render_line pline_meaning pline_ok] in *.
  - rewrite not_candidate by (by split). destruct Hl as (? & ? & ?). by apply actor_text_read.
  - rewrite not_candidate by (by split).
    change (lit " full") with ([SP] ++ lit "full").
    by rewrite (seal_text_read p (lit "ful") "l"%char (lit "full") st SEAL_FULL None).
  - rewrite not_candidate by (by split). destruct Hl as [Hp Ha].
    apply (seal_for_read p a "no-write no-unlink no-rename no-chmod actor="); [done..|by apply dir_flagspec].
  - rewrite not_candidate by (by split). destruct Hl as [Hp Ha].
    apply (seal_for_read p a "no-write no-unlink no-rename actor="); [done..|by apply file_flagspec].
Qed.

Lemma profile_lines ls st :
  Forall (fun l => pline_ok l /\ (length (render_line l) < LINE_SIZE - 1)%nat) ls ->
  conf_lines mode w false (fgets_all (LINE_SIZE - 1) (render ls)).*1 st = foldl (pline_meaning mode w) st ls.
Proof.
  intros H. revert st. induction H as [|l ls [Hl Hn] H IH]; intros st; [done|].
  change (render (l :: ls)) with ((render_line l ++ [LF]) ++ render ls). rewrite <- app_assoc. cbn [app].
  pose proof (pline_one_line l Hl) as H1. rewrite fgets_all_line; [|by apply H1|done]. cbn [fmap list_fmap fst foldl].
  rewrite conf_lines_line by done. fold (mark_candidate (render_line l ++ [LF]) st). by rewrite line_read, IH.
Qed.
End Lines.

(** ** Texts the observer writes *)

Lemma word_one_line s : word s -> one_line s.
Proof. intros H. by split; apply word_no_char. Qed.

Lemma one_line_app s t : one_line s -> one_line t -> one_line (s ++ t).
Proof. intros [? ?] [? ?]. split; by apply no_char_app. Qed.

Definition plain_lit (s : string) : bool := forallb (fun c => negb (Ascii.eqb c LF) && negb (Ascii.eqb c NUL)) (lit s).

Lemma lit_one_line s : plain_lit s = true -> one_line (lit s).
Proof.
  unfold plain_lit. rewrite forallb_forall. intros H.
  split; apply Forall_forall; intros c Hc ->; by specialize (H _ (proj1 (list_elem_of_In _ _) Hc)).
Qed.

Lemma print_u_word z : word (print_u z).
Proof. apply print_u_forall. by repeat constructor. Qed.

Lemma hex_digits_word fuel z acc : word acc -> word (hex_digits fuel z acc).
Proof.
  revert z acc. induction fuel as [|fuel IH]; intros z acc Ha; cbn [hex_digits]; [done|].
  assert (Hc : word_char (chr (Z.to_nat (if z mod 16 <? 10 then 48 + z mod 16 else 87 + z mod 16))) = true).
  { pose proof (Z.mod_pos_bound z 16 eq_refl) as Hb. set (d := z mod 16) in *.
    assert (Hd : d = Z.of_nat (Z.to_nat d)) by lia. rewrite Hd. assert (Hn : (Z.to_nat d < 16)%nat) by lia.
    generalize dependent (Z.to_nat d). intros n _ Hn. do 16 (destruct n as [|n]; [done|]). lia. }
  destruct (z <? 16); [by constructor|]. apply IH. by constructor.
Qed.

Lemma print_x_word z : word (print_x z).
Proof. apply hex_digits_word. constructor. Qed.

Lemma word_app s t : word s -> word t -> word (s ++ t).
Proof. intros. by apply Forall_app. Qed.

Lemma lit_word s : forallb word_char (lit s) = true -> word (lit s).
Proof. rewrite forallb_forall. intros H. apply Forall_forall. intros c Hc. by apply H, list_elem_of_In. Qed.

Ltac word_parts := repeat match goal with |- word (_ ++ _) => apply word_app end.

Lemma take_word n s : word s -> word (take n s).
Proof. apply Forall_take. Qed.

Lemma no_nul_take n s : no_char NUL s -> no_char NUL (take n s).
Proof. apply Forall_take. Qed.

Lemma sanitize_word p q : no_char NUL p -> sanitize_observed_path p = Some q -> path_word q.
Proof.
  intros Hn. unfold sanitize_observed_path. destruct p as [|c p]; [done|]. set (s := c :: p) in *.
  assert (Hs : no_char NUL (strip_deleted s)) by (unfold strip_deleted; case_match; [by apply no_nul_take|done]).
  destruct (is_absolute (strip_deleted s)) eqn:Ea; [|done]. cbn [negb].
  destruct (existsb splits_line (strip_deleted s)) eqn:Ex; [done|]. intros [= <-]. split; [|done].
  apply Forall_forall. intros x Hx. assert (Ec : splits_line x = false).
  { apply not_true_iff_false. intros Hc. apply not_true_iff_false in Ex. apply Ex, existsb_exists.
    exists x. split; [by apply list_elem_of_In|done]. }
  clear Ex. rename Ec into Ex. unfold no_char in Hs. rewrite Forall_forall in Hs.
  specialize (Hs x Hx). clear -Ex Hs. unfold splits_line, word_char, ws_delim, is_blank in *.
  apply orb_false_iff in Ex as [[[[E1 E2]%orb_false_iff E3]%orb_false_iff E4]%orb_false_iff E5].
  rewrite E1, E2, E3, E4, E5. cbn. by rewrite (proj2 (Ascii.eqb_neq _ _) Hs).
Qed.

Lemma before_last_slash_word p d : word p -> before_last_slash p = Some d -> word d.
Proof.
  intros Hp. unfold before_last_slash. pose proof (span_app (Ascii.eqb "/"%char) (rev p)) as Hs.
  destruct (span (Ascii.eqb "/"%char) (rev p)) as [a [|c b]]; [done|]. cbn in Hs. intros [= <-].
  apply (f_equal (@rev ascii)) in Hs. rewrite rev_involutive, rev_app_distr in Hs. cbn [rev] in Hs.
  rewrite <- Hs in Hp. unfold word in Hp. rewrite !Forall_app in Hp. by destruct Hp as [[? _] _].
Qed.

Lemma parent_of_word p d : word p -> parent_of p = Some d -> word d.
Proof.
  intros Hp. unfold parent_of. destruct (before_last_slash p) as [[|c r]|] eqn:E; [|..|done].
  - intros [= <-]. by repeat constructor.
  - intros [= <-]. by eapply before_last_slash_word.
Qed.

Section Texts.
Context (w : oworld).
Hypothesis Hnow : one_line (ow_now w).
Hypothesis Hfds : Forall (fun f => no_char NUL (fl_target f)) (ow_proc_fds w).

Lemma procfd_word fds dev ino n p :
  Forall (fun f => no_char NUL (fl_target f)) fds -> resolve_by_procfd fds dev ino n = Some p -> path_word p.
Proof.
  induction 1 as [|f fds Hf H IH]; cbn [resolve_by_procfd]; [done|]. case_match; [|done].
  destruct (sanitize_observed_path _) as [q|] eqn:Es; [|done]. intros [= <-].
  eapply sanitize_word; [|exact Es]. by apply no_nul_take.
Qed.

Lemma span_sub {A} (P : A -> Prop) f s : Forall P s -> Forall P (span f s).1 /\ Forall P (span f s).2.
Proof. intros H. rewrite <- (span_app f s) in H. by apply Forall_app. Qed.

Lemma scan_mountpoint_no_nul line mp : no_char NUL line -> scan_mountpoint line = Some mp -> no_char NUL mp.
Proof.
  intros Hl. unfold scan_mountpoint, skip. destruct (span_sub _ (fun c => negb (isspace c)) line Hl) as [_ H1].
  set (s1 := (span _ line).2) in *. case_match; [done|]. rename l into d.
  set (s2 := drop _ s1). assert (H2 : no_char NUL s2) by (by apply Forall_drop).
  destruct (span_sub _ (fun c => negb (isspace c)) s2 H2) as [_ H3]. set (s3 := (span _ s2).2) in *.
  destruct (span_sub _ isspace s3 H3) as [H4 _]. set (s4 := (span isspace s3).1) in *.
  destruct (take 255 s4) as [|c r] eqn:E; [done|]. intros [= <-]. rewrite <- E. by apply Forall_take.
Qed.

Lemma until_nul_no_nul s : no_char NUL (until_nul s).
Proof.
  eapply Forall_impl; [apply (span_fst (Ascii.eqb NUL))|]. intros c Hc ->. done.
Qed.

Lemma mount_lines_word dev lines mp : mount_lines w dev lines = Some mp -> path_word mp.
Proof.
  induction lines as [|line lines IH]; cbn [mount_lines]; [done|].
  destruct (scan_mountpoint _) as [m|] eqn:Em; [|done]. destruct (ow_stat w m) as [s|]; [|done].
  case_match; [|done]. destruct (sanitize_observed_path m) as [q|] eqn:Es; [|done]. intros [= <-].
  eapply sanitize_word; [|exact Es]. eapply scan_mountpoint_no_nul; [|exact Em]. apply until_nul_no_nul.
Qed.

(** Every text of a resolved path is one word; it is absolute unless nothing
    was found. *)
Lemma resolve_path_word dev ino :
  let r := resolve_path w dev ino in
  word r.1.1 /\ word r.1.2 /\ (r.2 <> NotFound -> is_absolute r.1.1 = true).
Proof.
  unfold resolve_path. destruct (resolve_by_procfd _ _ _ _) as [q|] eqn:Ef; cbn [fst snd].
  { apply procfd_word in Ef as [Hw Ha]; [|done]. split; [done|]. split; [|done].
    destruct (parent_of q) as [d|] eqn:Ed; [by eapply parent_of_word|constructor]. }
  destruct (dev_to_mountpoint w dev) as [mp|] eqn:Em; cbn [fst snd].
  - unfold dev_to_mountpoint in Em. destruct (ow_mounts w); [|done].
    apply mount_lines_word in Em as [Hw Ha]. split; [|split; [constructor|]].
    + apply take_word. word_parts; [case_match; [apply Forall_nil_2|done]|by apply lit_word|apply print_u_word|by apply lit_word].
    + intros _. case_match; [done|]. by destruct mp.
  - split; [|split; [constructor|done]].
    word_parts; [by apply lit_word|apply print_x_word|by apply lit_word|apply print_u_word|by apply lit_word].
Qed.

Lemma make_entry_hints nrp kv :
  word (en_path_hint (make_entry w nrp kv)) /\ word (en_parent_hint (make_entry w nrp kv))
  /\ ((resolve_path w (ok_dev kv.1) (ok_ino kv.1)).2 <> NotFound -> en_path_hint (make_entry w nrp kv) <> [] ->
      is_absolute (en_path_hint (make_entry w nrp kv)) = true).
Proof.
  destruct kv as [k v]. unfold make_entry. destruct nrp; [by repeat constructor|]. cbn [fst].
  destruct (resolve_path_word (ok_dev k) (ok_ino k)) as (Hp & Hpar & Ha).
  destruct (resolve_path w (ok_dev k) (ok_ino k)) as [[p par] how]. cbn [en_path_hint en_parent_hint snd].
  split; [done|]. split; [|auto]. destruct par as [|c par]; [|done]. case_match; [|constructor].
  by destruct (resolve_path_word (ok_parent_dev k) (ok_parent_ino k)).
Qed.

(** *** Every line of the profile is well formed *)

Definition actor_reg_ok (a : actor_reg) : Prop :=
  actor_name_valid (ar_name a) = true /\ path_word (ar_path a) /\ ends_visibly (ar_path a).
Definition entry_ok (e : obs_entry) : Prop :=
  word (en_path_hint e) /\ word (en_parent_hint e)
  /\ (en_path_hint e <> [] -> is_absolute (en_path_hint e) = true).
Definition group_ok (g : dir_group) : Prop := word (dg_ppath g).

(** A line of the block of actor [a], after its declaration. *)
Definition block_line (a : cstring) (l : pline) : Prop :=
  pline_ok l /\ match l with PActor _ _ => False | PSealDir _ b | PSealFile _ b => b = a | _ => True end.

Lemma update_dir_ok pdev pino f l l' :
  (forall g, group_ok g -> group_ok (f g)) -> Forall group_ok l -> update_dir pdev pino f l = Some l' ->
  Forall group_ok l'.
Proof.
  intros Hf Hl. revert l'. induction Hl as [|g l Hg Hl IH]; intros l'; cbn [update_dir]; [done|].
  case_match; [intros [= <-]; constructor; auto|].
  destruct (update_dir pdev pino f l) as [r|]; [|done]. intros [= <-]. constructor; auto.
Qed.

Lemma upsert_dir_ok pdev pino f new l :
  (forall g, group_ok g -> group_ok (f g)) -> group_ok new -> Forall group_ok l ->
  Forall group_ok (upsert_dir pdev pino f new l).
Proof.
  intros Hf Hn Hl. unfold upsert_dir. destruct (update_dir _ _ _ _) as [l'|] eqn:E; [by eapply update_dir_ok|].
  case_match; [|done]. apply Forall_app. split; [done|]. by constructor.
Qed.

Lemma build_dirs_ok slot entries : Forall entry_ok entries -> Forall group_ok (build_dirs slot entries).
Proof.
  intros He. unfold build_dirs. assert (Hl : Forall group_ok []) by constructor. revert Hl.
  generalize (@nil dir_group). induction He as [|e entries (H1 & H2 & _) He IH]; intros l Hl; cbn [foldl]; [done|].
  apply IH. unfold group_entry. repeat (case_match; [done|]). case_match; [by apply upsert_dir_ok|].
  case_match; [done|]. apply upsert_dir_ok; [|done|done]. intros g Hg. unfold group_ok. cbn [dg_ppath]. by case_match.
Qed.

Lemma comment_line a s : plain_lit s = true -> block_line a (comment s).
Proof. intros H. split; [by apply lit_one_line|done]. Qed.

(** A comment put together from literals and words. *)
Ltac comment_parts :=
  split; [|done]; cbn [pline_ok];
  repeat match goal with |- one_line (_ ++ _) => apply one_line_app end;
  first [by apply lit_one_line | apply word_one_line, print_u_word | apply word_one_line, print_x_word
        | by apply word_one_line | idtac].

Lemma launcher_lines_ok nrp slot ls a : Forall (block_line a) (launcher_lines w nrp slot ls).
Proof.
  unfold launcher_lines. constructor; [by apply comment_line|].
  set (mine := List.filter _ ls). destruct mine as [|x mine]; [constructor; [by apply comment_line|constructor]|].
  rewrite Forall_fmap. apply Forall_forall. intros lv _. unfold compose.
  set (p := if nrp then _ else _). assert (Hp : word p).
  { unfold p. destruct nrp; [constructor|]. apply resolve_path_word. }
  destruct p as [|c p]; comment_parts.
Qed.

Lemma file_rules_ok a g earlier entries :
  actor_name_valid (ar_name a) = true -> Forall entry_ok entries ->
  Forall (block_line (ar_name a)) (file_rules a g earlier entries).
Proof.
  intros Ha He. revert earlier. induction He as [|e entries (H1 & _ & H2) He IH]; intros earlier; cbn [file_rules];
    [constructor|]. apply Forall_app. split; [|apply IH]. case_match eqn:Eb; [|constructor].
  apply Forall_singleton. split; [|done]. split; [|done]. split; [done|]. apply H2. intros Hn.
  rewrite Hn in Eb. rewrite (bool_decide_eq_true_2 ([] = [])), andb_false_r in Eb by done. done.
Qed.

Lemma or_unresolved_word p : word p -> word (or_unresolved p).
Proof. destruct p; [intros _; by apply lit_word|done]. Qed.

Lemma dir_rules_ok dd rc a entries g :
  actor_name_valid (ar_name a) = true -> Forall entry_ok entries -> group_ok g ->
  Forall (block_line (ar_name a)) (dir_rules dd rc a entries g).
Proof.
  intros Ha He Hg. unfold group_ok in Hg. unfold dir_rules. cbn zeta.
  pose proof (or_unresolved_word _ Hg) as Hu. destruct (_ && _ && _) eqn:Ec.
  - apply andb_true_iff in Ec as [[_ Habs]%andb_true_iff _]. apply Forall_app. split.
    + destruct dd; [|constructor; [by apply comment_line|by apply file_rules_ok]].
      constructor; [by destruct rc; apply comment_line|]. apply Forall_singleton. done.
    + apply Forall_app. split; (case_match; [|constructor]); rewrite !Forall_cons; split_and!;
        try (by apply comment_line); try (by apply Forall_nil_2).
      all: comment_parts.
  - destruct (0 <? dg_count g); [apply Forall_app; split; [by apply file_rules_ok|]|].
    all: destruct (dg_has_creates g); [|constructor].
    all: constructor; [comment_parts|constructor; [by apply comment_line|constructor]].
Qed.

Lemma unresolved_lines_ok a entries : Forall (block_line (ar_name a)) (unresolved_lines a entries).
Proof.
  unfold unresolved_lines. rewrite Forall_fmap. apply Forall_forall. intros e _. unfold compose.
  comment_parts. unfold op_class_str. repeat case_match; by apply lit_one_line.
Qed.

Definition block_start (a : actor_reg) : list pline :=
  [PBlank; PComment (lit " target: " ++ ar_name a); PActor (ar_name a) (ar_path a)].

Lemma actor_block_ok nrp dd rc entries ls a :
  actor_reg_ok a -> Forall entry_ok entries ->
  exists body, actor_block w nrp dd rc entries ls a = block_start a ++ PSealBinary (ar_path a) :: body
    /\ Forall pline_ok (block_start a) /\ pline_ok (PSealBinary (ar_path a))
    /\ Forall (block_line (ar_name a)) body.
Proof.
  intros (Hn & Hp & Hv) He. eexists. split; [reflexivity|]. split; [|split; [done|]].
  - repeat (apply Forall_cons; split); try done.
    apply one_line_app; [by apply lit_one_line|by apply word_one_line, name_word].
  - apply Forall_cons. split; [done|]. apply Forall_app. split; [apply launcher_lines_ok|].
    apply Forall_cons. split; [done|]. apply Forall_app. split; [|apply unresolved_lines_ok].
    apply Forall_join. rewrite Forall_fmap. eapply Forall_impl; [by apply build_dirs_ok|].
    intros g Hg. by apply dir_rules_ok.
Qed.

Lemma join_names_one_line l : Forall one_line l -> one_line (join_names (lit ",") l).
Proof.
  induction 1 as [|x l Hx Hl IH]; cbn [join_names]; [by split; constructor|]. destruct l as [|y l]; [done|].
  apply one_line_app; [done|]. apply one_line_app; [by apply lit_one_line|done].
Qed.

Definition header_line (l : pline) : Prop := pline_ok l /\ match l with PComment _ => True | _ => False end.

Lemma header_lines_ok actors dd st : Forall actor_reg_ok actors -> Forall header_line (header_lines w actors dd st).
Proof.
  intros Ha. assert (Hc : forall s, plain_lit s = true -> header_line (comment s)).
  { intros s Hs. split; [by apply lit_one_line|done]. }
  assert (Hw : forall n l, Forall header_line l -> Forall header_line (warn_if n l)).
  { intros n l Hl. unfold warn_if. case_match; [done|constructor]. }
  assert (Hnames : one_line (join_names (lit ",") (ar_name <$> actors))).
  { apply join_names_one_line. rewrite Forall_fmap. eapply Forall_impl; [exact Ha|].
    intros a (Hn & _). by apply word_one_line, name_word. }
  unfold header_lines. repeat (apply Forall_app; split); try apply Hw.
  1: repeat (apply Forall_cons; split); try apply Forall_nil_2; try (by apply Hc).
  4: destruct dd; [constructor|repeat (apply Forall_cons; split); try apply Forall_nil_2; by apply Hc].
  all: try match goal with |- Forall _ _ => apply Forall_singleton end; comment_parts; try done.
  by split; repeat constructor.
Qed.
End Texts.
