(* ===== verification/ObserveLoad.v ===== *)
(** * Loading what the observer wrote

    The theorems on the observer's profile: the loader reads back every line
    that was written, accepts the whole profile, and refuses to enforce it
    without the explicit override. *)

From S2P Require Import Prelude Abi Kernel CLib Config Loader LoaderProps ObserveBpf Observe ObserveMain ObserveSetup ObserveText ObserveProps.
From Stdlib Require Import Ascii.

#[local] Open Scope Z_scope.

(** ** The candidate mark *)

Section Candidate.
Context (mode : load_mode) (w : lworld).

Lemma after_decl_candidate decl st : l_candidate (after_decl mode w decl st) = l_candidate st.
Proof. unfold after_decl. repeat case_match; done. Qed.

Lemma seal_line_candidate rest st : l_candidate (seal_line mode w rest st) = l_candidate st.
Proof. unfold seal_line, apply_seal. repeat case_match; done. Qed.

Lemma conf_directive_candidate line st : l_candidate (conf_directive mode w line st) = l_candidate st.
Proof.
  unfold conf_directive. repeat case_match; try done; auto using after_decl_candidate, seal_line_candidate.
Qed.

(** Once set it stays. *)
Lemma conf_lines_candidate d chunks st :
  l_candidate st = true -> l_candidate (conf_lines mode w d chunks st) = true.
Proof.
  revert d st. induction chunks as [|c chunks IH]; intros d st H; cbn [conf_lines]; [done|].
  destruct d; [by apply IH|]. case_match; [by apply IH|]. case_match; [by apply IH|].
  apply IH. rewrite conf_directive_candidate. by case_match.
Qed.

Lemma err_if_mono b st : l_errs st <> 0%nat -> l_errs (err_if b st) <> 0%nat.
Proof. by destruct b. Qed.

(** A marked profile fails on the enforcing path. *)
Lemma conf_finish_candidate st : l_candidate st = true -> l_errs (conf_finish mode w true false st) <> 0%nat.
Proof.
  intros Hc. unfold conf_finish. rewrite Hc. cbn [andb negb err_if].
  set (st2 := err_if _ (add_err st)). assert (H2 : l_errs st2 <> 0%nat) by by apply err_if_mono.
  destruct (strict_validate_launchers w (l_ps st2)) as [ps ok].
  set (st3 := err_if (negb ok) _). assert (H3 : l_errs st3 <> 0%nat) by by apply err_if_mono.
  destruct mode; [|done..]. by rewrite (proj2 (Nat.eqb_neq _ _) H3).
Qed.
End Candidate.

(** ** Parsing only *)

Section Parse.
Context (lw : lworld).

(** Lines that only add to the count of seals. *)
Definition quiet (st st' : load_state) : Prop :=
  l_errs st' = l_errs st /\ l_ps st' = l_ps st /\ l_maps st' = l_maps st /\ (l_sealed st <= l_sealed st')%nat.

#[export] Instance quiet_refl : Reflexive quiet.
Proof. by intros st. Qed.

#[export] Instance quiet_trans : Transitive quiet.
Proof. intros a b c (? & ? & ? & ?) (? & ? & ? & ?). split_and!; (congruence || lia). Qed.

Lemma mark_candidate_quiet line st : quiet st (mark_candidate line st).
Proof. unfold mark_candidate. case_match; [|done]. by split_and!. Qed.

Lemma apply_seal_quiet p flags actor st : is_absolute p = true -> quiet st (apply_seal ParseOnly lw p flags actor st).
Proof. intros H. unfold apply_seal. rewrite H. split_and!; try done. cbn. lia. Qed.

Lemma block_line_quiet a ag l st :
  block_line a l -> profile_find_actor (l_ps st) a = Some ag -> quiet st (pline_meaning ParseOnly lw st l).
Proof.
  intros [Hl Hs] Ha. destruct l as [t| |n p|p|p b|p b]; cbn [pline_meaning pline_ok] in *.
  - apply mark_candidate_quiet.
  - done.
  - done.
  - apply apply_seal_quiet. by destruct Hl.
  - subst b. unfold seal_for. rewrite Ha. apply apply_seal_quiet. apply Hl.
  - subst b. unfold seal_for. rewrite Ha. apply apply_seal_quiet. apply Hl.
Qed.

Lemma block_quiet a ag ls st :
  Forall (block_line a) ls -> profile_find_actor (l_ps st) a = Some ag ->
  quiet st (foldl (pline_meaning ParseOnly lw) st ls).
Proof.
  intros H. revert st. induction H as [|l ls Hl H IH]; intros st Ha; cbn [foldl]; [done|].
  pose proof (block_line_quiet a ag l st Hl Ha) as Hq. etrans; [exact Hq|]. apply IH.
  by destruct Hq as (_ & -> & _).
Qed.

Lemma header_quiet ls st : Forall header_line ls -> quiet st (foldl (pline_meaning ParseOnly lw) st ls).
Proof.
  intros H. revert st. induction H as [|l ls [_ Hl] H IH]; intros st; cbn [foldl]; [done|].
  destruct l; try done. etrans; [apply (mark_candidate_quiet (lit "#" ++ text ++ [LF]))|apply IH].
Qed.

Lemma find_actor_None ps n : profile_find_actor ps n = None <-> n ∉ ag_name <$> ps_actors ps.
Proof.
  unfold profile_find_actor. rewrite fmap_None, list_find_None, Forall_forall, list_elem_of_fmap. naive_solver.
Qed.

Lemma find_actor_snoc ps n p :
  profile_find_actor ps n = None -> profile_find_actor (add_actor (plain_group n p) ps) n = Some (plain_group n p).
Proof.
  unfold profile_find_actor. cbn [ps_actors add_actor]. rewrite fmap_None. intros H.
  rewrite list_find_app_r by done. cbn. by rewrite decide_True by done.
Qed.

(** A block declares its actor and seals only for it. *)
Lemma actor_block_parses w nrp dd rc entries ls a st :
  Forall (fun f => no_char NUL (fl_target f)) (ow_proc_fds w) -> actor_reg_ok a -> Forall entry_ok entries ->
  profile_find_actor (l_ps st) (ar_name a) = None ->
  let st' := foldl (pline_meaning ParseOnly lw) st (actor_block w nrp dd rc entries ls a) in
  l_errs st' = l_errs st /\ l_ps st' = add_actor (plain_group (ar_name a) (ar_path a)) (l_ps st)
  /\ l_maps st' = l_maps st /\ (l_sealed st < l_sealed st')%nat.
Proof.
  intros Hf Ha He Hn. destruct (actor_block_ok w Hf nrp dd rc entries ls a Ha He) as (body & -> & _ & Hb & Hbody).
  rewrite foldl_app. cbn [block_start foldl]. set (st1 := pline_meaning ParseOnly lw st PBlank).
  set (st2 := pline_meaning ParseOnly lw st1 (PComment _)).
  assert (H2 : quiet st st2) by apply mark_candidate_quiet. destruct H2 as (E1 & E2 & E3 & E4).
  set (st3 := pline_meaning ParseOnly lw st2 (PActor _ _)).
  assert (H3 : st3 = set_ps (add_actor (plain_group (ar_name a) (ar_path a)) (l_ps st)) st2).
  { unfold st3. cbn [pline_meaning]. by rewrite E2, Hn. }
  set (st4 := pline_meaning ParseOnly lw st3 _).
  assert (H4 : st4 = LoadState (l_ps st3) (l_maps st3) (l_errs st3) (S (l_sealed st3)) (l_candidate st3)).
  { unfold st4. cbn [pline_meaning apply_seal]. by destruct Hb as [_ ->]. }
  destruct (block_quiet (ar_name a) (plain_group (ar_name a) (ar_path a)) body st4 Hbody) as (F1 & F2 & F3 & F4).
  { rewrite H4, H3. cbn [l_ps set_ps]. by apply find_actor_snoc. }
  cbn zeta. rewrite F1, F2, F3. rewrite H4, H3 in F4 |- *. cbn in *. split_and!; [done..|lia].
Qed.

Lemma actors_parse w nrp dd rc entries ls actors st :
  Forall (fun f => no_char NUL (fl_target f)) (ow_proc_fds w) -> Forall actor_reg_ok actors -> Forall entry_ok entries ->
  NoDup (ar_name <$> actors) -> (forall a, a ∈ actors -> ar_name a ∉ ag_name <$> ps_actors (l_ps st)) ->
  let st' := foldl (pline_meaning ParseOnly lw) st (mjoin (actor_block w nrp dd rc entries ls <$> actors)) in
  l_errs st' = l_errs st /\ l_maps st' = l_maps st /\ (l_sealed st + length actors <= l_sealed st')%nat.
Proof.
  intros Hf Ha He. revert st. induction Ha as [|a actors Hok Ha IH]; intros st Hnd Hnew;
    [cbn; split_and!; [done..|lia]|]. cbn [fmap list_fmap] in Hnd |- *. apply NoDup_cons in Hnd as [Hna Hnd].
  change (mjoin (?x :: ?y)) with (x ++ mjoin y). rewrite foldl_app.
  pose proof (actor_block_parses w nrp dd rc entries ls a st Hf Hok He) as Hb.
  destruct Hb as (B1 & B2 & B3 & B4); [apply find_actor_None, Hnew; set_solver|].
  set (st1 := foldl _ st _) in *. specialize (IH st1 Hnd).
  destruct IH as (C1 & C2 & C3).
  { intros b Hb. rewrite B2. cbn [ps_actors add_actor]. rewrite fmap_app. cbn. apply not_elem_of_app. split.
    - apply Hnew. set_solver.
    - rewrite list_elem_of_singleton. intros E. apply Hna. rewrite <- E. by apply list_elem_of_fmap_2. }
  cbn zeta. rewrite C1, C2, B1, B3. split_and!; [done..|]. cbn [length]. lia.
Qed.
End Parse.

(** ** The theorems *)

(** What a list of written lines means: the meaning of each line in turn, then
    the passes of the loader. *)
Definition profile_meaning (mode : load_mode) (w : lworld) (ls : list pline)
  (allow_empty pin_enforce_path allow_candidate : bool) : option maps :=
  let w' := mode_world mode w in
  let st := conf_finish mode w' pin_enforce_path allow_candidate (foldl (pline_meaning mode w') load_init ls) in
  if negb (Nat.eqb (l_errs st) 0) then None
  else if Nat.eqb (l_sealed st) 0 && negb allow_empty then None
  else Some (l_maps st).

Lemma load_conf_lines mode w ls allow_empty pin_enforce_path allow_candidate :
  Forall (fun l => pline_ok l /\ (length (render_line l) < LINE_SIZE - 1)%nat) ls ->
  load_conf mode w (render ls) allow_empty pin_enforce_path allow_candidate
  = profile_meaning mode w ls allow_empty pin_enforce_path allow_candidate.
Proof. intros H. unfold load_conf, profile_meaning. by rewrite profile_lines. Qed.

(** Two header lines are enough for the refusal. *)
Lemma profile_refused mode w lw no_dir_dest no_resolve entries actors launchers st allow_empty :
  load_conf mode lw (render (emit_profile w no_dir_dest no_resolve entries actors launchers st))
    allow_empty true false = None.
Proof.
  unfold load_conf. set (text := render _).
  assert (Ht : exists rest, text = lit "# generated by compartment-bpf observe" ++ LF ::
                 lit "#@compartment-bpf-profile-status: candidate" ++ LF :: rest) by (by eexists).
  destruct Ht as [rest ->]. unfold LINE_SIZE.
  rewrite fgets_all_line; [|by apply lit_one_line|by apply Nat.ltb_lt].
  rewrite fgets_all_line; [|by apply lit_one_line|by apply Nat.ltb_lt].
  cbn [fmap list_fmap fst]. rewrite !conf_lines_line by (first [by apply lit_one_line | by apply Nat.ltb_lt]).
  set (st0 := conf_directive mode _ (strip_hash (lit "#@compartment-bpf-profile-status: candidate" ++ [LF])) _).
  assert (Hc : l_candidate st0 = true) by (unfold st0; by rewrite conf_directive_candidate).
  pose proof (conf_lines_candidate mode (mode_world mode lw) false (fgets_all 2047 rest).*1 st0 Hc) as H1.
  apply (conf_finish_candidate mode (mode_world mode lw)) in H1. cbn [Nat.sub] in *.
  by rewrite (proj2 (Nat.eqb_neq _ _) H1).
Qed.

Lemma emit_profile_ok w no_dir_dest no_resolve entries actors launchers st :
  one_line (ow_now w) -> Forall (fun f => no_char NUL (fl_target f)) (ow_proc_fds w) ->
  Forall actor_reg_ok actors -> Forall entry_ok entries ->
  Forall pline_ok (emit_profile w no_dir_dest no_resolve entries actors launchers st).
Proof.
  intros Hnow Hfds Ha He. apply Forall_app. split.
  - eapply Forall_impl; [by apply header_lines_ok|]. by intros l [? _].
  - apply Forall_join. rewrite Forall_fmap. eapply Forall_impl; [exact Ha|]. intros a Hok. unfold compose.
    destruct (actor_block_ok w Hfds no_resolve (0x0005 <=? detect_runtime_abi w no_dir_dest)
                (0x0006 <=? detect_runtime_abi w no_dir_dest) entries launchers a Hok He) as (body & -> & H1 & H2 & H3).
    apply Forall_app. split; [done|]. apply Forall_cons. split; [done|]. eapply Forall_impl; [exact H3|]. by intros l [? _].
Qed.

Lemma emit_profile_parses lw w no_dir_dest no_resolve entries actors launchers st :
  one_line (ow_now w) -> Forall (fun f => no_char NUL (fl_target f)) (ow_proc_fds w) ->
  Forall actor_reg_ok actors -> Forall entry_ok entries -> NoDup (ar_name <$> actors) ->
  let st' := foldl (pline_meaning ParseOnly lw) load_init
               (emit_profile w no_dir_dest no_resolve entries actors launchers st) in
  l_errs st' = 0%nat /\ l_maps st' = maps_empty /\ (length actors <= l_sealed st')%nat.
Proof.
  intros Hnow Hfds Ha He Hnd. unfold emit_profile. cbn zeta. rewrite foldl_app.
  destruct (header_quiet lw _ load_init (header_lines_ok w Hnow actors
              (0x0005 <=? detect_runtime_abi w no_dir_dest) st Ha)) as (E1 & E2 & E3 & E4).
  set (st1 := foldl _ load_init _) in *.
  destruct (actors_parse lw w no_resolve (0x0005 <=? detect_runtime_abi w no_dir_dest)
    (0x0006 <=? detect_runtime_abi w no_dir_dest) entries launchers actors st1 Hfds Ha He Hnd) as (F1 & F2 & F3).
  { intros a _. rewrite E2. apply not_elem_of_nil. }
  rewrite F1, F2, E1, E3. split_and!; [done..|]. cbn in E4. lia.
Qed.

(** C31: printing and loading a profile is a round trip: for well-formed lines
    that fit the line buffer, the loader's fgets, comment stripping, tokenisers
    and flag parser, run on the printed text, do exactly what the lines mean, in
    all three modes. *)
Theorem written_profile_read_back mode w ls allow_empty pin_enforce_path allow_candidate :
  Forall (fun l => pline_ok l /\ (length (render_line l) < LINE_SIZE - 1)%nat) ls ->
  load_conf mode w (render ls) allow_empty pin_enforce_path allow_candidate
  = profile_meaning mode w ls allow_empty pin_enforce_path allow_candidate.
Proof. apply load_conf_lines. Qed.

(** Discharging the side conditions on concrete lines. *)
Definition word_b (s : cstring) : bool := forallb word_char s.
Definition pline_okb (l : pline) : bool :=
  match l with
  | PComment t => forallb (fun c => negb (Ascii.eqb c LF) && negb (Ascii.eqb c NUL)) t
  | PBlank => true
  | PActor n p => actor_name_valid n && word_b p && is_absolute p
                  && match last p with Some c => negb (isspace c) | None => true end
  | PSealBinary p => word_b p && is_absolute p
  | PSealDir p a | PSealFile p a => word_b p && is_absolute p && actor_name_valid a
  end.

Lemma word_b_true s : word_b s = true -> word s.
Proof. unfold word_b. rewrite forallb_forall. intros H. apply Forall_forall. intros c Hc. by apply H, list_elem_of_In. Qed.

Lemma pline_okb_true l : pline_okb l = true -> pline_ok l.
Proof.
  destruct l as [t| |n p|p|p a|p a]; cbn [pline_okb pline_ok]; rewrite ?andb_true_iff; unfold path_word, ends_visibly;
    try naive_solver (eauto using word_b_true).
  - rewrite forallb_forall. intros H. split; apply Forall_forall; intros c Hc ->;
      by specialize (H _ (proj1 (list_elem_of_In _ _) Hc)).
  - intros (((? & ?%word_b_true) & ?) & Hl). split_and!; try done. destruct (last p); [|done]. by apply negb_true_iff.
Qed.

Definition short_ok (l : pline) : bool := pline_okb l && Nat.ltb (length (render_line l)) (LINE_SIZE - 1).

Lemma short_ok_all ls :
  forallb short_ok ls = true -> Forall (fun l => pline_ok l /\ (length (render_line l) < LINE_SIZE - 1)%nat) ls.
Proof.
  rewrite forallb_forall. intros H. apply Forall_forall. intros l Hl.
  specialize (H l (proj1 (list_elem_of_In _ _) Hl)). apply andb_true_iff in H as [H1 H2%Nat.ltb_lt].
  split; [by apply pline_okb_true|done].
Qed.

Definition written : list pline :=
  [comment " written by hand"; PActor (lit "app") (lit "/bin/app"); PSealBinary (lit "/bin/app"); PBlank;
   PSealFile (lit "/srv/data") (lit "app")].

Lemma written_profile_read_back_witness :
  load_conf RealLoad Host.fs (render written) false true false = profile_meaning RealLoad Host.fs written false true false
  /\ bool_decide (is_Some (profile_meaning RealLoad Host.fs written false true false)) = true.
Proof. split; [apply written_profile_read_back, short_ok_all; vm_compute; reflexivity|vm_compute; reflexivity]. Defined.

(** A profile written by the observer is never enforced by accident: whatever
    was observed, its header marks it as a candidate, and a load on the enforcing
    path without --allow-candidate fails. *)
Theorem candidate_never_enforced mode w lw no_dir_dest no_resolve entries actors launchers st allow_empty :
  load_conf mode lw (render (emit_profile w no_dir_dest no_resolve entries actors launchers st))
    allow_empty true false = None.
Proof. apply profile_refused. Qed.

(** The profile the observer writes is one the loader parses: with actor
    names and paths the loader accepts, every observed inode found on the file
    system and lines that fit the loader's buffer, the parse reports no error,
    except for the candidate mark on the enforcing path. *)
Theorem observed_profile_parses w lw no_dir_dest no_resolve rows actors launchers st
  allow_empty pin_enforce allow_candidate :
  one_line (ow_now w) -> Forall (fun f => no_char NUL (fl_target f)) (ow_proc_fds w) ->
  actors <> [] -> Forall actor_reg_ok actors -> NoDup (ar_name <$> actors) ->
  Forall (fun kv : observed_key * observed_value => (resolve_path w (ok_dev kv.1) (ok_ino kv.1)).2 <> NotFound) rows ->
  let profile := emit_profile w no_dir_dest no_resolve (make_entry w no_resolve <$> rows) actors launchers st in
  Forall (fun l => (length (render_line l) < LINE_SIZE - 1)%nat) profile ->
  load_conf ParseOnly lw (render profile) allow_empty pin_enforce allow_candidate
  = if pin_enforce && negb allow_candidate then None else Some maps_empty.
Proof.
  intros Hnow Hfds Hne Hact Hnd Hrows profile Hlen.
  destruct (pin_enforce && negb allow_candidate) eqn:Epe.
  { apply andb_true_iff in Epe as [-> ->%negb_true_iff]. apply profile_refused. }
  assert (He : Forall entry_ok (make_entry w no_resolve <$> rows)).
  { rewrite Forall_fmap. eapply Forall_impl; [exact Hrows|]. intros kv Hkv. unfold compose.
    destruct (make_entry_hints w Hfds no_resolve kv) as (? & ? & ?). split_and!; auto. }
  assert (Hok : Forall pline_ok profile) by (by apply emit_profile_ok).
  rewrite load_conf_lines by (apply Forall_and; done). unfold profile_meaning. cbn [mode_world].
  destruct (emit_profile_parses (no_hold lw) w no_dir_dest no_resolve (make_entry w no_resolve <$> rows) actors launchers st)
    as (E1 & E2 & E3); [done..|]. fold profile in E1, E2, E3.
  set (st' := foldl _ load_init profile) in *. unfold conf_finish.
  rewrite <- andb_assoc, Epe, andb_false_r. cbn [err_if]. rewrite E1, E2. cbn [Nat.eqb negb].
  destruct (l_sealed st'); [|done]. destruct actors; [done|cbn in E3; lia].
Qed.

(** A run in which the application wrote one file. *)
Definition app_row : observed_key * observed_value :=
  (ObservedKey 0 AO_OP_OPEN_W 0x800001 41 0x800001 42, ObservedValue 1 0 0 7 7 true false).
Definition no_stats : run_stats := RunStats 0 0 0 0.
Definition app_profile (rows : list (observed_key * observed_value)) : list pline :=
  emit_profile Host.host false false (make_entry Host.host false <$> rows) [Host.app] [] no_stats.

Definition is_seal (l : pline) : bool :=
  match l with PSealBinary _ | PSealDir _ _ | PSealFile _ _ => true | _ => false end.

Lemma observed_profile_parses_witness :
  List.filter is_seal (app_profile [app_row])
  = [PSealBinary (lit "/bin/app"); PSealFile (lit "/srv/data") (lit "app")]
  /\ load_conf ParseOnly Host.fs (render (app_profile [app_row])) false true true = Some maps_empty.
Proof.
  split; [vm_compute; reflexivity|].
  apply (observed_profile_parses Host.host Host.fs false false [app_row] [Host.app] [] no_stats false true true).
  - by apply lit_one_line.
  - apply Forall_singleton. by apply lit_one_line.
  - done.
  - apply Forall_singleton. split_and!; [reflexivity|split; [by apply lit_word|reflexivity]|reflexivity].
  - apply NoDup_singleton.
  - apply Forall_singleton. vm_compute. discriminate.
  - eapply Forall_impl; [apply short_ok_all; vm_compute; reflexivity|]. by intros l [_ ?].
Defined.

(** ** Profiles that do not load *)

(** An inode that was found nowhere is written as a rule on the text of its
    numbers, and the loader refuses the whole profile. *)
Theorem unresolved_inode_breaks_profile :
  let row := (ObservedKey 0 AO_OP_OPEN_W 0x900001 99 0x800001 42, app_row.2) in
  PSealFile (lit "<dev=0x900001,ino=99>") (lit "app") = default PBlank (last (app_profile [row]))
  /\ load_conf ParseOnly Host.fs (render (app_profile [row])) false false false = None.
Proof. split; vm_compute; reflexivity. Qed.

(** Two actors that use one file get one rule each; the loader's merge rule
    refuses the second. *)
Theorem shared_file_breaks_profile :
  let other := ActorReg (lit "other") (lit "/bin/app") 0x800001 40 1 false in
  let rows := [app_row; (ObservedKey 1 AO_OP_OPEN_W 0x800001 41 0x800001 42, app_row.2)] in
  let profile := render (emit_profile Host.host false false (make_entry Host.host false <$> rows)
                           [Host.app; other] [] no_stats) in
  load_conf ParseOnly Host.fs profile false true true = Some maps_empty
  /\ load_conf DryRun Host.fs profile false true true = None
  /\ load_conf RealLoad Host.fs profile false true true = None.
Proof. split_and!; vm_compute; reflexivity. Qed.

(** The path of an actor is not checked for the characters that end a word. *)
Theorem actor_path_with_space :
  let fs := LWorld (fun _ => Some (LStat 0x81ED 8 1 40 100 1)) (lw_open_rd Host.fs) (lw_fstype Host.fs)
              (lw_dirmode Host.fs) (lw_bytes Host.fs) (lw_nftw Host.fs) (lw_update_seal Host.fs)
              (lw_update_dev Host.fs) (lw_update_launcher Host.fs) (lw_update_state Host.fs) (lw_hold Host.fs) in
  let a := ActorReg (lit "app") (lit "/opt/my app") 0x800001 40 0 false in
  validate_loader_compatible_actor_path fs (ar_path a) = true
  /\ load_conf ParseOnly fs (render (emit_profile Host.host false false [] [a] [] no_stats)) false false false = None.
Proof. split; vm_compute; reflexivity. Qed.
