(* ===== verification/Wrapper.v ===== *)
(** * The actor wrapper

    Models [src/compartment-bpf/tools/compartment-actor-wrapper.c] and
    [compartment-dangerous-env.h]: the small static launcher that cleans the
    process before it executes an actor.  Both build shapes are modelled, the
    generic one ([wrapper_main]) and the generated one with a target baked in
    ([generated_main]).

    [wworld] holds the answers of the kernel.  A step that calls [die] is [None]
    (exit status 127).  System call numbers are a parameter ([nr]), as in
    [Seccomp]; memory allocation is assumed to succeed. *)

From S2P Require Import Prelude Abi Kernel CLib Config Seccomp Loader ObserveMain.
From Stdlib Require Import Ascii.

#[local] Open Scope Z_scope.

(** ** Dangerous names *)

Definition DANGEROUS_ENV_NAMES : list string :=
  ["LD_PRELOAD"; "LD_AUDIT"; "LD_LIBRARY_PATH"; "LD_DEBUG"; "LD_DEBUG_OUTPUT"; "LD_PROFILE";
   "LD_TRACE_LOADED_OBJECTS"; "LD_BIND_NOW"; "LD_BIND_NOT"; "LD_DYNAMIC_WEAK"; "LD_HWCAP_MASK";
   "LD_ORIGIN_PATH"; "LD_POINTER_GUARD"; "LD_PROFILE_OUTPUT"; "LD_SHOW_AUXV"; "LD_USE_LOAD_BIAS";
   "GLIBC_TUNABLES"; "GCONV_PATH"; "GETCONF_DIR"; "LOCPATH"; "LOCALDOMAIN"; "NLSPATH"; "RES_OPTIONS";
   "RESOLV_HOST_CONF"; "HOSTALIASES"; "NIS_PATH"; "IFS"; "MALLOC_TRACE"; "MALLOC_CHECK_"; "MALLOC_TOP_PAD_";
   "MALLOC_ARENA_TEST"; "MALLOC_ARENA_MAX"; "MALLOC_CONF"; "BASH_ENV"; "ENV"; "CDPATH"; "BASHOPTS";
   "SHELLOPTS"; "NSS_PATH"; "NSS_STRICT_NOLOGIN"; "OPENSSL_CONF"; "OPENSSL_ENGINES"; "OPENSSL_MODULES";
   "SSL_CERT_FILE"; "SSL_CERT_DIR"; "CURL_CA_BUNDLE"; "CURL_HOME"; "KRB5_CONFIG"; "KRB5CCNAME"; "SASL_PATH";
   "SASL_CONF_PATH"; "PYTHONPATH"; "PYTHONSTARTUP"; "PYTHONHOME"; "PYTHONINSPECT"; "PERL5LIB"; "PERL5OPT";
   "PERL5DB"; "RUBYLIB"; "RUBYOPT"; "NODE_OPTIONS"; "NODE_PATH"; "JAVA_TOOL_OPTIONS"; "_JAVA_OPTIONS";
   "JDK_JAVA_OPTIONS"; "GIT_EXEC_PATH"; "GIT_TRACE"; "GIT_TEMPLATE_DIR"]%string.

Definition compartment_env_name_is_dangerous (name : cstring) : bool :=
  has_prefix (lit "BASH_FUNC_") name || existsb (fun s => streq name (lit s)) DANGEROUS_ENV_NAMES.

Definition env_is_dangerous (name : cstring) : bool := compartment_env_name_is_dangerous name.

(** [None]: the wrapper dies. *)
Definition allow_add (al : list cstring) (name : cstring) : option (list cstring) :=
  if env_is_dangerous name then None else Some (al ++ [name]).

(** ** The kernel's answers *)

Inductive seccomp_answer := SecOk | SecNosys | SecErr.

Record wworld := WWorld {
  ww_at_base : Z;                           (* getauxval (AT_BASE) *)
  ww_dumpable_ok : bool;
  ww_nnp_ok : bool;
  ww_ambient : option bool;                 (* None: ok; Some true: EINVAL or ENOSYS *)
  ww_close_range_ok : bool;
  ww_open_max : Z;                          (* sysconf (_SC_OPEN_MAX) *)
  ww_open : cstring -> option lstat;        (* open (O_PATH | O_NOFOLLOW), fstat *)
  ww_clearenv_ok : bool;
  ww_setenv_ok : bool;
  ww_seccomp : sock_fprog -> seccomp_answer;
  ww_prctl_seccomp_ok : sock_fprog -> bool;
  ww_exec_ok : bool
}.

(** What the wrapper changes of its own process. *)
Record wproc := WProc {
  wp_fds : list Z;
  wp_undumpable : bool; wp_no_new_privs : bool; wp_ambient_cleared : bool;
  wp_filter : option sock_fprog
}.

Definition warn_or_die (degraded ok : bool) : option unit := if ok || degraded then Some tt else None.

(** ** Hardening steps *)

Definition harden_prctl (W : wworld) (degraded : bool) (p : wproc) : option wproc :=
  warn_or_die degraded (ww_dumpable_ok W) ≫= fun _ =>
  if negb (ww_nnp_ok W) then None
  else
    let p' amb := WProc (wp_fds p) (ww_dumpable_ok W || wp_undumpable p) true amb (wp_filter p) in
    match ww_ambient W with
    | None => Some (p' true)
    | Some true => Some (p' (wp_ambient_cleared p))
    | Some false => warn_or_die degraded false ≫= fun _ => Some (p' (wp_ambient_cleared p))
    end.

Definition set_fds (l : list Z) (p : wproc) : wproc :=
  WProc l (wp_undumpable p) (wp_no_new_privs p) (wp_ambient_cleared p) (wp_filter p).

Definition close_inherited_fds (W : wworld) (p : wproc) : wproc :=
  if ww_close_range_ok W then set_fds (List.filter (fun fd => fd <? 3) (wp_fds p)) p
  else
    let maxfd := if ww_open_max W <=? 0 then 1024 else ww_open_max W in
    set_fds (List.filter (fun fd => (fd <? 3) || (maxfd <=? fd)) (wp_fds p)) p.

(** [getenv]: the first entry that starts with the name and an equals sign. *)
Definition getenv (environ : list cstring) (name : cstring) : option cstring :=
  match name with
  | [] => None
  | _ => match list_find (fun e => has_prefix (name ++ lit "=") e = true) environ with
         | Some (_, e) => Some (drop (S (length name)) e)
         | None => None
         end
  end.

Definition WRAPPER_FIXED_PATH : cstring := lit "PATH=/usr/sbin:/usr/bin:/sbin:/bin".

Definition snapshot (environ : list cstring) (al : list cstring) : list cstring :=
  omap (fun name => match getenv environ name with Some v => Some (name ++ lit "=" ++ v) | None => None end) al.

(** The environment handed to the target. *)
Definition scrub_env (W : wworld) (degraded : bool) (al environ : list cstring) : option (list cstring) :=
  warn_or_die degraded (ww_clearenv_ok W) ≫= fun _ =>
  warn_or_die degraded (ww_setenv_ok W) ≫= fun _ =>
  Some (WRAPPER_FIXED_PATH :: snapshot environ al).

(** ** The filter *)

Definition DENY : list string :=
  ["ptrace"; "process_vm_readv"; "process_vm_writev"; "pidfd_getfd"; "kcmp"; "bpf"; "perf_event_open";
   "userfaultfd"; "keyctl"; "add_key"; "request_key"; "open_by_handle_at"; "name_to_handle_at"; "mount";
   "umount2"; "move_mount"; "open_tree"; "fsopen"; "fsmount"; "fsconfig"; "fspick"; "mount_setattr"]%string.

Definition PR_SET_MM : Z := 35.
Definition RET_EPERM : Z := Z.lor SECCOMP_RET_ERRNO (Z.land 1 0xFFFF).

Section Filter.
Context (nr : string -> option Z).

(** The entries under [#ifdef __NR_...]. *)
Definition deny_numbers : list Z := omap nr DENY.

Definition wrapper_insns : list sock_filter :=
  [BPF_STMT BPF_LD_W_ABS OFF_ARCH;
   BPF_JUMP BPF_JEQ_K (AUDIT_ARCH ArchX86_64) 1 0;
   BPF_STMT BPF_RET_K SECCOMP_RET_KILL_PROCESS;
   BPF_STMT BPF_LD_W_ABS OFF_NR]
  ++ (match nr "prctl" with
      | Some prctl =>
          [BPF_JUMP BPF_JEQ_K (wrap32 prctl) 0 3;
           BPF_STMT BPF_LD_W_ABS OFF_ARG0_LO;
           BPF_JUMP BPF_JEQ_K PR_SET_MM 0 1;
           BPF_STMT BPF_RET_K RET_EPERM;
           BPF_STMT BPF_LD_W_ABS OFF_NR]
      | None => []
      end)
  ++ seccomp_rules deny_numbers RET_EPERM
  ++ [BPF_STMT BPF_RET_K SECCOMP_RET_ALLOW].

Definition set_filter (f : option sock_fprog) (p : wproc) : wproc :=
  WProc (wp_fds p) (wp_undumpable p) (wp_no_new_privs p) (wp_ambient_cleared p) f.

Definition wrapper_prog : sock_fprog :=
  SockFprog (Z.of_nat (length wrapper_insns) mod 0x10000) wrapper_insns.

Definition install_seccomp (W : wworld) (degraded : bool) (p : wproc) : option wproc :=
  let failed := warn_or_die degraded false ≫= fun _ => Some p in
  match ww_seccomp W wrapper_prog with
  | SecOk => Some (set_filter (Some wrapper_prog) p)
  | SecNosys => if ww_prctl_seccomp_ok W wrapper_prog then Some (set_filter (Some wrapper_prog) p) else failed
  | SecErr => failed
  end.

(** ** Arguments *)

Record wargs := WArgs { wa_degraded : bool; wa_allow : list cstring; wa_target : cstring; wa_args : list cstring }.

(** Option A; [inl] is the exit status. *)
Fixpoint parse_args (args : list cstring) (degraded : bool) (al : list cstring) : Z + wargs :=
  match args with
  | [] => inl 127
  | a :: rest =>
      if streq a (lit "-h") || streq a (lit "--help") then inl 0
      else if streq a (lit "-v") || streq a (lit "--verbose") then parse_args rest degraded al
      else if streq a (lit "--insecure-allow-degraded") then parse_args rest true al
      else if streq a (lit "--actor") then
        match rest with [] => inl 127 | _ :: rest' => parse_args rest' degraded al end
      else if streq a (lit "--allow-env") then
        match rest with
        | [] => inl 127
        | name :: rest' =>
            match allow_add al name with None => inl 127 | Some al' => parse_args rest' degraded al' end
        end
      else if streq a (lit "--") then
        match rest with
        | [] => inl 127
        | target :: targs => if is_absolute target then inr (WArgs degraded al target targs) else inl 127
        end
      else inl 127
  end.

(** Option B: only two options, then the target's arguments. *)
Fixpoint parse_generated (args : list cstring) (degraded : bool) : bool * list cstring :=
  match args with
  | [] => (degraded, [])
  | a :: rest =>
      if streq a (lit "--insecure-allow-degraded") then parse_generated rest true
      else if streq a (lit "-v") || streq a (lit "--verbose") then parse_generated rest degraded
      else (degraded, args)
  end.

Fixpoint bake (names al : list cstring) : option (list cstring) :=
  match names with
  | [] => Some al
  | n :: rest => match allow_add al n with None => None | Some al' => bake rest al' end
  end.

(** ** The whole wrapper *)

Definition target_ok (W : wworld) (target : cstring) : option lstat :=
  match ww_open W target with
  | None => None
  | Some st =>
      if is_type (ls_mode st) S_IFLNK then None
      else if negb (is_type (ls_mode st) S_IFREG) then None
      else if ls_size st =? 0 then None
      else if hasbit (ls_mode st) S_IWOTH then None
      else if negb (hasbit (ls_mode st) 0x40) then None                    (* S_IXUSR *)
      else Some st
  end.

(** The program image that was started: by descriptor, so the file that was
    checked.  The descriptor itself is closed on exec. *)
Record exec_image := ExecImage {
  ex_file : lstat; ex_argv : list cstring; ex_envp : list cstring; ex_proc : wproc
}.

(** From the parsed arguments to [execveat]. *)
Definition run_target (W : wworld) (environ : list cstring) (a : wargs) (p : wproc) : Z + exec_image :=
  let p1 := close_inherited_fds W p in
  match target_ok W (wa_target a) with
  | None => inl 127
  | Some st =>
      match harden_prctl W (wa_degraded a) p1 with
      | None => inl 127
      | Some p2 =>
          match scrub_env W (wa_degraded a) (wa_allow a) environ with
          | None => inl 127
          | Some envp =>
              match install_seccomp W (wa_degraded a) p2 with
              | None => inl 127
              | Some p3 =>
                  if ww_exec_ok W
                  then inr (ExecImage st (after_last_slash (wa_target a) :: wa_args a) envp p3)
                  else inl 127
              end
          end
      end
  end.

Definition wrapper_main (W : wworld) (environ args : list cstring) (p : wproc) : Z + exec_image :=
  if negb (ww_at_base W =? 0) then inl 2
  else match parse_args args false [] with inl rc => inl rc | inr a => run_target W environ a p end.

(** [target] is [TARGET_PATH], [baked] the generated allow-list. *)
Definition generated_main (target : cstring) (baked : list cstring) (W : wworld) (environ args : list cstring)
  (p : wproc) : Z + exec_image :=
  if negb (ww_at_base W =? 0) then inl 2
  else
    let '(degraded, rest) := parse_generated args false in
    match bake baked [] with
    | None => inl 127
    | Some al => run_target W environ (WArgs degraded al target rest) p
    end.
End Filter.
