(* ===== verification/WrapperProps.v ===== *)
(** * What the actor wrapper guarantees

    The filter it installs, the environment it passes on and the state of the
    process it leaves to the actor. *)

From S2P Require Import Prelude Abi Kernel CLib Config ConfigProps Seccomp Loader ObserveMain Wrapper.
From Stdlib Require Import Ascii.

#[local] Open Scope Z_scope.

(** ** The filter *)

Section Filter.
Context (nr : string -> option Z).

(** Denied: the listed calls, and [prctl] with [PR_SET_MM] in the 32 bits the
    kernel reads. *)
Definition wrapper_policy (d : seccomp_data) : Z :=
  if negb (sd_arch d =? AUDIT_ARCH ArchX86_64) then SECCOMP_RET_KILL_PROCESS
  else if bool_decide (nr "prctl" = Some (sd_nr d)) && (wrap32 (sd_arg0 d) =? PR_SET_MM) then RET_EPERM
  else if bool_decide (sd_nr d ∈ deny_numbers nr) then RET_EPERM
  else SECCOMP_RET_ALLOW.

Lemma length_rules l ma : length (seccomp_rules l ma) = (2 * length l)%nat.
Proof. induction l; cbn in *; lia. Qed.

Lemma deny_numbers_ok : nr_table_ok nr -> Forall nr_ok (deny_numbers nr).
Proof.
  intros H. apply Forall_forall. intros n Hn. unfold deny_numbers in Hn.
  apply list_elem_of_omap in Hn as (s & _ & Hs). by apply (H s).
Qed.

Lemma length_omap_le {A B} (f : A -> option B) l : (length (omap f l) <= length l)%nat.
Proof. induction l as [|x l IH]; cbn; [lia|]. destruct (f x); cbn; lia. Qed.

Lemma deny_numbers_len : (length (deny_numbers nr) <= 22)%nat.
Proof. unfold deny_numbers. etrans; [apply length_omap_le|]. by apply Nat.leb_le. Qed.

Lemma wrapper_run d :
  nr_table_ok nr -> run (length (wrapper_insns nr)) (wrapper_insns nr) 0 d = Some (wrapper_policy d).
Proof.
  intros Hnr. unfold wrapper_insns, wrapper_policy. rewrite !length_app, length_rules.
  assert (Hrules : forall fuel, (2 * length (deny_numbers nr) < fuel)%nat ->
    run fuel (seccomp_rules (deny_numbers nr) RET_EPERM ++ [BPF_STMT BPF_RET_K SECCOMP_RET_ALLOW]) (sd_nr d) d
    = Some (if bool_decide (sd_nr d ∈ deny_numbers nr) then RET_EPERM else SECCOMP_RET_ALLOW)).
  { intros fuel Hf. rewrite run_rules by done. by rewrite (wrap32_nr _ (deny_numbers_ok Hnr)). }
  unfold BPF_STMT, BPF_JUMP. cbn [length app Nat.add].
  rewrite (run_ld _ OFF_ARCH (sd_arch d)), run_jeq by done.
  destruct (sd_arch d =? AUDIT_ARCH ArchX86_64); [|done]. cbn [negb]. change (Z.to_nat 1) with 1%nat. cbn [drop].
  rewrite (run_ld _ OFF_NR (sd_nr d)) by done. destruct (nr "prctl") as [pn|] eqn:Ep.
  - cbn [length app Nat.add]. rewrite run_jeq.
    assert (Hp : wrap32 pn = pn) by (pose proof (Hnr _ _ Ep) as Hp; apply Z.mod_small; unfold nr_ok, u32_mod in *; lia).
    rewrite Hp. destruct (Z.eqb_spec (sd_nr d) pn) as [<-|Hne].
    + change (Z.to_nat 0) with 0%nat. cbn [drop]. rewrite (run_ld _ OFF_ARG0_LO (wrap32 (sd_arg0 d))) by done.
      rewrite run_jeq, bool_decide_eq_true_2 by done. cbn [andb].
      destruct (wrap32 (sd_arg0 d) =? PR_SET_MM); [done|]. change (Z.to_nat 1) with 1%nat. cbn [drop].
      rewrite (run_ld _ OFF_NR (sd_nr d)) by done. apply Hrules. lia.
    + change (Z.to_nat 3) with 3%nat. cbn [drop]. rewrite (run_ld _ OFF_NR (sd_nr d)) by done.
      rewrite bool_decide_eq_false_2 by congruence. apply Hrules. lia.
  - cbn [length app Nat.add]. rewrite bool_decide_eq_false_2 by done. apply Hrules. lia.
Qed.

Lemma wrapper_len : (length (wrapper_insns nr) <= 54)%nat.
Proof.
  unfold wrapper_insns. rewrite !length_app, length_rules. pose proof deny_numbers_len.
  destruct (nr "prctl"); cbn [length]; lia.
Qed.
End Filter.

(** The wrapper's filter is the denylist it documents: run on any system
    call it kills a foreign architecture, answers EPERM to the listed calls and
    to prctl with PR_SET_MM in the low half of its first argument, and allows
    everything else; it always ends with a verdict, and its length fits. *)
Theorem wrapper_filter_exact nr d :
  nr_table_ok nr ->
  run_filter (wrapper_prog nr) d = Some (wrapper_policy nr d)
  /\ len (wrapper_prog nr) = Z.of_nat (length (filter (wrapper_prog nr))) /\ len (wrapper_prog nr) <= 4096.
Proof.
  intros Hnr. pose proof (wrapper_len nr) as Hl. unfold run_filter, wrapper_prog. cbn [len filter].
  rewrite Z.mod_small by lia. rewrite Nat2Z.id, take_ge by done. split; [by apply wrapper_run|lia].
Qed.

Definition x86_nr (s : string) : option Z :=
  list_to_map (M := gmap string Z)
    [("ptrace", 101); ("process_vm_readv", 310); ("process_vm_writev", 311); ("pidfd_getfd", 438); ("kcmp", 312);
     ("bpf", 321); ("perf_event_open", 298); ("userfaultfd", 323); ("keyctl", 250); ("add_key", 248);
     ("request_key", 249); ("open_by_handle_at", 304); ("name_to_handle_at", 303); ("mount", 165);
     ("umount2", 166); ("move_mount", 429); ("open_tree", 428); ("fsopen", 430); ("fsmount", 432);
     ("fsconfig", 431); ("fspick", 433); ("mount_setattr", 442); ("prctl", 157)]%string !! s.

Lemma x86_nr_ok : nr_table_ok x86_nr.
Proof.
  intros s n H. unfold x86_nr in H. apply elem_of_list_to_map_2 in H.
  rewrite !elem_of_cons, elem_of_nil in H. unfold nr_ok. naive_solver lia.
Qed.

Lemma wrapper_filter_exact_witness :
  run_filter (wrapper_prog x86_nr) (SeccompData 101 0xC000003E 0) = Some RET_EPERM
  /\ run_filter (wrapper_prog x86_nr) (SeccompData 157 0xC000003E (2 ^ 32 + 35)) = Some RET_EPERM
  /\ run_filter (wrapper_prog x86_nr) (SeccompData 0 0xC000003E 0) = Some SECCOMP_RET_ALLOW.
Proof.
  split_and!; rewrite (proj1 (wrapper_filter_exact x86_nr _ x86_nr_ok)); vm_compute; reflexivity.
Defined.

(** The filter has no test for the x32 numbers, which the same architecture token
    carries: x32 [ptrace] (521) is allowed, whatever the numbers of the list are. *)
Theorem wrapper_allows_x32 nr arg :
  nr_table_ok nr -> (forall s n, nr s = Some n -> n < 0x40000000) ->
  run_filter (wrapper_prog nr) (SeccompData (0x40000000 + 521) (AUDIT_ARCH ArchX86_64) arg) = Some SECCOMP_RET_ALLOW.
Proof.
  intros Hnr Hx. pose proof (wrapper_len nr) as Hl. unfold run_filter, wrapper_prog. cbn [len filter].
  rewrite Z.mod_small by lia. rewrite Nat2Z.id, take_ge, wrapper_run by done. unfold wrapper_policy. cbn [sd_arch sd_nr sd_arg0].
  rewrite Z.eqb_refl. cbn [negb].
  rewrite bool_decide_eq_false_2 by (intros H%Hx; lia). cbn [andb]. rewrite bool_decide_eq_false_2; [done|].
  intros H. unfold deny_numbers in H. apply list_elem_of_omap in H as (s & _ & Hs). apply Hx in Hs. lia.
Qed.

(** ** The environment *)

(** The name of an entry. *)
Definition env_name (e : cstring) : cstring := (span (Ascii.eqb "="%char) e).1.

Lemma env_name_of name v : "="%char ∉ name -> env_name (name ++ lit "=" ++ v) = name.
Proof.
  intros Hn. unfold env_name. induction name as [|c name IH]; [done|]. cbn [app span].
  destruct (Ascii.eqb_spec "="%char c) as [<-|_]; [set_solver|]. destruct (span _ _) as [a b] eqn:E.
  cbn in IH |- *. rewrite IH; [done|set_solver].
Qed.

Lemma snapshot_entry environ al e :
  e ∈ snapshot environ al -> exists n v, n ∈ al /\ getenv environ n = Some v /\ e = n ++ lit "=" ++ v.
Proof.
  intros (n & Hin & He)%list_elem_of_omap. destruct (getenv environ n) as [v|] eqn:Eg; [|done]. simplify_eq. by exists n, v.
Qed.

(** *** Names that were allowed *)

Definition safe_names (al : list cstring) : Prop := Forall (fun n => env_is_dangerous n = false) al.

Lemma allow_add_safe al n al' : allow_add al n = Some al' -> safe_names al -> safe_names al'.
Proof.
  unfold allow_add. destruct (env_is_dangerous n) eqn:E; [done|]. intros [= <-] H. apply Forall_app. split; [done|].
  by apply Forall_singleton.
Qed.

Lemma parse_args_safe args dg al a : parse_args args dg al = inr a -> safe_names al -> safe_names (wa_allow a).
Proof.
  assert (Hn : (length args <= length args)%nat) by done. revert Hn. generalize (length args) at 2. intros n.
  revert args dg al. induction n as [|n IH]; intros [|x args] dg al Hn; cbn in Hn; try lia; cbn [parse_args]; try done.
  case_match; [done|]. case_match; [apply IH; lia|]. case_match; [apply IH; lia|].
  case_match; [destruct args; [done|apply IH; cbn in Hn; lia]|].
  case_match.
  { destruct args as [|nm args]; [done|]. destruct (allow_add al nm) as [al'|] eqn:E; [|done].
    intros Hp Hs. eapply IH; [|exact Hp|by eapply allow_add_safe]. cbn in Hn. lia. }
  case_match; [|done]. destruct args as [|t args]; [done|]. destruct (is_absolute t); [|done]. by intros [= <-].
Qed.

Lemma bake_safe names al al' : bake names al = Some al' -> safe_names al -> safe_names al'.
Proof.
  revert al. induction names as [|n names IH]; intros al; cbn [bake]; [by intros [= <-]|].
  destruct (allow_add al n) as [al1|] eqn:E; [|done]. intros H Hs. eapply IH; [exact H|by eapply allow_add_safe].
Qed.

(** ** The process that is handed over *)

(** What a successful run did, from the arguments [a]. *)
Definition hardened (nr : string -> option Z) (W : wworld) (environ : list cstring) (a : wargs) (im : exec_image) : Prop :=
  let p := ex_proc im in
  (* the file that was checked is the file that runs *)
  ww_open W (wa_target a) = Some (ex_file im)
  /\ is_type (ls_mode (ex_file im)) S_IFREG = true /\ ls_size (ex_file im) <> 0
  /\ hasbit (ls_mode (ex_file im)) S_IWOTH = false
  /\ ex_argv im = after_last_slash (wa_target a) :: wa_args a
  (* environment *)
  /\ ex_envp im = WRAPPER_FIXED_PATH :: snapshot environ (wa_allow a)
  (* privileges, descriptors, filter *)
  /\ wp_no_new_privs p = true
  /\ (forall fd, fd ∈ wp_fds p -> fd < 3 \/ (ww_close_range_ok W = false /\ (ww_open_max W <= fd \/ 1024 <= fd)))
  /\ (wa_degraded a = false ->
        wp_undumpable p = true /\ wp_filter p = Some (wrapper_prog nr)
        /\ (ww_ambient W = Some true \/ wp_ambient_cleared p = true)).

Lemma wrapper_fds_closed W p fd :
  fd ∈ wp_fds (close_inherited_fds W p) ->
  fd < 3 \/ (ww_close_range_ok W = false /\ (ww_open_max W <= fd \/ 1024 <= fd)).
Proof.
  unfold close_inherited_fds. destruct (ww_close_range_ok W); cbn [wp_fds set_fds];
    rewrite list_elem_of_In, List.filter_In; intros [_ H].
  - apply Z.ltb_lt in H. by left.
  - apply orb_true_iff in H as [H%Z.ltb_lt|H%Z.leb_le]; [by left|right]. split; [done|]. case_match; lia.
Qed.

Lemma run_target_hardened nr W environ a p im :
  run_target nr W environ a p = inr im -> hardened nr W environ a im.
Proof.
  unfold run_target, target_ok. destruct (ww_open W (wa_target a)) as [st|] eqn:Eo; [|done].
  destruct (is_type (ls_mode st) S_IFLNK); [done|]. destruct (is_type (ls_mode st) S_IFREG) eqn:Er; [|done]. cbn [negb].
  destruct (Z.eqb_spec (ls_size st) 0); [done|]. destruct (hasbit (ls_mode st) S_IWOTH) eqn:Ew; [done|].
  destruct (hasbit (ls_mode st) 0x40); [|done]. cbn [negb].
  pose proof (wrapper_fds_closed W p) as Hfd. set (p1 := close_inherited_fds W p) in *.
  destruct (harden_prctl W (wa_degraded a) p1) as [p2|] eqn:E2; [|done].
  destruct (scrub_env W (wa_degraded a) (wa_allow a) environ) as [envp|] eqn:Ee; [|done].
  destruct (install_seccomp nr W (wa_degraded a) p2) as [p3|] eqn:E3; [|done].
  destruct (ww_exec_ok W); [|done]. intros [= <-]. unfold hardened. cbn [ex_file ex_argv ex_envp ex_proc].
  assert (H2 : wp_fds p2 = wp_fds p1 /\ wp_no_new_privs p2 = true
    /\ (wa_degraded a = false -> wp_undumpable p2 = true /\ (ww_ambient W = Some true \/ wp_ambient_cleared p2 = true))).
  { unfold harden_prctl, warn_or_die in E2. destruct (ww_dumpable_ok W), (wa_degraded a), (ww_nnp_ok W); cbn in E2; try done.
    all: destruct (ww_ambient W) as [[]|]; cbn in E2; simplify_eq; cbn; split_and!; auto; done. }
  destruct H2 as (Hf2 & Hn2 & Hd2).
  assert (H3 : wp_fds p3 = wp_fds p2 /\ wp_no_new_privs p3 = wp_no_new_privs p2
    /\ wp_undumpable p3 = wp_undumpable p2 /\ wp_ambient_cleared p3 = wp_ambient_cleared p2
    /\ (wa_degraded a = false -> wp_filter p3 = Some (wrapper_prog nr))).
  { unfold install_seccomp, warn_or_die in E3. destruct (wa_degraded a); cbn in E3; repeat case_match; simplify_eq; cbn; split_and!; done. }
  destruct H3 as (Hf3 & Hn3 & Hu3 & Ha3 & Hp3).
  split_and!; try done.
  - unfold scrub_env, warn_or_die in Ee. destruct (ww_clearenv_ok W), (ww_setenv_ok W), (wa_degraded a); cbn in Ee; by simplify_eq.
  - by rewrite Hn3.
  - intros fd. rewrite Hf3, Hf2. apply Hfd.
  - intros Hd. rewrite Hu3, Ha3. destruct (Hd2 Hd) as [? ?]. auto.
Qed.

(** Either build shape started [im] with the arguments [a]. *)
Definition wrapper_started (nr : string -> option Z) (W : wworld) (environ args : list cstring) (p : wproc)
  (a : wargs) (im : exec_image) : Prop :=
  (wrapper_main nr W environ args p = inr im /\ parse_args args false [] = inr a)
  \/ (exists target baked, generated_main nr target baked W environ args p = inr im
        /\ bake baked [] = Some (wa_allow a)
        /\ a = WArgs (parse_generated args false).1 (wa_allow a) target (parse_generated args false).2).


(** A host on which every call succeeds. *)
Definition good_host : wworld := {|
  ww_at_base := 0; ww_dumpable_ok := true; ww_nnp_ok := true; ww_ambient := None; ww_close_range_ok := true;
  ww_open_max := 1024; ww_open := fun _ => Some (LStat 0x81ED 8 1 40 100 1); ww_clearenv_ok := true;
  ww_setenv_ok := true; ww_seccomp := fun _ => SecOk; ww_prctl_seccomp_ok := fun _ => true; ww_exec_ok := true
|}.
Definition fresh_proc : wproc := WProc [0; 1; 2; 7] false false false None.
Definition demo_environ : list cstring :=
  [lit "LD_PRELOAD=x=/tmp/evil.so"; lit "PATH=/tmp"; lit "LANG=C"; lit "TERM=vt100"].
Definition demo_args : list cstring :=
  [lit "--actor"; lit "ed"; lit "--allow-env"; lit "LANG"; lit "--"; lit "/bin/ed"; lit "file"].

Definition image_of (r : Z + exec_image) : option exec_image := match r with inr im => Some im | inl _ => None end.


(** The generic wrapper does not refuse an equals sign in an allowed name, as the
    build script of the generated one does; such a name passes the dangerous-name
    check and carries the variable through.  An allowed PATH is passed on beside
    the fixed one. *)
Theorem wrapper_equals_in_name :
  let args name := [lit "--allow-env"; name; lit "--"; lit "/bin/ed"] in
  (ex_envp <$> image_of (wrapper_main x86_nr good_host demo_environ (args (lit "LD_PRELOAD=x")) fresh_proc)
   = Some [WRAPPER_FIXED_PATH; lit "LD_PRELOAD=x=/tmp/evil.so"])
  /\ (ex_envp <$> image_of (wrapper_main x86_nr good_host demo_environ (args (lit "PATH")) fresh_proc)
      = Some [WRAPPER_FIXED_PATH; lit "PATH=/tmp"]).
Proof. split; vm_compute; reflexivity. Qed.
