(* ===== verification/User.v ===== *)
(** * compartment-user

    Models [src/compartment-user.c]: the built-in profiles, the preflight check,
    mount masks, capability drops, descriptor clean-up, the validation of
    [COMPARTMENT_SHELL_DIR] and both modes of [main], the normal one and shell
    replacement, with the order in which they apply the mechanisms.

    [uworld] holds the answers of the system.  The input of the normal mode is
    the list of options [getopt_long] delivers.  [None] is the return value -1;
    diagnostics and system log lines are left out. *)

From S2P Require Import Prelude CLib Config ConfigProps Seccomp Profile EnvAudit Landlock ObserveMain.
From Stdlib Require Import Ascii.

#[local] Open Scope Z_scope.

(** ** The system *)

Inductive lstat_answer := LstatAbsent | LstatFailed | LstatIs (is_dir : bool).
Inductive cap_answer := CapOk | CapEinval | CapEperm | CapOther.

Record uworld := UWorld {
  uw_p : world;
  uw_arch : arch;
  uw_ll : landlock_kernel;
  uw_get_nnp_ok : bool; uw_set_nnp_ok : bool;             (* prctl *)
  uw_get_seccomp_ok : bool;
  uw_alloc_ok : bool; uw_load_filter : sock_fprog -> bool;
  uw_statfs : cstring -> option Z;
  uw_proc_mounts : option cstring;                        (* bytes of /proc/mounts *)
  uw_unshare : cap_answer;
  uw_make_private : bool;
  uw_lstat : cstring -> lstat_answer;
  uw_mount : cstring -> bool;
  uw_geteuid : Z;
  uw_capbset_drop : Z -> cap_answer;
  uw_clear_ambient : cap_answer;
  uw_capget_ok : bool; uw_capset_ok : bool;
  uw_get_securebits : option Z; uw_set_securebits : Z -> bool;
  uw_close_range_ok : bool;
  uw_proc_fd : option (list cstring * bool);              (* names; whether readdir failed at the end *)
  uw_scan_fd : Z;
  uw_close : Z -> bool;                                   (* closed, or EBADF *)
  uw_set_cloexec : Z -> bool;
  uw_openat : cstring -> cstring -> option (option stat); (* O_PATH below a directory, fstat *)
  uw_shell_dir : option cstring;                          (* getenv ("COMPARTMENT_SHELL_DIR") *)
  uw_audit_open_ok : bool;
  uw_chdir : cstring -> bool;
  uw_uname_ok : bool;
  uw_exec_ok : bool
}.

(** The state of the process the mechanisms act on. *)
Record uproc := UProc {
  up_nnp : bool;
  up_env : list cstring;
  up_private_ns : bool; up_masked : list cstring;
  up_dropped_caps : list Z; up_inheritable_cleared : bool; up_securebits : Z;
  up_fds : list Z;
  up_ruleset : option ruleset;
  up_filter : option sock_fprog;
  up_cwd : option cstring
}.

Definition with_nnp (p : uproc) : uproc :=
  UProc true (up_env p) (up_private_ns p) (up_masked p) (up_dropped_caps p) (up_inheritable_cleared p)
    (up_securebits p) (up_fds p) (up_ruleset p) (up_filter p) (up_cwd p).
Definition with_env (e : list cstring) (p : uproc) : uproc :=
  UProc (up_nnp p) e (up_private_ns p) (up_masked p) (up_dropped_caps p) (up_inheritable_cleared p)
    (up_securebits p) (up_fds p) (up_ruleset p) (up_filter p) (up_cwd p).
Definition with_masks (l : list cstring) (p : uproc) : uproc :=
  UProc (up_nnp p) (up_env p) true l (up_dropped_caps p) (up_inheritable_cleared p)
    (up_securebits p) (up_fds p) (up_ruleset p) (up_filter p) (up_cwd p).
Definition with_caps (l : list Z) (inh : bool) (sb : Z) (p : uproc) : uproc :=
  UProc (up_nnp p) (up_env p) (up_private_ns p) (up_masked p) l inh sb (up_fds p) (up_ruleset p) (up_filter p) (up_cwd p).
Definition with_fds (l : list Z) (p : uproc) : uproc :=
  UProc (up_nnp p) (up_env p) (up_private_ns p) (up_masked p) (up_dropped_caps p) (up_inheritable_cleared p)
    (up_securebits p) l (up_ruleset p) (up_filter p) (up_cwd p).
Definition with_ruleset (r : ruleset) (p : uproc) : uproc :=
  UProc (up_nnp p) (up_env p) (up_private_ns p) (up_masked p) (up_dropped_caps p) (up_inheritable_cleared p)
    (up_securebits p) (up_fds p) (Some r) (up_filter p) (up_cwd p).
Definition with_filter (f : sock_fprog) (p : uproc) : uproc :=
  UProc (up_nnp p) (up_env p) (up_private_ns p) (up_masked p) (up_dropped_caps p) (up_inheritable_cleared p)
    (up_securebits p) (up_fds p) (up_ruleset p) (Some f) (up_cwd p).
Definition with_cwd (d : cstring) (p : uproc) : uproc :=
  UProc (up_nnp p) (up_env p) (up_private_ns p) (up_masked p) (up_dropped_caps p) (up_inheritable_cleared p)
    (up_securebits p) (up_fds p) (up_ruleset p) (up_filter p) (Some d).

(** The initial [Config] of both modes. *)
Definition user_config : Config :=
  MkConfig [] [] [] false [] [] false SECCOMP_DEFAULT_ERRNO [] [] false true true true true
    false false false None None (Some (lit "ai-agent")) None false None 0 0 None None [] [] false [] 0 [] None None [] [].

(** ** Built-in profiles *)

Definition ai_ro_paths : list string :=
  ["/usr"; "/lib"; "/lib64"; "/lib32?"; "/etc"; "/bin"; "/sbin"; "/proc"; "/dev"; "/sys"; "/run"; "/var/lib"]%string.
Definition ai_rw_paths : list string := ["/tmp"]%string.
Definition ai_rw_dev : list string :=
  ["/dev/null"; "/dev/zero"; "/dev/random"; "/dev/urandom"; "/dev/tty"; "/dev/pts"; "/dev/ptmx"]%string.
Definition ai_deny_env : list string :=
  ["LD_*"; "GLIBC_TUNABLES"; "GCONV_PATH"; "HOSTALIASES"; "LOCPATH"; "NLSPATH"; "DYLD_*"; "_JAVA_OPTIONS";
   "JAVA_TOOL_OPTIONS"; "AWS_ACCESS_KEY_ID"; "AWS_SECRET_ACCESS_KEY"; "AWS_SESSION_TOKEN";
   "GOOGLE_APPLICATION_CREDENTIALS"; "AZURE_CLIENT_SECRET"; "GITHUB_TOKEN"; "GH_TOKEN"; "GITLAB_TOKEN";
   "NPM_TOKEN"; "BASH_ENV"; "ENV"; "BASH_FUNC_*"; "PROMPT_COMMAND"; "IFS"; "ZDOTDIR"; "CDPATH"; "GLOBIGNORE";
   "NODE_OPTIONS"; "PYTHON*"; "PERL5*"; "PERLLIB"; "RUBYOPT"; "RUBYLIB"; "GIT_SSH_COMMAND"; "GIT_CONFIG_*";
   "GIT_EDITOR"; "GIT_EXEC_PATH"; "GIT_TEMPLATE_DIR"; "PAGER"; "MANPAGER"; "EDITOR"; "VISUAL"; "SSH_AUTH_SOCK";
   "DATABASE_URL"; "PGPASSWORD"; "MYSQL_PWD"]%string.

(** A loop that appends until one append fails: the configuration so far, and
    whether all went in.  (The caller of the shell mode goes on with it.) *)
Fixpoint add_each {A} (f : Config -> A -> option Config) (l : list A) (c : Config) : Config * bool :=
  match l with
  | [] => (c, true)
  | x :: rest => match f c x with Some c' => add_each f rest c' | None => (c, false) end
  end.

(** Running the next part only when the previous one succeeded. *)
Definition and_then (r : Config * bool) (k : Config -> Config * bool) : Config * bool :=
  if r.2 then k r.1 else r.

Definition of_opt (c : Config) (o : option Config) : Config * bool :=
  match o with Some c' => (c', true) | None => (c, false) end.

(** One name of the deny-list: names this architecture lacks are skipped. *)
Definition block_name (nr : string -> option Z) (c : Config) (s : string) : option Config :=
  match resolve_syscall nr (lit s) with None => Some c | Some n => cfg_add_blocked c n end.

Definition apply_profile_ai_agent (U : uworld) (c : Config) : Config * bool :=
  let w := uw_p U in
  and_then (add_each (fun c s => cfg_add_path c (lit s) PATH_RO false) ai_ro_paths c) (fun c =>
  and_then (add_each (fun c s => cfg_add_path c (lit s) PATH_RW false) ai_rw_paths c) (fun c =>
  and_then (add_each (fun c s => cfg_add_path c (lit s) PATH_RW false) ai_rw_dev c) (fun c =>
  and_then (match w_home w with
            | None => (c, true)
            | Some home =>
                match home_dir_usable (w_getuid w) (w_stat w) (Some home) with
                | None => (c, false)
                | Some _ => of_opt c (cfg_add_path c home PATH_RWX false)
                end
            end) (fun c =>
  and_then (match workdir c with
            | None => (c, true)
            | Some d => of_opt c (cfg_add_path c d PATH_RWX false)
            end) (fun c =>
  and_then (add_each (block_name (w_nr w)) (builtin_denylist (is_x86_64 (uw_arch U))) c) (fun c =>
  add_each (fun c s => cfg_add_env_deny c (lit s)) ai_deny_env c)))))).

Definition strict_extra : list string :=
  ["personality"; "lookup_dcookie"; "vhangup"; "quotactl"; "mbind"; "move_pages"]%string.

Definition apply_profile_strict (U : uworld) (c : Config) : Config * bool :=
  and_then (apply_profile_ai_agent U c) (fun c => add_each (block_name (w_nr (uw_p U))) strict_extra c).

(** ** Preflight *)

Definition fs_landlock_unsupported (magic : Z) : bool :=
  (magic =? 0x01021997) || (magic =? 0x6969) || (magic =? 0xFF534D42) || (magic =? 0x65735546).

(** One [%<n>s] conversion: the word and what follows; no word: no conversion. *)
Definition scan_word (n : nat) (s : cstring) : option (cstring * cstring) :=
  let s1 := skip isspace s in
  match take n (span isspace s1).1 with [] => None | d => Some (d, drop (length d) s1) end.

(** The mount point and the file system type of a line of [/proc/mounts]. *)
Definition scan_mount_line (line : cstring) : option (cstring * cstring) :=
  '(_, s1) ← scan_word 255 line; '(mnt, s2) ← scan_word 255 s1; '(fs, _) ← scan_word 63 s2; Some (mnt, fs).

(** The mount covers the path. *)
Definition mount_covers (p mnt : cstring) : bool :=
  has_prefix mnt p
  && match p !! length mnt with
     | Some c => Ascii.eqb c "/"%char || Nat.eqb (length mnt) 1
     | None => true
     end.

(** The type of the longest mount point that covers the path. *)
Fixpoint best_fstype (p : cstring) (lines : list cstring) (best : cstring) (best_len : nat) : cstring :=
  match lines with
  | [] => best
  | line :: rest =>
      match scan_mount_line (until_nul line) with
      | Some (mnt, fs) =>
          if mount_covers p mnt && Nat.ltb best_len (length mnt) then best_fstype p rest fs (length mnt)
          else best_fstype p rest best best_len
      | None => best_fstype p rest best best_len
      end
  end.

Definition unsupported_fstype (fs : cstring) : bool :=
  existsb (fun s => streq fs (lit s)) ["9p"; "nfs"; "nfs4"; "cifs"; "fuse"]%string || has_prefix (lit "fuse.") fs.

Definition check_proc_mounts_for_unsupported (U : uworld) (p : cstring) : bool :=
  match uw_proc_mounts U with
  | None => false
  | Some content => unsupported_fstype (best_fstype p (fgets_all 4095 content).*1 [] 0)
  end.

(** Landlock cannot enforce below this path. *)
Definition fs_unsupported (U : uworld) (p : cstring) : bool :=
  match uw_statfs U p with Some m => fs_landlock_unsupported m | None => false end
  || check_proc_mounts_for_unsupported U p.

Definition one_if (b : bool) : nat := if b then 1 else 0.

(** The number of failed checks. *)
Definition preflight_check (U : uworld) (c : Config) : nat :=
  (one_if (use_no_new_privs c && negb (uw_get_nnp_ok U))
   + (if use_landlock c then
        if (ll_abi (uw_ll U) <? 0)%Z then 1
        else length (List.filter (fun r => fs_unsupported U (path r)) (paths c)) + one_if (fs_unsupported U (lit "/"))
      else 0)
   + one_if (use_seccomp c && negb (uw_get_seccomp_ok U)))%nat.

(** [--verify]: the exit status. *)
Definition print_verify (U : uworld) : Z :=
  let allow_all := SockFprog 1 [BPF_STMT BPF_RET_K SECCOMP_RET_ALLOW] in
  let root_bad := match uw_statfs U (lit "/") with
                  | None => false
                  | Some m =>
                      if existsb (Z.eqb m) [0x01021997; 0x6969; 0x65735546; 0xFF534D42; 0x794C7630; 0x01021994]
                      then fs_landlock_unsupported m else check_proc_mounts_for_unsupported U (lit "/")
                  end in
  let failures := (one_if (negb (uw_uname_ok U)) + one_if (negb (uw_set_nnp_ok U)) + one_if (ll_abi (uw_ll U) <? 0)%Z
                   + one_if (negb (uw_load_filter U allow_all)) + one_if root_bad)%nat in
  if Nat.ltb 0 failures then 1 else 0.

(** ** Masks *)

(** The paths covered, by [tmpfs] on a directory and [/dev/null] on the rest. *)
Definition mask_one (U : uworld) (p : cstring) : option (list cstring) :=
  match uw_lstat U p with
  | LstatAbsent => Some []
  | LstatFailed => None
  | LstatIs _ => if uw_mount U p then Some [p] else None
  end.

Fixpoint mask_loop (U : uworld) (l : list (cstring * bool)) (covered : list cstring) : option (list cstring) :=
  match l with
  | [] => Some covered
  | (p, _) :: rest => match mask_one U p with None => None | Some m => mask_loop U rest (covered ++ m) end
  end.

Definition apply_masks (U : uworld) (c : Config) (p : uproc) : option uproc :=
  match masks c with
  | [] => Some p
  | _ =>
      match uw_unshare U with
      | CapOk =>
          if negb (uw_make_private U) then None
          else match mask_loop U (masks c) [] with None => None | Some l => Some (with_masks l p) end
      | CapEperm => if forallb snd (masks c) then Some p else None
      | _ => None
      end
  end.

(** ** Capabilities *)

(** The drop loop: [Some (inl caps)] when the process holds nothing to drop. *)
Fixpoint drop_loop (U : uworld) (names : list cstring) (dropped : list Z) : option (list Z + list Z) :=
  match names with
  | [] => Some (inr dropped)
  | n :: rest =>
      match resolve_cap n with
      | None => None
      | Some cap =>
          match uw_capbset_drop U cap with
          | CapOk => drop_loop U rest (dropped ++ [cap])
          | CapEinval => drop_loop U rest dropped
          | CapEperm => if uw_geteuid U =? 0 then None else Some (inl dropped)
          | CapOther => None
          end
      end
  end.

(** NO_CAP_AMBIENT_RAISE, its lock, NOROOT_LOCKED and NO_SETUID_FIXUP_LOCKED. *)
Definition SECURE_LOCKS : Z := lors [0x40; 0x80; 0x2; 0x8].

Definition apply_cap_drops (U : uworld) (c : Config) (p : uproc) : option uproc :=
  match cap_drop_names c with
  | [] => Some p
  | names =>
      match drop_loop U names [] with
      | None => None
      | Some (inl l) => Some (with_caps (up_dropped_caps p ++ l) (up_inheritable_cleared p) (up_securebits p) p)
      | Some (inr l) =>
          if match uw_clear_ambient U with CapOk | CapEinval => false | _ => true end then None
          else if negb (uw_capget_ok U) || negb (uw_capset_ok U) then None
          else match uw_get_securebits U with
               | None => None
               | Some sb =>
                   let want := Z.lor sb SECURE_LOCKS in
                   if uw_set_securebits U want
                   then Some (with_caps (up_dropped_caps p ++ l) true want p) else None
               end
      end
  end.

(** ** Descriptors *)

(** The descriptor a name of [/proc/self/fd] stands for, if it is to be closed. *)
Definition fd_entry (U : uworld) (name : cstring) : option Z :=
  match strtol 10 name with
  | Some (fd, [], false) => if (fd <? 3) || (0x7fffffff <? fd) || (fd =? uw_scan_fd U) then None else Some fd
  | _ => None
  end.

(** The descriptors an exec passes on.  [None]: one could neither be closed nor
    marked close-on-exec, or the scan failed. *)
Definition close_inherited_fds (U : uworld) (p : uproc) : option uproc :=
  if uw_close_range_ok U then Some (with_fds (List.filter (fun fd => fd <? 3) (up_fds p)) p)
  else match uw_proc_fd U with
       | None => None
       | Some (names, failed) =>
           let victims := omap (fd_entry U) names in
           if failed || negb (forallb (fun fd => uw_close U fd || uw_set_cloexec U fd) victims) then None
           else Some (with_fds (List.filter (fun fd => negb (bool_decide (fd ∈ victims))) (up_fds p)) p)
       end.

(** ** The shell directory *)

(** A component [..]: after a slash or at the start, before a slash or the end. *)
Fixpoint has_dotdot (at_start : bool) (s : cstring) : bool :=
  match s with
  | [] => false
  | c :: rest =>
      (at_start && match s with
                   | a :: b :: t => Ascii.eqb a "."%char && Ascii.eqb b "."%char
                       && match t with [] => true | d :: _ => Ascii.eqb d "/"%char end
                   | _ => false
                   end)
      || has_dotdot (Ascii.eqb c "/"%char) rest
  end.

Definition shell_dir_acceptable (U : uworld) (dir shell_name : cstring) : bool :=
  let w := uw_p U in
  match dir with
  | "/"%char :: _ =>
      negb (has_dotdot true dir)
      && match w_opendir w dir with
         | None => false
         | Some st =>
             profile_fd_trusted (w_getuid w) st 0 S_IFDIR
             && match uw_openat U dir shell_name with
                | None => false
                | Some sst => profile_fd_trusted (w_getuid w) sst 0 S_IFREG
                end
         end
  | _ => false
  end.

(** ** Shell replacement *)

Inductive uresult := UExit (code : Z) | UExec (file : cstring) (argv : list cstring) (cfg : Config) (p : uproc).

Definition REAL_SHELL_DIR : cstring := lit "/bin/shells".

(** [basename (argv[0])] without the dash of a login shell. *)
Definition shell_name_of (invoked : cstring) : cstring :=
  match invoked with
  | "-"%char :: ((_ :: _) as rest) => rest
  | _ => invoked
  end.

(** Going on without the mechanism, counting the failure. *)
Definition degrade {A} (o : option A) (f : A -> uproc) (st : uproc * nat) : uproc * nat :=
  match o with Some a => (f a, st.2) | None => (st.1, S st.2) end.

Definition install_filter (U : uworld) (c : Config) (p : uproc) : option uproc :=
  match apply_seccomp (uw_arch U) c (uw_alloc_ok U) (uw_load_filter U) with
  | SeccompError => None
  | SeccompNoFilter => Some p
  | SeccompInstalled prog => Some (with_filter prog p)
  end.

Definition sanitized (c : Config) (p : uproc) : uproc :=
  if use_env_sanitize c then with_env (default (up_env p) (sanitize_env c (up_env p))) p else p.

(** The profile of a shell: whether the operator's file is in force, and the
    configuration; [None] refuses. *)
Definition shell_profile (U : uworld) : option (bool * Config) :=
  match resolve_and_load_profile 0 (uw_p U) 0 user_config (lit "shell-replacement") with
  | (PROFILE_ERROR, _) => None
  | (PROFILE_OK, c) => Some (true, set_profile (Some (lit "shell-replacement")) c)
  | (PROFILE_NOT_FOUND, c) =>
      match resolve_and_load_profile 0 (uw_p U) 0 c (lit "ai-agent") with
      | (PROFILE_OK, c') => Some (false, c')
      | (_, c') => Some (false, (apply_profile_ai_agent U c').1)
      end
  end.

(** The mechanisms of the shell mode, in order. *)
Definition shell_enforce (U : uworld) (strict : bool) (c : Config) (p : uproc) : option (uproc * nat) :=
  let degraded := preflight_check U c in
  match apply_masks U c p with
  | None => None
  | Some p1 =>
      match apply_cap_drops U c p1 with
      | None => None
      | Some p2 =>
          let '(p3, d1) :=
            if use_no_new_privs c
            then degrade (if uw_set_nnp_ok U then Some tt else None) (fun _ => with_nnp p2) (p2, degraded)
            else (p2, degraded) in
          match close_inherited_fds U (sanitized c p3) with
          | None => None
          | Some p4 =>
              let '(p5, d2) :=
                if use_landlock c
                then degrade (apply_landlock (uw_ll U) c) (fun r => with_ruleset r p4) (p4, d1) else (p4, d1) in
              let '(p6, d3) :=
                if use_seccomp c then degrade (install_filter U c p5) (fun q => q) (p5, d2) else (p5, d2) in
              if Nat.ltb 0 d3 && strict then None else Some (p6, d3)
          end
      end
  end.

Definition shell_path (U : uworld) (shell_name : cstring) : cstring :=
  let dir := match uw_shell_dir U with
             | Some d => if shell_dir_acceptable U d shell_name then d else REAL_SHELL_DIR
             | None => REAL_SHELL_DIR
             end in
  dir ++ lit "/" ++ shell_name.

Definition shell_main (U : uworld) (shell_name : cstring) (argv : list cstring) (p : uproc) : uresult :=
  let real_shell := shell_path U shell_name in
  if Nat.leb PATH_MAX (length real_shell) then UExit 126
  else match shell_profile U with
       | None => UExit 126
       | Some (strict, c) =>
           match shell_enforce U strict c p with
           | None => UExit 126
           | Some (p', _) => if uw_exec_ok U then UExec real_shell argv c p' else UExit 127
           end
       end.

(** ** Options *)

Inductive uopt :=
  | OProfile (s : cstring) | ORo (s : cstring) | ORw (s : cstring) | OExec (s : cstring) | OWorkdir (s : cstring)
  | OBlock (s : cstring) | OAllow (s : cstring) | OEnvDeny (s : cstring) | OEnvAllow (s : cstring)
  | ONoLandlock | ONoSeccomp | ONoEnvSanitize | ODryRun | OVerbose | OAudit | OAuditLog (s : cstring)
  | OInsecure | OVerify | ONetBind (s : cstring) | ONetConnect (s : cstring) | ONetDeny
  | OCapDrop (s : cstring) | OMask (s : cstring) | OUserProfiles | ODumpProfile (s : cstring)
  | OVersion | OHelp | OUnknown.

Record ustate := UState { us_cfg : Config; us_flags : Z; us_dump : bool }.

(** One option: exit with a status, or the new state. *)
Definition apply_opt (U : uworld) (o : uopt) (st : ustate) : Z + ustate :=
  let c := us_cfg st in
  let up c' := inr (UState c' (us_flags st) (us_dump st)) in
  let try (r : option Config) := match r with Some c' => up c' | None => inl 1 end in
  match o with
  | OProfile s => up (set_profile (Some s) c)
  | ORo s => try (cfg_add_path c s PATH_RO false)
  | ORw s => try (cfg_add_path c s PATH_RW false)
  | OExec s => try (cfg_add_path c s PATH_EXEC false)
  | OWorkdir s => up (set_workdir (Some s) c)
  | OBlock s => try (resolve_syscall (w_nr (uw_p U)) s ≫= cfg_add_blocked c)
  | OAllow s => try (resolve_syscall (w_nr (uw_p U)) s ≫= cfg_add_allowed c)
  | OEnvDeny s => try (cfg_add_env_deny c s)
  | OEnvAllow s => try (c' ← cfg_add_env_allow c s; Some (set_use_env_sanitize true c'))
  | ONoLandlock => up (set_use_landlock false c)
  | ONoSeccomp => up (set_use_seccomp false c)
  | ONoEnvSanitize => up (set_use_env_sanitize false c)
  | ODryRun => up (set_verbose true (set_dry_run true c))
  | OVerbose => up (set_verbose true c)
  | OAudit => up (set_audit true c)
  | OAuditLog s => up (set_audit true (set_audit_log_dir (Some s) c))
  | OInsecure => up (set_allow_insecure true c)
  | OVerify => inl (print_verify U)
  | ONetBind s => try (l ← cfg_add_net_port s (net_bind_ports c); Some (set_net_bind_ports l c))
  | ONetConnect s => try (l ← cfg_add_net_port s (net_connect_ports c); Some (set_net_connect_ports l c))
  | ONetDeny => up (set_net_default_deny true c)
  | OCapDrop s => try (_ ← resolve_cap s; add_str cap_drop_names set_cap_drop_names MAX_ENV_VARS s c)
  | OMask s => try (cfg_add_mask c s)
  | OUserProfiles => inr (UState c (Z.lor (us_flags st) PROFILE_SEARCH_USER) (us_dump st))
  | ODumpProfile s => inr (UState (set_profile (Some s) c) (us_flags st) true)
  | OVersion | OHelp => inl 0
  | OUnknown => inl 1
  end.

Fixpoint apply_opts (U : uworld) (l : list uopt) (st : ustate) : Z + ustate :=
  match l with
  | [] => inr st
  | o :: rest => match apply_opt U o st with inl rc => inl rc | inr st' => apply_opts U rest st' end
  end.

(** ** The normal mode *)

(** The policy after the profile was loaded: file first, then the built-in. *)
Definition user_policy (U : uworld) (st : ustate) : option Config :=
  let c := us_cfg st in
  let name := default [] (profile c) in
  if streq name (lit "none") then Some c
  else match resolve_and_load_profile 0 (uw_p U) (us_flags st) c name with
       | (PROFILE_ERROR, _) => None
       | (PROFILE_OK, c') => Some c'
       | (PROFILE_NOT_FOUND, c') =>
           let '(c2, ok) :=
             if streq name (lit "ai-agent") then apply_profile_ai_agent U c'
             else if streq name (lit "strict") then apply_profile_strict U c' else (c', false) in
           if ok then Some (set_profile_source (Some (lit "built-in")) c2) else None
       end.

(** Command-line switches win; the working directory is writable. *)
Definition cli_overrides (cli c : Config) : Config :=
  let c1 := if use_landlock cli then c else set_use_landlock false c in
  let c2 := if use_seccomp cli then c1 else set_use_seccomp false c1 in
  if use_env_sanitize cli then c2 else set_use_env_sanitize false c2.

Definition add_workdir (c : Config) : option Config :=
  match workdir c with
  | None => Some c
  | Some d =>
      if existsb (fun r => bool_decide (mode r = PATH_RW) && streq (path r) d) (paths c) then Some c
      else cfg_add_path c d PATH_RW false
  end.

Definition final_policy (U : uworld) (st : ustate) : option Config :=
  c ← user_policy U st; c' ← add_workdir (cli_overrides (us_cfg st) c);
  if use_landlock c' && negb (config_check_additive (w_realpath (uw_p U)) c') then None else Some c'.

(** The mechanisms of the normal mode, in order; any failure exits with 1. *)
Definition enforce (U : uworld) (c : Config) (p : uproc) : option uproc :=
  p1 ← (if use_no_new_privs c then if uw_set_nnp_ok U then Some (with_nnp p) else None else Some p);
  p2 ← apply_masks U c (sanitized c p1);
  p3 ← apply_cap_drops U c p2;
  p4 ← close_inherited_fds U p3;
  p5 ← (if use_landlock c then r ← apply_landlock (uw_ll U) c; Some (with_ruleset r p4) else Some p4);
  p6 ← (if use_seccomp c then install_filter U c p5 else Some p5);
  match workdir c with
  | None => Some p6
  | Some d => if uw_chdir U d then Some (with_cwd d p6) else None
  end.

Definition user_main (U : uworld) (opts : list uopt) (cmd : list cstring) (p : uproc) : uresult :=
  match apply_opts U opts (UState user_config 0 false) with
  | inl rc => UExit rc
  | inr st =>
      match cmd, us_dump st with
      | [], false => UExit 1
      | _, _ =>
          match final_policy U st with
          | None => UExit 1
          | Some c =>
              if us_dump st || dry_run c then UExit 0
              else if audit c && negb (uw_audit_open_ok U) then UExit 1
              else if Nat.ltb 0 (preflight_check U c) && negb (allow_insecure c) then UExit 1
              else match enforce U c p with
                   | None => UExit 1
                   | Some p' => if uw_exec_ok U then UExec (default [] (head cmd)) cmd c p' else UExit 127
                   end
          end
      end
  end.

(** [main]: the invocation name chooses the mode. *)
Definition compartment_user (U : uworld) (invoked : cstring) (argv : list cstring) (opts : list uopt)
  (cmd : list cstring) (p : uproc) : uresult :=
  let shell_name := shell_name_of invoked in
  if streq shell_name (lit "compartment-user") then user_main U opts cmd p else shell_main U shell_name argv p.
