(* ===== verification/UserProps.v ===== *)
(** * What compartment-user enforces

    A command that was started runs under every mechanism of its policy; the
    shell mode keeps that promise when the operator's profile is in force and
    otherwise never locks the user out for a failed mechanism. *)

From S2P Require Import Prelude CLib Config ConfigProps Seccomp Profile ProfileProps EnvAudit Landlock User.
From Stdlib Require Import Ascii.

#[local] Open Scope Z_scope.

(** ** The enforced state *)

Definition masks_applied (U : uworld) (c : Config) (p' : uproc) : Prop :=
  masks c = [] \/ (up_private_ns p' = true
                   /\ forall m, m ∈ masks c -> m.1 ∈ up_masked p' \/ uw_lstat U m.1 = LstatAbsent)
  \/ (uw_unshare U = CapEperm /\ forall m, m ∈ masks c -> m.2 = true).

(** Every capability the policy names is out of the bounding set, unknown to the
    kernel, or beyond an unprivileged process. *)
Definition caps_applied (U : uworld) (c : Config) (p' : uproc) : Prop :=
  cap_drop_names c = []
  \/ (forall n, n ∈ cap_drop_names c -> exists cap, resolve_cap n = Some cap
        /\ (cap ∈ up_dropped_caps p' \/ uw_capbset_drop U cap = CapEinval))
     /\ up_inheritable_cleared p' = true /\ Z.land SECURE_LOCKS (up_securebits p') = SECURE_LOCKS
  \/ (uw_geteuid U <> 0 /\ exists cap, uw_capbset_drop U cap = CapEperm).

Definition fds_closed (U : uworld) (p p' : uproc) : Prop :=
  forall fd, fd ∈ up_fds p' -> fd ∈ up_fds p
    /\ (fd < 3 \/ (uw_close_range_ok U = false
                   /\ forall names f, uw_proc_fd U = Some (names, f) -> fd ∉ omap (fd_entry U) names)).

Definition filter_applied (U : uworld) (c : Config) (p' : uproc) : Prop :=
  (exists prog, apply_seccomp (uw_arch U) c (uw_alloc_ok U) (uw_load_filter U) = SeccompInstalled prog
     /\ up_filter p' = Some prog)
  \/ (seccomp_allow_mode c = false /\ blocked_syscalls c = []).

Record enforced (U : uworld) (c : Config) (p p' : uproc) : Prop := {
  enf_nnp : use_no_new_privs c = true -> up_nnp p' = true;
  enf_env : use_env_sanitize c = true -> sanitize_env c (up_env p) = Some (up_env p');
  enf_masks : masks_applied U c p';
  enf_caps : caps_applied U c p';
  enf_fds : fds_closed U p p';
  enf_landlock : use_landlock c = true -> exists r, apply_landlock (uw_ll U) c = Some r /\ up_ruleset p' = Some r;
  enf_filter : use_seccomp c = true -> filter_applied U c p'
}.

(** ** Each mechanism *)

Lemma mask_loop_spec U l covered out :
  mask_loop U l covered = Some out ->
  covered ⊆ out /\ forall m, m ∈ l -> m.1 ∈ out \/ uw_lstat U m.1 = LstatAbsent.
Proof.
  revert covered. induction l as [|[q o] l IH]; intros covered; cbn [mask_loop].
  - intros [= <-]. split; [done|]. set_solver.
  - unfold mask_one. destruct (uw_lstat U q) eqn:El; [|done|].
    + rewrite app_nil_r. intros H. destruct (IH _ H) as [Hs Hm]. split; [done|].
      intros m [-> | Hin]%elem_of_cons; [by right|by apply Hm].
    + destruct (uw_mount U q); [|done]. intros H. destruct (IH _ H) as [Hs Hm]. split; [set_solver|].
      intros m [-> | Hin]%elem_of_cons; [left; apply Hs; set_solver|by apply Hm].
Qed.

(** Which part of the process a mechanism may change. *)
Definition only_masks (p p' : uproc) : Prop :=
  exists ns l, p' = UProc (up_nnp p) (up_env p) ns l (up_dropped_caps p) (up_inheritable_cleared p)
    (up_securebits p) (up_fds p) (up_ruleset p) (up_filter p) (up_cwd p).
Definition only_caps (p p' : uproc) : Prop := exists l inh sb, p' = with_caps l inh sb p.
Definition only_fds (p p' : uproc) : Prop := exists l, p' = with_fds l p.
Definition only_filter (p p' : uproc) : Prop :=
  exists f, p' = UProc (up_nnp p) (up_env p) (up_private_ns p) (up_masked p) (up_dropped_caps p)
    (up_inheritable_cleared p) (up_securebits p) (up_fds p) (up_ruleset p) f (up_cwd p).

Lemma only_masks_refl p : only_masks p p.
Proof. exists (up_private_ns p), (up_masked p). by destruct p. Qed.
Lemma only_caps_refl p : only_caps p p.
Proof. exists (up_dropped_caps p), (up_inheritable_cleared p), (up_securebits p). by destruct p. Qed.
Lemma only_filter_refl p : only_filter p p.
Proof. exists (up_filter p). by destruct p. Qed.

Lemma apply_masks_spec U c p p' : apply_masks U c p = Some p' -> masks_applied U c p' /\ only_masks p p'.
Proof.
  unfold apply_masks, masks_applied. destruct (masks c) as [|m l] eqn:Em; [intros [= <-]; split; [by left|apply only_masks_refl]|].
  rewrite <- Em. destruct (uw_unshare U) eqn:Eu; [|done| |done].
  - destruct (uw_make_private U); [|done]. cbn [negb].
    destruct (mask_loop U (masks c) []) as [out|] eqn:El; [|done]. intros [= <-]. apply mask_loop_spec in El as [_ Hm].
    split; [right; left; by split|by repeat eexists].
  - destruct (forallb snd (masks c)) eqn:Ef; [|done]. intros [= <-]. split; [|apply only_masks_refl]. right. right. split; [done|].
    rewrite forallb_forall in Ef. intros x Hx. by apply Ef, list_elem_of_In.
Qed.

Lemma drop_loop_spec U names dropped r :
  drop_loop U names dropped = Some r ->
  match r with
  | inr out => dropped ⊆ out /\ forall n, n ∈ names -> exists cap, resolve_cap n = Some cap
                 /\ (cap ∈ out \/ uw_capbset_drop U cap = CapEinval)
  | inl _ => uw_geteuid U <> 0 /\ exists cap, uw_capbset_drop U cap = CapEperm
  end.
Proof.
  revert dropped. induction names as [|n names IH]; intros dropped; cbn [drop_loop].
  - intros [= <-]. split; [done|]. set_solver.
  - destruct (resolve_cap n) as [cap|] eqn:Er; [|done]. destruct (uw_capbset_drop U cap) eqn:Ed; [| | |done].
    + intros H. specialize (IH _ H). destruct r as [l|out]; [done|]. destruct IH as [Hs Hn]. split; [set_solver|].
      intros x [-> | Hx]%elem_of_cons; [|by apply Hn]. exists cap. split; [done|]. left. apply Hs. set_solver.
    + intros H. specialize (IH _ H). destruct r as [l|out]; [done|]. destruct IH as [Hs Hn]. split; [done|].
      intros x [-> | Hx]%elem_of_cons; [|by apply Hn]. exists cap. split; [done|by right].
    + destruct (Z.eqb_spec (uw_geteuid U) 0); [done|]. intros [= <-]. split; [done|by exists cap].
Qed.

Lemma apply_cap_drops_spec U c p p' : apply_cap_drops U c p = Some p' -> caps_applied U c p' /\ only_caps p p'.
Proof.
  unfold apply_cap_drops, caps_applied. destruct (cap_drop_names c) as [|n l] eqn:En; [intros [= <-]; split; [by left|apply only_caps_refl]|].
  rewrite <- En. destruct (drop_loop U (cap_drop_names c) []) as [[d|d]|] eqn:Ed; [| |done]; apply drop_loop_spec in Ed.
  - intros [= <-]. split; [by right; right|by repeat eexists].
  - destruct Ed as [_ Hd]. destruct (match uw_clear_ambient U with CapOk | CapEinval => false | _ => true end); [done|].
    destruct (negb (uw_capget_ok U) || negb (uw_capset_ok U)); [done|].
    destruct (uw_get_securebits U) as [sb|]; [|done]. cbn zeta. destruct (uw_set_securebits U _); [|done].
    intros [= <-]. split; [|by repeat eexists]. right. left. cbn [up_dropped_caps with_caps up_inheritable_cleared up_securebits].
    split; [|split; [done|]].
    + intros x Hx. destruct (Hd x Hx) as (cap & Hr & Hc). exists cap. split; [done|]. set_solver.
    + rewrite Z.lor_comm. apply flags_le_lor.
Qed.

Lemma close_inherited_fds_spec U p p' :
  close_inherited_fds U p = Some p' ->
  fds_closed U p p' /\ only_fds p p'.
Proof.
  unfold close_inherited_fds, fds_closed. destruct (uw_close_range_ok U) eqn:Ec.
  - intros [= <-]. split; [|by eexists]. intros fd. cbn. rewrite !list_elem_of_In, List.filter_In.
    intros [? ?%Z.ltb_lt]. split; [done|by left].
  - destruct (uw_proc_fd U) as [[names f]|] eqn:En; [|done]. cbn zeta. case_match; [done|]. intros [= <-].
    split; [|by eexists]. intros fd. cbn. rewrite !list_elem_of_In, List.filter_In.
    intros [Hin Hv%negb_true_iff%bool_decide_eq_false]. split; [done|]. right. split; [done|].
    intros names' f' [= <- <-]. done.
Qed.

Lemma install_filter_spec U c p p' :
  install_filter U c p = Some p' ->
  filter_applied U c p' /\ only_filter p p'.
Proof.
  unfold install_filter, filter_applied. destruct (apply_seccomp _ _ _ _) as [| |prog] eqn:E; [done| |].
  - intros [= <-]. split; [|apply only_filter_refl]. right. unfold apply_seccomp in E.
    destruct (seccomp_allow_mode c), (allowed_syscalls c), (blocked_syscalls c); try done; by case_match.
  - intros [= <-]. split; [|by eexists]. left. by exists prog.
Qed.

Lemma sanitize_total c env : sanitize_env c env <> None.
Proof. unfold sanitize_env. destruct (env_patterns c). by rewrite sanitize_loop_spec. Qed.

Lemma sanitized_env c p :
  use_env_sanitize c = true -> sanitize_env c (up_env p) = Some (up_env (sanitized c p)).
Proof.
  intros H. unfold sanitized. rewrite H. cbn [up_env with_env].
  destruct (sanitize_env c (up_env p)) as [e|] eqn:E; [done|]. by destruct (sanitize_total c (up_env p)).
Qed.

Lemma sanitized_shape c p : exists e, sanitized c p = with_env e p
  /\ (use_env_sanitize c = true -> sanitize_env c (up_env p) = Some e).
Proof.
  pose proof (sanitized_env c p) as H. unfold sanitized in *. destruct (use_env_sanitize c).
  - eexists. split; [reflexivity|]. intros _. by apply H.
  - exists (up_env p). split; [by destruct p|done].
Qed.

(** ** The normal mode *)

Lemma enforce_enforced U c p p' : enforce U c p = Some p' -> enforced U c p p'.
Proof.
  unfold enforce. intros H. apply bind_Some in H as (p1 & H1 & H). apply bind_Some in H as (p2 & H2 & H).
  apply bind_Some in H as (p3 & H3 & H). apply bind_Some in H as (p4 & H4 & H).
  apply bind_Some in H as (p5 & H5 & H). apply bind_Some in H as (p6 & H6 & H).
  destruct (sanitized_shape c p1) as (e & He & Hs). rewrite He in H2.
  apply apply_masks_spec in H2 as (M & ns & l & ->). apply apply_cap_drops_spec in H3 as (C & d & inh & sb & ->).
  apply close_inherited_fds_spec in H4 as (F & fds & ->).
  assert (E1 : exists n, p1 = UProc n (up_env p) (up_private_ns p) (up_masked p) (up_dropped_caps p)
      (up_inheritable_cleared p) (up_securebits p) (up_fds p) (up_ruleset p) (up_filter p) (up_cwd p)
    /\ (use_no_new_privs c = true -> n = true)).
  { destruct (use_no_new_privs c); [destruct (uw_set_nnp_ok U)|]; simplify_eq; [by exists true|].
    exists (up_nnp p1). split; [by destruct p1|done]. }
  destruct E1 as (n & -> & N).
  assert (E5 : exists r, p5 = UProc n e ns l d inh sb fds r (up_filter p) (up_cwd p)
    /\ (use_landlock c = true -> exists r', apply_landlock (uw_ll U) c = Some r' /\ r = Some r')).
  { destruct (use_landlock c); [apply bind_Some in H5 as (r & Hr & [= <-]); exists (Some r); split; [done|by exists r]|].
    simplify_eq. exists (up_ruleset p). by split. }
  destruct E5 as (r & -> & L).
  assert (E6 : exists f, p6 = UProc n e ns l d inh sb fds r f (up_cwd p)
    /\ (use_seccomp c = true -> filter_applied U c (UProc n e ns l d inh sb fds r f (up_cwd p)))).
  { destruct (use_seccomp c); [|simplify_eq; by eexists]. apply install_filter_spec in H6 as (S & f & ->). by exists f. }
  destruct E6 as (f & -> & S).
  assert (E7 : exists d', p' = UProc n e ns l d inh sb fds r f d').
  { destruct (workdir c) as [wd|]; [destruct (uw_chdir U wd)|]; simplify_eq; by eexists. }
  destruct E7 as (d' & ->). by split.
Qed.

(** *** The policy *)

(** What the options guarantee of the configuration. *)
Record opts_inv (opts : list uopt) (c : Config) : Prop := {
  oi_wf : config_wf c;
  oi_nnp : use_no_new_privs c = true;
  oi_landlock : ONoLandlock ∉ opts -> use_landlock c = true;
  oi_seccomp : ONoSeccomp ∉ opts -> use_seccomp c = true;
  oi_env : ONoEnvSanitize ∉ opts -> use_env_sanitize c = true;
  oi_insecure : OInsecure ∉ opts -> allow_insecure c = false
}.

Lemma opts_inv_retains opts o c c' :
  opts_inv opts c -> retains c c' /\ (config_wf c -> config_wf c') -> opts_inv (opts ++ [o]) c'.
Proof.
  intros [] [[] Hwf]. split; [auto| | | | |]; intros; repeat match goal with H : _ ∉ _ ++ _ |- _ => apply not_elem_of_app in H as [? _] end.
  - rewrite oi_nnp0 in t_no_new_privs. done.
  - rewrite oi_landlock0 in t_landlock by done. done.
  - rewrite oi_seccomp0 in t_seccomp by done. done.
  - rewrite oi_env0 in t_env_sanitize by done. done.
  - rewrite t_insecure. auto.
Qed.

Lemma tightening_blocked_name nr s :
  nr_table_ok nr -> tightening (fun c => resolve_syscall nr s ≫= cfg_add_blocked c).
Proof.
  intros Hnr c c' H. apply bind_Some in H as (n & Hn & H). eapply tightening_add_blocked; [|exact H].
  by eapply resolve_syscall_range.
Qed.

Lemma tightening_allowed_name nr s :
  nr_table_ok nr -> tightening (fun c => resolve_syscall nr s ≫= cfg_add_allowed c).
Proof.
  intros Hnr c c' H. apply bind_Some in H as (n & Hn & H). eapply tightening_add_allowed; [|exact H].
  by eapply resolve_syscall_range.
Qed.

Lemma tightening_cap_drop s :
  tightening (fun c => _ ← resolve_cap s; add_str cap_drop_names set_cap_drop_names MAX_ENV_VARS s c).
Proof.
  intros c c' H. apply bind_Some in H as (? & _ & H). eapply tightening_add_str; [| |exact H].
  - intros l c0. split; cbn; auto with comp_db; reflexivity.
  - intros l c0 [] ?. split; cbn; assumption.
Qed.

Lemma tightening_env_allow_on s :
  tightening (fun c => c' ← cfg_add_env_allow c s; Some (set_use_env_sanitize true c')).
Proof.
  intros c c' H. apply bind_Some in H as (c1 & H1 & [= <-]). apply tightening_add_env_allow in H1 as [H1 H2].
  split; [|intros Hc; destruct (H2 Hc); by split]. etrans; [exact H1|].
  split; cbn; auto with comp_db; reflexivity.
Qed.

Section Main.
Context (U : uworld) (Hnr : nr_table_ok (w_nr (uw_p U))).

Lemma apply_opt_inv opts o st st' :
  opts_inv opts (us_cfg st) -> apply_opt U o st = inr st' -> opts_inv (opts ++ [o]) (us_cfg st').
Proof.
  intros Hi.
  assert (Hset : forall c', config_wf c' -> use_no_new_privs c' = use_no_new_privs (us_cfg st) ->
    (o <> ONoLandlock -> use_landlock c' = use_landlock (us_cfg st)) ->
    (o <> ONoSeccomp -> use_seccomp c' = use_seccomp (us_cfg st)) ->
    (o <> ONoEnvSanitize -> use_env_sanitize c' = use_env_sanitize (us_cfg st)) ->
    (o <> OInsecure -> allow_insecure c' = allow_insecure (us_cfg st)) -> opts_inv (opts ++ [o]) c').
  { destruct Hi. intros c' H1 H2 H3 H4 H5 H6. split; [done|congruence|..];
      rewrite not_elem_of_app, list_elem_of_singleton; intros [? ?]; [rewrite H3|rewrite H4|rewrite H5|rewrite H6]; auto. }
  assert (Ht : forall f, tightening f -> f (us_cfg st) = Some (us_cfg st') -> opts_inv (opts ++ [o]) (us_cfg st')).
  { intros f Hf Hc. eapply opts_inv_retains; [exact Hi|]. by apply Hf. }
  pose proof (oi_wf _ _ Hi) as Hwf. unfold apply_opt.
  destruct o; cbn [us_cfg]; try done.
  all: try (intros [= <-]; cbn [us_cfg]; apply Hset; cbn; try done; destruct Hwf; by split).
  all: match goal with |- match ?r with Some _ => _ | None => _ end = _ -> _ => destruct r as [c'|] eqn:E; [|done] end;
    intros [= <-]; cbn [us_cfg] in *.
  - by eapply (Ht _ (tightening_add_path _ _ _)).
  - by eapply (Ht _ (tightening_add_path _ _ _)).
  - by eapply (Ht _ (tightening_add_path _ _ _)).
  - by eapply (Ht _ (tightening_blocked_name _ _ Hnr)).
  - by eapply (Ht _ (tightening_allowed_name _ _ Hnr)).
  - by eapply (Ht _ (tightening_add_env_deny _)).
  - by eapply (Ht _ (tightening_env_allow_on _)).
  - by eapply (Ht _ (tightening_bind _)).
  - by eapply (Ht _ (tightening_connect _)).
  - eapply (Ht (fun c => _ ← resolve_cap s; add_str cap_drop_names set_cap_drop_names MAX_ENV_VARS s c)); [|exact E].
    apply tightening_cap_drop.
  - by eapply (Ht _ (tightening_add_mask _)).
Qed.

Lemma apply_opts_inv l opts st st' :
  opts_inv opts (us_cfg st) -> apply_opts U l st = inr st' -> opts_inv (opts ++ l) (us_cfg st').
Proof.
  revert opts st. induction l as [|o l IH]; intros opts st Hi; cbn [apply_opts]; [intros [= <-]; by rewrite app_nil_r|].
  destruct (apply_opt U o st) as [rc|st1] eqn:E; [done|]. intros H.
  replace (opts ++ o :: l) with ((opts ++ [o]) ++ l) by (by rewrite <- app_assoc).
  eapply IH; [|exact H]. by eapply apply_opt_inv.
Qed.

(** A step that returns the configuration also when it fails. *)
Definition sound (c : Config) (r : Config * bool) : Prop := retains c r.1 /\ (config_wf c -> config_wf r.1).

Lemma sound_step (f : Config -> option Config) c : tightening f -> sound c (of_opt c (f c)).
Proof. intros Hf. unfold of_opt. destruct (f c) as [c'|] eqn:E; [by apply Hf|]. by split. Qed.

Lemma add_each_sound {A} (f : Config -> A -> option Config) l c :
  (forall x, tightening (fun c => f c x)) -> sound c (add_each f l c).
Proof.
  intros Hf. revert c. induction l as [|x l IH]; intros c; cbn [add_each]; [by split|].
  destruct (f c x) as [c1|] eqn:E; [|by split]. destruct (Hf x c c1 E) as [H1 H2], (IH c1) as [H3 H4].
  split; [by etrans|auto].
Qed.

Lemma and_then_sound c r k : sound c r -> (forall c', sound c' (k c')) -> sound c (and_then r k).
Proof.
  intros [H1 H2] Hk. unfold and_then. destruct (r.2); [|done]. destruct (Hk r.1) as [H3 H4]. split; [by etrans|auto].
Qed.

Lemma block_name_tightening s : tightening (fun c => block_name (w_nr (uw_p U)) c s).
Proof.
  intros c c'. unfold block_name. destruct (resolve_syscall _ _) as [n|] eqn:En; [|intros [= <-]; by split].
  intros H. eapply tightening_add_blocked; [|exact H]. by eapply resolve_syscall_range.
Qed.

Lemma ai_agent_sound c : sound c (apply_profile_ai_agent U c).
Proof.
  unfold apply_profile_ai_agent. cbn zeta.
  do 3 (apply and_then_sound; [apply add_each_sound; intros x; apply tightening_add_path|intros]).
  apply and_then_sound.
  { repeat case_match; try by split. apply (sound_step (fun c => cfg_add_path c _ PATH_RWX false)), tightening_add_path. }
  intros. apply and_then_sound.
  { case_match; [|by split]. apply (sound_step (fun c => cfg_add_path c _ PATH_RWX false)), tightening_add_path. }
  intros. apply and_then_sound; [apply add_each_sound; intros x; apply block_name_tightening|].
  intros. apply add_each_sound. intros x. apply tightening_add_env_deny.
Qed.

Lemma strict_sound c : sound c (apply_profile_strict U c).
Proof.
  apply and_then_sound; [apply ai_agent_sound|]. intros. apply add_each_sound. intros x. apply block_name_tightening.
Qed.

Lemma resolve_sound flags c name :
  let r := resolve_and_load_profile 0 (uw_p U) flags c name in retains c r.2 /\ (config_wf c -> config_wf r.2).
Proof. by apply (sound_resolve_and_load 0 (uw_p U)). Qed.

Lemma user_policy_sound st c' :
  user_policy U st = Some c' -> retains (us_cfg st) c' /\ (config_wf (us_cfg st) -> config_wf c').
Proof.
  unfold user_policy. case_match; [intros [= <-]; by split|].
  destruct (resolve_sound (us_flags st) (us_cfg st) (default [] (profile (us_cfg st)))) as [H1 H2].
  destruct (resolve_and_load_profile _ _ _ _ _) as [[] c1]; cbn [snd] in H1, H2; [by intros [= <-]| |done].
  match goal with |- context [let '(_, _) := ?r in _] => set (r0 := r) end.
  assert (Hr : sound c1 r0).
  { unfold r0. case_match; [apply ai_agent_sound|]. case_match; [apply strict_sound|by split]. }
  destruct r0 as [c2 ok]. destruct Hr as [H3 H4]. destruct ok; [|done]. cbn [fst] in *. intros [= <-]. split.
  - etrans; [exact H1|]. etrans; [exact H3|]. split; cbn; auto with comp_db; reflexivity.
  - intros Hc. destruct (H4 (H2 Hc)). by split.
Qed.

Lemma cli_overrides_inv opts cli c :
  opts_inv opts cli -> retains cli c -> config_wf c -> opts_inv opts (cli_overrides cli c).
Proof.
  intros [] [] Hwf. rewrite oi_nnp0 in t_no_new_privs. cbn in t_no_new_privs. unfold cli_overrides.
  destruct (use_landlock cli), (use_seccomp cli), (use_env_sanitize cli); split; cbn; try done;
    try (by destruct Hwf; split); try (intros Hx; exfalso; by auto); intros Hx; rewrite t_insecure; auto.
Qed.

Lemma add_workdir_tightening : tightening add_workdir.
Proof.
  intros c c'. unfold add_workdir. destruct (workdir c) as [d|]; [|intros [= <-]; by split].
  case_match; [intros [= <-]; by split|]. apply tightening_add_path.
Qed.

Lemma final_policy_inv opts st c :
  opts_inv opts (us_cfg st) -> final_policy U st = Some c ->
  opts_inv opts c /\ (use_landlock c = true -> config_check_additive (w_realpath (uw_p U)) c = true).
Proof.
  intros Hi H. unfold final_policy in H. apply bind_Some in H as (c1 & H1 & H). apply bind_Some in H as (c2 & H2 & H).
  apply user_policy_sound in H1 as [T1 W1]. pose proof (oi_wf _ _ Hi) as Hwf.
  pose proof (cli_overrides_inv opts _ _ Hi T1 (W1 Hwf)) as Hi1. apply add_workdir_tightening in H2 as [T2 W2].
  destruct (use_landlock c2 && _) eqn:Ea; [done|]. simplify_eq. split.
  - destruct Hi1, T2. rewrite oi_nnp0 in t_no_new_privs. split; [auto|done|..]; intros Hx.
    + rewrite oi_landlock0 in t_landlock by done. done.
    + rewrite oi_seccomp0 in t_seccomp by done. done.
    + rewrite oi_env0 in t_env_sanitize by done. done.
    + rewrite t_insecure. auto.
  - intros Hl. rewrite Hl in Ea. by apply negb_false_iff in Ea.
Qed.
End Main.

Lemma user_config_wf : config_wf user_config.
Proof. split; cbn; unfold UINT32_MAX; try constructor; lia. Qed.

(** C12: a command started by compartment-user runs under its whole policy.
    no_new_privs is always set; Landlock, seccomp and environment sanitising are
    on unless their --no- switch was given, whatever the profile says; without
    --insecure no preflight check failed; the policy is one Landlock can
    express; and every mechanism of the policy has been applied to the process:
    the environment is the sanitised one, masks are in place or their path is
    absent, named capabilities are gone with the securebits locked, inherited
    descriptors are closed, the ruleset and the filter are those of the policy. *)
Theorem user_exec_enforced U opts cmd p f argv c p' :
  nr_table_ok (w_nr (uw_p U)) -> user_main U opts cmd p = UExec f argv c p' ->
  opts_inv opts c /\ up_nnp p' = true
  /\ (use_landlock c = true -> config_check_additive (w_realpath (uw_p U)) c = true)
  /\ (OInsecure ∉ opts -> preflight_check U c = 0%nat)
  /\ enforced U c p p'.
Proof.
  intros Hnr. unfold user_main. destruct (apply_opts U opts _) as [rc|st] eqn:Eo; [done|].
  assert (Hi : opts_inv opts (us_cfg st)).
  { apply (apply_opts_inv U Hnr opts []) in Eo; [done|]. split; try done. apply user_config_wf. }
  intros H. assert (H' : match final_policy U st with
    | None => UExit 1
    | Some c =>
        if us_dump st || dry_run c then UExit 0
        else if audit c && negb (uw_audit_open_ok U) then UExit 1
        else if Nat.ltb 0 (preflight_check U c) && negb (allow_insecure c) then UExit 1
        else match enforce U c p with
             | None => UExit 1
             | Some p' => if uw_exec_ok U then UExec (default [] (head cmd)) cmd c p' else UExit 127
             end
    end = UExec f argv c p') by (destruct cmd, (us_dump st); done).
  clear H. destruct (final_policy U st) as [c0|] eqn:Ef; [|done].
  destruct (us_dump st || dry_run c0); [done|]. destruct (audit c0 && _); [done|].
  destruct (Nat.ltb 0 (preflight_check U c0) && _) eqn:Ep; [done|].
  destruct (enforce U c0 p) as [p0|] eqn:Ee; [|done]. destruct (uw_exec_ok U); [|done]. simplify_eq.
  apply (final_policy_inv U Hnr opts) in Ef as [Hc Ha]; [|done]. apply enforce_enforced in Ee.
  split_and!; [done|by apply Ee, Hc|done| |done]. intros Hin. rewrite (oi_insecure _ _ Hc Hin), andb_true_r in Ep.
  apply Nat.ltb_ge in Ep. lia.
Qed.

(** ** Shell replacement *)

Lemma degrade_spec {A} (o : option A) f st p d :
  degrade o f st = (p, d) -> (exists a, o = Some a /\ p = f a /\ d = st.2) \/ (o = None /\ p = st.1 /\ d = S st.2).
Proof. unfold degrade. destruct o as [a|]; intros [= <- <-]; [left; by exists a|by right]. Qed.

(** Without a counted failure everything was applied. *)
Lemma shell_enforce_clean U strict c p p' :
  shell_enforce U strict c p = Some (p', 0%nat) -> enforced U c p p' /\ preflight_check U c = 0%nat.
Proof.
  unfold shell_enforce. destruct (apply_masks U c p) as [p1|] eqn:E1; [|done].
  destruct (apply_cap_drops U c p1) as [p2|] eqn:E2; [|done].
  apply apply_masks_spec in E1 as (M & ns & l & ->). apply apply_cap_drops_spec in E2 as (C & d & inh & sb & ->).
  set (q := with_caps d inh sb _). set (r3 := if use_no_new_privs c then _ else _).
  assert (H3 : exists n d1, r3 = (UProc n (up_env p) ns l d inh sb (up_fds p) (up_ruleset p) (up_filter p) (up_cwd p), d1)
    /\ (d1 = 0%nat -> preflight_check U c = 0%nat /\ (use_no_new_privs c = true -> n = true))).
  { unfold r3. destruct (use_no_new_privs c); [|by eexists _, _].
    destruct (uw_set_nnp_ok U); cbn [degrade fst snd]; eexists _, _; (split; [reflexivity|]); [done|by intros]. }
  destruct H3 as (n & d1 & -> & N). cbn match beta.
  destruct (sanitized_shape c (UProc n (up_env p) ns l d inh sb (up_fds p) (up_ruleset p) (up_filter p) (up_cwd p)))
    as (e & -> & He).
  destruct (close_inherited_fds U _) as [p4|] eqn:E4; [|done]. apply close_inherited_fds_spec in E4 as (F & fds & ->).
  set (p4 := with_fds fds _). set (r5 := if use_landlock c then _ else _).
  assert (H5 : exists r d2, r5 = (UProc n e ns l d inh sb fds r (up_filter p) (up_cwd p), d2)
    /\ (d2 = 0%nat -> d1 = 0%nat
        /\ (use_landlock c = true -> exists r', apply_landlock (uw_ll U) c = Some r' /\ r = Some r'))).
  { unfold r5. destruct (use_landlock c); [|by eexists _, _].
    destruct (apply_landlock (uw_ll U) c) as [r|]; cbn [degrade fst snd]; eexists _, _; (split; [reflexivity|]); [|by intros].
    intros ->. split; [done|]. intros _. by exists r. }
  destruct H5 as (r & d2 & -> & L). cbn match beta. set (r6 := if use_seccomp c then _ else _).
  assert (H6 : exists f d3, r6 = (UProc n e ns l d inh sb fds r f (up_cwd p), d3)
    /\ (d3 = 0%nat -> d2 = 0%nat
        /\ (use_seccomp c = true -> filter_applied U c (UProc n e ns l d inh sb fds r f (up_cwd p))))).
  { unfold r6. destruct (use_seccomp c); [|by eexists _, _].
    destruct (install_filter U c _) as [p6|] eqn:E6; cbn [degrade fst snd].
    - apply install_filter_spec in E6 as (S & f & ->). exists f, d2. split; [done|]. intros ->. split; [done|]. by intros _.
    - eexists _, _. split; [reflexivity|]. by intros. }
  destruct H6 as (f & d3 & -> & S). cbn match beta. case_match; [done|]. intros [= <- ->].
  destruct (S eq_refl) as [-> S']. destruct (L eq_refl) as [-> L']. destruct (N eq_refl) as [Hp N']. split; [by split|done].
Qed.

(** With the operator's profile a counted failure refuses. *)
Lemma shell_enforce_strict U c p q d : shell_enforce U true c p = Some (q, d) -> d = 0%nat.
Proof.
  unfold shell_enforce. destruct (apply_masks U c p) as [p1|]; [|done]. destruct (apply_cap_drops U c p1) as [p2|]; [|done].
  match goal with |- (let '(_, _) := ?r in _) = _ -> _ => destruct r as [p3 d1] end.
  destruct (close_inherited_fds U (sanitized c p3)) as [p4|]; [|done].
  match goal with |- (let '(_, _) := ?r in _) = _ -> _ => destruct r as [p5 d2] end.
  match goal with |- (let '(_, _) := ?r in _) = _ -> _ => destruct r as [p6 d3] end.
  rewrite andb_true_r. destruct (Nat.ltb_spec 0 d3); [done|]. intros [= _ <-]. lia.
Qed.

Lemma shell_profile_switches U strict c :
  nr_table_ok (w_nr (uw_p U)) -> shell_profile U = Some (strict, c) ->
  config_wf c /\ use_no_new_privs c = true /\ use_env_sanitize c = true /\ use_landlock c = true /\ use_seccomp c = true.
Proof.
  intros Hnr. unfold shell_profile.
  assert (Hall : forall c', retains user_config c' -> (config_wf user_config -> config_wf c') ->
    config_wf c' /\ use_no_new_privs c' = true /\ use_env_sanitize c' = true /\ use_landlock c' = true /\ use_seccomp c' = true).
  { intros c' [] Hw. cbn in *. split_and!; try done. apply Hw, user_config_wf. }
  destruct (resolve_sound U Hnr 0 user_config (lit "shell-replacement")) as [H1 H2].
  destruct (resolve_and_load_profile _ _ _ user_config _) as [[] c1]; cbn [snd] in *; [|  |done].
  - intros [= <- <-]. destruct (Hall _ H1 H2) as (Hw & ? & ? & ? & ?). destruct Hw. split_and!; done.
  - destruct (resolve_sound U Hnr 0 c1 (lit "ai-agent")) as [H3 H4].
    destruct (resolve_and_load_profile _ _ _ c1 _) as [rc c2]; cbn [snd] in *.
    assert (Hbuilt : retains user_config (apply_profile_ai_agent U c2).1
      /\ (config_wf user_config -> config_wf (apply_profile_ai_agent U c2).1)).
    { destruct (ai_agent_sound U Hnr c2) as [H5 H6]. split; [etrans; [exact H1|]; by etrans|auto]. }
    destruct rc; intros [= <- <-]; [|apply Hall; apply Hbuilt..]. apply Hall; [by etrans|auto].
Qed.

(** C14: a shell confined by the operator's shell-replacement profile fails
    closed.  When the real shell is started with that profile in force, no
    preflight check failed and every mechanism has been applied: no_new_privs,
    the sanitised environment, masks, capability drops, closed descriptors, the
    Landlock ruleset and the seccomp policy. *)
Theorem strict_shell_enforced U name argv p f a c p' :
  nr_table_ok (w_nr (uw_p U)) -> shell_profile U = Some (true, c) ->
  shell_main U name argv p = UExec f a c p' ->
  preflight_check U c = 0%nat /\ enforced U c p p' /\ up_nnp p' = true
  /\ sanitize_env c (up_env p) = Some (up_env p')
  /\ (exists r, apply_landlock (uw_ll U) c = Some r /\ up_ruleset p' = Some r) /\ filter_applied U c p'.
Proof.
  intros Hnr Hs. unfold shell_main. case_match; [done|]. rewrite Hs.
  destruct (shell_enforce U true c p) as [[q d]|] eqn:Ee; [|done]. destruct (uw_exec_ok U); [|done]. intros [= <- <- <-].
  apply shell_enforce_strict in Ee as Hd. subst d.
  apply shell_enforce_clean in Ee as [He Hp]. destruct (shell_profile_switches U true c Hnr Hs) as (_ & Hn & Hv & Hl & Hc).
  destruct He as [E1 E2 E3 E4 E5 E6 E7]. split_and!; auto. by split.
Qed.

(** A failed mechanism never locks a user out of the shell unless the
    operator asked for it: when the shell is not started although the exec would
    succeed, the shell path is too long, shell-replacement.conf was rejected, a
    mask, a capability drop or the descriptor clean-up failed, or that profile is
    in force. *)
Theorem shell_lockout_causes U name argv p rc :
  uw_exec_ok U = true -> shell_main U name argv p = UExit rc ->
  rc = 126
  /\ ((PATH_MAX <= length (shell_path U name))%nat
      \/ (resolve_and_load_profile 0 (uw_p U) 0 user_config (lit "shell-replacement")).1 = PROFILE_ERROR
      \/ exists strict c, shell_profile U = Some (strict, c)
         /\ (strict = true \/ apply_masks U c p = None
             \/ exists p1, apply_masks U c p = Some p1
                /\ (apply_cap_drops U c p1 = None
                    \/ exists p2, close_inherited_fds U p2 = None))).
Proof.
  intros Hx. unfold shell_main. destruct (Nat.leb_spec PATH_MAX (length (shell_path U name))); [intros [= <-]; auto|].
  destruct (shell_profile U) as [[strict c]|] eqn:Es.
  2: { intros [= <-]. split; [done|]. right. left. unfold shell_profile in Es. repeat case_match; done. }
  destruct (shell_enforce U strict c p) as [[q d]|] eqn:Ee; [by rewrite Hx|]. intros [= <-]. split; [done|].
  right. right. exists strict, c. split; [done|]. unfold shell_enforce in Ee.
  destruct (apply_masks U c p) as [p1|]; [|auto]. destruct (apply_cap_drops U c p1) as [p2|] eqn:E2; [|eauto 8].
  destruct strict; [auto|]. right. right. exists p1. split; [done|]. right.
  match type of Ee with (let '(_, _) := ?r in _) = _ => destruct r as [p3 d1] end.
  destruct (close_inherited_fds U (sanitized c p3)) as [p4|] eqn:E4; [|by exists (sanitized c p3)].
  exfalso. match type of Ee with (let '(_, _) := ?r in _) = _ => destruct r as [p5 d2] end.
  match type of Ee with (let '(_, _) := ?r in _) = _ => destruct r as [p6 d3] end. by rewrite andb_false_r in Ee.
Qed.
