(* ===== verification/UserDemo.v ===== *)
(** * compartment-user on a concrete system

    Witnesses of the theorems of [UserProps], and runs that show where the shell
    mode is weaker than the normal one. *)

From S2P Require Import Prelude CLib Config ConfigProps Seccomp Profile ProfileProps EnvAudit Landlock User UserProps.
From Stdlib Require Import Ascii.

#[local] Open Scope Z_scope.

(** ** The system *)

Definition demo_landlock : landlock_kernel := {|
  ll_abi := 5; ll_create := fun _ _ => true;
  ll_open := fun _ => PathOpened (Some {| st_mode := 0x41ED; st_uid := 0 |});
  ll_add_path := fun _ _ => true; ll_add_port := fun _ _ => true; ll_restrict := true
|}.

Definition demo_system (w : world) : uworld := {|
  uw_p := w; uw_arch := ArchX86_64; uw_ll := demo_landlock; uw_get_nnp_ok := true; uw_set_nnp_ok := true;
  uw_get_seccomp_ok := true; uw_alloc_ok := true; uw_load_filter := fun _ => true;
  uw_statfs := fun _ => Some 0xEF53; uw_proc_mounts := Some (text ["/dev/sda1 / ext4 rw 0 0"]);
  uw_unshare := CapOk; uw_make_private := true; uw_lstat := fun _ => LstatIs true; uw_mount := fun _ => true;
  uw_geteuid := 0; uw_capbset_drop := fun _ => CapOk; uw_clear_ambient := CapOk; uw_capget_ok := true;
  uw_capset_ok := true; uw_get_securebits := Some 0; uw_set_securebits := fun _ => true;
  uw_close_range_ok := true; uw_proc_fd := None; uw_scan_fd := 3; uw_close := fun _ => true;
  uw_set_cloexec := fun _ => true; uw_openat := fun _ _ => None; uw_shell_dir := None; uw_audit_open_ok := true;
  uw_chdir := fun _ => true; uw_uname_ok := true; uw_exec_ok := true
|}.

Definition login : uproc :=
  UProc false [lit "LD_PRELOAD=/tmp/x.so"; lit "TERM=vt100"] false [] [] false 0 [0; 1; 2; 9] None None None.

Definition result_of (r : uresult) : option (Config * uproc) :=
  match r with UExec _ _ c p => Some (c, p) | UExit _ => None end.

Definition with_home (h : cstring) (w : world) : world :=
  {| w_getuid := w_getuid w; w_home := Some h; w_user := w_user w; w_pw_name := w_pw_name w; w_stat := w_stat w;
     w_open := w_open w; w_opendir := w_opendir w; w_realpath := w_realpath w; w_fdopen := w_fdopen w; w_nr := w_nr w |}.

(** ** Witnesses *)

Definition agent_opts : list uopt := [OMask (lit "/run/secret"); OCapDrop (lit "sys_admin"); OWorkdir (lit "/srv")].

Lemma user_exec_enforced_witness :
  exists c p', user_main (demo_system (demo_world [])) agent_opts [lit "agent"] login = UExec (lit "agent") [lit "agent"] c p'
  /\ up_env p' = [lit "TERM=vt100"] /\ up_masked p' = [lit "/run/secret"] /\ up_dropped_caps p' = [21]
  /\ up_fds p' = [0; 1; 2] /\ up_nnp p' = true /\ enforced (demo_system (demo_world [])) c login p'.
Proof.
  do 2 eexists. split; [vm_compute; reflexivity|]. do 4 (split; [reflexivity|]).
  match goal with |- _ /\ enforced ?U ?c ?p ?p' =>
    destruct (user_exec_enforced U agent_opts [lit "agent"] p (lit "agent") [lit "agent"] c p') as (_ & Hn & _ & _ & He);
      [apply demo_world_nr|vm_compute; reflexivity|] end.
  split; [exact Hn|exact He].
Defined.

(** An operator's profile for a confined account. *)
Definition operator_files : list (string * cstring) :=
  [("/etc/compartment/shell-replacement.conf"%string,
    text ["ro /usr"; "rw /srv"; "block ptrace"; "env-deny LD_*"; "cap-drop sys_module"])].

Lemma strict_shell_enforced_witness :
  exists c p', shell_main (demo_system (demo_world operator_files)) (lit "bash") [lit "-bash"] login
    = UExec (lit "/bin/shells/bash") [lit "-bash"] c p'
  /\ shell_profile (demo_system (demo_world operator_files)) = Some (true, c)
  /\ up_env p' = [lit "TERM=vt100"] /\ filter_applied (demo_system (demo_world operator_files)) c p'.
Proof.
  do 2 eexists. split; [vm_compute; reflexivity|]. split; [vm_compute; reflexivity|]. split; [reflexivity|].
  match goal with |- filter_applied ?U ?c ?p' =>
    destruct (strict_shell_enforced U (lit "bash") [lit "-bash"] login (lit "/bin/shells/bash") [lit "-bash"] c p')
      as (_ & _ & _ & _ & _ & H); [apply demo_world_nr|vm_compute; reflexivity|vm_compute; reflexivity|exact H] end.
Defined.

(** A system on which inherited descriptors cannot be closed. *)
Definition stuck_system : uworld :=
  let U := demo_system (demo_world []) in
  UWorld (uw_p U) (uw_arch U) (uw_ll U) true true true true (uw_load_filter U) (uw_statfs U) (uw_proc_mounts U) CapOk true
    (uw_lstat U) (uw_mount U) 0 (uw_capbset_drop U) CapOk true true (Some 0) (uw_set_securebits U) false None 3
    (uw_close U) (uw_set_cloexec U) (uw_openat U) None true (uw_chdir U) true true.

Lemma long_path_absurd : ~ (PATH_MAX <= length (shell_path stuck_system (lit "bash")))%nat.
Proof.
  pose proof (Nat.leb_le PATH_MAX (length (shell_path stuck_system (lit "bash")))) as [_ H].
  intros Hle. specialize (H Hle). clear Hle.
  replace (Nat.leb PATH_MAX (length (shell_path stuck_system (lit "bash")))) with false in H by (vm_compute; reflexivity).
  discriminate H.
Qed.

Lemma shell_lockout_causes_witness :
  shell_main stuck_system (lit "bash") [lit "-bash"] login = UExit 126
  /\ exists p2, close_inherited_fds stuck_system p2 = None.
Proof.
  split; [vm_compute; reflexivity|].
  destruct (shell_lockout_causes stuck_system (lit "bash") [lit "-bash"] login 126) as (_ & H);
    [reflexivity|vm_compute; reflexivity|].
  destruct H as [H|[H|(s & c & Hs & H)]].
  - exfalso. exact (long_path_absurd H).
  - exfalso. vm_compute in H. discriminate H.
  - assert (E : shell_profile stuck_system = Some (false, (apply_profile_ai_agent stuck_system user_config).1))
      by (vm_compute; reflexivity).
    assert (Hc : s = false /\ c = (apply_profile_ai_agent stuck_system user_config).1) by (split; congruence).
    destruct Hc as [Hs1 Hc]. rewrite Hs1, Hc in H. destruct H as [H|[H|(p1 & Hp & [H|H])]].
    + discriminate H.
    + exfalso. vm_compute in H. discriminate H.
    + exfalso. vm_compute in Hp. inversion Hp; subst. vm_compute in H. discriminate H.
    + exact H.
Defined.

(** ** Where the shell mode is weaker *)

(** Without profile files the shell mode falls back to the built-in policy and
    ignores its result.  With a [HOME] the policy refuses, the built-in stops
    before its deny-lists, and the shell runs with neither a system call filter
    nor a sanitised environment; no failure is counted.  The normal mode exits. *)
Theorem shell_ignores_builtin_failure :
  let U := demo_system (with_home (lit "/") (demo_world [])) in
  (match shell_main U (lit "bash") [lit "-bash"] login with
   | UExec _ _ c p' => Some (up_filter p', up_env p', blocked_syscalls c) | UExit _ => None end)
  = Some (None, up_env login, [])
  /\ shell_enforce U false (apply_profile_ai_agent U user_config).1 login
     ≫= (fun r => Some r.2) = Some 0%nat
  /\ user_main U [] [lit "bash"] login = UExit 1.
Proof. split_and!; vm_compute; reflexivity. Qed.

(** The check that a read-only rule is not inside a writable one is made only in
    the normal mode: the operator's profile below is refused there, and in force
    in the shell mode although the nested rule has no effect. *)
Theorem shell_skips_additive_check :
  let files := [("/etc/compartment/shell-replacement.conf"%string, text ["rw /srv"; "ro /srv/etc"; "block ptrace"])] in
  let U := demo_system (demo_world files) in
  bool_decide (is_Some (result_of (shell_main U (lit "bash") [lit "-bash"] login))) = true
  /\ user_main U [OProfile (lit "shell-replacement")] [lit "bash"] login = UExit 1.
Proof. split; vm_compute; reflexivity. Qed.

(** [--workdir] is documented to add read, write and execute rights; unless the
    built-in policy is used the rule added is read-write without execute. *)
Theorem workdir_not_executable :
  let U := demo_system (demo_world []) in
  (match user_main U [OProfile (lit "none"); OWorkdir (lit "/srv")] [lit "agent"] login with
   | UExec _ _ c _ => mode <$> paths c | UExit _ => [] end) = [PATH_RW].
Proof. vm_compute. reflexivity. Qed.
