(* ===== verification/Root.v ===== *)
(** * compartment-root

    Models [src/compartment-root.c]: option handling and the policy checks of
    [main], the parent's side of the container set-up, [child_func] from the
    pipe to [execvp] and the reaper that stays behind as process 1.

    A run is a program in the monad [prog]: it issues system calls, reads the
    answers of the kernel and appends both to a trace, and either goes on with a
    value or stops.  The answers ([rkernel]) may depend on the whole trace.
    Diagnostics are left out. *)

From S2P Require Import Prelude CLib Config ConfigProps Seccomp Profile EnvAudit Landlock ObserveMain User.
From Stdlib Require Import Ascii.

#[local] Open Scope Z_scope.
#[local] Open Scope comp_scope.

(** ** System calls *)

Definition MS_RDONLY : Z := 1.
Definition MS_NOSUID : Z := 2.
Definition MS_NODEV : Z := 4.
Definition MS_NOEXEC : Z := 8.
Definition MS_REMOUNT : Z := 32.
Definition MS_BIND : Z := 4096.
Definition MS_REC : Z := 16384.
Definition MS_PRIVATE : Z := 262144.
Definition EPERM : Z := 1.
Definition ENOENT : Z := 2.
Definition EEXIST : Z := 17.

Inductive rcall :=
  | CMount (source : option cstring) (target : cstring) (fstype : option cstring) (flags : Z) (data : option cstring)
  | CMountSetattr (path : cstring) (attr_set : Z)                 (* AT_RECURSIVE *)
  | CUmountDetach (path : cstring)
  | CPivotRoot (new_root put_old : cstring)
  | CChdir (path : cstring) | CMkdir (path : cstring) | CRmdir (path : cstring)
  | CCreat (path : cstring) | CSymlink (target link : cstring)
  | CSethostname (name : cstring) | CSocket | CLoopbackUp
  | CRestrictSelf (r : ruleset)
  | CCapbsetDrop (cap : Z) | CKeepcaps | CSetgroups | CSetgid (g : Z) | CSetuid (u : Z)
  | CCapset (lo hi : Z) | CAmbientRaise (cap : Z)
  | CNotDumpable | CCloseRange | CClose (upto : Z) | CNoNewPrivs | CPdeathsig | CFork | CFilter (prog : sock_fprog)
  | CRlimit (resource : string)
  | CExec (file : cstring) (argv envp : list cstring)
  | CReadGo                                                       (* the child reads the parent's byte *)
  | CCloseRead | CCloseWrite                                      (* an end of that pipe *)
  | CPipe | CSetns (path : cstring) | CMalloc | CClone (flags : Z)
  | COpen (path : cstring) | CWriteFile (path text : cstring)
  | CGo                                                           (* the parent writes it *)
  | CKill | CWait
  | CAbsent (path : cstring)                                      (* lstat answered ENOENT *)
  | CReadCapLast.

#[export] Instance ruleset_eq_dec : EqDecision ruleset.
Proof. solve_decision. Defined.
#[export] Instance sock_filter_eq_dec : EqDecision sock_filter.
Proof. solve_decision. Defined.
#[export] Instance sock_fprog_eq_dec : EqDecision sock_fprog.
Proof. solve_decision. Defined.
#[export] Instance rcall_eq_dec : EqDecision rcall.
Proof. solve_decision. Defined.

(** Calls with their results, oldest first: 0 or an errno. *)
Definition trace : Type := list (rcall * Z).

Record rkernel := RKernel {
  rk_call : trace -> rcall -> Z;
  rk_lstat : trace -> cstring -> lstat_answer;
  rk_stat_ok : trace -> cstring -> bool;
  rk_cap_last : trace -> option Z;              (* the number in /proc/sys/kernel/cap_last_cap *)
  rk_realpath : cstring -> option cstring;      (* inside the container *)
  rk_landlock : landlock_kernel;
  rk_arch : arch; rk_alloc_ok : bool;
  rk_nofile : option Z;                         (* getrlimit (RLIMIT_NOFILE) *)
  rk_mount_setattr : bool; rk_close_range : bool  (* whether the headers have the numbers *)
}.

(** ** Programs *)

(** Exit with a status; or a read past the end of an array, after which nothing
    is known. *)
Inductive stop := Exit (code : Z) | OutOfBounds.

Definition prog (A : Type) : Type := trace -> (stop + A) * trace.

#[export] Instance prog_ret : MRet prog := fun _ a t => (inr a, t).
#[export] Instance prog_bind : MBind prog :=
  fun _ _ f m t => match m t with (inl s, t') => (inl s, t') | (inr a, t') => f a t' end.

Definition halt {A} (s : stop) : prog A := fun t => (inl s, t).
Definition fatal {A} : prog A := halt (Exit 1).
Definition note (e : rcall) : prog unit := fun t => (inr tt, t ++ [(e, 0)]).

Fixpoint each {A} (f : A -> prog unit) (l : list A) : prog unit :=
  match l with [] => mret tt | x :: rest => f x ;; each f rest end.

Section Programs.
Context (K : rkernel).

Definition sys (e : rcall) : prog Z := fun t => let r := rk_call K t e in (inr r, t ++ [(e, r)]).

(** A call whose failure ends the process, one whose failure is ignored, and one
    whose failure is fatal unless errno is [ok]. *)
Definition must (e : rcall) : prog unit := r ← sys e; if r =? 0 then mret tt else fatal.
Definition may (e : rcall) : prog unit := sys e ;; mret tt.
Definition must_unless (ok : Z) (e : rcall) : prog unit := r ← sys e; if (r =? 0) || (r =? ok) then mret tt else fatal.

(** ** Mounts *)

Definition path_has_dotdot (path : cstring) : bool := has_dotdot true path.

Definition COVER_FLAGS : Z := lors [MS_RDONLY; MS_NOSUID; MS_NOEXEC; MS_NODEV].
Definition cover_dir (path : cstring) : rcall :=
  CMount (Some (lit "tmpfs")) path (Some (lit "tmpfs")) COVER_FLAGS (Some (lit "size=0")).
Definition cover_file (path : cstring) : rcall := CMount (Some (lit "/dev/null")) path None MS_BIND None.

(** [mask_path] followed by its callers' [exit (EXIT_FAILURE)]. *)
Definition mask_path (path : cstring) : prog unit := fun t =>
  match rk_lstat K t path with
  | LstatAbsent => note (CAbsent path) t
  | LstatFailed => fatal t
  | LstatIs is_dir => must (if is_dir then cover_dir path else cover_file path) t
  end.

Definition attr_of_flags (flags : Z) : Z :=
  lors [if flags &? MS_RDONLY then 1 else 0; if flags &? MS_NOSUID then 2 else 0;
        if flags &? MS_NODEV then 4 else 0; if flags &? MS_NOEXEC then 8 else 0].

Definition remount_call (path : cstring) (flags : Z) : rcall :=
  CMount None path None (lors [MS_BIND; MS_REMOUNT; flags]) None.

Definition remount_with_flags (path : cstring) (flags : Z) (recursive : bool) : prog unit :=
  rec ← (if recursive && rk_mount_setattr K then sys (CMountSetattr path (attr_of_flags flags)) else mret (-1));
  if rec =? 0 then mret tt else must (remount_call path flags).

Definition mount_bits (f : Z) : Z :=
  lors [if f &? COMPARTMENT_MS_RDONLY then MS_RDONLY else 0; if f &? COMPARTMENT_MS_NOSUID then MS_NOSUID else 0;
        if f &? COMPARTMENT_MS_NODEV then MS_NODEV else 0; if f &? COMPARTMENT_MS_NOEXEC then MS_NOEXEC else 0].

Definition bind_self (path : cstring) : rcall := CMount (Some path) path None (Z.lor MS_BIND MS_REC) None.

Definition apply_mount_flag (r : MountFlagRule) : prog unit := fun t =>
  if negb (Loader.is_absolute (mf_path r)) || path_has_dotdot (mf_path r) || negb (rk_stat_ok K t (mf_path r)) then fatal t
  else (must (bind_self (mf_path r)) ;; remount_with_flags (mf_path r) (mount_bits (mf_flags r)) true) t.

Definition apply_mount_flags (c : Config) : prog unit := each apply_mount_flag (mount_flags c).

(** ** The container's file system *)

Definition default_dev_nodes : list string := ["null"; "zero"; "full"; "random"; "urandom"; "tty"]%string.

Definition default_proc_masks : list string :=
  ["/proc/acpi"; "/proc/bus"; "/proc/fs"; "/proc/irq"; "/proc/kallsyms"; "/proc/kcore"; "/proc/keys";
   "/proc/latency_stats"; "/proc/modules"; "/proc/sched_debug"; "/proc/scsi"; "/proc/sys"; "/proc/sysrq-trigger";
   "/proc/timer_list"; "/proc/timer_stats"]%string.

Definition root_private : rcall := CMount None (lit "/") None (Z.lor MS_PRIVATE MS_REC) None.
Definition mount_proc : rcall :=
  CMount (Some (lit "proc")) (lit "/proc") (Some (lit "proc")) (lors [MS_NOSUID; MS_NOEXEC; MS_NODEV]) None.
Definition mount_dev : rcall :=
  CMount (Some (lit "tmpfs")) (lit "/dev") (Some (lit "tmpfs")) (Z.lor MS_NOSUID MS_NOEXEC)
    (Some (lit "size=1m,mode=0755")).
Definition bind_dev_node (n : string) : rcall :=
  CMount (Some (lit "/.pivot_old/dev/" ++ lit n)) (lit "/dev/" ++ lit n) None MS_BIND None.
Definition mount_devpts (opts : string) : rcall :=
  CMount (Some (lit "devpts")) (lit "/dev/pts") (Some (lit "devpts")) (Z.lor MS_NOSUID MS_NOEXEC) (Some (lit opts)).
Definition bind_ptmx : rcall := CMount (Some (lit "/dev/pts/ptmx")) (lit "/dev/ptmx") None MS_BIND None.
Definition mount_shm : rcall :=
  CMount (Some (lit "tmpfs")) (lit "/dev/shm") (Some (lit "tmpfs")) (lors [MS_NOSUID; MS_NODEV; MS_NOEXEC])
    (Some (lit "size=64m,mode=1777")).
Definition mount_sysfs : rcall :=
  CMount (Some (lit "sysfs")) (lit "/sys") (Some (lit "sysfs")) COVER_FLAGS None.

(** The flags of the container root; [ro] is added at the end. *)
Definition root_flags (c : Config) : Z :=
  lors [MS_NOSUID; MS_NODEV; if rootdir_flags c &? COMPARTMENT_MS_NOEXEC then MS_NOEXEC else 0].

Definition enter_root (c : Config) (root : cstring) : prog unit :=
  must root_private ;; must (bind_self root) ;; remount_with_flags root (root_flags c) true ;;
  must (CChdir root) ;; must_unless EEXIST (CMkdir (lit ".pivot_old")) ;;
  must (CPivotRoot (lit ".") (lit ".pivot_old")) ;; must (CChdir (lit "/")).

(** The option [gid=5] is refused under a shifted map. *)
Definition mount_pts : prog unit :=
  r ← sys (mount_devpts "newinstance,ptmxmode=0666,mode=0620,gid=5");
  if r =? 0 then mret tt else must (mount_devpts "newinstance,ptmxmode=0666,mode=0620").

Definition populate_dev : prog unit :=
  may (CMkdir (lit "/dev")) ;; must mount_dev ;;
  each (fun n => may (CCreat (lit "/dev/" ++ lit n)) ;; must (bind_dev_node n)) default_dev_nodes ;;
  may (CMkdir (lit "/dev/pts")) ;; mount_pts ;;
  may (CCreat (lit "/dev/ptmx")) ;; must bind_ptmx ;;
  may (CMkdir (lit "/dev/shm")) ;; must mount_shm ;;
  may (CSymlink (lit "/proc/self/fd") (lit "/dev/fd")) ;;
  may (CSymlink (lit "/proc/self/fd/0") (lit "/dev/stdin")) ;;
  may (CSymlink (lit "/proc/self/fd/1") (lit "/dev/stdout")) ;;
  may (CSymlink (lit "/proc/self/fd/2") (lit "/dev/stderr")).

Definition mount_sys : prog unit :=
  may (CMkdir (lit "/sys")) ;; r ← sys mount_sysfs;
  if r =? 0 then mask_path (lit "/sys/firmware") else mask_path (lit "/sys").

Definition extra_mask (p : cstring) : prog unit :=
  if negb (Loader.is_absolute p) || path_has_dotdot p then fatal else mask_path p.

(** [cap_last_cap] is read before [/proc/sys] is covered. *)
Definition read_cap_last : prog Z := fun t => (note CReadCapLast ;; mret (default 63 (rk_cap_last K t))) t.

Definition build_filesystem (c : Config) : prog Z :=
  may (CMkdir (lit "/proc")) ;; must mount_proc ;; cap_last ← read_cap_last; populate_dev ;; mount_sys ;;
  each (fun s => mask_path (lit s)) default_proc_masks ;; each extra_mask (mount_masks c) ;;
  must (CUmountDetach (lit "/.pivot_old")) ;; may (CRmdir (lit "/.pivot_old")) ;;
  apply_mount_flags c ;;
  (if rootdir_flags c &? COMPARTMENT_MS_RDONLY
   then remount_with_flags (lit "/") (Z.lor MS_RDONLY (root_flags c)) false else mret tt) ;; mret cap_last.

Definition bring_up_loopback (c : Config) : prog unit :=
  if loopback c && bool_decide (netns c = None)
  then r ← sys CSocket; if r =? 0 then may CLoopbackUp else mret tt
  else mret tt.

(** ** Privileges *)

Definition CAP_MAX : nat := 64.

(** The array [allowed]; [None]: an unknown capability. *)
Fixpoint allowed_caps (names : list cstring) (allowed : list bool) : option (list bool) :=
  match names with
  | [] => Some allowed
  | n :: rest =>
      match resolve_cap n with
      | Some nr => if 63 <? nr then None else allowed_caps rest (<[Z.to_nat nr := true]> allowed)
      | None => None
      end
  end.

(** One turn of the loop: a failed drop is reported and the loop goes on. *)
Definition drop_cap (allowed : list bool) (cap : nat) : prog unit :=
  match allowed !! cap with
  | None => halt OutOfBounds
  | Some true => mret tt
  | Some false => may (CCapbsetDrop (Z.of_nat cap))
  end.

Definition drop_capabilities (c : Config) (cap_last : Z) : prog unit :=
  match allowed_caps (cap_allowed_names c) (replicate CAP_MAX false) with
  | None => fatal
  | Some allowed => each (drop_cap allowed) (seq 0 (Z.to_nat (cap_last + 1)))
  end.

Definition drop_privileges (u g : Z) : prog unit :=
  must_unless EPERM CSetgroups ;; must (CSetgid g) ;; must (CSetuid u).

(** The two words of the mask [apply_kept_caps] builds. *)
Fixpoint kept_mask (names : list cstring) (m : Z * Z) : Z * Z :=
  match names with
  | [] => m
  | n :: rest =>
      kept_mask rest
        (match resolve_cap n with
         | Some cap =>
             if 63 <? cap then m
             else let bit := Z.shiftl 1 (Z.land cap 31) in
                  if Z.shiftr cap 5 =? 0 then (Z.lor m.1 bit, m.2) else (m.1, Z.lor m.2 bit)
         | None => m
         end)
  end.

Definition apply_kept_caps (c : Config) : prog unit :=
  let m := kept_mask (cap_allowed_names c) (0, 0) in
  must (CCapset m.1 m.2) ;;
  each (fun n => match resolve_cap n with Some cap => may (CAmbientRaise cap) | None => mret tt end)
    (cap_allowed_names c).

(** ** The rest of the child *)

Definition restrict_landlock (c : Config) : prog unit :=
  if use_landlock c then
    if negb (config_check_additive (rk_realpath K) c) then fatal
    else match apply_landlock (rk_landlock K) c with None => fatal | Some r => note (CRestrictSelf r) end
  else mret tt.

Definition close_fds : prog unit :=
  let fallback :=
    may (CClose (match rk_nofile K with Some cur => if 3 <? cur then Z.min cur 1048576 else 4096 | None => 4096 end)) in
  if rk_close_range K then r ← sys CCloseRange; if r =? 0 then mret tt else fallback else fallback.

Definition install_seccomp_filter (c : Config) : prog unit := fun t =>
  match apply_seccomp (rk_arch K) c (rk_alloc_ok K) (fun p => rk_call K t (CFilter p) =? 0) with
  | SeccompError => fatal t
  | SeccompNoFilter => (inr tt, t)
  | SeccompInstalled p => note (CFilter p) t
  end.

Definition set_rlimits : prog unit := must (CRlimit "NOFILE") ;; must (CRlimit "CPU").

Record child_args := ChildArgs {
  ca_cmd : list cstring; ca_uid : Z; ca_gid : Z; ca_environ : list cstring
}.

Definition child_environ (c : Config) (a : child_args) : list cstring :=
  if use_env_sanitize c then default (ca_environ a) (sanitize_env c (ca_environ a)) else ca_environ a.

Definition exec_target (c : Config) (a : child_args) : prog unit :=
  must (CExec (default [] (head (ca_cmd a))) (ca_cmd a) (child_environ c a)).

(** Steps 6 to 17 of [child_func]: the container's file system is complete. *)
Definition confine (c : Config) (a : child_args) (cap_last : Z) : prog unit :=
  may (CSethostname (lit "container")) ;; bring_up_loopback c ;;
  restrict_landlock c ;; drop_capabilities c cap_last ;;
  (if bool_decide (cap_allowed_names c = []) then mret tt else must CKeepcaps) ;;
  drop_privileges (ca_uid a) (ca_gid a) ;;
  (if bool_decide (cap_allowed_names c = []) then mret tt else apply_kept_caps c) ;;
  may CNotDumpable ;; close_fds ;; must CNoNewPrivs ;; must CPdeathsig ;; must CFork.

(** Steps 18 and 19. *)
Definition filter_and_exec (c : Config) (a : child_args) : prog unit :=
  (if use_seccomp c then install_seccomp_filter c else mret tt) ;; set_rlimits ;; exec_target c a.

(** The child gives up its own write end, so that [read] can find the pipe closed. *)
Definition receive_go : prog unit := may CCloseWrite ;; must CReadGo ;; may CCloseRead.

Definition child_func (c : Config) (a : child_args) : prog unit :=
  receive_go ;; must (CSetgid 0) ;; must (CSetuid 0) ;;
  match rootdir c with
  | None => fatal
  | Some root => enter_root c root ;; cap_last ← build_filesystem c; confine c a cap_last ;; filter_and_exec c a
  end.

End Programs.
