(* ===== verification/RootMain.v ===== *)
(** * compartment-root: options, the parent and the reaper

    The rest of [src/compartment-root.c]: the policy [main] settles on and the
    checks it makes before anything is created, the parent's side of the
    container set-up, and [container_init] in process 1. *)

From S2P Require Import Prelude CLib Config ConfigProps Seccomp Profile EnvAudit Landlock ObserveMain User Root.
From Stdlib Require Import Ascii.

#[local] Open Scope Z_scope.
#[local] Open Scope comp_scope.

(** ** Options *)

Record rworld := RWorld {
  rw_p : world;                                       (* the host: files, environment, numbers *)
  rw_getpwnam : cstring -> option (Z * Z);            (* uid and gid of a user *)
  rw_arch : arch;
  rw_audit_open_ok : bool
}.

Definition root_config : Config :=
  MkConfig [] [] [] false [] [] false SECCOMP_DEFAULT_ERRNO [] [] false false true true true
    false false false None None None None false None 0 0 None None [] [] false [] 0 [] None None [] [].

Inductive ropt :=
  | RProfile (s : cstring) | RRootdir (s : cstring) | RUid (s : cstring) | RGid (s : cstring) | RUsername (s : cstring)
  | RSeccompAllowed (s : cstring) | RBlock (s : cstring) | RNetns (s : cstring) | RCgroup (s : cstring)
  | RCapAllowed (s : cstring) | REnvDeny (s : cstring) | REnvAllow (s : cstring) | RMountMask (s : cstring)
  | RLandlock | RPath (m : PathMode) (s : cstring) | RAuditLog (s : cstring) | RLoopback | RNoSeccomp
  | RNoEnvSanitize | RDryRun | RVerbose | RAudit | RVerify | RVersion | RHelp | RUnknown.

(** Pass 1: the first [--profile], unless an option that is not understood comes
    before it. *)
Fixpoint first_profile (opts : list ropt) : option cstring :=
  match opts with
  | [] | RUnknown :: _ => None
  | RProfile s :: _ => Some s
  | _ :: rest => first_profile rest
  end.

Definition load_root_profile (w : world) (opts : list ropt) : option Config :=
  match first_profile opts with
  | None => Some root_config
  | Some name =>
      match resolve_and_load_profile 0 w (Z.lor PROFILE_OWNER_ROOT PROFILE_TOOL_ROOT)
              (set_profile (Some name) root_config) name with
      | (PROFILE_OK, c) => Some c
      | _ => None
      end
  end.

(** Pass 2, one option: exit with a status, or the new configuration. *)
Definition apply_ropt (w : world) (o : ropt) (c : Config) : Z + Config :=
  let try (r : option Config) := match r with Some c' => inr c' | None => inl 1 end in
  match o with
  | RProfile s => if bool_decide (profile c = Some s) then inr c else inl 1
  | RRootdir s => inr (set_rootdir (Some s) c)
  | RUid s => try (v ← parse_id s; Some (set_uid v c))
  | RGid s => try (v ← parse_id s; Some (set_gid v c))
  | RUsername s => inr (set_username (Some s) c)
  | RSeccompAllowed s => try (resolve_syscall (w_nr w) s ≫= cfg_add_allowed c)
  | RBlock s => try (resolve_syscall (w_nr w) s ≫= cfg_add_blocked c)
  | RNetns s => inr (set_netns (Some s) c)
  | RCgroup s => try (add_str cgroups set_cgroups MAX_PATHS s c)
  | RCapAllowed s => try (add_str cap_allowed_names set_cap_allowed_names MAX_ENV_VARS s c)
  | REnvDeny s => try (cfg_add_env_deny c s)
  | REnvAllow s => try (c' ← cfg_add_env_allow c s; Some (set_use_env_sanitize true c'))
  | RMountMask s => try (add_str mount_masks set_mount_masks MAX_PATHS s c)
  | RLandlock => inr (set_use_landlock true c)
  | RPath m s => try (c' ← cfg_add_path c s m true; Some (set_use_landlock true c'))
  | RAuditLog s => inr (set_audit true (set_audit_log_dir (Some s) c))
  | RLoopback => inr (set_loopback true c)
  | RNoSeccomp => inr (set_use_seccomp false c)
  | RNoEnvSanitize => inr (set_use_env_sanitize false c)
  | RDryRun => inr (set_dry_run true c)
  | RVerbose => inr (set_verbose true c)
  | RAudit => inr (set_audit true c)
  | RVerify | RVersion | RHelp => inl 0
  | RUnknown => inl 1
  end.

Fixpoint apply_ropts (w : world) (l : list ropt) (c : Config) : Z + Config :=
  match l with
  | [] => inr c
  | o :: rest => match apply_ropt w o c with inl rc => inl rc | inr c' => apply_ropts w rest c' end
  end.

(** ** The policy *)

Definition filter_list (c : Config) : list Z := if seccomp_allow_mode c then allowed_syscalls c else blocked_syscalls c.

(** The built-in deny-list when there is no list; an empty filter is refused. *)
Definition default_filter (W : rworld) (c : Config) : option Config :=
  c' ← (if use_seccomp c && negb (seccomp_allow_mode c) && bool_decide (blocked_syscalls c = [])
        then cfg_add_builtin_denylist (w_nr (rw_p W)) (is_x86_64 (rw_arch W)) c else Some c);
  if use_seccomp c' && bool_decide (filter_list c' = []) then None else Some c'.

(** [sscanf (s, "%llu %llu %llu", ...) == 3]. *)
Definition scan_three (s : cstring) : option (Z * Z * Z) :=
  '(a, s1) ← scan_llu s; '(b, s2) ← scan_llu s1; '(c, _) ← scan_llu s2; Some (a, b, c).

(** The host uid the container's root is mapped to. *)
Definition mapped_root (c : Config) : Z :=
  match uid_map c ≫= scan_three with
  | Some (inside, outside, count) => if (inside =? 0) && (0 <? count) then wrap32 outside else 0
  | None => 0
  end.

Definition S_IWGRP_IWOTH : Z := 18.    (* 0022 *)

Definition check_rootdir_ownership (w : world) (c : Config) (root : cstring) : bool :=
  match w_stat w root with
  | None => false
  | Some st => S_ISDIR (st_mode st) && ((st_uid st =? 0) || (st_uid st =? mapped_root c))
               && negb (st_mode st &? S_IWGRP_IWOTH)
  end.

Definition check_landlock (w : world) (c : Config) : bool :=
  negb (use_landlock c) || (negb (bool_decide (paths c = [])) && config_check_additive (w_realpath w) c).

(** The numbers to drop to; explicit ones that are not 0 override the user's. *)
Definition drop_ids (W : rworld) (c : Config) (user : cstring) : option (Z * Z) :=
  '(u, g) ← match rw_getpwnam W user with
            | Some ids => Some ids
            | None => if (uid c =? 0) && (gid c =? 0) then None else Some (0, 0)
            end;
  Some (if uid c =? 0 then u else uid c, if gid c =? 0 then g else gid c).

(** Everything [main] does before it creates the container: an exit status, or
    the policy and the numbers to drop to. *)
Definition root_policy (W : rworld) (opts : list ropt) (cmd : list cstring) : Z + (Config * Z * Z) :=
  match load_root_profile (rw_p W) opts with
  | None => inl 1
  | Some c0 =>
      match apply_ropts (rw_p W) opts c0 with
      | inl rc => inl rc
      | inr c1 =>
          match set_use_no_new_privs true <$> default_filter W c1 with
          | None => inl 1
          | Some c =>
              match cmd, rootdir c, username c with
              | _ :: _, Some root, Some user =>
                  if negb (Loader.is_absolute root) || path_has_dotdot root then inl 1
                  else if negb (check_rootdir_ownership (rw_p W) c root) && negb (dry_run c) then inl 1
                  else if negb (check_landlock (rw_p W) c) then inl 1
                  else match drop_ids W c user with
                       | None => inl 1
                       | Some (u, g) =>
                           if dry_run c then inl 0
                           else if audit c && negb (rw_audit_open_ok W) then inl 1 else inr (c, u, g)
                       end
              | _, _, _ => inl 1
              end
          end
      end
  end.

(** ** The parent *)

Definition CAP_SETGID : Z := 6.
Definition CLONE_NEWNET : Z := 0x40000000.
Definition CLONE_FLAGS : Z := lors [0x04000000; 0x00020000; 0x20000000; 0x08000000; CLONE_NEWNET; 0x10000000; 0x02000000; 17].
Definition CGROUP_ROOT : cstring := lit "/sys/fs/cgroup/".

Definition keeps_setgid (c : Config) : bool :=
  existsb (fun n => bool_decide (resolve_cap n = Some CAP_SETGID)) (cap_allowed_names c).

Definition proc_file (pid : Z) (f : string) : cstring := lit "/proc/" ++ print_u pid ++ lit "/" ++ lit f.

Section Parent.
Context (K : rkernel) (w : world) (pid : Z).

Definition deny_setgroups (c : Config) : prog unit :=
  if keeps_setgid c then mret tt
  else
    r ← sys K (COpen (proc_file pid "setgroups"));
    if r =? ENOENT then mret tt
    else if negb (r =? 0) then fatal else must K (CWriteFile (proc_file pid "setgroups") (lit "deny")).

Definition write_uid_gid_map (map_str : cstring) (map_file : string) : prog unit :=
  must K (COpen (proc_file pid map_file)) ;; must K (CWriteFile (proc_file pid map_file) map_str).

Definition id_map_or_default (m : option cstring) : cstring := default (lit "0 0 65536" ++ [LF]) m.

(** [None]: refused before anything was opened. *)
Definition cgroup_procs (want : cstring) : option cstring :=
  if negb (Loader.is_absolute want) || path_has_dotdot want || negb (has_prefix CGROUP_ROOT want) then None
  else
    resolved ← w_realpath w want;
    if negb (has_prefix CGROUP_ROOT resolved) then None
    else let procs := resolved ++ lit "/cgroup.procs" in if Nat.leb PATH_MAX (length procs) then None else Some procs.

Fixpoint assign_to_cgroups (l : list cstring) : prog bool :=
  match l with
  | [] => mret true
  | want :: rest =>
      match cgroup_procs want with
      | None => mret false
      | Some procs =>
          r ← sys K (COpen procs);
          if negb (r =? 0) then mret false
          else r' ← sys K (CWriteFile procs (print_u pid ++ [LF]));
               if r' =? 0 then assign_to_cgroups rest else mret false
      end
  end.

Definition join_netns (name : cstring) : prog unit :=
  if strchr name "/"%char || Nat.leb (PATH_MAX - 16) (length name) then fatal
  else must K (COpen (lit "/var/run/netns/" ++ name)) ;; must K (CSetns (lit "/var/run/netns/" ++ name)).

(** Before the child exists. *)
Definition parent_prepare (c : Config) : prog unit :=
  must K CPipe ;; must_unless K EPERM CSetgroups ;;
  match netns c with None => mret tt | Some n => join_netns n end ;;
  must K CMalloc ;;
  must K (CClone (match netns c with None => CLONE_FLAGS | Some _ => Z.ldiff CLONE_FLAGS CLONE_NEWNET end)).

Definition kill_child {A} : prog A := may K CKill ;; may K CWait ;; fatal.

(** From [clone] to the byte that starts the child: [false] when a cgroup could
    not be assigned. *)
Definition parent_maps (c : Config) : prog bool :=
  deny_setgroups c ;;
  write_uid_gid_map (id_map_or_default (uid_map c)) "uid_map" ;;
  write_uid_gid_map (id_map_or_default (gid_map c)) "gid_map" ;;
  assign_to_cgroups (cgroups c).

(** The byte, and the wait for the child. *)
Definition parent_start (c : Config) : prog unit :=
  ok ← parent_maps c;
  if negb ok then kill_child
  else r ← sys K CGo; if r =? 0 then may K CCloseWrite ;; must K CWait else kill_child.

Definition parent_setup (c : Config) : prog unit := may K CCloseRead ;; parent_start c.

End Parent.

(** ** The reaper *)

Inductive wstatus := WExited (code : Z) | WSignaled (sig : Z).
Inductive wait_answer := WaitInterrupted | WaitFailed | WaitChild (pid : Z) (st : wstatus).

(** [WIFEXITED (status) ? WEXITSTATUS (status) : 1] of the parent. *)
Definition parent_status (st : wstatus) : Z := match st with WExited c => c | WSignaled _ => 1 end.

(** What process 1 exits with. *)
Definition init_status (st : wstatus) : Z := match st with WExited c => c | WSignaled s => 128 + s end.

(** The loop on the successive answers of [waitpid (-1, ...)]; [None]: still
    waiting when the answers end. *)
Fixpoint reap_loop (target : Z) (answers : list wait_answer) : option Z :=
  match answers with
  | [] => None
  | WaitInterrupted :: rest => reap_loop target rest
  | WaitFailed :: _ => Some (init_status (WExited 0))
  | WaitChild p st :: rest => if p =? target then Some (init_status st) else reap_loop target rest
  end.

Definition reaper_syscalls : list string :=
  ["wait4"; "kill"; "rt_sigaction"; "rt_sigprocmask"; "rt_sigreturn"; "exit_group"; "write"]%string.

Definition covers (nr : string -> option Z) (c : Config) (s : string) : bool :=
  match resolve_syscall nr (lit s) with
  | None => false
  | Some n => if seccomp_allow_mode c then bool_decide (n ∈ allowed_syscalls c)
              else negb (bool_decide (n ∈ blocked_syscalls c))
  end.

Definition policy_covers_reaper (nr : string -> option Z) (c : Config) : bool := forallb (covers nr c) reaper_syscalls.

(** Process 1 after the fork. *)
Definition init_filter (K : rkernel) (nr : string -> option Z) (c : Config) : prog unit := fun t =>
  if use_seccomp c && policy_covers_reaper nr c
  then match install_seccomp_filter K c t with
       | (inl s, t') => (may K CKill ;; halt s) t'
       | r => r
       end
  else (inr tt, t).

Definition container_init (K : rkernel) (nr : string -> option Z) (c : Config) (target : Z) (answers : list wait_answer)
  (t : trace) : option Z :=
  match init_filter K nr c t with
  | (inl (Exit code), _) => Some code
  | (inl OutOfBounds, _) => None
  | (inr _, _) => reap_loop target answers
  end.

(** ** The whole program *)

(** The exit status of the parent: [pid] is the child's, [st] how it ended.
    [None]: nothing is known. *)
Definition compartment_root (W : rworld) (K : rkernel) (pid : Z) (st : wstatus) (opts : list ropt) (cmd : list cstring)
  (t : trace) : option Z * trace :=
  match root_policy W opts cmd with
  | inl rc => (Some rc, t)
  | inr (c, _, _) =>
      match (parent_prepare K c ;; parent_setup K (rw_p W) pid c) t with
      | (inl (Exit code), t') => (Some code, t')
      | (inl OutOfBounds, t') => (None, t')
      | (inr _, t') => (Some (parent_status st), t')
      end
  end.
