(* ===== verification/RootProps.v ===== *)
(** * What a container run guarantees

    A small logic for the programs of [Root]: what a piece of a program appends
    to the trace when it does not stop.  From it the order of the steps before
    the target is executed, and the bounds of the capability loop. *)

From S2P Require Import Prelude CLib Config ConfigProps Seccomp Profile EnvAudit Landlock ObserveMain User Root.
From Stdlib Require Import Ascii.

#[local] Open Scope Z_scope.
#[local] Open Scope comp_scope.

(** ** Steps in order *)

Definition stage : Type := rcall * Z -> bool.

(** [in_order ps l]: entries of [l] satisfy the members of [ps], one after the
    other. *)
Fixpoint in_order (ps : list stage) (l : trace) : bool :=
  match l with
  | [] => bool_decide (ps = [])
  | x :: rest => match ps with [] => true | p :: ps' => if p x then in_order ps' rest else in_order ps rest end
  end.

Definition ok (e : rcall) : stage := fun x => bool_decide (x = (e, 0)).
Definition tried (e : rcall) : stage := fun x => bool_decide (x.1 = e).
Definition either (p q : stage) : stage := fun x => p x || q x.

Lemma in_order_nil l : in_order [] l = true.
Proof. by destruct l. Qed.

Lemma in_order_tail p ps l : in_order (p :: ps) l = true -> in_order ps l = true.
Proof.
  revert p ps. induction l as [|x l IH]; intros p ps H; [by apply bool_decide_eq_true in H|].
  cbn in H |- *. destruct ps as [|q ps]; [done|].
  destruct (p x), (q x); eauto.
Qed.

Lemma in_order_skip ps x l : in_order ps l = true -> in_order ps (x :: l) = true.
Proof. intros H. cbn. destruct ps as [|p ps]; [done|]. destruct (p x); [by eapply in_order_tail|done]. Qed.

Lemma in_order_prepend ps l1 l2 : in_order ps l2 = true -> in_order ps (l1 ++ l2) = true.
Proof. intros H. induction l1; [done|]. by apply in_order_skip. Qed.

Lemma in_order_app ps1 ps2 l1 l2 :
  in_order ps1 l1 = true -> in_order ps2 l2 = true -> in_order (ps1 ++ ps2) (l1 ++ l2) = true.
Proof.
  revert ps1. induction l1 as [|x l1 IH]; intros ps1 H1 H2.
  - apply bool_decide_eq_true in H1 as ->. done.
  - destruct ps1 as [|p ps1]; [by apply in_order_prepend|].
    cbn in H1 |- *. destruct (p x); [by apply IH|by apply (IH (p :: ps1))].
Qed.

Lemma in_order_one (p : stage) x : p x = true -> in_order [p] [x] = true.
Proof. intros H. cbn. by rewrite H. Qed.

(** ** What a program appends *)

Definition appends {A} (m : prog A) (Q : A -> trace -> Prop) : Prop :=
  forall t a t', m t = (inr a, t') -> exists l, t' = t ++ l /\ Q a l.

(** The entries in order, whatever the result. *)
Definition emits {A} (m : prog A) (ps : list stage) : Prop := appends m (fun _ l => in_order ps l = true).

Lemma appends_bind {A B} (m : prog A) (k : A -> prog B) Q R :
  appends m Q -> (forall a, appends (k a) (R a)) ->
  appends (m ≫= k) (fun b l => exists a l1 l2, l = l1 ++ l2 /\ Q a l1 /\ R a b l2).
Proof.
  intros Hm Hk t b t'. unfold mbind, prog_bind. destruct (m t) as [[s|a] t1] eqn:E; [done|]. intros H.
  destruct (Hm _ _ _ E) as (l1 & -> & H1). destruct (Hk _ _ _ _ H) as (l2 & -> & H2).
  exists (l1 ++ l2). split; [by rewrite app_assoc|]. eauto 8.
Qed.

Lemma emits_bind {A B} (m : prog A) (k : A -> prog B) ps1 ps2 :
  emits m ps1 -> (forall a, emits (k a) ps2) -> emits (m ≫= k) (ps1 ++ ps2).
Proof.
  intros Hm Hk t b t' H. destruct (appends_bind m k _ _ Hm Hk t b t' H) as (l & -> & a & l1 & l2 & -> & H1 & H2).
  eexists. split; [done|]. by apply in_order_app.
Qed.

Lemma emits_skip {A B} (m : prog A) (k : A -> prog B) ps :
  emits m [] -> (forall a, emits (k a) ps) -> emits (m ≫= k) ps.
Proof. apply (emits_bind m k [] ps). Qed.

Lemma emits_cons {A B} (m : prog A) (k : A -> prog B) p ps :
  emits m [p] -> (forall a, emits (k a) ps) -> emits (m ≫= k) (p :: ps).
Proof. apply (emits_bind m k [p] ps). Qed.

Lemma emits_last {A B} (m : prog A) (k : A -> prog B) ps :
  emits m ps -> (forall a, emits (k a) []) -> emits (m ≫= k) ps.
Proof. intros Hm Hk. rewrite <- (app_nil_r ps). by apply emits_bind. Qed.

Lemma emits_ret {A} (a : A) : emits (mret a) [].
Proof. intros t b t' [= <- <-]. exists []. by rewrite app_nil_r. Qed.

Lemma emits_halt {A} s ps : emits (halt s : prog A) ps.
Proof. intros t a t'. done. Qed.

Lemma emits_note e : emits (note e) [ok e].
Proof. intros t a t' [= <- <-]. eexists. split; [done|]. apply in_order_one. by apply bool_decide_eq_true. Qed.

Section Logic.
Context (K : rkernel).

Lemma emits_sys e : emits (sys K e) [tried e].
Proof. intros t a t' [= <- <-]. eexists. split; [done|]. apply in_order_one. by apply bool_decide_eq_true. Qed.

Lemma emits_must e : emits (must K e) [ok e].
Proof.
  intros t a t'. unfold must, mbind, prog_bind, sys. destruct (Z.eqb_spec (rk_call K t e) 0) as [Hr|]; [|done].
  intros [= <- <-]. rewrite Hr. eexists. split; [done|]. apply in_order_one. by apply bool_decide_eq_true.
Qed.

Lemma emits_may e : emits (may K e) [tried e].
Proof. apply emits_last; [apply emits_sys|]. intros. apply emits_ret. Qed.

Lemma emits_any {A} (m : prog A) ps : emits m ps -> emits m [].
Proof. intros H t a t' E. destruct (H t a t' E) as (l & -> & _). eexists. split; [done|]. apply in_order_nil. Qed.

Lemma emits_must_unless n e : emits (must_unless K n e) [tried e].
Proof.
  apply emits_last; [apply emits_sys|]. intros r. destruct (_ || _); [apply emits_ret|apply emits_halt].
Qed.

Lemma emits_each {A} (f : A -> prog unit) (ps : A -> list stage) l :
  (forall x, x ∈ l -> emits (f x) (ps x)) -> emits (each f l) (concat (ps <$> l)).
Proof.
  induction l as [|x l IH]; intros H; cbn [each fmap list_fmap concat]; [apply emits_ret|].
  apply emits_bind; [apply H; left|]. intros _. apply IH. intros y Hy. apply H. by right.
Qed.

Lemma emits_weaken {A} (m : prog A) ps ps' :
  (forall l, in_order ps l = true -> in_order ps' l = true) -> emits m ps -> emits m ps'.
Proof. intros Hw H t a t' E. destruct (H t a t' E) as (l & -> & Hl). eauto. Qed.

Lemma either_l p q l : in_order [p] l = true -> in_order [either p q] l = true.
Proof.
  induction l as [|x l IH]; [done|]. cbn. unfold either. destruct (p x); cbn [orb]; [destruct l; done|].
  intros H. destruct (q x); [apply in_order_nil|by apply IH].
Qed.

Lemma either_r p q l : in_order [q] l = true -> in_order [either p q] l = true.
Proof.
  induction l as [|x l IH]; [done|]. cbn. unfold either. destruct (q x); rewrite ?orb_true_r; [done|].
  intros H. destruct (p x); cbn [orb]; [apply in_order_nil|by apply IH].
Qed.

End Logic.

(** ** The steps of the child *)

Definition masked (p : cstring) : stage := either (ok (CAbsent p)) (either (ok (cover_dir p)) (ok (cover_file p))).

Definition remounted (path : cstring) (flags : Z) : stage :=
  either (ok (CMountSetattr path (attr_of_flags flags))) (ok (remount_call path flags)).

(** The new root is entered as a private, hardened mount. *)
Definition root_entered (c : Config) (root : cstring) : list stage :=
  [ok root_private; ok (bind_self root); remounted root (root_flags c); ok (CChdir root);
   ok (CPivotRoot (lit ".") (lit ".pivot_old")); ok (CChdir (lit "/"))].

Definition dev_populated : list stage :=
  [ok mount_dev] ++ ((fun n => ok (bind_dev_node n)) <$> default_dev_nodes) ++
  [either (ok (mount_devpts "newinstance,ptmxmode=0666,mode=0620,gid=5"))
          (ok (mount_devpts "newinstance,ptmxmode=0666,mode=0620"));
   ok bind_ptmx; ok mount_shm].

Definition sys_covered : list stage := [tried mount_sysfs; either (masked (lit "/sys/firmware")) (masked (lit "/sys"))].

Definition everything_masked (c : Config) : list stage :=
  ((fun s => masked (lit s)) <$> default_proc_masks) ++ (masked <$> mount_masks c).

Definition flags_set (r : MountFlagRule) : list stage :=
  [ok (bind_self (mf_path r)); remounted (mf_path r) (mount_bits (mf_flags r))].

Definition root_sealed (c : Config) : list stage :=
  if rootdir_flags c &? COMPARTMENT_MS_RDONLY then [ok (remount_call (lit "/") (Z.lor MS_RDONLY (root_flags c)))] else [].

(** The old root goes only after [/proc], [/dev] and the masks are in place, and
    [cap_last_cap] was read before they were. *)
Definition filesystem_built (c : Config) : list stage :=
  [ok mount_proc; ok CReadCapLast] ++ dev_populated ++ sys_covered ++ everything_masked c
  ++ [ok (CUmountDetach (lit "/.pivot_old"))] ++ concat (flags_set <$> mount_flags c) ++ root_sealed c.

Section Child.
Context (K : rkernel).

Definition landlock_applied (c : Config) : list stage :=
  if use_landlock c
  then [fun x => match apply_landlock (rk_landlock K) c with Some r => ok (CRestrictSelf r) x | None => false end]
  else [].

(** The capabilities a policy keeps. *)
Definition kept_caps (c : Config) : list Z := omap resolve_cap (cap_allowed_names c).

Definition caps_dropped (c : Config) (cap_last : Z) : list stage :=
  (fun cap => tried (CCapbsetDrop (Z.of_nat cap)))
    <$> List.filter (fun cap => negb (bool_decide (Z.of_nat cap ∈ kept_caps c))) (seq 0 (Z.to_nat (cap_last + 1))).

Definition privileges_dropped (c : Config) (a : child_args) : list stage :=
  (if bool_decide (cap_allowed_names c = []) then [] else [ok CKeepcaps])
  ++ [ok (CSetgid (ca_gid a)); ok (CSetuid (ca_uid a))]
  ++ (if bool_decide (cap_allowed_names c = []) then []
      else let m := kept_mask (cap_allowed_names c) (0, 0) in [ok (CCapset m.1 m.2)]).

Definition fds_closed : stage := either (ok CCloseRange) (fun x => match x.1 with CClose _ => true | _ => false end).

(** The last calls: the filter, the limits and the exec, with nothing in
    between. *)
Definition last_calls (c : Config) (a : child_args) : trace :=
  (if use_seccomp c
   then match apply_seccomp (rk_arch K) c true (fun _ => true) with SeccompInstalled p => [(CFilter p, 0)] | _ => [] end
   else [])
  ++ [(CRlimit "NOFILE", 0); (CRlimit "CPU", 0);
      (CExec (default [] (head (ca_cmd a))) (ca_cmd a) (child_environ c a), 0)].

Definition confined_steps (c : Config) (a : child_args) (cap_last : Z) : list stage :=
  landlock_applied c ++ caps_dropped c cap_last ++ privileges_dropped c a
  ++ [fds_closed; ok CNoNewPrivs; ok CPdeathsig; ok CFork].

Definition container_steps (c : Config) (a : child_args) (root : cstring) (cap_last : Z) : list stage :=
  [ok CReadGo; ok (CSetgid 0); ok (CSetuid 0)] ++ root_entered c root ++ filesystem_built c ++ confined_steps c a cap_last.

(** ** Each part emits its steps *)

Lemma emits_mask_path p : emits (mask_path K p) [masked p].
Proof.
  intros t a t'. unfold mask_path. destruct (rk_lstat K t p) as [| |d]; intros H.
  - revert t a t' H. eapply emits_weaken; [|apply emits_note]. intros l. apply either_l.
  - done.
  - destruct d; revert t a t' H; (eapply emits_weaken; [|apply emits_must]); intros l Hl; apply either_r;
      [by apply either_l|by apply either_r].
Qed.

(** A call and its fallback. *)
Lemma emits_fallback e (m : prog unit) p :
  emits m [p] -> emits (r ← sys K e; if r =? 0 then mret tt else m) [either (ok e) p].
Proof.
  intros Hm t a t'. unfold mbind, prog_bind, sys. destruct (Z.eqb_spec (rk_call K t e) 0) as [Hr|].
  - intros [= <- <-]. rewrite Hr. eexists. split; [done|]. apply in_order_one. unfold either, ok.
    by rewrite bool_decide_eq_true_2.
  - intros H. destruct (Hm _ _ _ H) as (l & -> & Hl). exists ((e, rk_call K t e) :: l). rewrite <- app_assoc.
    split; [done|]. apply in_order_skip. by apply either_r.
Qed.

Lemma emits_remount_top path flags : emits (remount_with_flags K path flags false) [ok (remount_call path flags)].
Proof. apply emits_must. Qed.

Lemma emits_remount path flags rec : emits (remount_with_flags K path flags rec) [remounted path flags].
Proof.
  unfold remount_with_flags. destruct (rec && rk_mount_setattr K); [apply emits_fallback, emits_must|].
  eapply emits_weaken; [|exact (emits_remount_top path flags)]. intros l. apply either_r.
Qed.

(** The steps of a straight-line piece, one call at a time. *)
Ltac emits_step :=
  lazymatch goal with
  | |- emits (must _ _ ≫= _) _ => apply emits_cons; [apply emits_must|intros _]
  | |- emits (may _ _ ≫= _) _ => apply emits_skip; [eapply emits_any, emits_may|intros _]
  | |- emits (must_unless _ _ _ ≫= _) _ => apply emits_skip; [eapply emits_any, emits_must_unless|intros _]
  | |- emits (must _ _) _ => apply emits_must
  | |- emits (may _ _) [] => eapply emits_any, emits_may
  | |- emits (mret _) _ => apply emits_ret
  | |- emits fatal _ => apply emits_halt
  end.

Lemma emits_mount_flag r : emits (apply_mount_flag K r) (flags_set r).
Proof.
  intros t a t'. unfold apply_mount_flag. case_match; [done|].
  apply (emits_cons _ _ (ok (bind_self (mf_path r))) [remounted (mf_path r) (mount_bits (mf_flags r))]);
    [apply emits_must|intros _; apply emits_remount].
Qed.

Lemma emits_mount_flags c : emits (apply_mount_flags K c) (concat (flags_set <$> mount_flags c)).
Proof. apply emits_each. intros r _. apply emits_mount_flag. Qed.

Lemma emits_enter_root c root : emits (enter_root K c root) (root_entered c root).
Proof.
  unfold enter_root, root_entered. do 2 emits_step. apply emits_cons; [apply emits_remount|intros _]. repeat emits_step.
Qed.

Lemma concat_singletons {A B} (f : A -> B) l : concat ((fun x => [f x]) <$> l) = f <$> l.
Proof. induction l; [done|]. by cbn; f_equal. Qed.

Lemma emits_each_one {A} (f : A -> prog unit) (p : A -> stage) l :
  (forall x, emits (f x) [p x]) -> emits (each f l) (p <$> l).
Proof. intros H. rewrite <- concat_singletons. apply emits_each. intros x _. apply H. Qed.

Lemma emits_dev : emits (populate_dev K) dev_populated.
Proof.
  unfold populate_dev, dev_populated. emits_step. apply emits_cons; [apply emits_must|intros _].
  apply emits_bind; [apply emits_each_one; intros n; repeat emits_step|intros _]. emits_step.
  apply emits_cons; [apply emits_fallback, emits_must|intros _]. repeat emits_step.
Qed.

Lemma emits_sys_dir : emits (mount_sys K) sys_covered.
Proof.
  unfold mount_sys, sys_covered. emits_step. apply emits_cons; [apply emits_sys|intros r].
  destruct (r =? 0); (eapply emits_weaken; [|apply emits_mask_path]); intros l; [apply either_l|apply either_r].
Qed.

Lemma emits_extra_mask p : emits (extra_mask K p) [masked p].
Proof. unfold extra_mask. case_match; [apply emits_halt|apply emits_mask_path]. Qed.

Lemma emits_everything_masked c {B} (k : prog B) ps :
  emits k ps ->
  emits (each (fun s => mask_path K (lit s)) default_proc_masks ;; each (extra_mask K) (mount_masks c) ;; k)
    (everything_masked c ++ ps).
Proof.
  intros Hk. unfold everything_masked. rewrite <- app_assoc.
  apply emits_bind; [apply emits_each_one; intros; apply emits_mask_path|intros _].
  apply emits_bind; [apply emits_each_one; intros; apply emits_extra_mask|done].
Qed.

(** The result of [build_filesystem] is the number read on the way. *)
Definition read_from_kernel (cap_last : Z) : Prop := exists t0, cap_last = default 63 (rk_cap_last K t0).

Lemma emits_filesystem c : emits (build_filesystem K c) (filesystem_built c).
Proof.
  unfold build_filesystem, filesystem_built. do 2 emits_step.
  apply emits_cons; [intros t a t' [= _ <-]; by eapply (emits_note CReadCapLast)|intros cap_last].
  apply emits_bind; [apply emits_dev|intros _]. apply emits_bind; [apply emits_sys_dir|intros _].
  apply emits_everything_masked. do 2 emits_step.
  apply emits_bind; [apply emits_mount_flags|intros _]. apply emits_last; [|intros _; apply emits_ret].
  unfold root_sealed. case_match; [apply emits_remount_top|apply emits_ret].
Qed.

(** What a program can return. *)
Definition yields {A} (m : prog A) (P : A -> Prop) : Prop := forall t a t', m t = (inr a, t') -> P a.

Lemma yields_bind {A B} (m : prog A) (k : A -> prog B) P R :
  yields m P -> (forall a, P a -> yields (k a) R) -> yields (m ≫= k) R.
Proof.
  intros Hm Hk t b t'. unfold mbind, prog_bind. destruct (m t) as [[s|a] t1] eqn:E; [done|].
  apply (Hk a). by eapply Hm.
Qed.

Lemma yields_seq {A B} (m : prog A) (k : A -> prog B) R : (forall a, yields (k a) R) -> yields (m ≫= k) R.
Proof. intros H. apply (yields_bind m k (fun _ => True)); [done|auto]. Qed.

Lemma yields_filesystem c : yields (build_filesystem K c) read_from_kernel.
Proof.
  unfold build_filesystem. do 2 (apply yields_seq; intros _).
  apply (yields_bind _ _ read_from_kernel).
  { intros t a t' [= <- _]. by exists t. }
  intros cap_last H. repeat (apply yields_seq; intros _). by intros t a t' [= <- _].
Qed.

(** ** Capabilities *)

Lemma resolve_cap_range n v : resolve_cap n = Some v -> 0 <= v <= 63.
Proof.
  unfold resolve_cap. case_match eqn:E.
  - destruct p as [i e]. apply list_find_Some in E as (Hl & _ & _). intros [= <-].
    apply list_elem_of_lookup_2 in Hl. revert Hl.
    apply (proj1 (Forall_forall (fun e : string * Z => 0 <= e.2 <= 63) cap_table)).
    unfold cap_table. repeat constructor; cbn; lia.
  - case_match; [|done]. case_match. case_match. destruct (_ && _) eqn:Ev; [|done]. intros [= <-].
    apply andb_true_iff in Ev as [?%Z.leb_le ?%Z.leb_le]. lia.
Qed.

(** The array holds the capabilities kept. *)
Lemma allowed_caps_spec names : forall allowed allowed',
  length allowed = CAP_MAX -> allowed_caps names allowed = Some allowed' ->
  length allowed' = CAP_MAX
  /\ forall i, (i < CAP_MAX)%nat ->
       allowed' !! i = Some (bool_decide (Z.of_nat i ∈ omap resolve_cap names) || default false (allowed !! i)).
Proof.
  induction names as [|n rest IH]; intros allowed allowed' Hlen; cbn [allowed_caps].
  - intros [= <-]. split; [done|]. intros i Hi. rewrite bool_decide_eq_false_2 by apply not_elem_of_nil. cbn [orb].
    destruct (lookup_lt_is_Some_2 allowed i) as [b ->]; [lia|done].
  - cbn [omap list_omap]. destruct (resolve_cap n) as [nr|] eqn:Er; [|done]. apply resolve_cap_range in Er.
    destruct (Z.ltb_spec 63 nr); [done|]. intros H'. apply IH in H' as [Hl' H']; [|by rewrite length_insert].
    split; [done|]. intros i Hi. rewrite H' by done. f_equal. rewrite elem_of_cons_bool.
    destruct (decide (i = Z.to_nat nr)) as [->|Hne].
    + rewrite list_lookup_insert_eq by (unfold CAP_MAX in *; lia). rewrite Z2Nat.id, Z.eqb_refl by lia.
      cbn. by rewrite orb_true_r.
    + rewrite list_lookup_insert_ne by done. destruct (Z.eqb_spec (Z.of_nat i) nr); [lia|done].
Qed.

Lemma allowed_caps_kept c allowed i :
  allowed_caps (cap_allowed_names c) (replicate CAP_MAX false) = Some allowed -> (i < CAP_MAX)%nat ->
  allowed !! i = Some (bool_decide (Z.of_nat i ∈ kept_caps c)).
Proof.
  intros H Hi. apply allowed_caps_spec in H as [_ H]; [|apply length_replicate]. rewrite H by done.
  by rewrite (lookup_replicate_2 _ _ _ Hi), orb_false_r.
Qed.

Lemma concat_filter {A B} (p : A -> bool) (f : A -> B) l :
  concat ((fun x => if p x then [f x] else []) <$> l) = f <$> List.filter p l.
Proof. induction l as [|x l IH]; [done|]. cbn. destruct (p x); cbn; by rewrite <- IH. Qed.

Lemma emits_drop_capabilities c cap_last : emits (drop_capabilities K c cap_last) (caps_dropped c cap_last).
Proof.
  unfold drop_capabilities, caps_dropped. destruct (allowed_caps _ _) as [allowed|] eqn:E; [|apply emits_halt].
  rewrite <- concat_filter. apply emits_each. intros i _. unfold drop_cap.
  destruct (allowed !! i) as [b|] eqn:Ei; [|apply emits_halt].
  assert (Hi : (i < CAP_MAX)%nat).
  { apply lookup_lt_Some in Ei. apply allowed_caps_spec in E as [<- _]; [done|apply length_replicate]. }
  rewrite (allowed_caps_kept c allowed i E Hi) in Ei. injection Ei as <-.
  destruct (bool_decide _); cbn [negb]; [apply emits_ret|apply emits_may].
Qed.

(** ** The rest *)

Lemma emits_kept_caps c :
  emits (apply_kept_caps K c) (let m := kept_mask (cap_allowed_names c) (0, 0) in [ok (CCapset m.1 m.2)]).
Proof.
  apply emits_cons; [apply emits_must|intros _]. eapply emits_any, (emits_each _ (fun _ => [])). intros n _.
  destruct (resolve_cap n); repeat emits_step.
Qed.

Lemma emits_privileges c a {B} (k : prog B) ps :
  emits k ps ->
  emits ((if bool_decide (cap_allowed_names c = []) then mret tt else must K CKeepcaps) ;;
         drop_privileges K (ca_uid a) (ca_gid a) ;;
         (if bool_decide (cap_allowed_names c = []) then mret tt else apply_kept_caps K c) ;; k)
    (privileges_dropped c a ++ ps).
Proof.
  intros Hk. unfold privileges_dropped. rewrite <- !app_assoc.
  apply emits_bind; [case_match; emits_step|intros _].
  apply emits_bind; [unfold drop_privileges; repeat emits_step|intros _].
  apply emits_bind; [case_match; [apply emits_ret|apply emits_kept_caps]|done].
Qed.

Lemma emits_landlock c : emits (restrict_landlock K c) (landlock_applied c).
Proof.
  unfold restrict_landlock, landlock_applied. destruct (use_landlock c); [|apply emits_ret].
  case_match; [apply emits_halt|]. destruct (apply_landlock _ c); [apply emits_note|apply emits_halt].
Qed.

Lemma emits_close_fds : emits (close_fds K) [fds_closed].
Proof.
  assert (Hf : forall n, emits (may K (CClose n)) [fun x => match x.1 with CClose _ => true | _ => false end]).
  { intros n. eapply emits_weaken; [|apply emits_may]. intros l.
    induction l as [|x l IH]; [done|]. cbn. unfold tried. destruct (decide (x.1 = CClose n)) as [->|].
    - by rewrite bool_decide_eq_true_2.
    - rewrite bool_decide_eq_false_2 by done. intros H. destruct x.1; auto using in_order_nil. }
  unfold close_fds. case_match; [by apply emits_fallback|].
  eapply emits_weaken; [|apply Hf]. intros l. apply either_r.
Qed.

(** The program that is loaded does not depend on the answers. *)
Lemma apply_seccomp_program a c alloc ok :
  match apply_seccomp a c alloc ok with
  | SeccompInstalled p => apply_seccomp a c true (fun _ => true) = SeccompInstalled p
  | SeccompNoFilter => apply_seccomp a c true (fun _ => true) = SeccompNoFilter
  | SeccompError => True
  end.
Proof.
  unfold apply_seccomp, build_seccomp_bpf. destruct (seccomp_allow_mode c).
  - destruct (allowed_syscalls c); [done|]. destruct alloc; cbn [negb]; [|done]. by destruct (ok _).
  - destruct (blocked_syscalls c); [done|]. destruct alloc; cbn [negb]; [|done]. by destruct (ok _).
Qed.

Lemma must_entry e t a t' : must K e t = (inr a, t') -> t' = t ++ [(e, 0)].
Proof.
  unfold must, mbind, prog_bind, sys. destruct (Z.eqb_spec (rk_call K t e) 0) as [->|]; [|done]. by intros [= _ <-].
Qed.

Lemma bind_inv {A B} (m : prog A) (k : A -> prog B) t b t' :
  (m ≫= k) t = (inr b, t') -> exists a t1, m t = (inr a, t1) /\ k a t1 = (inr b, t').
Proof. unfold mbind, prog_bind. destruct (m t) as [[s|a] t1]; [done|eauto]. Qed.

Lemma filter_and_exec_calls c a t x t' : filter_and_exec K c a t = (inr x, t') -> t' = t ++ last_calls c a.
Proof.
  unfold filter_and_exec, set_rlimits, exec_target, last_calls.
  intros (? & t1 & H & (? & t2 & (? & t3 & H3%must_entry & H2%must_entry)%bind_inv & H1%must_entry)%bind_inv)%bind_inv.
  subst. destruct (use_seccomp c); [|injection H as _ <-; by rewrite <- !app_assoc].
  unfold install_seccomp_filter in H.
  pose proof (apply_seccomp_program (rk_arch K) c (rk_alloc_ok K) (fun p => rk_call K t (CFilter p) =? 0)) as Hp.
  destruct (apply_seccomp (rk_arch K) c (rk_alloc_ok K) _) as [| |p]; [done| |]; rewrite Hp.
  - injection H as _ <-. by rewrite <- !app_assoc.
  - injection H as _ <-. by rewrite <- !app_assoc.
Qed.

Lemma emits_confined c a cap_last : emits (confine K c a cap_last) (confined_steps c a cap_last).
Proof.
  unfold confine, confined_steps. emits_step. apply emits_skip.
  { unfold bring_up_loopback. case_match; [|apply emits_ret].
    apply emits_skip; [eapply emits_any, emits_sys|intros r]. case_match; emits_step. }
  intros _. apply emits_bind; [apply emits_landlock|intros _]. apply emits_bind; [apply emits_drop_capabilities|intros _].
  apply emits_privileges. emits_step. apply emits_cons; [apply emits_close_fds|intros _]. repeat emits_step.
Qed.

Lemma emits_receive_go : emits (receive_go K) [ok CReadGo].
Proof. unfold receive_go. repeat emits_step. Qed.

Lemma child_emits c a t t' :
  child_func K c a t = (inr tt, t') ->
  exists root cap_last l, rootdir c = Some root /\ read_from_kernel cap_last /\ t' = t ++ l ++ last_calls c a
  /\ in_order (container_steps c a root cap_last) l = true.
Proof.
  unfold child_func, container_steps.
  intros (? & t1 & H1 & (? & t2 & H2 & (? & t3 & H3 & H)%bind_inv)%bind_inv)%bind_inv.
  destruct (rootdir c) as [root|]; [|done].
  apply bind_inv in H as (? & t4 & H4 & (cap_last & t5 & H5 & (? & t6 & H6 & H7)%bind_inv)%bind_inv).
  exists root, cap_last. pose proof (yields_filesystem c _ _ _ H5) as Hc.
  apply emits_receive_go in H1 as (l1 & -> & H1). apply emits_must in H2 as (l2 & -> & H2).
  apply emits_must in H3 as (l3 & -> & H3). apply emits_enter_root in H4 as (l4 & -> & H4).
  apply emits_filesystem in H5 as (l5 & -> & H5). apply emits_confined in H6 as (l6 & -> & H6).
  apply filter_and_exec_calls in H7 as ->.
  exists (l1 ++ l2 ++ l3 ++ l4 ++ l5 ++ l6). split_and!; [done|done|by rewrite <- !app_assoc|].
  apply (in_order_app [_]); [done|]. apply (in_order_app [_]); [done|]. apply (in_order_app [_]); [done|].
  apply in_order_app; [done|]. by apply in_order_app.
Qed.

End Child.

(** ** Array bounds *)

(** A program that never reads past the end of an array. *)
Definition in_bounds {A} (m : prog A) : Prop := forall t, (m t).1 <> inl OutOfBounds.

Lemma in_bounds_ret {A} (a : A) : in_bounds (mret a).
Proof. by intros t. Qed.

Lemma in_bounds_exit {A} n : in_bounds (halt (Exit n) : prog A).
Proof. by intros t. Qed.

Lemma in_bounds_fatal {A} : in_bounds (fatal : prog A).
Proof. apply in_bounds_exit. Qed.

Lemma in_bounds_bind {A B} (m : prog A) (k : A -> prog B) P :
  in_bounds m -> yields m P -> (forall a, P a -> in_bounds (k a)) -> in_bounds (m ≫= k).
Proof.
  intros Hm Hy Hk t. unfold mbind, prog_bind. specialize (Hm t). destruct (m t) as [[s|a] t1] eqn:E.
  - cbn in *. congruence.
  - apply Hk. by eapply Hy.
Qed.

Lemma in_bounds_seq {A B} (m : prog A) (k : A -> prog B) :
  in_bounds m -> (forall a, in_bounds (k a)) -> in_bounds (m ≫= k).
Proof. intros Hm Hk. apply (in_bounds_bind m k (fun _ => True)); [exact Hm|by intros t a t'|]. intros a _. apply Hk. Qed.

Lemma in_bounds_each {A} (f : A -> prog unit) l : (forall x, x ∈ l -> in_bounds (f x)) -> in_bounds (each f l).
Proof.
  induction l as [|x l IH]; intros H; cbn [each]; [apply in_bounds_ret|].
  apply in_bounds_seq; [apply H; left|]. intros _. apply IH. intros y Hy. apply H. by right.
Qed.

Section Bounds.
Context (K : rkernel).

Lemma in_bounds_sys e : in_bounds (sys K e).
Proof. by intros t. Qed.

Lemma in_bounds_note e : in_bounds (note e).
Proof. by intros t. Qed.

Lemma in_bounds_must e : in_bounds (must K e).
Proof. apply in_bounds_seq; [apply in_bounds_sys|]. intros r. case_match; [apply in_bounds_ret|apply in_bounds_exit]. Qed.

Lemma in_bounds_may e : in_bounds (may K e).
Proof. apply in_bounds_seq; [apply in_bounds_sys|]. intros r. apply in_bounds_ret. Qed.

Lemma in_bounds_must_unless n e : in_bounds (must_unless K n e).
Proof. apply in_bounds_seq; [apply in_bounds_sys|]. intros r. case_match; [apply in_bounds_ret|apply in_bounds_exit]. Qed.

Lemma in_bounds_mask p : in_bounds (mask_path K p).
Proof. intros t. unfold mask_path. destruct (rk_lstat K t p); [done|done|apply in_bounds_must]. Qed.

Lemma in_bounds_install c : in_bounds (install_seccomp_filter K c).
Proof. intros t. unfold install_seccomp_filter. by destruct (apply_seccomp _ _ _ _). Qed.

Create HintDb bounds_db.
#[local] Hint Resolve in_bounds_fatal in_bounds_ret in_bounds_exit in_bounds_sys in_bounds_note in_bounds_must in_bounds_may
  in_bounds_must_unless in_bounds_mask in_bounds_install : bounds_db.

Ltac solve_bounds :=
  repeat first [ progress auto with bounds_db
               | apply in_bounds_seq; [|intros]
               | apply in_bounds_each; intros
               | case_match ].

Lemma in_bounds_remount path flags rec : in_bounds (remount_with_flags K path flags rec).
Proof. unfold remount_with_flags. solve_bounds. Qed.

Lemma in_bounds_mount_flag r : in_bounds (apply_mount_flag K r).
Proof.
  intros t. unfold apply_mount_flag. case_match; [done|].
  apply (in_bounds_seq _ (fun _ => remount_with_flags K (mf_path r) (mount_bits (mf_flags r)) true));
    [apply in_bounds_must|intros _; apply in_bounds_remount].
Qed.

Lemma in_bounds_filesystem c : in_bounds (build_filesystem K c).
Proof.
  unfold build_filesystem, populate_dev, mount_pts, mount_sys, apply_mount_flags, extra_mask. solve_bounds.
  all: try apply in_bounds_mount_flag; try apply in_bounds_remount; by intros t.
Qed.

(** The loop stays in the array as long as the number read does. *)
Lemma in_bounds_drop c cap_last : cap_last <= 63 -> in_bounds (drop_capabilities K c cap_last).
Proof.
  intros Hc. unfold drop_capabilities. destruct (allowed_caps _ _) as [allowed|] eqn:E; [|apply in_bounds_exit].
  apply in_bounds_each. intros i Hi. apply elem_of_seq in Hi. unfold drop_cap.
  rewrite (allowed_caps_kept c allowed i E) by (unfold CAP_MAX; lia). case_match; auto with bounds_db.
Qed.

Lemma child_in_bounds c a :
  (forall t n, rk_cap_last K t = Some n -> n <= 63) -> in_bounds (child_func K c a).
Proof.
  intros Hk. unfold child_func. apply in_bounds_seq; [unfold receive_go; solve_bounds|intros _]. do 2 (apply in_bounds_seq; [auto with bounds_db|intros _]).
  destruct (rootdir c) as [root|]; [|apply in_bounds_exit].
  apply in_bounds_seq; [unfold enter_root; solve_bounds; apply in_bounds_remount|intros _].
  apply (in_bounds_bind _ _ (read_from_kernel K)); [apply in_bounds_filesystem|apply yields_filesystem|].
  intros cap_last (t0 & ->). apply in_bounds_seq.
  - unfold confine, bring_up_loopback, restrict_landlock, drop_privileges, apply_kept_caps, close_fds.
    solve_bounds. apply in_bounds_drop. destruct (rk_cap_last K t0) as [n|] eqn:E; cbn; [by eapply Hk|lia].
  - intros _. unfold filter_and_exec, set_rlimits, exec_target. solve_bounds.
Qed.

End Bounds.
