(* ===== verification/RootSafety.v ===== *)
(** * compartment-root: from the command line to the container

    The configuration [main] settles on, and the child run with it: what holds
    when a container's command is started. *)

From S2P Require Import Prelude CLib Config ConfigProps Seccomp Profile ProfileProps EnvAudit Landlock ObserveMain User UserProps Root RootMain RootProps.
From Stdlib Require Import Ascii.

#[local] Open Scope Z_scope.
#[local] Open Scope comp_scope.

(** ** The configuration *)

Record ropts_inv (opts : list ropt) (c : Config) : Prop := {
  ri_wf : config_wf c;
  ri_seccomp : RNoSeccomp ∉ opts -> use_seccomp c = true;
  ri_env : RNoEnvSanitize ∉ opts -> use_env_sanitize c = true
}.

Lemma root_config_wf : config_wf root_config.
Proof. split; cbn; unfold UINT32_MAX; repeat constructor; lia. Qed.

Section Policy.
Context (W : rworld) (Hnr : nr_table_ok (w_nr (rw_p W))).

Lemma ropts_inv_retains opts o c c' :
  ropts_inv opts c -> retains c c' /\ (config_wf c -> config_wf c') -> ropts_inv (opts ++ [o]) c'.
Proof.
  intros [H1 H2 H3] [[] Hwf]. split; [auto|..]; intros [Ho _]%not_elem_of_app.
  - rewrite H2 in t_seccomp by done. done.
  - rewrite H3 in t_env_sanitize by done. done.
Qed.

Lemma tightening_path_on m s : tightening (fun c => c' ← cfg_add_path c s m true; Some (set_use_landlock true c')).
Proof.
  intros c c' H. apply bind_Some in H as (c1 & H1 & [= <-]). apply tightening_add_path in H1 as [H1 H2].
  split; [|intros Hw; destruct (H2 Hw); by split]. etrans; [exact H1|]. split; cbn; auto with comp_db; reflexivity.
Qed.

Lemma apply_ropt_inv opts o c c' : ropts_inv opts c -> apply_ropt (rw_p W) o c = inr c' -> ropts_inv (opts ++ [o]) c'.
Proof.
  intros Hi.
  assert (Hset : forall c', config_wf c' -> (o <> RNoSeccomp -> use_seccomp c' = use_seccomp c) ->
    (o <> RNoEnvSanitize -> use_env_sanitize c' = use_env_sanitize c) -> ropts_inv (opts ++ [o]) c').
  { destruct Hi. intros c1 H1 H2 H3. split; [done|..]; rewrite not_elem_of_app, list_elem_of_singleton; intros [? ?];
      [rewrite H2|rewrite H3]; auto. }
  assert (Ht : forall f, tightening f -> f c = Some c' -> ropts_inv (opts ++ [o]) c').
  { intros f Hf Hc. eapply ropts_inv_retains; [exact Hi|]. by apply Hf. }
  pose proof (ri_wf _ _ Hi) as Hwf. unfold apply_ropt.
  destruct o; try done.
  all: try (intros [= <-]; apply Hset; cbn; try done; destruct Hwf; by split).
  all: match goal with
       | |- match ?r with Some _ => _ | None => _ end = _ -> _ => destruct r as [c1|] eqn:E; [intros [= <-]|done]
       | _ => idtac end.
  1: { case_match; [|done]. intros [= <-]. by apply Hset. }
  1,2: apply bind_Some in E as (v & Hv%parse_id_range & [= <-]); apply Hset; cbn; try done; destruct Hwf; by split.
  - by eapply (Ht _ (tightening_allowed_name _ _ Hnr)).
  - by eapply (Ht _ (tightening_blocked_name _ _ Hnr)).
  - eapply (Ht _ (tightening_add_str _ _ _ _ _ _)); [exact E].
  - eapply (Ht _ (tightening_add_str _ _ _ _ _ _)); [exact E].
  - by eapply (Ht _ (tightening_add_env_deny _)).
  - by eapply (Ht _ (tightening_env_allow_on _)).
  - eapply (Ht _ (tightening_add_str _ _ _ _ _ _)); [exact E].
  - by eapply (Ht _ (tightening_path_on _ _)).
  Unshelve.
  all: first [ intros l c0 []; intros; split; cbn; assumption
             | intros l c0; split; cbn; auto with comp_db; reflexivity ].
Qed.

Lemma apply_ropts_inv l : forall opts c c',
  ropts_inv opts c -> apply_ropts (rw_p W) l c = inr c' -> ropts_inv (opts ++ l) c'.
Proof.
  induction l as [|o l IH]; intros opts c c' Hi; cbn [apply_ropts]; [intros [= <-]; by rewrite app_nil_r|].
  destruct (apply_ropt (rw_p W) o c) as [rc|c1] eqn:E; [done|]. intros H.
  replace (opts ++ o :: l) with ((opts ++ [o]) ++ l) by (by rewrite <- app_assoc).
  eapply IH; [|exact H]. by eapply apply_ropt_inv.
Qed.

Lemma load_root_profile_inv opts c : load_root_profile (rw_p W) opts = Some c -> ropts_inv [] c.
Proof.
  unfold load_root_profile. destruct (first_profile opts) as [name|].
  2: { intros [= <-]. split; [apply root_config_wf|done|done]. }
  match goal with |- context [resolve_and_load_profile 0 _ ?f ?c0 _] =>
    destruct (sound_resolve_and_load 0 (rw_p W) f name Hnr c0) as [[] Hwf] end.
  cbn [set_profile use_seccomp use_env_sanitize root_config] in *.
  destruct (resolve_and_load_profile _ _ _ _ _) as [[] c1]; [|done..]. intros [= <-]. cbn [snd] in *.
  split; [|done|done]. apply Hwf. destruct root_config_wf. by split.
Qed.

Lemma tightening_builtin nr x : nr_table_ok nr -> tightening (cfg_add_builtin_denylist nr x).
Proof. intros H c c'. unfold cfg_add_builtin_denylist. by apply tightening_denylist. Qed.

(** The filter is never empty, and the deny-list keeps the rest. *)
Lemma default_filter_inv opts c c' :
  ropts_inv opts c -> default_filter W c = Some c' ->
  ropts_inv opts c' /\ (use_seccomp c' = true -> filter_list c' <> []).
Proof.
  intros Hi H. unfold default_filter in H. apply bind_Some in H as (c1 & H1 & H).
  assert (Hi1 : ropts_inv opts c1).
  { destruct (use_seccomp c && negb (seccomp_allow_mode c) && _); [|by injection H1 as <-]. apply (tightening_builtin _ _ Hnr) in H1 as [[] Hwf].
    destruct Hi as [Hw Hs He]. split; [auto|..]; intros Hx;
      [rewrite Hs in t_seccomp by done|rewrite He in t_env_sanitize by done]; done. }
  destruct (use_seccomp c1 && _) eqn:E; [done|]. injection H as <-. split; [done|]. intros Hs Hf.
  rewrite Hs, bool_decide_eq_true_2 in E by done. done.
Qed.

End Policy.

Lemma filter_installs a c :
  filter_list c <> [] -> exists p, apply_seccomp a c true (fun _ => true) = SeccompInstalled p.
Proof.
  unfold filter_list, apply_seccomp, build_seccomp_bpf. cbn [negb].
  destruct (seccomp_allow_mode c); [destruct (allowed_syscalls c)|destruct (blocked_syscalls c)]; [done|eauto|done|eauto].
Qed.

(** What is known of a policy [main] goes on with. *)
Record checked_policy (W : rworld) (opts : list ropt) (cmd : list cstring) (c : Config) (u g : Z) : Prop := {
  cp_inv : ropts_inv opts c;
  cp_nnp : use_no_new_privs c = true;
  cp_filter : use_seccomp c = true -> filter_list c <> [];
  cp_cmd : cmd <> [];
  cp_root : exists root st, rootdir c = Some root /\ Loader.is_absolute root = true /\ path_has_dotdot root = false
    /\ w_stat (rw_p W) root = Some st /\ S_ISDIR (st_mode st) = true
    /\ (st_uid st = 0 \/ st_uid st = mapped_root c) /\ st_mode st &? S_IWGRP_IWOTH = false;
  cp_landlock : use_landlock c = true -> paths c <> [] /\ config_check_additive (w_realpath (rw_p W)) c = true;
  cp_ids : exists user, username c = Some user /\ drop_ids W c user = Some (u, g);
  cp_audit : audit c = true -> rw_audit_open_ok W = true
}.

Lemma root_policy_checked_ok W opts cmd c u g :
  nr_table_ok (w_nr (rw_p W)) -> root_policy W opts cmd = inr (c, u, g) -> checked_policy W opts cmd c u g.
Proof.
  intros Hnr. unfold root_policy.
  destruct (load_root_profile (rw_p W) opts) as [c0|] eqn:E0; [|done].
  destruct (apply_ropts (rw_p W) opts c0) as [rc|c1] eqn:E1; [done|].
  destruct (default_filter W c1) as [c2|] eqn:E2; [cbn [fmap option_fmap option_map]|done].
  apply load_root_profile_inv in E0; [|done]. apply (apply_ropts_inv W Hnr _ []) in E1; [|done].
  destruct (default_filter_inv W Hnr _ _ _ E1 E2) as [Hi Hf].
  set (c3 := set_use_no_new_privs true c2).
  destruct cmd as [|x cmd]; [done|]. destruct (rootdir c3) as [root|] eqn:Er; [|done].
  destruct (username c3) as [user|] eqn:Eu; [|done].
  destruct (negb (Loader.is_absolute root) || path_has_dotdot root) eqn:Ep; [done|].
  destruct (negb (check_rootdir_ownership (rw_p W) c3 root) && negb (dry_run c3)) eqn:Eo; [done|].
  destruct (check_landlock (rw_p W) c3) eqn:El; cbn [negb]; [|done].
  destruct (drop_ids W c3 user) as [[u' g']|] eqn:Ed; [|done]. destruct (dry_run c3) eqn:Edr; [done|].
  destruct (audit c3 && negb (rw_audit_open_ok W)) eqn:Ea; [done|]. intros [= <- <- <-].
  apply orb_false_iff in Ep as [Ep1%negb_false_iff Ep2]. rewrite andb_true_r in Eo. apply negb_false_iff in Eo.
  split; [|done|exact Hf|done| | | |].
  - destruct Hi as [Hw Hs He]. split; [destruct Hw; by split|done|done].
  - unfold check_rootdir_ownership in Eo. destruct (w_stat (rw_p W) root) as [st|] eqn:Est; [|done].
    apply andb_true_iff in Eo as [[H1 H2]%andb_true_iff H3%negb_true_iff].
    exists root, st. split_and!; try done. apply orb_true_iff in H2 as [?%Z.eqb_eq|?%Z.eqb_eq]; auto.
  - intros Hl. unfold check_landlock in El. rewrite Hl in El. cbn [negb orb] in El.
    apply andb_true_iff in El as [H1%negb_true_iff%bool_decide_eq_false H2]. done.
  - by exists user.
  - intros Hau. rewrite Hau in Ea. by apply negb_false_iff in Ea.
Qed.

(** ** The container *)

(** C13: a container's command starts only inside the finished container.  With a
    policy [main] accepted, when [child_func] reaches its [execvp] every step has
    been taken, in this order: the parent's signal, the container's root user,
    a private mount tree, the root directory bound on itself with nosuid and nodev
    (and noexec when asked), pivot_root, /proc, the last capability number, /dev
    with its nodes, /sys, every mask or proof that its path is absent, the old root
    detached, the mount flags of the policy, the Landlock ruleset, a drop of every
    capability not kept, group and user, closed descriptors, no_new_privs, the
    parent-death signal and the fork.  The filter, unless --no-seccomp was given,
    comes last, before the limits and the exec with nothing in between, and it
    decides every system call as the policy says. *)
Theorem container_starts_confined W opts cmd c u g K environ t t' :
  nr_table_ok (w_nr (rw_p W)) -> root_policy W opts cmd = inr (c, u, g) ->
  child_func K c (ChildArgs cmd u g environ) t = (inr tt, t') ->
  let a := ChildArgs cmd u g environ in
  exists root cap_last l, rootdir c = Some root /\ read_from_kernel K cap_last
  /\ t' = t ++ l ++ last_calls K c a /\ in_order (container_steps K c a root cap_last) l = true
  /\ (RNoSeccomp ∉ opts -> exists p, head (last_calls K c a) = Some (CFilter p, 0)
        /\ forall d, run_filter p d = Some (seccomp_policy (rk_arch K) c d)).
Proof.
  intros Hnr Hp Hc a. destruct (root_policy_checked_ok _ _ _ _ _ _ Hnr Hp) as [[Hwf Hs _] _ Hf _ _ _ _ _].
  destruct (child_emits K c a t t' Hc) as (root & cap_last & l & Hr & Hk & Ht & Ho).
  exists root, cap_last, l. split_and!; [done..|]. intros Hn. specialize (Hs Hn).
  destruct (filter_installs (rk_arch K) c (Hf Hs)) as [p Hi]. exists p. split.
  - unfold last_calls. by rewrite Hs, Hi.
  - intros d. by apply (installed_filter_runs _ _ _ _ _ d Hwf Hi).
Qed.

(** Nothing is created for a policy that fails a check.  When [main] goes on,
    the root directory is absolute without a [..] component, exists, belongs to
    root or to the user the container's root is mapped to and is not writable by
    group or others; the command, the user and the numbers to drop to are known;
    with Landlock there are rules and they are additive; with seccomp the filter is
    not empty; no_new_privs is on; an audit log that was asked for is open. *)
Theorem root_policy_checked W opts cmd c u g :
  nr_table_ok (w_nr (rw_p W)) -> root_policy W opts cmd = inr (c, u, g) -> checked_policy W opts cmd c u g.
Proof. apply root_policy_checked_ok. Qed.

(** The capability loop stays within its array of 64 flags, in every run on a
    kernel whose last capability fits a 64-bit set. *)
Theorem cap_loop_in_bounds K c a t :
  (forall t n, rk_cap_last K t = Some n -> n <= 63) -> (child_func K c a t).1 <> inl OutOfBounds.
Proof. intros H. by apply child_in_bounds. Qed.

(** ** A concrete container *)

Module Jail.
Definition host : world := {|
  w_getuid := 0; w_home := None; w_user := None; w_pw_name := None;
  w_stat := fun _ => Some {| st_mode := 0x41ED; st_uid := 0 |}; w_open := fun _ => OpenFailed;
  w_opendir := fun _ => None; w_realpath := Some; w_fdopen := fun _ => true; w_nr := demo_nr
|}.

Definition system : rworld := RWorld host (fun _ => Some (1000, 1000)) ArchX86_64 true.

Definition kernel : rkernel :=
  RKernel (fun _ _ => 0) (fun _ p => LstatIs (bool_decide (p = lit "/proc/sys"))) (fun _ _ => true)
    (fun _ => Some 40) Some
    {| ll_abi := 5; ll_create := fun _ _ => true; ll_open := fun _ => PathOpened (Some {| st_mode := 0x41ED; st_uid := 0 |});
       ll_add_path := fun _ _ => true; ll_add_port := fun _ _ => true; ll_restrict := true |}
    ArchX86_64 true None true true.

Definition opts : list ropt :=
  [RRootdir (lit "/srv/jail"); RUsername (lit "svc"); RCapAllowed (lit "net_bind_service"); RPath PATH_RO (lit "/usr")].
Definition cmd : list cstring := [lit "/bin/app"].
Definition policy : Config := match root_policy system opts cmd with inr (c, _, _) => c | inl _ => root_config end.
Definition args : child_args := ChildArgs cmd 1000 1000 [lit "TERM=vt100"].
Definition run : trace := (child_func kernel policy args []).2.
End Jail.

Lemma container_starts_confined_witness :
  root_policy Jail.system Jail.opts Jail.cmd = inr (Jail.policy, 1000, 1000)
  /\ child_func Jail.kernel Jail.policy Jail.args [] = (inr tt, Jail.run)
  /\ length Jail.run = 116%nat
  /\ exists p, head (last_calls Jail.kernel Jail.policy Jail.args) = Some (CFilter p, 0)
     /\ run_filter p (SeccompData 101 0xC000003E 0)
        = Some (seccomp_policy ArchX86_64 Jail.policy (SeccompData 101 0xC000003E 0)).
Proof.
  assert (Hp : root_policy Jail.system Jail.opts Jail.cmd = inr (Jail.policy, 1000, 1000)) by (vm_compute; reflexivity).
  assert (Hr : child_func Jail.kernel Jail.policy Jail.args [] = (inr tt, Jail.run)) by (vm_compute; reflexivity).
  split; [exact Hp|]. split; [exact Hr|]. split; [vm_compute; reflexivity|].
  destruct (container_starts_confined Jail.system Jail.opts Jail.cmd Jail.policy 1000 1000 Jail.kernel
              [lit "TERM=vt100"] [] Jail.run demo_nr_ok Hp Hr) as (_ & _ & _ & _ & _ & _ & _ & H).
  destruct H as (p & H1 & H2); [|exists p; split; [exact H1|apply H2]].
  intros Hin. unfold Jail.opts in Hin. repeat (apply elem_of_cons in Hin as [Hin|Hin]; [discriminate Hin|]).
  by apply not_elem_of_nil in Hin.
Defined.

Lemma root_policy_checked_witness :
  checked_policy Jail.system Jail.opts Jail.cmd Jail.policy 1000 1000.
Proof. apply root_policy_checked; [exact demo_nr_ok|vm_compute; reflexivity]. Defined.

Lemma cap_loop_in_bounds_witness : (child_func Jail.kernel Jail.policy Jail.args []).1 <> inl OutOfBounds.
Proof. apply cap_loop_in_bounds. intros t n H. vm_compute in H. injection H as <-. lia. Defined.

(** A number above 63 would take the loop past the array. *)
Theorem cap_loop_out_of_bounds :
  let K := Jail.kernel in
  let big := RKernel (rk_call K) (rk_lstat K) (rk_stat_ok K) (fun _ => Some 64) (rk_realpath K) (rk_landlock K)
               (rk_arch K) true None true true in
  (child_func big Jail.policy Jail.args []).1 = inl OutOfBounds.
Proof. vm_compute. reflexivity. Qed.

(** A capability that cannot be dropped does not stop the container. *)
Theorem cap_drop_failure_ignored :
  let K := Jail.kernel in
  let no_setpcap := RKernel (fun _ e => match e with CCapbsetDrop _ => EPERM | _ => 0 end) (rk_lstat K) (rk_stat_ok K)
               (rk_cap_last K) (rk_realpath K) (rk_landlock K) (rk_arch K) true None true true in
  let r := child_func no_setpcap Jail.policy Jail.args [] in
  r.1 = inr tt /\ existsb (ok (CCapbsetDrop 21)) r.2 = false.
Proof. split; vm_compute; reflexivity. Qed.

(** With a user the host does not know, one of --uid and --gid is enough for the
    check that asks for both; the other number stays 0, so the command runs as the
    container's root user or in its root group. *)
Theorem one_id_leaves_root :
  let W := RWorld Jail.host (fun _ => None) ArchX86_64 true in
  let started o := match root_policy W (o :: Jail.opts) Jail.cmd with inr (_, u, g) => Some (u, g) | inl _ => None end in
  started (RGid (lit "1000")) = Some (0, 1000) /\ started (RUid (lit "1000")) = Some (1000, 0)
  /\ root_policy W Jail.opts Jail.cmd = inl 1.
Proof. split_and!; vm_compute; reflexivity. Qed.
