(* ===== verification/RootSync.v ===== *)
(** * compartment-root: the parent, the child and the reaper together

    The parent's writes and the pipe that holds the child back as a step relation
    on both processes; the files the parent writes; process 1. *)

From S2P Require Import Prelude CLib Config ConfigProps Seccomp Profile EnvAudit Landlock ObserveMain User Root RootMain RootProps RootSafety.
From Stdlib Require Import Ascii.

#[local] Open Scope Z_scope.
#[local] Open Scope comp_scope.

(** ** The parent's steps *)

Section Parent.
Context (K : rkernel) (w : world) (pid : Z).

Definition setgroups_denied (c : Config) : list stage :=
  if keeps_setgid c then []
  else [either (ok (CWriteFile (proc_file pid "setgroups") (lit "deny")))
               (fun x => bool_decide (x = (COpen (proc_file pid "setgroups"), ENOENT)))].

Definition in_cgroup (want : cstring) : stage := fun x =>
  match cgroup_procs w want with Some procs => ok (CWriteFile procs (print_u pid ++ [LF])) x | None => false end.

Definition parent_steps (c : Config) : list stage :=
  setgroups_denied c
  ++ [ok (CWriteFile (proc_file pid "uid_map") (id_map_or_default (uid_map c)));
      ok (CWriteFile (proc_file pid "gid_map") (id_map_or_default (gid_map c)))]
  ++ (in_cgroup <$> cgroups c).

Lemma emits_deny c : emits (deny_setgroups K pid c) (setgroups_denied c).
Proof.
  unfold deny_setgroups, setgroups_denied. destruct (keeps_setgid c); [apply emits_ret|].
  intros t a t'. unfold mbind, prog_bind, sys.
  destruct (Z.eqb_spec (rk_call K t (COpen (proc_file pid "setgroups"))) ENOENT) as [E|].
  - intros [= <- <-]. rewrite E. eexists. split; [done|]. apply in_order_one. unfold either.
    by rewrite (bool_decide_eq_true_2 _ eq_refl), orb_true_r.
  - case_match; [done|]. intros H1. apply emits_must in H1 as (l & -> & Hl).
    eexists. rewrite <- app_assoc. split; [done|]. apply in_order_skip. by apply either_l.
Qed.

Lemma emits_map m f : emits (write_uid_gid_map K pid m f) [ok (CWriteFile (proc_file pid f) m)].
Proof. unfold write_uid_gid_map. apply emits_skip; [eapply emits_any, emits_must|intros _; apply emits_must]. Qed.

Lemma appends_cgroups l :
  appends (assign_to_cgroups K w pid l) (fun b tr => b = true -> in_order (in_cgroup <$> l) tr = true).
Proof.
  induction l as [|want l IH]; cbn [assign_to_cgroups fmap list_fmap].
  { intros t a t' [= <- <-]. exists []. rewrite app_nil_r. done. }
  destruct (cgroup_procs w want) as [procs|] eqn:E.
  2: { intros t a t' [= <- <-]. exists []. rewrite app_nil_r. done. }
  intros t a t'. unfold mbind, prog_bind, sys. case_match.
  { intros [= <- <-]. by eexists. }
  match goal with |- (if ?r =? 0 then _ else _) _ = _ -> _ => destruct (Z.eqb_spec r 0) as [Er|] end.
  2: { intros [= <- <-]. eexists. rewrite <- app_assoc. done. }
  intros (tr & -> & Hl)%IH. eexists. rewrite <- !app_assoc. split; [done|]. intros Hb.
  rewrite Er. apply in_order_skip. cbn. unfold in_cgroup at 1. rewrite E. unfold ok at 1.
  rewrite bool_decide_eq_true_2 by done. auto.
Qed.

Lemma appends_maps c : appends (parent_maps K w pid c) (fun b tr => b = true -> in_order (parent_steps c) tr = true).
Proof.
  intros t a t'. unfold parent_maps, parent_steps.
  intros (? & t1 & H1 & (? & t2 & H2 & (? & t3 & H3 & H4)%bind_inv)%bind_inv)%bind_inv.
  apply emits_deny in H1 as (l1 & -> & H1). apply emits_map in H2 as (l2 & -> & H2). apply emits_map in H3 as (l3 & -> & H3).
  apply appends_cgroups in H4 as (l4 & -> & H4). exists (l1 ++ l2 ++ l3 ++ l4). rewrite <- !app_assoc. split; [done|].
  intros Hb. apply in_order_app; [done|]. apply (in_order_app [_]); [done|]. apply (in_order_app [_]); [done|]. auto.
Qed.

End Parent.

(** ** Every call of a run *)

(** All calls a program makes, whether it stops or not, satisfy [P]. *)
Definition only {A} (P : rcall -> Prop) (m : prog A) : Prop :=
  forall t, exists l, (m t).2 = t ++ l /\ Forall (fun x => P x.1) l.

Lemma only_ret {A} P (a : A) : only P (mret a).
Proof. intros t. exists []. by rewrite app_nil_r. Qed.

Lemma only_halt {A} P s : only P (halt s : prog A).
Proof. intros t. exists []. by rewrite app_nil_r. Qed.

Lemma only_bind {A B} P (m : prog A) (k : A -> prog B) : only P m -> (forall a, only P (k a)) -> only P (m ≫= k).
Proof.
  intros Hm Hk t. unfold mbind, prog_bind. destruct (Hm t) as (l1 & E1 & H1).
  destruct (m t) as [[s|a] t1]; cbn [snd] in E1; subst; [by exists l1|].
  destruct (Hk a (t ++ l1)) as (l2 & -> & H2). exists (l1 ++ l2). rewrite app_assoc. split; [done|]. by apply Forall_app.
Qed.

Section Only.
Context (K : rkernel) (P : rcall -> Prop).

Lemma only_sys e : P e -> only P (sys K e).
Proof. intros He t. eexists. split; [done|]. by apply Forall_singleton. Qed.

Lemma only_must e : P e -> only P (must K e).
Proof. intros He. apply only_bind; [by apply only_sys|]. intros r. case_match; [apply only_ret|apply only_halt]. Qed.

Lemma only_may e : P e -> only P (may K e).
Proof. intros He. apply only_bind; [by apply only_sys|]. intros r. apply only_ret. Qed.

Lemma only_must_unless n e : P e -> only P (must_unless K n e).
Proof. intros He. apply only_bind; [by apply only_sys|]. intros r. case_match; [apply only_ret|apply only_halt]. Qed.
End Only.

Lemma only_fatal {A} P : only P (fatal : prog A).
Proof. apply only_halt. Qed.

Create HintDb only_db.
#[local] Hint Resolve only_ret only_fatal only_halt only_sys only_must only_may only_must_unless : only_db.

Ltac solve_only :=
  repeat first [ progress (auto with only_db) | apply only_bind; [|intros] | case_match ].

Section Writes.
Context (K : rkernel) (w : world) (pid : Z) (c : Config).

(** The files the parent may write, and what it writes. *)
Definition parent_may_write (e : rcall) : Prop :=
  match e with
  | CWriteFile path text =>
      (path = proc_file pid "setgroups" /\ text = lit "deny")
      \/ (path = proc_file pid "uid_map" /\ text = id_map_or_default (uid_map c))
      \/ (path = proc_file pid "gid_map" /\ text = id_map_or_default (gid_map c))
      \/ (exists want r, want ∈ cgroups c /\ w_realpath w want = Some r /\ has_prefix CGROUP_ROOT r = true
          /\ path = r ++ lit "/cgroup.procs" /\ text = print_u pid ++ [LF])
  | _ => True
  end.

Lemma cgroups_only l : (forall x, x ∈ l -> x ∈ cgroups c) -> only parent_may_write (assign_to_cgroups K w pid l).
Proof.
  induction l as [|want l IH]; intros Hin; cbn [assign_to_cgroups]; [apply only_ret|].
  destruct (cgroup_procs w want) as [procs|] eqn:E; [|apply only_ret].
  apply only_bind; [by apply only_sys|]. intros r. case_match; [apply only_ret|]. apply only_bind.
  - apply only_sys. right. right. right. unfold cgroup_procs in E. case_match; [done|].
    apply bind_Some in E as (res & Hr & E). case_match eqn:Ep; [done|]. apply negb_false_iff in Ep.
    destruct (Nat.leb PATH_MAX _); [done|]. injection E as <-. exists want, res. split_and!; [apply Hin; left|done..].
  - intros r'. case_match; [|apply only_ret]. apply IH. intros x Hx. apply Hin. by right.
Qed.

Lemma parent_only : only parent_may_write (parent_prepare K c ;; parent_setup K w pid c).
Proof.
  unfold parent_prepare, join_netns, parent_setup, parent_start, parent_maps, deny_setgroups, write_uid_gid_map, kill_child.
  solve_only. all: first [ by apply cgroups_only
    | first [apply only_must | apply only_may | apply only_must_unless | apply only_sys]; cbn; tauto ].
Qed.

End Writes.

(** ** Two processes and a pipe *)

(** [read] found the pipe closed. *)
Definition READ_EOF : Z := 1.

Definition answering (r : Z) (K : rkernel) : rkernel :=
  RKernel (fun t e => if bool_decide (e = CReadGo) then r else rk_call K t e) (rk_lstat K) (rk_stat_ok K) (rk_cap_last K)
    (rk_realpath K) (rk_landlock K) (rk_arch K) (rk_alloc_ok K) (rk_nofile K) (rk_mount_setattr K) (rk_close_range K).

(** The calls [child_func] makes when its [read] answers [r]. *)
Definition child_calls (K : rkernel) (c : Config) (a : child_args) (r : Z) : trace := (child_func (answering r K) c a []).2.

Section Duo.
Context (calls : Z -> trace).

(** The parent: the calls it has made since [clone], those it will make, and
    whether it has exited.  The child: the calls it has made, what [read] has
    answered, and whether it has ended (exited, was killed, or the command it
    became is over). *)
Record duo := Duo {
  d_done : trace; d_todo : trace; d_exited : bool; d_cdone : trace; d_answer : option Z; d_ended : bool }.

Definition closes_write (l : trace) : bool := existsb (fun x => bool_decide (x.1 = CCloseWrite)) l.

(** Some process still holds a write end of the pipe. *)
Definition write_end_left (s : duo) : bool :=
  negb (d_exited s || closes_write (d_done s)) || negb (d_ended s || closes_write (d_cdone s)).

(** What [read] has answered, or may answer. *)
Definition may_answer (s : duo) (r : Z) : Prop :=
  match d_answer s with Some r0 => r = r0 | None => r = 0 \/ r = READ_EOF end.

(** Any interleaving.  [waitpid] returns when the child has ended; [read] returns
    the byte once it was written, and finds the pipe closed when no write end is
    left; every other call returns at once. *)
Inductive duo_step (s : duo) : duo -> Prop :=
  | step_parent x todo :
      d_todo s = x :: todo -> d_exited s = false -> (x.1 = CWait -> d_ended s = true) ->
      duo_step s (Duo (d_done s ++ [x]) todo false (d_cdone s) (d_answer s) (d_ended s || bool_decide (x = (CKill, 0))))
  | step_exit :
      d_todo s = [] -> d_exited s = false ->
      duo_step s (Duo (d_done s) [] true (d_cdone s) (d_answer s) (d_ended s))
  | step_child x :
      d_ended s = false -> (forall r, may_answer s r -> calls r !! length (d_cdone s) = Some x) ->
      (x.1 = CReadGo -> d_answer s <> None) ->
      duo_step s (Duo (d_done s) (d_todo s) (d_exited s) (d_cdone s ++ [x]) (d_answer s) false)
  | step_read r :
      d_ended s = false -> d_answer s = None -> calls r !! length (d_cdone s) = Some (CReadGo, r) ->
      (r = 0 /\ (CGo, 0) ∈ d_done s) \/ (r = READ_EOF /\ ((CGo, 0) ∉ d_done s) /\ write_end_left s = false) ->
      duo_step s (Duo (d_done s) (d_todo s) (d_exited s) (d_cdone s ++ [(CReadGo, r)]) (Some r) false)
  | step_end :
      d_ended s = false -> (forall r, may_answer s r -> calls r !! length (d_cdone s) = None) ->
      duo_step s (Duo (d_done s) (d_todo s) (d_exited s) (d_cdone s) (d_answer s) true).

Definition duo_init (l : trace) : duo := Duo [] l false [] None false.

(** The child of [child_func]: it closes its write end, then reads, and a failed
    read is the end. *)
Record waits_first : Prop := WaitsFirst {
  wf_close : exists x, forall r, calls r !! 0%nat = Some (CCloseWrite, x);
  wf_read : forall r, calls r !! 1%nat = Some (CReadGo, r);
  wf_eof : length (calls READ_EOF) = 2%nat }.
Context (Hw : waits_first).

Record duo_inv (l : trace) (s : duo) : Prop := DuoInv {
  di_parent : d_done s ++ d_todo s = l;
  di_exited : d_exited s = true -> d_todo s = [];
  di_child : match d_answer s with
             | None => (length (d_cdone s) <= 1)%nat
             | Some r => (r = 0 /\ (CGo, 0) ∈ d_done s \/ r = READ_EOF) /\ (2 <= length (d_cdone s))%nat
             end;
  di_calls : forall r, may_answer s r -> d_cdone s = take (length (d_cdone s)) (calls r);
  di_killed : (CKill, 0) ∈ d_done s -> d_ended s = true }.

Lemma take_snoc {A} (d : list A) (m : list A) x : d = take (length d) m -> m !! length d = Some x -> d ++ [x] = take (length (d ++ [x])) m.
Proof. intros Hd Hx. rewrite length_app. cbn [length]. rewrite Nat.add_1_r, (take_S_r _ _ _ Hx). by f_equal. Qed.

Lemma duo_step_inv l s s' : duo_step s s' -> duo_inv l s -> duo_inv l s'.
Proof.
  intros Hs [H1 H2 H3 H4 H5]. destruct Hs as [x todo Ht He Hwt|Ht He|x He Hc Hr|r He Ha Hc Hr|He Hc];
    split; unfold may_answer in *; cbn [d_done d_todo d_exited d_cdone d_answer d_ended] in *; try done.
  - rewrite <- app_assoc. cbn. congruence.
  - destruct (d_answer s); [|done]. rewrite elem_of_app. naive_solver.
  - intros [Hk|Hk%list_elem_of_singleton]%elem_of_app; [by rewrite H5|]. subst x. by rewrite orb_true_r.
  - congruence.
  - rewrite length_app. cbn. destruct (d_answer s) as [r|] eqn:Ea; [split; [apply H3|lia]|].
    destruct (d_cdone s) as [|y [|z t]] eqn:Ed; cbn [length] in *; [lia| |lia]. exfalso.
    specialize (Hc 0 (or_introl eq_refl)). rewrite (wf_read Hw) in Hc. injection Hc as <-. by apply Hr.
  - intros r Hr'. by apply take_snoc; [apply H4|apply Hc].
  - intros Hk. by rewrite H5 in He.
  - rewrite length_app. cbn. split; [naive_solver|]. destruct (d_cdone s) as [|y t] eqn:Ed; cbn [length] in *; [|lia]. exfalso.
    destruct (wf_close Hw) as [z Hz]. rewrite Hz in Hc. done.
  - intros r' ->. apply take_snoc; [|done]. apply H4. rewrite Ha. naive_solver.
  - intros Hk. by rewrite H5 in He.
Qed.

(** *** Every run is finite *)

Definition child_length : nat := Nat.max (length (calls 0)) (length (calls READ_EOF)).
Definition steps_left (s : duo) : nat :=
  length (d_todo s) + (if d_exited s then 0 else 1) + (if d_ended s then 0 else S (child_length - length (d_cdone s))).

Lemma duo_step_left l s s' : duo_inv l s -> duo_step s s' -> (steps_left s' < steps_left s)%nat.
Proof.
  intros [_ _ H3 _ _] Hs. unfold steps_left.
  assert (Hlen : forall r x, r = 0 \/ r = READ_EOF -> calls r !! length (d_cdone s) = Some x -> (length (d_cdone s) < child_length)%nat).
  { intros r x Hr Hx%lookup_lt_Some. unfold child_length. destruct Hr as [->| ->]; lia. }
  destruct Hs as [x todo Ht He Hwt|Ht He|x He Hc Hr|r He Ha Hc Hr|He Hc];
    cbn [d_done d_todo d_exited d_cdone d_answer d_ended]; rewrite ?He, ?Ht; cbn [length].
  - destruct (d_ended s); cbn [orb]; [lia|]. destruct (bool_decide _); lia.
  - lia.
  - assert (Hl : (length (d_cdone s) < child_length)%nat).
    { unfold may_answer in Hc. destruct (d_answer s) as [r|]; [|by eapply (Hlen 0), Hc; auto].
      eapply (Hlen r), Hc; [|done]. naive_solver. }
    rewrite length_app. cbn. lia.
  - assert (Hl : (length (d_cdone s) < child_length)%nat) by (eapply (Hlen r); [naive_solver|done]). rewrite length_app. cbn. lia.
  - lia.
Qed.

Lemma duo_steps_left l n s s' : duo_inv l s -> nsteps duo_step n s s' -> (n + steps_left s' <= steps_left s)%nat /\ duo_inv l s'.
Proof.
  intros Hi Hn. induction Hn as [|n s1 s2 s3 H _ IH]; [split; [lia|done]|].
  destruct (IH (duo_step_inv _ _ _ H Hi)) as [IH1 IH2]. pose proof (duo_step_left _ _ _ Hi H). split; [lia|done].
Qed.

(** *** and ends with both processes done *)

(** A parent that waits has let the child go, or killed it. *)
Definition waits_last (l : trace) : Prop :=
  forall done x todo, l = done ++ (CWait, x) :: todo -> (CGo, 0) ∈ done \/ (CKill, 0) ∈ done.

Lemma duo_stuck l s : waits_last l -> duo_inv l s -> (forall s', ~ duo_step s s') -> d_ended s = true /\ d_exited s = true.
Proof.
  intros Hl [H1 H2 H3 H4 H5] Hno.
  assert (Hend : d_ended s = true).
  { destruct (d_ended s) eqn:He; [done|]. exfalso. destruct (d_answer s) as [r|] eqn:Ha.
    - destruct (calls r !! length (d_cdone s)) as [x|] eqn:Ex.
      + eapply Hno, (step_child s x He); [|by rewrite Ha]. unfold may_answer. rewrite Ha. by intros r' ->.
      + eapply Hno, (step_end s He). unfold may_answer. rewrite Ha. by intros r' ->.
    - destruct (wf_close Hw) as [z Hz]. destruct (d_cdone s) as [|y [|y' t]] eqn:Ed; [| |cbn in H3; lia].
      { eapply Hno, (step_child s (CCloseWrite, z) He); [|done]. intros r _. rewrite Ed. apply Hz. }
      assert (Hy : y = (CCloseWrite, z)).
      { specialize (H4 0). unfold may_answer in H4. rewrite Ha in H4. specialize (H4 (or_introl eq_refl)). specialize (Hz 0).
        destruct (calls 0) as [|w0 t]; [done|]. cbn in H4, Hz. congruence. }
      assert (Hrd : forall r, calls r !! length (d_cdone s) = Some (CReadGo, r)) by (intros r; rewrite Ed; apply (wf_read Hw)).
      destruct (decide ((CGo, 0) ∈ d_done s)) as [Hg|Hg].
      { eapply Hno, (step_read s 0 He Ha (Hrd 0)). by left. }
      destruct (write_end_left s) eqn:Ewr.
      2: { eapply Hno, (step_read s READ_EOF He Ha (Hrd READ_EOF)). by right. }
      unfold write_end_left in Ewr. rewrite Ed, Hy, He in Ewr. cbn in Ewr. rewrite orb_false_r in Ewr.
      apply negb_true_iff, orb_false_iff in Ewr as [Hex _]. destruct (d_todo s) as [|[e v] todo] eqn:Et.
      + by eapply Hno, (step_exit s Et Hex).
      + eapply Hno, (step_parent s _ _ Et Hex). cbn. intros ->. exfalso.
        destruct (Hl (d_done s) v todo) as [?|Hk]; [by rewrite <- H1|done|]. specialize (H5 Hk). congruence. }
  split; [done|]. destruct (d_exited s) eqn:Hex; [done|]. exfalso. destruct (d_todo s) as [|x todo] eqn:Et.
  - by eapply Hno, (step_exit s Et Hex).
  - by eapply Hno, (step_parent s _ _ Et Hex).
Qed.

(** A child past its [read] has the byte. *)
Lemma past_the_read l s e x : duo_inv l s -> (e, x) ∈ d_cdone s -> e <> CCloseWrite -> e <> CReadGo -> (CGo, 0) ∈ d_done s.
Proof.
  intros [_ _ H3 H4 _] Hin H1 H2. unfold may_answer in H4. destruct (wf_close Hw) as [z Hz].
  assert (Hfirst : forall r, may_answer s r -> (3 <= length (d_cdone s))%nat).
  { intros r Hr. apply list_elem_of_lookup in Hin as [i Hi]. pose proof (lookup_lt_Some _ _ _ Hi) as Hlt.
    assert (Hi' : calls r !! i = Some (e, x)).
    { specialize (H4 r Hr). remember (length (d_cdone s)) as n. rewrite H4 in Hi. by rewrite lookup_take_lt in Hi. }
    destruct i as [|[|i]]; [| |lia].
    - rewrite Hz in Hi'. congruence.
    - rewrite (wf_read Hw) in Hi'. congruence. }
  unfold may_answer in *. destruct (d_answer s) as [r|] eqn:Ha; [|specialize (Hfirst 0 (or_introl eq_refl)); lia].
  destruct H3 as [[[_ Hg]| ->] _]; [done|]. exfalso. specialize (Hfirst _ eq_refl). specialize (H4 _ eq_refl).
  apply (f_equal length) in H4. rewrite length_take, (wf_eof Hw) in H4. lia.
Qed.

End Duo.

(** *** The child *)

(** A program only adds to the trace. *)
Abbreviation grows m := (only (fun _ => True) m).

Lemma grows_each {A} (f : A -> prog unit) l : (forall x, grows (f x)) -> grows (each f l).
Proof. intros Hf. induction l as [|x l IH]; cbn [each]; [apply only_ret|]. by apply only_bind. Qed.

Lemma grows_note e : grows (note e).
Proof. intros t. exists [(e, 0)]. split; [done|]. by apply Forall_singleton. Qed.

Section Grows.
Context (K : rkernel).

Lemma grows_mask_path p : grows (mask_path K p).
Proof. intros t. unfold mask_path. destruct (rk_lstat K t p); [exact (grows_note _ t)|exact (only_fatal (fun _ => True) t)|exact (only_must K (fun _ => True) _ I t)]. Qed.

Lemma grows_filter c : grows (install_seccomp_filter K c).
Proof.
  intros t. unfold install_seccomp_filter. destruct (apply_seccomp _ _ _ _); [exact (only_fatal (fun _ => True) t)| |exact (grows_note _ t)].
  exists []. by rewrite app_nil_r.
Qed.

Lemma grows_read_cap_last : grows (read_cap_last K).
Proof. intros t. exists [(CReadCapLast, 0)]. split; [done|]. by apply Forall_singleton. Qed.

End Grows.

#[local] Hint Resolve grows_each grows_note grows_mask_path grows_filter grows_read_cap_last : only_db.
#[local] Hint Extern 1 True => exact I : only_db.
Lemma grows_remount K p f r : grows (remount_with_flags K p f r).
Proof. unfold remount_with_flags. solve_only. Qed.
#[local] Hint Resolve grows_remount : only_db.

Lemma grows_mount_flag K r : grows (apply_mount_flag K r).
Proof.
  intros t. unfold apply_mount_flag. case_match; [exact (only_fatal (fun _ => True) t)|].
  refine (only_bind (fun _ => True) _ _ _ _ t); [by apply only_must|]. intros _. apply grows_remount.
Qed.
#[local] Hint Resolve grows_mount_flag : only_db.

Lemma grows_filesystem K c : grows (build_filesystem K c).
Proof. unfold build_filesystem, populate_dev, mount_pts, mount_sys, apply_mount_flags. solve_only.
  all: apply grows_each; intros; unfold extra_mask; solve_only.
Qed.

(** Everything after the pipe. *)
Definition after_go (K : rkernel) (c : Config) (a : child_args) : prog unit :=
  must K (CSetgid 0) ;; must K (CSetuid 0) ;;
  match rootdir c with
  | None => fatal
  | Some root => enter_root K c root ;; cap_last ← build_filesystem K c; confine K c a cap_last ;; filter_and_exec K c a
  end.

#[local] Hint Resolve grows_filesystem : only_db.

Lemma grows_after_go K c a : grows (after_go K c a).
Proof.
  unfold after_go, enter_root, confine, bring_up_loopback, restrict_landlock, drop_capabilities, drop_cap, drop_privileges,
    apply_kept_caps, close_fds, filter_and_exec, set_rlimits, exec_target.
  solve_only. all: apply grows_each; intros; solve_only.
Qed.

Lemma child_func_parts K c a : child_func K c a = (receive_go K ;; after_go K c a).
Proof. reflexivity. Qed.

(** The two calls every run of the child starts with; it goes on when [read]
    returned the byte. *)
Lemma child_calls_first K c a r :
  exists x l, child_calls K c a r = [(CCloseWrite, x); (CReadGo, r)] ++ l /\ (r <> 0 -> l = []) /\ x = rk_call K [] CCloseWrite.
Proof.
  unfold child_calls. rewrite child_func_parts. set (K' := answering r K). unfold receive_go.
  unfold mbind, prog_bind at 1 2. unfold may at 1, must at 1, sys at 1 2, mret, prog_ret, mbind, prog_bind. cbn [app].
  replace (rk_call K' [(CCloseWrite, rk_call K' [] CCloseWrite)] CReadGo) with r by done.
  replace (rk_call K' [] CCloseWrite) with (rk_call K [] CCloseWrite) by done.
  destruct (Z.eqb_spec r 0) as [->|Hr]; [|by eexists _, []].
  unfold may, sys, mbind, prog_bind, mret, prog_ret. cbn [app snd].
  match goal with |- context [after_go K' c a ?t] => destruct (grows_after_go K' c a t) as (l & -> & _) end.
  eexists _, (_ :: l). by cbn.
Qed.

Lemma child_waits_first K c a : waits_first (child_calls K c a).
Proof.
  split.
  - eexists. intros r. destruct (child_calls_first K c a r) as (x & l & -> & _ & ->). done.
  - intros r. by destruct (child_calls_first K c a r) as (x & l & -> & _ & _).
  - destruct (child_calls_first K c a READ_EOF) as (x & l & -> & Hl & _). by rewrite Hl.
Qed.

(** *** The parent *)

Section Byte.
Context (K : rkernel) (w : world) (pid : Z) (c : Config).

Definition quiet (e : rcall) : Prop := e <> CGo /\ e <> CWait.

Lemma quiet_elem l e x : Forall (fun y : rcall * Z => quiet y.1) l -> e = CGo \/ e = CWait -> (e, x) ∉ l.
Proof. rewrite Forall_forall. intros H He Hin. destruct (H _ Hin) as [H1 H2]. cbn in H1, H2. tauto. Qed.

Lemma cgroups_quiet l : only quiet (assign_to_cgroups K w pid l).
Proof.
  induction l as [|want l IH]; cbn [assign_to_cgroups]; [apply only_ret|].
  destruct (cgroup_procs w want); [|apply only_ret]. unfold quiet in *. solve_only. all: by apply only_sys.
Qed.

Lemma maps_quiet : only quiet (parent_maps K w pid c).
Proof.
  unfold parent_maps, deny_setgroups, write_uid_gid_map. solve_only.
  all: first [ apply cgroups_quiet | by apply only_must | by apply only_sys ].
Qed.

Lemma in_order_more ps l l' : in_order ps l = true -> in_order ps (l ++ l') = true.
Proof. intros H. rewrite <- (app_nil_r ps). apply in_order_app; [done|apply in_order_nil]. Qed.

Context (Hkill : forall t, rk_call K t CKill = 0).

(** How the parent ends: early, by killing the child, or by letting it go after
    the whole set-up. *)
Inductive parent_end (l1 : trace) : trace -> Prop :=
  | end_early : parent_end l1 []
  | end_kill x : parent_end l1 [(CKill, 0); (CWait, x)]
  | end_go x y : in_order (parent_steps w pid c) l1 = true -> parent_end l1 [(CGo, 0); (CCloseWrite, x); (CWait, y)]
  | end_broken g x : g <> 0 -> parent_end l1 [(CGo, g); (CKill, 0); (CWait, x)].

Lemma kill_child_calls t : (kill_child K t : (stop + unit) * trace).2 = t ++ [(CKill, 0); (CWait, rk_call K (t ++ [(CKill, 0)]) CWait)].
Proof.
  unfold kill_child, may, sys, fatal, halt, mret, prog_ret, mbind, prog_bind. cbn [snd]. by rewrite !Hkill, <- app_assoc.
Qed.

Lemma start_calls t :
  exists l1 l2, (parent_start K w pid c t).2 = t ++ l1 ++ l2 /\ Forall (fun x => quiet x.1) l1 /\ parent_end l1 l2.
Proof.
  unfold parent_start. unfold mbind, prog_bind at 1. destruct (maps_quiet t) as (l1 & E1 & Hq).
  destruct (parent_maps K w pid c t) as [[s|b] t1] eqn:E; cbn [snd] in E1; subst t1.
  { exists l1, []. rewrite app_nil_r. split_and!; [done|done|constructor]. }
  destruct b; cbn [negb].
  2: { exists l1. eexists. rewrite kill_child_calls, <- app_assoc. split_and!; [done|done|constructor]. }
  assert (Hs : in_order (parent_steps w pid c) l1 = true).
  { apply appends_maps in E as (l1' & Heq & Hs). apply app_inv_head in Heq as <-. by apply Hs. }
  exists l1. unfold prog_bind, sys at 1. destruct (Z.eqb_spec (rk_call K (t ++ l1) CGo) 0) as [Eg|Eg].
  - rewrite Eg. unfold may, must, sys, mret, prog_ret, mbind, prog_bind. cbn. case_match; cbn [snd]; eexists;
      (split_and!; [by rewrite <- !app_assoc|done|by constructor]).
  - rewrite kill_child_calls. eexists. split_and!; [by rewrite <- !app_assoc|done|by constructor].
Qed.

Lemma setup_calls t r l : parent_setup K w pid c t = (r, t ++ l) ->
  exists l1 l2, l = l1 ++ l2 /\ Forall (fun x => quiet x.1) l1 /\ parent_end l1 l2.
Proof.
  intros H. apply (f_equal snd) in H. cbn [snd] in H. revert H. unfold parent_setup.
  unfold mbind, prog_bind at 1. unfold may at 1, sys at 1, mret, prog_ret, mbind, prog_bind.
  match goal with |- context [parent_start K w pid c ?t'] => destruct (start_calls t') as (l1 & l2 & -> & Hq & He) end.
  rewrite <- !app_assoc. intros H%app_inv_head. subst l. eexists (_ :: l1), l2. split_and!; [done|by constructor|].
  inversion He as [|x|x y Ho|g x Hg]; subst; constructor; try done. by apply in_order_skip.
Qed.

Lemma split_after {A} (l1 l2 : list A) done y todo :
  l1 ++ l2 = done ++ y :: todo -> y ∉ l1 -> exists k, done = l1 ++ k /\ l2 = k ++ y :: todo.
Proof.
  intros H Hy. apply app_eq_inv in H as [(k & -> & H)|(k & -> & ->)]; [|by exists k].
  destruct k as [|z k]; cbn in H; [exists []; by rewrite !app_nil_r in *|]. injection H as -> ->.
  exfalso. apply Hy, elem_of_app. right. left.
Qed.

(** Whatever the parent has done when the byte is in the pipe includes the whole
    set-up. *)
Lemma go_after_setup t r l done todo :
  parent_setup K w pid c t = (r, t ++ l) -> done ++ todo = l -> (CGo, 0) ∈ done ->
  in_order (parent_steps w pid c) done = true.
Proof.
  intros (l1 & l2 & -> & Hq & He)%setup_calls Hl (d1 & d2 & ->)%list_elem_of_split. rewrite <- app_assoc in Hl. cbn in Hl.
  symmetry in Hl. apply split_after in Hl as (k & -> & Hl2); [|by eapply quiet_elem; [done|left]].
  destruct He as [|x|x y Ho|g x Hg]; [by destruct k| | |].
  - by destruct k as [|? [|? [|]]].
  - rewrite <- app_assoc. by apply in_order_more.
  - by destruct k as [|? [|? [|? [|]]]]; simplify_eq/=.
Qed.

Lemma setup_waits_last t r l : parent_setup K w pid c t = (r, t ++ l) -> waits_last l.
Proof.
  intros (l1 & l2 & -> & Hq & He)%setup_calls done x todo Hl.
  apply split_after in Hl as (k & -> & Hl2); [|by eapply quiet_elem; [done|right]].
  destruct He as [|y|y z Ho|g y Hg].
  - by destruct k.
  - destruct k as [|? [|? k]]; simplify_eq/=; [|by destruct k]. right. apply elem_of_app. right. left.
  - destruct k as [|? k]; simplify_eq/=. left. apply elem_of_app. right. left.
  - destruct k as [|? [|? k]]; simplify_eq/=. right. apply elem_of_app. right. right. left.
Qed.

End Byte.

(** ** Theorems *)

(** C21: the child does nothing before the parent has set it up, and neither
    process is left waiting.  The two processes are the calls [child_func] and the
    parent make, in every interleaving, with a pipe that is at its end when no
    process holds its write end.  (1) A child that has made any call other than
    closing its write end and reading runs in a namespace where setgroups was
    denied (unless the policy keeps CAP_SETGID or the kernel has no such file),
    both id maps are written and it is in all its cgroups, in this order.  (2) A run
    has at most one step per call and one per exit.  (3) It can only stop with both
    processes over, also when the parent exits on the way, provided that the
    parent's [kill] of its own child succeeds. *)
Theorem child_waits_for_setup K Kc w pid c a t r l n s :
  (forall t', rk_call K t' CKill = 0) -> parent_setup K w pid c t = (r, t ++ l) ->
  nsteps (duo_step (child_calls Kc c a)) n (duo_init l) s ->
  (forall e x, (e, x) ∈ d_cdone s -> e <> CCloseWrite -> e <> CReadGo -> in_order (parent_steps w pid c) (d_done s) = true)
  /\ (n <= length l + 1 + Nat.max (length (child_calls Kc c a 0)) 2 + 1)%nat
  /\ ((forall s', ~ duo_step (child_calls Kc c a) s s') -> d_ended s = true /\ d_exited s = true).
Proof.
  intros Hk Hp Hn. pose proof (child_waits_first Kc c a) as Hw.
  assert (Hi0 : duo_inv (child_calls Kc c a) l (duo_init l)) by (split; cbn; [done..|lia|done|by intros ?%not_elem_of_nil]).
  apply (duo_steps_left _ Hw _ _ _ _ Hi0) in Hn as [Hn Hi]. split_and!.
  - intros e x He H1 H2. eapply go_after_setup; [done|done|apply (di_parent _ _ _ Hi)|].
    by eapply (past_the_read _ Hw).
  - revert Hn. unfold steps_left at 2, child_length. cbn [duo_init d_todo d_exited d_ended d_cdone length].
    rewrite (wf_eof _ Hw). lia.
  - apply (duo_stuck _ Hw _ _ (setup_waits_last _ _ _ _ Hk _ _ _ Hp) Hi).
Qed.

(** As root on the host, the parent writes only the child's setgroups file
    and id maps, and its own pid to the [cgroup.procs] of configured cgroups that
    resolve below /sys/fs/cgroup, whatever the configuration and the answers of the
    kernel are. *)
Theorem parent_writes_confined K w pid c t path text x :
  (CWriteFile path text, x) ∈ ((parent_prepare K c ;; parent_setup K w pid c) t).2 ->
  (CWriteFile path text, x) ∈ t \/ parent_may_write w pid c (CWriteFile path text).
Proof.
  destruct (parent_only K w pid c t) as (l & -> & Hl). intros [Ht|Hin]%elem_of_app; [auto|]. right.
  rewrite Forall_forall in Hl. by apply (Hl _ Hin).
Qed.

(** Numbers below the x32 bit. *)
Lemma hasbit_small n : 0 <= n < 0x40000000 -> hasbit n 0x40000000 = false.
Proof.
  intros Hn. unfold hasbit. apply negb_false_iff, Z.eqb_eq. change 0x40000000 with (2 ^ 30) in *.
  apply Z.bits_inj'. intros k Hk. rewrite Z.land_spec, Z.bits_0, Z.pow2_bits_eqb by lia.
  destruct (Z.eqb_spec 30 k) as [<-|]; [|by rewrite andb_false_r]. rewrite andb_true_r.
  destruct (Z.eq_dec n 0) as [->|]; [apply Z.bits_0|]. apply Z.bits_above_log2; [lia|]. apply Z.log2_lt_pow2; lia.
Qed.

(** Process 1 always reports the target's fate: interrupted waits and other
    children do not end its loop, and the status is the target's exit code or 128
    plus its signal.  When it installs the filter on itself, that filter allows
    every system call the loop needs. *)
Theorem reaper_reports_target K nr c target t others st rest :
  nr_table_ok nr -> config_wf c ->
  Forall (fun a => match a with WaitInterrupted => True | WaitFailed => False | WaitChild p _ => p <> target end) others ->
  (init_filter K nr c t).1 = inr tt ->
  container_init K nr c target (others ++ WaitChild target st :: rest) t = Some (init_status st)
  /\ forall p s n arg, (init_filter K nr c t).2 = t ++ [(CFilter p, 0)] -> s ∈ reaper_syscalls ->
       resolve_syscall nr (lit s) = Some n -> n < 0x40000000 ->
       run_filter p (SeccompData n (AUDIT_ARCH (rk_arch K)) arg) = Some SECCOMP_RET_ALLOW.
Proof.
  intros Hnr Hwf Ho Hf. split.
  - unfold container_init. destruct (init_filter K nr c t) as [[s|u] t']; [done|].
    induction Ho as [|a others Ha _ IH]; cbn [reap_loop app]; [by rewrite Z.eqb_refl|].
    destruct a as [| |p sp]; [done|done|]. destruct (Z.eqb_spec p target); [done|exact IH].
  - intros p s n arg Hp Hs Hn Hx. unfold init_filter in Hf, Hp. destruct (use_seccomp c && policy_covers_reaper nr c) eqn:Ec.
    2: { apply (f_equal length) in Hp. rewrite length_app in Hp. cbn in Hp. lia. }
    apply andb_true_iff in Ec as [_ Hc]. unfold policy_covers_reaper in Hc. rewrite forallb_forall in Hc.
    specialize (Hc s ltac:(by apply list_elem_of_In)). unfold covers in Hc. rewrite Hn in Hc.
    unfold install_seccomp_filter in *.
    destruct (apply_seccomp (rk_arch K) c _ _) as [| |q] eqn:Es; [done| |]; cbn [fst snd note] in Hp.
    { apply (f_equal length) in Hp. rewrite length_app in Hp. cbn in Hp. lia. }
    apply app_inv_head in Hp. injection Hp as ->.
    rewrite (proj1 (installed_filter_runs _ _ _ _ _ (SeccompData n (AUDIT_ARCH (rk_arch K)) arg) Hwf Es)).
    unfold seccomp_policy. cbn [sd_arch sd_nr]. apply resolve_syscall_range in Hn; [|done]. unfold nr_ok in Hn.
    rewrite Z.eqb_refl, hasbit_small, andb_false_r by lia. cbn [negb orb].
    destruct (seccomp_allow_mode c); [by rewrite Hc|]. by destruct (bool_decide (n ∈ blocked_syscalls c)).
Qed.

(** *** Path checks *)

Definition is_slash (c : ascii) : bool := Ascii.eqb c "/"%char.
Definition components (p : cstring) : list cstring := strtok_all is_slash p.

Lemma tokens_from_cur d cur s :
  cur <> [] -> tokens_from d cur s = (rev cur ++ (span d s).1) :: tokens_from d [] (span d s).2.
Proof.
  revert cur. induction s as [|c s IH]; intros cur Hc; cbn [tokens_from span].
  - destruct cur; [done|]. by rewrite app_nil_r.
  - destruct (d c) eqn:E; cbn [fst snd tokens_from].
    + rewrite E, app_nil_r. by destruct cur.
    + rewrite IH by done. destruct (span d s). cbn [fst snd rev]. by rewrite <- app_assoc.
Qed.

Lemma has_dotdot_skip s : has_dotdot false s = has_dotdot true (span is_slash s).2.
Proof.
  induction s as [|c s IH]; [done|]. cbn [span]. unfold is_slash at 1. destruct (Ascii.eqb_spec c "/"%char) as [->|Hc].
  - cbn [snd]. destruct s as [|d s]; [done|]. done.
  - cbn [has_dotdot andb orb]. rewrite (proj2 (Ascii.eqb_neq _ _) Hc), IH. by destruct (span is_slash s).
Qed.

(** The test at the start of a component is about the whole component. *)
Lemma dotdot_component a r :
  (match a :: r with
   | a :: b :: t => Ascii.eqb a "."%char && Ascii.eqb b "."%char && match t with [] => true | d :: _ => Ascii.eqb d "/"%char end
   | _ => false
   end) = bool_decide (a :: (span is_slash r).1 = lit "..").
Proof.
  change (lit "..") with ["."%char; "."%char]. destruct r as [|b t]; [by rewrite bool_decide_eq_false_2|].
  destruct (Ascii.eqb_spec b "/"%char) as [->|Hb].
  { cbn. rewrite andb_false_r. by rewrite bool_decide_eq_false_2. }
  cbn [span]. rewrite (proj2 (Ascii.eqb_neq b "/"%char) Hb : is_slash b = false).
  destruct (span is_slash t) as [seg rest] eqn:E. cbn [fst].
  destruct (Ascii.eqb_spec a "."%char) as [->|Hna]; [|rewrite bool_decide_eq_false_2; [done|by intros [= -> _]]].
  destruct (Ascii.eqb_spec b "."%char) as [->|Hnb]; [|rewrite bool_decide_eq_false_2; [done|by intros [= -> _]]].
  destruct t as [|d t]; cbn [span] in E; [by injection E as <- <-|].
  destruct (Ascii.eqb_spec d "/"%char) as [->|Hd]; [by injection E as <- <-|].
  rewrite (proj2 (Ascii.eqb_neq d "/"%char) Hd : is_slash d = false) in E.
  destruct (span is_slash t). injection E as <- <-. by rewrite bool_decide_eq_false_2.
Qed.

(** The traversal guard is exact: [path_has_dotdot] (and the same loop in
    compartment-user) answers yes exactly when [..] is one of the components the
    slashes of the path separate, for every string. *)
Theorem dotdot_guard_exact p : path_has_dotdot p = bool_decide (lit ".." ∈ components p).
Proof.
  unfold path_has_dotdot, components, strtok_all.
  induction p as [p IH] using (induction_ltof1 _ (@length ascii)). unfold ltof in IH.
  destruct p as [|a r]; [done|]. cbn [tokens_from].
  destruct (is_slash a) eqn:Ha; [apply Ascii.eqb_eq in Ha as ->|apply Ascii.eqb_neq in Ha].
  - rewrite <- IH by (cbn; lia). by destruct r as [|b [|]].
  - rewrite tokens_from_cur by done. cbn [rev app].
    assert (E : has_dotdot true (a :: r)
                = bool_decide (a :: (span is_slash r).1 = lit "..") || has_dotdot true (span is_slash r).2).
    { rewrite <- dotdot_component, <- has_dotdot_skip. cbn [has_dotdot andb]. by rewrite (proj2 (Ascii.eqb_neq _ _) Ha). }
    rewrite E. rewrite IH.
    2: { rewrite <- (span_app is_slash r) at 2. cbn [length]. rewrite length_app. lia. }
    apply eq_bool_prop_intro. rewrite orb_True, !bool_decide_spec, elem_of_cons. naive_solver.
Qed.

(** ** Witnesses *)

Module Pair.
Definition policy : Config := set_cgroups [lit "/sys/fs/cgroup/jail"] Jail.policy.
Definition calls : trace := (parent_setup Jail.kernel Jail.host 42 policy []).2.
Definition before_wait : trace := removelast calls.
End Pair.

(** The parent makes some calls in a row, and so does a child that has its byte. *)
Lemma parent_run calls l : forall s rest,
  d_todo s = l ++ rest -> d_exited s = false -> Forall (fun x => x.1 <> CWait /\ x.1 <> CKill) l ->
  rtc (duo_step calls) s (Duo (d_done s ++ l) rest false (d_cdone s) (d_answer s) (d_ended s)).
Proof.
  induction l as [|x l IH]; intros [dn td ex cd an en] rest Ht He Hl; cbn [d_done d_todo d_exited d_cdone d_answer d_ended app] in *; subst.
  - by rewrite app_nil_r.
  - apply Forall_cons in Hl as [[H1 H2] Hl]. eapply rtc_l; [by apply (step_parent _ _ x (l ++ rest))|].
    cbn [d_done d_todo d_exited d_cdone d_answer d_ended]. rewrite bool_decide_eq_false_2 by (by intros ->). rewrite orb_false_r.
    specialize (IH (Duo (dn ++ [x]) (l ++ rest) false cd an en) rest eq_refl eq_refl Hl). cbn in IH. by rewrite <- app_assoc in IH.
Qed.

Lemma child_run calls r l : forall s,
  d_ended s = false -> d_answer s = Some r -> calls r = d_cdone s ++ l ->
  rtc (duo_step calls) s (Duo (d_done s) (d_todo s) (d_exited s) (calls r) (Some r) true).
Proof.
  induction l as [|x l IH]; intros [dn td ex cd an en] He Ha Hc; cbn [d_done d_todo d_exited d_cdone d_answer d_ended] in *; subst.
  - apply rtc_once. rewrite Hc, app_nil_r. apply step_end; [done|]. cbn. intros r' ->. rewrite Hc, app_nil_r. apply lookup_ge_None_2. lia.
  - eapply rtc_l; [apply (step_child _ _ x); [done| |done]|].
    + cbn [may_answer d_answer d_cdone]. intros r' ->. rewrite Hc. by apply list_lookup_middle.
    + specialize (IH (Duo dn td ex (cd ++ [x]) (Some r) false) eq_refl eq_refl). cbn in IH. apply IH. by rewrite <- app_assoc.
Qed.

(** The parent lets the child go, the child runs to its end, the parent collects
    it. *)
Lemma full_run calls p y :
  waits_first calls -> Forall (fun x => x.1 <> CWait /\ x.1 <> CKill) p -> (CGo, 0) ∈ p ->
  rtc (duo_step calls) (duo_init (p ++ [(CWait, y)])) (Duo (p ++ [(CWait, y)]) [] true (calls 0) (Some 0) true).
Proof.
  intros Hw Hp Hg. destruct (wf_close _ Hw) as [x Hx].
  eapply rtc_l; [by apply (step_child _ _ (CCloseWrite, x)); [done|intros r _; apply Hx|]|].
  etransitivity; [by apply (parent_run _ p _ [(CWait, y)])|].
  eapply rtc_l; [apply (step_read _ _ 0); [done|done|apply (wf_read _ Hw)|by left]|].
  etransitivity; [apply (child_run _ 0 (drop 2 (calls 0))); [done|done|]|].
  { specialize (Hx 0). pose proof (wf_read _ Hw 0) as Hr. cbn. destruct (calls 0) as [|? [|? q]]; [done..|]. cbn in *. by simplify_eq. }
  eapply rtc_l; [by apply (step_parent _ _ (CWait, y) [])|]. apply rtc_once. by apply step_exit.
Qed.

Lemma child_waits_for_setup_witness :
  in_order (parent_steps Jail.host 42 Pair.policy) (Pair.before_wait ++ [(CWait, 0)]) = true.
Proof.
  destruct (rtc_nsteps_1 _ _ (full_run (child_calls Jail.kernel Pair.policy Jail.args) Pair.before_wait 0
              (child_waits_first _ _ _) ltac:(apply (bool_decide_unpack _); vm_compute; exact I)
              ltac:(apply (bool_decide_unpack _); vm_compute; exact I))) as [n Hn].
  destruct (child_waits_for_setup Jail.kernel Jail.kernel Jail.host 42 Pair.policy Jail.args [] (inr tt) _ n _
              ltac:(intros; reflexivity) ltac:(vm_compute; reflexivity) Hn) as [H _].
  apply (H (CSetuid 0) 0); [|discriminate..]. clear H. cbn [d_cdone]. apply (bool_decide_unpack _). vm_compute. exact I.
Defined.

Lemma parent_writes_confined_witness :
  parent_may_write Jail.host 42 Pair.policy (CWriteFile (lit "/sys/fs/cgroup/jail/cgroup.procs") (lit "42" ++ [LF])).
Proof.
  destruct (parent_writes_confined Jail.kernel Jail.host 42 Pair.policy []
              (lit "/sys/fs/cgroup/jail/cgroup.procs") (lit "42" ++ [LF]) 0) as [H|H].
  - apply (bool_decide_unpack _). vm_compute. exact I.
  - by apply not_elem_of_nil in H.
  - exact H.
Defined.

Lemma reaper_reports_target_witness :
  container_init Jail.kernel demo_nr Jail.policy 7
    [WaitChild 9 (WExited 1); WaitInterrupted; WaitChild 7 (WSignaled 9)] [] = Some 137.
Proof.
  apply (reaper_reports_target Jail.kernel demo_nr Jail.policy 7 [] [WaitChild 9 (WExited 1); WaitInterrupted] (WSignaled 9) []).
  - exact demo_nr_ok.
  - apply (ri_wf Jail.opts). apply (cp_inv Jail.system Jail.opts Jail.cmd _ 1000 1000).
    apply root_policy_checked_ok; [exact demo_nr_ok|vm_compute; reflexivity].
  - repeat constructor; discriminate.
  - vm_compute. reflexivity.
Defined.
