(* ===== verification/Numerals.v ===== *)
(** * Decimal numerals

    A number printed by [%u], [%d] or [%llu] is read back by [strtol], [strtoul]
    and [sscanf], whatever follows it. *)

From S2P Require Import Prelude CLib Config Profile Root RootMain.
From Stdlib Require Import Ascii.
From stdpp Require Import pretty.

#[local] Open Scope Z_scope.

Lemma digit_value_char x : (x < 10)%N -> digit_value (pretty_N_char x) = Z.of_N x.
Proof. intros Hx. destruct x as [|p]; [done|]. repeat (destruct p as [p|p|]; try lia; try done). Qed.

Lemma pretty_go_digits x s :
  (0 < x)%N ->
  exists ds, lit (pretty_N_go x s) = ds ++ lit s
  /\ forall acc t, digits 10 acc (ds ++ t) = digits 10 (acc * 10 ^ Z.of_nat (length ds) + Z.of_N x) t.
Proof.
  revert s. induction (N.lt_wf_0 x) as [x _ IH]; intros s Hx. rewrite pretty_N_go_step by done.
  set (c := pretty_N_char (x mod 10)).
  assert (Hc : digit_value c = Z.of_N (x mod 10)) by (apply digit_value_char; by apply N.mod_lt).
  assert (Hlt : (x mod 10 < 10)%N) by (by apply N.mod_lt).
  assert (Hstep : forall acc t, digits 10 acc (c :: t) = digits 10 (acc * 10 + Z.of_N (x mod 10)) t).
  { intros acc t. cbn [digits]. rewrite Hc. destruct (Z.ltb_spec (Z.of_N (x mod 10)) 10); [done|lia]. }
  assert (Hz : Z.of_N x = 10 * Z.of_N (x / 10) + Z.of_N (x mod 10)).
  { rewrite (N.div_mod x 10) at 1 by done. by rewrite N2Z.inj_add, N2Z.inj_mul. }
  destruct (decide (0 < x / 10)%N) as [Hd|Hd].
  - destruct (IH (x / 10)%N ltac:(by apply N.div_lt) (String c s) Hd) as (ds & E & Hds).
    exists (ds ++ [c]). split; [rewrite E, <- app_assoc; done|]. intros acc t. rewrite <- app_assoc, Hds. cbn [app].
    rewrite Hstep. f_equal. rewrite length_app. cbn [length]. rewrite Nat2Z.inj_add, Z.pow_add_r by lia.
    change (10 ^ Z.of_nat 1) with 10. rewrite Hz. ring.
  - assert (Hx0 : (x / 10 = 0)%N) by lia. rewrite Hx0, pretty_N_go_0. exists [c]. split; [done|]. intros acc t. cbn [app].
    rewrite Hstep. f_equal. cbn [length]. change (10 ^ Z.of_nat 1) with 10.
    rewrite Hz, Hx0. ring.
Qed.

Lemma digits_print_u n t : 0 <= n -> digits 10 0 (print_u n ++ t) = digits 10 n t.
Proof.
  intros Hn. unfold print_u, pretty, pretty_N. case_match; [replace n with 0 by lia; done|].
  destruct (pretty_go_digits (Z.to_N n) "") as (ds & E & H'); [lia|]. rewrite E. change (lit "") with (@nil ascii).
  rewrite app_nil_r, H'. f_equal. lia.
Qed.

(** The text of a number is not empty and has digits only. *)
Lemma print_u_digits n : Forall (fun c => (digit_value c <? 10) = true) (print_u n).
Proof. apply print_u_forall. by repeat constructor. Qed.

Lemma print_u_head n : exists c r, print_u n = c :: r /\ c ∈ lit "0123456789".
Proof.
  assert (H : Forall (fun c => c ∈ lit "0123456789") (print_u n)) by (apply print_u_forall; by apply Forall_forall).
  destruct (print_u n) as [|c r] eqn:E; [|inversion H; subst; eauto].
  exfalso. unfold print_u, pretty, pretty_N in E. case_match; [done|].
  destruct (decide (Z.to_N n = 0%N)); [done|]. rewrite pretty_N_go_step in E by lia.
  assert (Hg : forall x s, s <> EmptyString -> pretty_N_go x s <> EmptyString).
  { intros x. induction (N.lt_wf_0 x) as [x _ IH]. intros s Hs. destruct (decide (0 < x)%N) as [Hx|Hx].
    - rewrite pretty_N_go_step by done. apply IH; [by apply N.div_lt|done].
    - replace x with 0%N by lia. by rewrite pretty_N_go_0. }
  specialize (Hg (Z.to_N n / 10)%N (String (pretty_N_char (Z.to_N n mod 10)) "") ltac:(done)).
  by destruct (pretty_N_go _ _).
Qed.

Definition no_digit (t : cstring) : Prop := starts_digit 10 t = false.

Lemma scan_print_u n t : 0 <= n -> no_digit t -> scan_number 10 (print_u n ++ t) = Some (false, n, t).
Proof.
  intros Hn Ht. destruct (print_u_head n) as (c & r & E & Hc). pose proof (digits_print_u n t Hn) as Hd.
  rewrite E in *. unfold scan_number.
  assert (Hp : isspace c = false /\ Ascii.eqb c "-"%char = false /\ Ascii.eqb c "+"%char = false /\ (digit_value c <? 10) = true).
  { clear Hd E. revert c Hc. apply (proj1 (Forall_forall _ (lit "0123456789"))). by repeat constructor. }
  destruct Hp as (H1 & H2 & H3 & H4). cbn [app]. unfold skip. cbn [span]. rewrite H1. cbn [negb snd scan_sign].
  rewrite H2, H3. cbn [Z.eqb]. unfold scan_digits. cbn [starts_digit]. rewrite H4. cbn [app] in Hd. rewrite Hd.
  destruct t as [|d t]; [done|]. cbn [digits]. unfold no_digit in Ht. cbn [starts_digit] in Ht. by rewrite Ht.
Qed.

Lemma strtol_print_u n t : 0 <= n <= LONG_MAX -> no_digit t -> strtol 10 (print_u n ++ t) = Some (n, t, false).
Proof.
  intros Hn Ht. unfold strtol. rewrite scan_print_u by (done || lia). unfold LONG_MIN, LONG_MAX in *.
  destruct (Z.ltb_spec n (- 2 ^ 63)); [lia|]. destruct (Z.ltb_spec (2 ^ 63 - 1) n); [lia|done].
Qed.

Lemma scan_llu_print_u n t : 0 <= n <= ULONG_MAX -> no_digit t -> scan_llu (print_u n ++ t) = Some (n, t).
Proof.
  intros Hn Ht. unfold scan_llu, strtoul. rewrite scan_print_u by (done || lia).
  destruct (Z.ltb_spec ULONG_MAX n); [lia|done].
Qed.

(** A number after white space. *)
Lemma scan_llu_space c s : isspace c = true -> scan_llu (c :: s) = scan_llu s.
Proof.
  intros H. unfold scan_llu, strtoul, scan_number. assert (skip isspace (c :: s) = skip isspace s) as ->; [|done].
  unfold skip. cbn. rewrite H. cbn. by destruct (span _ s).
Qed.

(** The map [uid-map] stores is read back by the check of the root directory. *)
Lemma scan_three_print a b c :
  0 <= a <= ULONG_MAX -> 0 <= b <= ULONG_MAX -> 0 <= c <= ULONG_MAX -> scan_three (print_id_map (a, b, c)) = Some (a, b, c).
Proof.
  intros Ha Hb Hc. unfold scan_three, print_id_map. rewrite scan_llu_print_u by done. cbn [mbind option_bind app].
  rewrite scan_llu_space, scan_llu_print_u by done. cbn [mbind option_bind app].
  by rewrite scan_llu_space, scan_llu_print_u.
Qed.
