(* ===== verification/UserDump.v ===== *)
(** * compartment-user --dump-profile

    Models [dump_profile] of [src/compartment-user.c], which prints the resolved
    policy as a profile, and shows that the profile loader reads it back. *)

From S2P Require Import Prelude CLib Config ConfigProps Seccomp Profile ProfileProps EnvAudit Landlock ObserveText ObserveProps ObserveMain User UserProps RootMain Numerals.
From Stdlib Require Import Ascii.

#[local] Open Scope Z_scope.

(** ** The dump *)

Inductive dline := DComment (t : cstring) | DBlank | DDirective (d : string) (v : cstring).

Definition render_dline (l : dline) : cstring :=
  match l with
  | DComment t => lit "#" ++ t ++ [LF]
  | DBlank => [LF]
  | DDirective d v => lit d ++ [SP] ++ v ++ [LF]
  end.

Definition dump_text (l : list dline) : cstring := concat (render_dline <$> l).

Definition seccomp_action_name (c : Config) : cstring :=
  match seccomp_default c with
  | SECCOMP_DEFAULT_KILL => lit "kill"
  | SECCOMP_DEFAULT_LOG => lit "log"
  | SECCOMP_DEFAULT_ERRNO => lit "errno"
  end.

Definition mode_name (m : PathMode) : string :=
  match m with PATH_RO => "ro" | PATH_RW => "rw" | PATH_EXEC => "exec" | PATH_RWX => "rwx" end.

(** The value of a rule that may be marked optional. *)
Definition optional_value (p : cstring) (opt : bool) : cstring := p ++ (if opt then lit "?" else []).

Section Dump.
Context (nr : string -> option Z).

(** The first name of the table with this number. *)
Definition syscall_name (n : Z) : option string :=
  match list_find (fun s => nr s = Some n) syscall_table with Some (_, s) => Some s | None => None end.

Definition dump_syscall (d : string) (n : Z) : dline :=
  match syscall_name n with
  | Some s => DDirective d (lit s)
  | None => DComment (lit " " ++ lit d ++ lit " <unnamed syscall " ++ print_u n ++ lit ">")
  end.

Definition dump_path (r : PathRule) : dline := DDirective (mode_name (mode r)) (optional_value (path r) (optional r)).
Definition dump_mask (m : cstring * bool) : dline := DDirective "mask" (optional_value m.1 m.2).

Definition dump_network (c : Config) : list dline :=
  if bool_decide (net_bind_ports c = []) && bool_decide (net_connect_ports c = []) && negb (net_default_deny c) then []
  else [DBlank; DComment (lit " Network (Landlock TCP ports)")]
    ++ ((fun p => DDirective "net-bind" (print_u p)) <$> net_bind_ports c)
    ++ ((fun p => DDirective "net-connect" (print_u p)) <$> net_connect_ports c)
    ++ (if net_default_deny c then [DDirective "net-default" (lit "deny")] else []).

Definition dump_seccomp (c : Config) : list dline :=
  (match seccomp_default c with
   | SECCOMP_DEFAULT_ERRNO => []
   | _ => [DBlank; DDirective "seccomp-default" (seccomp_action_name c)]
   end)
  ++ (if seccomp_allow_mode c
      then [DBlank; DComment (lit " Syscall allow-list (seccomp)"); DDirective "seccomp-mode" (lit "allow")]
           ++ (dump_syscall "allow" <$> allowed_syscalls c)
      else [DBlank; DComment (lit " Syscall deny-list (seccomp)")] ++ (dump_syscall "block" <$> blocked_syscalls c)).

Definition dump_env (c : Config) : list dline :=
  if env_allow_mode c
  then [DBlank; DComment (lit " Environment allow-list ('*' suffix = prefix match)"); DDirective "env-mode" (lit "allow")]
       ++ (DDirective "env-allow" <$> env_allow c)
  else [DBlank; DComment (lit " Environment deny-list ('*' suffix = prefix match)")] ++ (DDirective "env-deny" <$> env_deny c).

Definition dump_caps_masks (c : Config) : list dline :=
  (match cap_drop_names c with
   | [] => []
   | l => [DBlank; DComment (lit " Capability bounding-set drops")] ++ (DDirective "cap-drop" <$> l)
   end)
  ++ (match masks c with
      | [] => []
      | l => [DBlank; DComment (lit " Mount masks (private mount namespace)")] ++ (dump_mask <$> l)
      end).

Definition dump_features (c : Config) : list dline :=
  [DBlank; DComment (lit " Features (a profile may only turn these on)");
   DDirective "landlock" (lit "on"); DDirective "seccomp" (lit "on"); DDirective "no-new-privs" (lit "on");
   DDirective "env-sanitize" (lit "on")]
  ++ (if audit c then [DDirective "audit" (lit "on")] else [])
  ++ (match audit_log_dir c with Some d => [DDirective "audit-log" d] | None => [] end).

Definition dump_header (c : Config) : list dline :=
  [DComment (lit " Generated by: compartment-user --dump-profile " ++ default [] (profile c));
   DComment (lit " Source: " ++ default (lit "built-in") (profile_source c)); DComment []].

Definition dump_profile (c : Config) : list dline :=
  dump_header c ++ [DComment (lit " Filesystem (Landlock)")] ++ (dump_path <$> paths c) ++ dump_network c
  ++ (match workdir c with Some d => [DBlank; DDirective "workdir" d] | None => [] end)
  ++ dump_seccomp c ++ dump_env c ++ dump_caps_masks c ++ dump_features c.

End Dump.

(** ** Lines the loader reads as they were written *)

(** A value printed on a line of its own comes back unchanged when it has no
    newline, comment or dollar sign, and no white space at either end. *)
Definition value_char (c : ascii) : bool :=
  negb (Ascii.eqb c LF) && negb (Ascii.eqb c NUL) && negb (Ascii.eqb c "#"%char) && negb (Ascii.eqb c "$"%char).
Definition solid (o : option ascii) : bool := match o with Some c => negb (isspace c) | None => false end.

Definition value_ok (v : cstring) : bool := forallb value_char v && solid (head v) && solid (last v).

Definition directive_char (c : ascii) : bool := value_char c && negb (isspace c).

Definition dline_ok (l : dline) : bool :=
  match l with
  | DComment t => forallb (fun c => negb (Ascii.eqb c LF) && negb (Ascii.eqb c NUL)) t
                  && Nat.ltb (S (length t)) (MAX_LINE - 1)
  | DBlank => true
  | DDirective d v => forallb directive_char (lit d) && Nat.ltb 0 (length (lit d)) && Nat.ltb (length (lit d)) 64
                      && negb (directive_is_root_only (lit d)) && value_ok v
                      && Nat.ltb (length (lit d) + 1 + length v) (MAX_LINE - 1)
  end.

Lemma value_char_plain c :
  value_char c = true -> c <> LF /\ c <> NUL /\ c <> "#"%char /\ c <> "$"%char.
Proof.
  unfold value_char. intros H. repeat split; intros ->; discriminate.
Qed.

Lemma solid_plain c : negb (isspace c) = true -> isspace c = false /\ is_blank c = false /\ is_eol c = false.
Proof. destruct c as [[] [] [] [] [] [] [] []]; vm_compute; intros H; (discriminate H || done). Qed.

Lemma strip_comment_none b s : no_char "#"%char s -> strip_comment b s = s.
Proof.
  intros H. revert b. induction H as [|c s Hc Hs IH]; intros b; cbn [strip_comment]; [done|].
  destruct (Ascii.eqb_spec c "#"%char); [done|]. cbn. by rewrite IH.
Qed.

Lemma forallb_no_char (f : ascii -> bool) x s :
  (forall c, f c = true -> c <> x) -> forallb f s = true -> no_char x s.
Proof. intros Hf Hs. apply Forall_forall. intros c Hc. apply Hf. eapply forallb_forall; [exact Hs|]. by apply list_elem_of_In. Qed.

Lemma directive_char_plain c : directive_char c = true -> value_char c = true /\ isspace c = false.
Proof. unfold directive_char. intros [H1 H2]%andb_true_iff. split; [done|]. by apply negb_true_iff. Qed.

Lemma sscanf_directive_word d v :
  forallb directive_char d = true -> (0 < length d < 64)%nat -> value_ok v = true -> (length v < 1024)%nat ->
  sscanf_directive (d ++ SP :: v) = Some (d, v).
Proof.
  intros Hd Hl [[Hv Hh]%andb_true_iff _]%andb_true_iff Hn. destruct d as [|d0 d]; [cbn in Hl; lia|].
  assert (Hall : Forall (fun c => isspace c = false) (d0 :: d)).
  { apply Forall_forall. intros c Hc%list_elem_of_In. eapply forallb_forall in Hd; [|done]. by apply directive_char_plain. }
  assert (Hlf : Forall (fun c => Ascii.eqb LF c = false) v).
  { apply Forall_forall. intros c Hc%list_elem_of_In. eapply forallb_forall in Hv; [|done].
    apply Ascii.eqb_neq. symmetry. by apply value_char_plain. }
  unfold sscanf_directive. rewrite <- app_comm_cons, skip_head by (by inversion Hall). rewrite app_comm_cons.
  rewrite span_all; [|done|by intros c r [= <- _]]. cbn [fst]. rewrite take_ge, drop_app_length, skip_one by (done || lia).
  destruct v as [|a v]; [done|]. cbn in Hh. apply solid_plain in Hh as (Ha & _ & _). rewrite skip_head, span_none by done.
  cbn [fst]. by rewrite take_ge by lia.
Qed.

(** The parts of a directive line. *)
Lemma parse_directive_line d v :
  forallb directive_char d = true -> (0 < length d < 64)%nat -> value_ok v = true ->
  (length d + 1 + length v < MAX_LINE - 1)%nat ->
  parse_line (d ++ [SP] ++ v ++ [LF]) false = LineDirective d v.
Proof.
  intros Hd Hl Hok Hn. pose proof Hok as [[Hv Hh]%andb_true_iff Ht]%andb_true_iff.
  assert (Hdv : forallb value_char d = true).
  { apply forallb_forall. intros c Hc. apply directive_char_plain. by eapply forallb_forall in Hc. }
  assert (Hchars : forall x, (forall c, value_char c = true -> c <> x) -> SP <> x -> no_char x (d ++ [SP] ++ v)).
  { intros x Hx Hs. repeat (apply Forall_app; split); [by apply (forallb_no_char value_char)|by repeat constructor|].
    by apply (forallb_no_char value_char). }
  destruct v as [|a v']; [done|]. set (v := a :: v') in *.
  destruct (exists_last (l := v) ltac:(done)) as (vi & b & Eb). rewrite Eb, last_snoc in Ht. cbn in Hh.
  apply solid_plain in Hh as (Ha & _ & _). apply solid_plain in Ht as (Hb & Hb1 & Hb2).
  destruct d as [|d0 d']; [cbn in Hl; lia|]. set (d := d0 :: d') in *.
  assert (Hd0 : isspace d0 = false) by (cbn in Hd; apply andb_true_iff in Hd as [Hd _]; by apply directive_char_plain).
  unfold parse_line. replace (d ++ [SP] ++ v ++ [LF]) with ((d ++ [SP] ++ v) ++ [LF]) by (by rewrite <- !app_assoc).
  rewrite until_nul_id.
  2: { apply Forall_app; split; [|by repeat constructor]. apply Hchars; [|done]. intros c Hc. by apply value_char_plain. }
  rewrite rstrip_one by done.
  assert (Hr : forall f, f b = false -> rstrip f (d ++ [SP] ++ v) = d ++ [SP] ++ v).
  { intros f Hf. rewrite Eb, !app_assoc. by apply rstrip_last. }
  rewrite (Hr is_eol) by done.
  destruct (Nat.leb_spec (MAX_LINE - 1) (length (d ++ [SP] ++ v))) as [Hlong|_].
  { rewrite !length_app in Hlong. cbn [length] in Hlong. lia. }
  rewrite andb_false_r. cbn [andb].
  rewrite strip_comment_none by (apply Hchars; [|done]; intros c Hc; by apply value_char_plain).
  rewrite (Hr is_blank) by done. cbn [app]. subst d. rewrite <- app_comm_cons, skip_head by (by apply solid_plain; rewrite Hd0).
  rewrite app_comm_cons, sscanf_directive_word by (done || (unfold MAX_LINE in Hn; lia)). done.
Qed.

Lemma rstrip_cons f c s : f c = false -> rstrip f (c :: s) = c :: rstrip f s.
Proof.
  intros Hc. induction s as [|d s IH] using rev_ind; [by apply (rstrip_last f [])|].
  rewrite app_comm_cons. destruct (f d) eqn:Hd; [by rewrite !rstrip_one|by rewrite !rstrip_last].
Qed.

Lemma rstrip_length f s : (length (rstrip f s) <= length s)%nat.
Proof.
  induction s as [|c s IH] using rev_ind; [done|]. destruct (f c) eqn:Hc; [|by rewrite rstrip_last].
  rewrite rstrip_one, length_app by done. lia.
Qed.

Lemma parse_comment_line t :
  forallb (fun c => negb (Ascii.eqb c LF) && negb (Ascii.eqb c NUL)) t = true -> (S (length t) < MAX_LINE - 1)%nat ->
  parse_line (lit "#" ++ t ++ [LF]) false = LineSkipped.
Proof.
  intros Ht Hl. unfold parse_line. rewrite app_assoc. change (lit "#" ++ t) with ("#"%char :: t).
  rewrite until_nul_id.
  2: { apply Forall_app; split; [|by repeat constructor]. constructor; [done|].
       eapply forallb_no_char; [|exact Ht]. by intros c Hc ->. }
  rewrite rstrip_one by done. destruct (Nat.leb_spec (MAX_LINE - 1) (length (rstrip is_eol ("#"%char :: t)))) as [Hlong|_].
  - pose proof (rstrip_length is_eol ("#"%char :: t)). cbn [length] in *. lia.
  - rewrite andb_false_r. cbn [andb]. by rewrite rstrip_cons.
Qed.

Section Meaning.
Context (w : world) (flags : Z) (inherit : Config -> cstring -> option Config) (Hflags : hasbit flags PROFILE_TOOL_ROOT = false).

(** What the loader does with a written line. *)
Definition dline_meaning (l : dline) (c : Config) : option Config :=
  match l with
  | DDirective d v => apply_directive (w_nr w) inherit (lit d) v c
  | _ => Some c
  end.

Fixpoint dump_meaning (ls : list dline) (c : Config) : option Config :=
  match ls with
  | [] => Some c
  | l :: r => c1 ← dline_meaning l c; dump_meaning r c1
  end.

Lemma dump_meaning_app l1 l2 c : dump_meaning (l1 ++ l2) c = (c1 ← dump_meaning l1 c; dump_meaning l2 c1).
Proof.
  revert c. induction l1 as [|l l1 IH]; intros c; cbn [app dump_meaning]; [done|].
  destruct (dline_meaning l c) as [c1|]; [|done]. apply IH.
Qed.

Lemma load_dline l c : dline_ok l = true -> load_line w flags inherit (render_dline l) false c = dline_meaning l c.
Proof.
  destruct l as [t| |d v]; cbn [dline_ok render_dline dline_meaning]; unfold load_line.
  - intros [Ht Hl%Nat.ltb_lt]%andb_true_iff. by rewrite parse_comment_line.
  - done.
  - rewrite !andb_true_iff, !Nat.ltb_lt. intros (((((Hd & H0) & H64) & Hroot) & Hv) & Hl).
    rewrite parse_directive_line by done. rewrite Hflags. apply negb_true_iff in Hroot. rewrite Hroot. cbn [negb andb].
    unfold expand_var, strchr. rewrite bool_decide_false; [done|]. intros Hin%list_elem_of_In.
    unfold value_ok in Hv. rewrite !andb_true_iff in Hv. destruct Hv as ((Hv & _) & _).
    eapply forallb_forall in Hv; [|exact Hin]. discriminate Hv.
Qed.

Lemma render_fgets l rest :
  dline_ok l = true ->
  fgets_all (MAX_LINE - 1) (render_dline l ++ rest) = (render_dline l, false) :: fgets_all (MAX_LINE - 1) rest.
Proof.
  intros Hl. destruct l as [t| |d v]; cbn [dline_ok render_dline] in *.
  - apply andb_true_iff in Hl as [Ht Hn%Nat.ltb_lt]. 
    replace ((lit "#" ++ t ++ [LF]) ++ rest) with ((lit "#" ++ t) ++ LF :: rest) by (by rewrite <- !app_assoc).
    rewrite fgets_all_line, <- app_assoc; [done| |done]. constructor; [done|]. eapply forallb_no_char; [|exact Ht]. by intros c Hc ->.
  - apply (fgets_all_line _ []); [constructor|]. unfold MAX_LINE. cbn. lia.
  - rewrite !andb_true_iff, !Nat.ltb_lt in Hl. destruct Hl as (((((Hd & H0) & H64) & _) & Hv) & Hn).
    replace ((lit d ++ [SP] ++ v ++ [LF]) ++ rest) with ((lit d ++ [SP] ++ v) ++ LF :: rest) by (by rewrite <- !app_assoc).
    rewrite fgets_all_line, <- !app_assoc; [done| |rewrite !length_app; cbn [length]; lia].
    unfold value_ok in Hv. rewrite !andb_true_iff in Hv. destruct Hv as ((Hv & _) & _).
    apply Forall_app; split; [|constructor; [done|]].
    + apply (forallb_no_char directive_char); [|done]. intros c [Hc _]%directive_char_plain. by apply value_char_plain.
    + apply (forallb_no_char value_char); [|done]. intros c Hc. by apply value_char_plain.
Qed.

Lemma load_dump ls c c' :
  forallb dline_ok ls = true -> dump_meaning ls c = Some c' ->
  load_lines w flags inherit (fgets_all (MAX_LINE - 1) (dump_text ls)) c = (PROFILE_OK, c').
Proof.
  revert c. induction ls as [|l ls IH]; intros c Hok; [by intros [= <-]|].
  apply andb_true_iff in Hok as [Hl Hok]. unfold dump_text. cbn [fmap list_fmap concat dump_meaning].
  intros (c1 & H1 & H2)%bind_Some. rewrite render_fgets by done. cbn [load_lines]. rewrite load_dline, H1 by done.
  by apply IH.
Qed.

(** A group of lines that append to one array of the configuration. *)
Lemma meaning_appends {A B} (line : A -> dline) (val : A -> B) (put : list B -> Config -> Config) limit (ok : A -> Prop) xs c :
  (forall x l, ok x -> (length l < limit)%nat -> dline_meaning (line x) (put l c) = Some (put (l ++ [val x]) c)) ->
  Forall ok xs -> (length xs <= limit)%nat ->
  dump_meaning (line <$> xs) (put [] c) = Some (put (val <$> xs) c).
Proof.
  intros Hstep Hok Hlen. change (put (val <$> xs) c) with (put ([] ++ (val <$> xs)) c).
  assert (Hlen' : (length (@nil B) + length xs <= limit)%nat) by done. clear Hlen. revert Hlen'. generalize (@nil B) as l.
  induction Hok as [|x xs Hx Hok IH]; intros l Hl; cbn [fmap list_fmap dump_meaning length] in *; [by rewrite app_nil_r|].
  rewrite Hstep by (done || lia). cbn [mbind option_bind]. etrans; [apply IH; rewrite length_app; cbn [length]; lia|].
  by rewrite <- app_assoc.
Qed.

End Meaning.

(** ** The configuration a reloaded dump gives *)

Section Reload.
Context (w : world) (inherit : Config -> cstring -> option Config).
Abbreviation meaning := (dump_meaning w inherit).

Definition reowned (r : PathRule) : PathRule :=
  {| path := path r; mode := mode r; optional := optional r; owned := true |}.

Definition optional_ok (p : cstring) (opt : bool) : Prop := trailing_question (optional_value p opt) = opt.

Lemma optional_trim p opt : optional_ok p opt -> trim_question (optional_value p opt) = p.
Proof.
  unfold optional_ok, trim_question. intros ->. unfold optional_value. destruct opt; [|apply app_nil_r].
  change (lit "?") with ["?"%char]. apply removelast_last.
Qed.

Lemma paths_reload c l :
  (length l <= MAX_PATHS)%nat -> Forall (fun r => optional_ok (path r) (optional r)) l -> paths c = [] ->
  meaning (dump_path <$> l) c = Some (set_paths (reowned <$> l) c).
Proof.
  intros Hl Hok Hc. replace c with (set_paths [] c) at 1 by (rewrite <- Hc; by destruct c).
  eapply (meaning_appends w inherit dump_path reowned set_paths MAX_PATHS); [|exact Hok|exact Hl].
  intros r l0 Hr Hlt. cbn [dump_path dline_meaning].
  assert (E : cfg_add_path (set_paths l0 c) (optional_value (path r) (optional r)) (mode r) true
              = Some (set_paths (l0 ++ [reowned r]) c)).
  { unfold cfg_add_path. rewrite optional_trim, Hr by done. cbn [paths set_paths].
    unfold append_limited. destruct (Nat.leb_spec MAX_PATHS (length l0)); [lia|]. cbn [mbind option_bind].
    unfold reowned. by rewrite orb_true_r. }
  by destruct (mode r).
Qed.

Lemma parse_port_print p : port_ok p -> parse_port (print_u p) = Some p.
Proof.
  intros Hp. unfold parse_port. rewrite <- (app_nil_r (print_u p)), strtol_print_u; [|unfold port_ok, LONG_MAX in *; lia|done].
  destruct (Z.leb_spec 0 p), (Z.leb_spec p 65535); unfold port_ok in Hp; (done || lia).
Qed.

Lemma add_port_print p l :
  port_ok p -> (length l < MAX_NET_PORTS)%nat -> cfg_add_net_port (print_u p) l = Some (l ++ [p]).
Proof.
  intros Hp Hl. unfold cfg_add_net_port. rewrite parse_port_print by done. cbn [mbind option_bind].
  unfold append_limited. destruct (Nat.leb_spec MAX_NET_PORTS (length l)); [lia|done].
Qed.

Lemma bind_reload c l :
  (length l <= MAX_NET_PORTS)%nat -> Forall port_ok l -> net_bind_ports c = [] ->
  meaning ((fun p => DDirective "net-bind" (print_u p)) <$> l) c = Some (set_net_bind_ports l c).
Proof.
  intros Hl Hok Hc. replace c with (set_net_bind_ports [] c) at 1 by (rewrite <- Hc; by destruct c).
  rewrite <- (list_fmap_id l) at 2. eapply (meaning_appends w inherit _ id set_net_bind_ports); [|exact Hok|exact Hl].
  intros p l0 Hp Hlt. change (dline_meaning _ _ _ _) with
    (l1 ← cfg_add_net_port (print_u p) l0; Some (set_net_bind_ports l1 c)). by rewrite add_port_print.
Qed.

Lemma connect_reload c l :
  (length l <= MAX_NET_PORTS)%nat -> Forall port_ok l -> net_connect_ports c = [] ->
  meaning ((fun p => DDirective "net-connect" (print_u p)) <$> l) c = Some (set_net_connect_ports l c).
Proof.
  intros Hl Hok Hc. replace c with (set_net_connect_ports [] c) at 1 by (rewrite <- Hc; by destruct c).
  rewrite <- (list_fmap_id l) at 2. eapply (meaning_appends w inherit _ id set_net_connect_ports); [|exact Hok|exact Hl].
  intros p l0 Hp Hlt. change (dline_meaning _ _ _ _) with
    (l1 ← cfg_add_net_port (print_u p) l0; Some (set_net_connect_ports l1 c)). by rewrite add_port_print.
Qed.

Definition named (n : Z) : Prop := is_Some (syscall_name (w_nr w) n).

Lemma dump_syscall_resolved d n :
  named n -> exists s, dump_syscall (w_nr w) d n = DDirective d (lit s) /\ resolve_syscall (w_nr w) (lit s) = Some n.
Proof.
  intros [s Hs]. exists s. unfold dump_syscall. rewrite Hs. split; [done|]. unfold syscall_name in Hs.
  destruct (list_find _ _) as [[i s']|] eqn:E; [|done]. injection Hs as <-.
  apply list_find_Some in E as (Hi & Hn & _). apply resolve_syscall_name; [by apply list_elem_of_lookup_2 in Hi|done].
Qed.

Lemma append_room {A} limit (l : list A) x : (length l < limit)%nat -> append_limited limit l x = Some (l ++ [x]).
Proof. intros H. by apply append_limited_Some. Qed.

Lemma blocked_reload c l :
  (length l <= MAX_BLOCKED_SC)%nat -> Forall named l -> blocked_syscalls c = [] ->
  meaning (dump_syscall (w_nr w) "block" <$> l) c = Some (set_blocked_syscalls l c).
Proof.
  intros Hl Hok Hc. replace c with (set_blocked_syscalls [] c) at 1 by (rewrite <- Hc; by destruct c).
  rewrite <- (list_fmap_id l) at 2. eapply (meaning_appends w inherit _ id set_blocked_syscalls); [|exact Hok|exact Hl].
  intros n l0 Hn Hlt. destruct (dump_syscall_resolved "block" n Hn) as (s & -> & Hs).
  change (dline_meaning _ _ _ _) with
    (match resolve_syscall (w_nr w) (lit s) with Some n => cfg_add_blocked (set_blocked_syscalls l0 c) n | None => Some (set_blocked_syscalls l0 c) end).
  rewrite Hs. unfold cfg_add_blocked. cbn [blocked_syscalls set_blocked_syscalls]. by rewrite append_room.
Qed.

Lemma allowed_reload c l :
  (length l <= MAX_ALLOWED_SC)%nat -> Forall named l -> allowed_syscalls c = [] -> seccomp_allow_mode c = true ->
  meaning (dump_syscall (w_nr w) "allow" <$> l) c = Some (set_allowed_syscalls l c).
Proof.
  intros Hl Hok Hc Hm. replace c with (set_allowed_syscalls [] c) at 1 by (rewrite <- Hc; by destruct c).
  rewrite <- (list_fmap_id l) at 2. eapply (meaning_appends w inherit _ id set_allowed_syscalls); [|exact Hok|exact Hl].
  intros n l0 Hn Hlt. destruct (dump_syscall_resolved "allow" n Hn) as (s & -> & Hs).
  change (dline_meaning _ _ _ _) with
    (match resolve_syscall (w_nr w) (lit s) with Some n => cfg_add_allowed (set_allowed_syscalls l0 c) n | None => Some (set_allowed_syscalls l0 c) end).
  rewrite Hs. unfold cfg_add_allowed. cbn [allowed_syscalls set_allowed_syscalls]. rewrite append_room by done.
  cbn [mbind option_bind id]. f_equal. destruct c. cbn in Hm |- *. by rewrite Hm.
Qed.

Lemma env_deny_reload c l :
  (length l <= MAX_ENV_VARS)%nat -> env_deny c = [] ->
  meaning (DDirective "env-deny" <$> l) c = Some (set_env_deny l c).
Proof.
  intros Hl Hc. replace c with (set_env_deny [] c) at 1 by (rewrite <- Hc; by destruct c).
  rewrite <- (list_fmap_id l) at 2.
  eapply (meaning_appends w inherit _ id set_env_deny _ (fun _ => True)); [|by apply Forall_true|exact Hl].
  intros v l0 _ Hlt. change (dline_meaning _ _ _ _) with (cfg_add_env_deny (set_env_deny l0 c) v).
  unfold cfg_add_env_deny. cbn [env_deny set_env_deny]. by rewrite append_room.
Qed.

Lemma env_allow_reload c l :
  (length l <= MAX_ENV_VARS)%nat -> env_allow c = [] -> env_allow_mode c = true ->
  meaning (DDirective "env-allow" <$> l) c = Some (set_env_allow l c).
Proof.
  intros Hl Hc Hm. replace c with (set_env_allow [] c) at 1 by (rewrite <- Hc; by destruct c).
  rewrite <- (list_fmap_id l) at 2.
  eapply (meaning_appends w inherit _ id set_env_allow _ (fun _ => True)); [|by apply Forall_true|exact Hl].
  intros v l0 _ Hlt. change (dline_meaning _ _ _ _) with (cfg_add_env_allow (set_env_allow l0 c) v).
  unfold cfg_add_env_allow. cbn [env_allow set_env_allow]. rewrite append_room by done.
  cbn [mbind option_bind id]. f_equal. destruct c. cbn in Hm |- *. by rewrite Hm.
Qed.

Lemma caps_reload c l :
  (length l <= MAX_ENV_VARS)%nat -> Forall (fun v => is_Some (resolve_cap v)) l -> cap_drop_names c = [] ->
  meaning (DDirective "cap-drop" <$> l) c = Some (set_cap_drop_names l c).
Proof.
  intros Hl Hok Hc. replace c with (set_cap_drop_names [] c) at 1 by (rewrite <- Hc; by destruct c).
  rewrite <- (list_fmap_id l) at 2. eapply (meaning_appends w inherit _ id set_cap_drop_names); [|exact Hok|exact Hl].
  intros v l0 [k Hk] Hlt. change (dline_meaning _ _ _ _) with
    (_ ← resolve_cap v; add_str cap_drop_names set_cap_drop_names MAX_ENV_VARS v (set_cap_drop_names l0 c)).
  rewrite Hk. cbn [mbind option_bind]. unfold add_str. cbn [cap_drop_names set_cap_drop_names]. by rewrite append_room.
Qed.

Definition mask_ok (m : cstring * bool) : Prop := head m.1 = Some "/"%char /\ optional_ok m.1 m.2.

Lemma masks_reload c l :
  (length l <= MAX_PATHS)%nat -> Forall mask_ok l -> masks c = [] -> meaning (dump_mask <$> l) c = Some (set_masks l c).
Proof.
  intros Hl Hok Hc. replace c with (set_masks [] c) at 1 by (rewrite <- Hc; by destruct c).
  rewrite <- (list_fmap_id l) at 2. eapply (meaning_appends w inherit _ id set_masks); [|exact Hok|exact Hl].
  intros [m o] l0 [Hm Ho] Hlt. cbn [fst snd] in *.
  change (dline_meaning _ _ _ _) with (cfg_add_mask (set_masks l0 c) (optional_value m o)).
  unfold cfg_add_mask. cbn [masks set_masks]. destruct (Nat.leb_spec MAX_PATHS (length l0)); [lia|].
  destruct m as [|a m]; [done|]. injection Hm as ->. cbn [optional_value app].
  change ("/"%char :: m ++ _) with (optional_value ("/"%char :: m) o). by rewrite optional_trim, Ho.
Qed.

(** Two configurations that agree field by field. *)
Ltac by_fields c := destruct c; cbn in *; subst; reflexivity.

Lemma network_reload c0 c :
  config_wf c -> net_bind_ports c0 = [] -> net_connect_ports c0 = [] -> net_default_deny c0 = false ->
  meaning (dump_network c) c0
  = Some (set_net_default_deny (net_default_deny c)
            (set_net_connect_ports (net_connect_ports c) (set_net_bind_ports (net_bind_ports c) c0))).
Proof.
  intros Hwf Hb Hc Hd. unfold dump_network.
  destruct (bool_decide _ && _ && _) eqn:E.
  - apply andb_true_iff in E as [[E1%bool_decide_eq_true E2%bool_decide_eq_true]%andb_true_iff E3%negb_true_iff].
    rewrite E1, E2, E3. clear Hwf E1 E2 E3. by_fields c0.
  - rewrite dump_meaning_app. cbn [dump_meaning dline_meaning mbind option_bind].
    rewrite dump_meaning_app, bind_reload by (done || apply Hwf). cbn [mbind option_bind].
    rewrite dump_meaning_app, connect_reload by (done || apply Hwf). cbn [mbind option_bind].
    destruct (net_default_deny c); [done|]. cbn [dump_meaning]. clear Hwf E. by_fields c0.
Qed.

Definition listed_syscalls (c : Config) : list Z := if seccomp_allow_mode c then allowed_syscalls c else blocked_syscalls c.

Lemma seccomp_reload c0 c :
  config_wf c -> Forall named (listed_syscalls c) ->
  blocked_syscalls c0 = [] -> allowed_syscalls c0 = [] -> seccomp_allow_mode c0 = false ->
  seccomp_default c0 = SECCOMP_DEFAULT_ERRNO ->
  meaning (dump_seccomp (w_nr w) c) c0
  = Some (set_allowed_syscalls (if seccomp_allow_mode c then allowed_syscalls c else [])
      (set_blocked_syscalls (if seccomp_allow_mode c then [] else blocked_syscalls c)
         (set_seccomp_allow_mode (seccomp_allow_mode c) (set_seccomp_default (seccomp_default c) c0)))).
Proof.
  intros Hwf Hn Hb Ha Hm Hd. unfold dump_seccomp. rewrite dump_meaning_app.
  assert (meaning (match seccomp_default c with
           | SECCOMP_DEFAULT_ERRNO => [] | _ => [DBlank; DDirective "seccomp-default" (seccomp_action_name c)] end) c0
          = Some (set_seccomp_default (seccomp_default c) c0)) as ->.
  { unfold seccomp_action_name. destruct (seccomp_default c) eqn:Ed; [clear Hwf Hn; by_fields c0|reflexivity..]. }
  cbn [mbind option_bind]. unfold listed_syscalls in Hn. destruct (seccomp_allow_mode c); rewrite dump_meaning_app.
  - change (meaning [DBlank; _; _] ?x) with (Some (set_seccomp_allow_mode true x)). cbn [mbind option_bind].
    rewrite allowed_reload by (done || apply Hwf). clear Hwf Hn. by_fields c0.
  - cbn [dump_meaning dline_meaning mbind option_bind]. rewrite blocked_reload by (done || apply Hwf).
    clear Hwf Hn. by_fields c0.
Qed.

Lemma env_reload c0 c :
  config_wf c -> env_deny c0 = [] -> env_allow c0 = [] -> env_allow_mode c0 = false ->
  meaning (dump_env c) c0
  = Some (set_env_allow (if env_allow_mode c then env_allow c else [])
      (set_env_deny (if env_allow_mode c then [] else env_deny c) (set_env_allow_mode (env_allow_mode c) c0))).
Proof.
  intros Hwf Hd Ha Hm. unfold dump_env. destruct (env_allow_mode c); rewrite dump_meaning_app.
  - change (meaning [DBlank; _; _] ?x) with (Some (set_env_allow_mode true x)). cbn [mbind option_bind].
    rewrite env_allow_reload by (done || apply Hwf). clear Hwf. by_fields c0.
  - cbn [dump_meaning dline_meaning mbind option_bind]. rewrite env_deny_reload by (done || apply Hwf).
    clear Hwf. by_fields c0.
Qed.

Lemma caps_masks_reload c0 c :
  config_wf c -> Forall (fun v => is_Some (resolve_cap v)) (cap_drop_names c) -> Forall mask_ok (masks c) ->
  cap_drop_names c0 = [] -> masks c0 = [] ->
  meaning (dump_caps_masks c) c0 = Some (set_masks (masks c) (set_cap_drop_names (cap_drop_names c) c0)).
Proof.
  intros Hwf Hcap Hmask Hc Hm. unfold dump_caps_masks. rewrite dump_meaning_app.
  assert (meaning (match cap_drop_names c with
           | [] => [] | l => [DBlank; DComment (lit " Capability bounding-set drops")] ++ (DDirective "cap-drop" <$> l) end) c0
          = Some (set_cap_drop_names (cap_drop_names c) c0)) as ->.
  { destruct (cap_drop_names c) as [|n l] eqn:E; [clear Hwf Hcap Hmask E; by_fields c0|]. rewrite <- E in *.
    rewrite dump_meaning_app. cbn [dump_meaning dline_meaning mbind option_bind]. by rewrite caps_reload by (done || apply Hwf). }
  cbn [mbind option_bind]. destruct (masks c) as [|m l] eqn:E; [clear Hwf Hcap Hmask E; by_fields c0|]. rewrite <- E in *.
  rewrite dump_meaning_app. cbn [dump_meaning dline_meaning mbind option_bind]. by rewrite masks_reload by (done || apply Hwf).
Qed.

(** What the dump of [c] gives when it is loaded into a fresh configuration. *)
Definition reloaded (c : Config) : Config :=
  MkConfig (reowned <$> paths c) (net_bind_ports c) (net_connect_ports c) (net_default_deny c)
    (if seccomp_allow_mode c then [] else blocked_syscalls c) (if seccomp_allow_mode c then allowed_syscalls c else [])
    (seccomp_allow_mode c) (seccomp_default c)
    (if env_allow_mode c then [] else env_deny c) (if env_allow_mode c then env_allow c else []) (env_allow_mode c)
    true true true true false false (audit c) (audit_log_dir c) (workdir c) (profile user_config) None false None 0 0 None
    None [] [] false [] 0 [] None None (cap_drop_names c) (masks c).

(** The policies whose dump says everything. *)
Record dumpable (c : Config) : Prop := {
  du_lines : forallb dline_ok (dump_profile (w_nr w) c) = true;
  du_named : Forall named (listed_syscalls c);
  du_paths : Forall (fun r => optional_ok (path r) (optional r)) (paths c);
  du_masks : Forall (fun m => optional_ok m.1 m.2) (masks c);
  du_caps : Forall (fun v => is_Some (resolve_cap v)) (cap_drop_names c);
  du_audit : is_Some (audit_log_dir c) -> audit c = true;
}.

Lemma dump_reload c : config_wf c -> dumpable c -> meaning (dump_profile (w_nr w) c) user_config = Some (reloaded c).
Proof.
  intros Hwf [_ Hn Hp Hm Hc Ha]. unfold dump_profile.
  rewrite (dump_meaning_app w inherit (dump_header c)).
  cbn [dump_header dump_meaning dline_meaning mbind option_bind].
  rewrite dump_meaning_app. cbn [dump_meaning dline_meaning mbind option_bind].
  rewrite dump_meaning_app, paths_reload by (done || apply Hwf). cbn [mbind option_bind].
  rewrite dump_meaning_app, network_reload by done. cbn [mbind option_bind].
  assert (Hw : forall c0, workdir c0 = None -> meaning (match workdir c with Some d => [DBlank; DDirective "workdir" d] | None => [] end) c0
               = Some (set_workdir (workdir c) c0)).
  { intros c0 H0. destruct (workdir c); [done|]. clear Hwf Hn Hp Hm Hc Ha. by_fields c0. }
  rewrite dump_meaning_app, Hw by done. cbn [mbind option_bind].
  rewrite dump_meaning_app, seccomp_reload by done. cbn [mbind option_bind].
  rewrite dump_meaning_app, env_reload by done. cbn [mbind option_bind].
  rewrite dump_meaning_app, caps_masks_reload; [|done|done| |done|done].
  2: { apply Forall_and. split; [apply Hwf|done]. }
  cbn [mbind option_bind]. unfold dump_features. rewrite dump_meaning_app.
  change (meaning [DBlank; _; _; _; _; _] ?x) with
    (Some (set_use_env_sanitize true (set_use_no_new_privs true (set_use_seccomp true (set_use_landlock true x))))).
  cbn [mbind option_bind]. rewrite dump_meaning_app. unfold reloaded.
  destruct (audit c) eqn:Eu, (audit_log_dir c) as [d|]; try reflexivity. by specialize (Ha (mk_is_Some _ _ eq_refl)).
Qed.

(** *** The policy in force *)

Lemma add_all_reowned {B} (f : PathRule -> option (list B)) l :
  (forall r, f (reowned r) = f r) -> add_all f (reowned <$> l) = add_all f l.
Proof. intros Hf. induction l as [|r l IH]; cbn; [done|]. by rewrite Hf, IH. Qed.

Lemma reloaded_landlock k c : apply_landlock k (reloaded c) = apply_landlock k c.
Proof.
  unfold apply_landlock. destruct (ll_abi k <? 0); [done|]. cbn [paths reloaded net_bind_ports net_connect_ports].
  change (handled_net (ll_abi k) (reloaded c)) with (handled_net (ll_abi k) c).
  destruct (paths c) as [|r l]; [done|]. rewrite fmap_cons. case_match; [done|]. rewrite <- fmap_cons.
  set (f := fun r => landlock_add_path k r _ _).
  assert (add_all f (reowned <$> r :: l) = add_all f (r :: l)) as <-; [|done]. by apply add_all_reowned.
Qed.

Lemma reloaded_seccomp a c alloc_ok load : apply_seccomp a (reloaded c) alloc_ok load = apply_seccomp a c alloc_ok load.
Proof. unfold apply_seccomp. cbn. by destruct (seccomp_allow_mode c). Qed.

Lemma reloaded_env c env : sanitize_env (reloaded c) env = sanitize_env c env.
Proof. unfold sanitize_env, env_patterns. cbn. by destruct (env_allow_mode c). Qed.

Definition switches_on (c : Config) : bool := use_landlock c && use_seccomp c && use_no_new_privs c && use_env_sanitize c.

Lemma reloaded_enforce U c p : switches_on c = true -> enforce U (reloaded c) p = enforce U c p.
Proof.
  unfold switches_on. rewrite !andb_true_iff. intros (((Hl & Hs) & Hn) & He).
  unfold enforce, sanitized, install_filter. rewrite Hl, Hs, Hn, He, reloaded_landlock.
  change (apply_masks U (reloaded c)) with (apply_masks U c). change (apply_cap_drops U (reloaded c)) with (apply_cap_drops U c).
  cbn [use_landlock use_seccomp use_no_new_privs use_env_sanitize workdir reloaded].
  destruct (uw_set_nnp_ok U); [|done]. cbn [mbind option_bind]. rewrite reloaded_env.
  destruct (apply_masks _ _ _); [|done]. cbn [mbind option_bind]. destruct (apply_cap_drops _ _ _); [|done].
  cbn [mbind option_bind]. destruct (close_inherited_fds _ _); [|done]. cbn [mbind option_bind].
  destruct (apply_landlock _ _); [|done]. cbn [mbind option_bind]. by rewrite reloaded_seccomp.
Qed.

End Reload.

(** C28: a policy whose dump says everything survives a round trip.  The policy has
    to be one the text can express ([dumpable]): every listed system call has a name
    in the table, the values are printable without comment and variable signs and
    the lines fit the reader's buffer, no path itself ends in the mark of an optional
    one, the capabilities have names, and a log directory comes with auditing.  Then
    loading what [--dump-profile] prints, with a tool that is not compartment-root,
    succeeds with exactly the printed arrays, ports, modes, masks, capabilities and
    audit settings and with the four switches on; and when the policy had all four
    on ([switches_on]), the enforcement sequence of compartment-user does the same
    with it as with the original, for every behaviour of the kernel.  A switch that
    was off is not printed, and a system call without a name is lost
    ([unnamed_syscall_lost]). *)
Theorem dumped_profile_loads n w flags p c :
  hasbit flags PROFILE_TOOL_ROOT = false -> config_wf c -> dumpable w c ->
  profile_fopen_trusted w p flags = inr (dump_text (dump_profile (w_nr w) c)) ->
  load_profile_into n w flags user_config p = (PROFILE_OK, reloaded c)
  /\ (switches_on c = true -> forall U proc, enforce U (reloaded c) proc = enforce U c proc).
Proof.
  intros Hf Hwf Hd Hp. split; [|intros Hs U proc; by apply reloaded_enforce].
  destruct n as [|n]; cbn [load_profile_into]; rewrite Hp; (apply load_dump; [done|apply Hd|by apply dump_reload]).
Qed.

(** A policy with something in every section. *)
Definition dumped_config : Config :=
  MkConfig [Build_PathRule (lit "/usr") PATH_RO false false; Build_PathRule (lit "/opt") PATH_RWX true true]
    [8080] [443; 53] true [101] [] false SECCOMP_DEFAULT_KILL [lit "LD_*"; lit "IFS"] [] false true true true true
    false false true (Some (lit "/var/log/compartment")) (Some (lit "/work dir")) (Some (lit "mine")) None false None 0 0
    None None [] [] false [] 0 [] None None [lit "CAP_SYS_ADMIN"] [(lit "/proc/kcore", true)].

Definition dump_file (c : Config) : list (string * cstring) :=
  [("/etc/compartment/mine.conf"%string, dump_text (dump_profile (w_nr (demo_world [])) c))].

Lemma dumped_config_wf : config_wf dumped_config.
Proof. split; cbn; unfold UINT32_MAX, port_ok, nr_ok, MAX_PATHS; repeat constructor; try lia. Qed.

Lemma dumped_config_dumpable files : dumpable (demo_world files) dumped_config.
Proof.
  split; [vm_compute; reflexivity|..]; cbn.
  - repeat constructor. unfold named. vm_compute. eauto.
  - repeat constructor.
  - repeat constructor.
  - repeat constructor. vm_compute. eauto.
  - done.
Qed.

Lemma dumped_profile_loads_witness :
  load_profile_into 2 (demo_world (dump_file dumped_config)) 0 user_config (lit "/etc/compartment/mine.conf")
  = (PROFILE_OK, reloaded dumped_config)
  /\ blocked_syscalls (reloaded dumped_config) = [101] /\ switches_on dumped_config = true.
Proof.
  split; [|done].
  refine (proj1 (dumped_profile_loads 2 (demo_world (dump_file dumped_config)) 0 _ dumped_config _ dumped_config_wf
    (dumped_config_dumpable _) _)); vm_compute; reflexivity.
Defined.

(** A syscall that was listed by number and has no name in the table is printed
    as a comment, so loading the dump again drops the rule: the policy that
    blocked it becomes one that installs no filter at all. *)
Theorem unnamed_syscall_lost :
  let c := set_blocked_syscalls [9999] (set_cap_drop_names [] dumped_config) in
  let '(rc, c') := load_profile_into 2 (demo_world (dump_file c)) 0 user_config (lit "/etc/compartment/mine.conf") in
  rc = PROFILE_OK /\ apply_seccomp ArchX86_64 c' true (fun _ => true) = SeccompNoFilter
  /\ apply_seccomp ArchX86_64 c true (fun _ => true) <> SeccompNoFilter.
Proof. vm_compute. repeat split. discriminate. Qed.
