(* ===== verification/Pin.v ===== *)
(** * The pin tree

    Models the pin lifecycle of [src/compartment-bpf/compartment-bpf.c]: pinning
    links and counter maps, [--unpin] with its path check, passphrase gate and
    drain, [--stats], the freeze of the policy maps and the probes that choose
    which programs are loaded.

    The host is a record: the two pin directories (bpffs files by name), the
    passphrase sentinel and the BPF object the process holds.  An action threads
    the host and records every system call with its answer and the host after
    it, so the record is also the list of states a kill can leave behind.  The
    kernel's refusals are a parameter that may depend on all of that; a call on
    an object that is not there fails with [ENOENT], a second pin with [EEXIST],
    an update of a frozen map with [EPERM], as documented.  Diagnostics are left
    out. *)

From S2P Require Import Prelude Abi Kernel CLib Config.
From Stdlib Require Import Ascii.
From stdpp Require Import strings.

#[local] Open Scope Z_scope.

Definition ENOENT : Z := 2.
Definition EEXIST : Z := 17.
Definition EROFS : Z := 30.

Definition PIN_ROOT : cstring := lit "/sys/fs/bpf/compartment".
Definition BPFFS : cstring := lit "/sys/fs/bpf".
Definition SENTINEL_DIR : cstring := lit "/run/compartment-bpf".
Definition BPF_FS_MAGIC : Z := 0xcafe4a11.

(** ** The host *)

Inductive pin_dir := LinkDir | MapDir.
Inductive pin_file := InDir (d : pin_dir) (name : string) | Sentinel.

#[export] Instance pin_dir_eq_dec : EqDecision pin_dir.
Proof. solve_decision. Defined.
#[export] Instance pin_file_eq_dec : EqDecision pin_file.
Proof. solve_decision. Defined.

Definition dir_text (d : pin_dir) : cstring := match d with LinkDir => lit "/links" | MapDir => lit "/maps" end.
Definition dir_path (root : cstring) (d : pin_dir) : cstring := root ++ dir_text d.
Definition pin_path (root : cstring) (d : pin_dir) (n : string) : cstring := dir_path root d ++ lit "/" ++ lit n.

(** [bpf_map_info] of a map and its value on each CPU. *)
Record bpf_map := BpfMap { bm_type : Z; bm_key : Z; bm_value : Z; bm_entries : Z; bm_cpus : list Z }.

(** The BPF object: the contents of its policy maps, the maps frozen so far, the
    programs to load and whether they are attached. *)
Record skeleton := Skeleton {
  sk_policy : policy;
  sk_frozen : list string;
  sk_autoload : string -> bool;
  sk_attached : bool
}.

Record host := Host {
  h_links : gmap string Z;                (* pin name, id of the program of its link *)
  h_maps : gmap string bpf_map;
  h_sentinel : option (cstring * stat);   (* the text of the file, its owner and mode *)
  h_skel : skeleton;
  h_env : option cstring                  (* COMPARTMENT_BPF_PASSPHRASE *)
}.

Definition set_links (v : gmap string Z) (h : host) : host := Host v (h_maps h) (h_sentinel h) (h_skel h) (h_env h).
Definition set_maps (v : gmap string bpf_map) (h : host) : host := Host (h_links h) v (h_sentinel h) (h_skel h) (h_env h).
Definition set_sentinel (v : option (cstring * stat)) (h : host) : host := Host (h_links h) (h_maps h) v (h_skel h) (h_env h).
Definition set_skel (v : skeleton) (h : host) : host := Host (h_links h) (h_maps h) (h_sentinel h) v (h_env h).
Definition set_env (v : option cstring) (h : host) : host := Host (h_links h) (h_maps h) (h_sentinel h) (h_skel h) v.

Definition in_host (h : host) (f : pin_file) : bool :=
  match f with
  | InDir LinkDir n => bool_decide (is_Some (h_links h !! n))
  | InDir MapDir n => bool_decide (is_Some (h_maps h !! n))
  | Sentinel => bool_decide (is_Some (h_sentinel h))
  end.

Definition without (f : pin_file) (h : host) : host :=
  match f with
  | InDir LinkDir n => set_links (delete n (h_links h)) h
  | InDir MapDir n => set_maps (delete n (h_maps h)) h
  | Sentinel => set_sentinel None h
  end.

(** The names [readdir] returns. *)
Definition listing (d : pin_dir) (h : host) : list string :=
  match d with LinkDir => (map_to_list (h_links h)).*1 | MapDir => (map_to_list (h_maps h)).*1 end.

(** ** System calls *)

Inductive pcall :=
  | PStatfs | PMkdir (p : cstring) | PStat (p : cstring) | PLstat (p : cstring)
  | PPin (d : pin_dir) (n : string)                 (* bpf_link__pin, bpf_map__pin *)
  | PUnlink (f : pin_file) | PStatPin (d : pin_dir) (n : string)
  | PObjGet (d : pin_dir) (n : string) | PInfo (d : pin_dir) (n : string) | PLookup (n : string)
  | POpenDir (d : pin_dir)
  | POpenLock (p : cstring) | PFlock
  | PAlloc | PSodium | PGetenv
  | PCreateSentinel | PWrite (n : nat) | PFstat | POpenSentinel | PRead
  | PAuthFail                                       (* ed11_emit_unpin_auth_fail *)
  | PUpdate (m : string) | PFreeze (m : string) | PMapInfo (m : string)
  | POpenBin (p : cstring)
  | PAutoload (p : string) | PLoad | PAttach | PRingbuf | PDestroy
  | PSigaction | PReadLsm | PSetRingSize (n : Z).

#[export] Instance pcall_eq_dec : EqDecision pcall.
Proof. solve_decision. Defined.

(** What a call fails with because of the state of the host. *)
Definition state_errno (h : host) (c : pcall) : Z :=
  match c with
  | PPin d n => if in_host h (InDir d n) then EEXIST else 0
  | PUnlink f => if in_host h f then 0 else ENOENT
  | PObjGet d n | PStatPin d n => if in_host h (InDir d n) then 0 else ENOENT
  | PCreateSentinel => if in_host h Sentinel then EEXIST else 0
  | POpenSentinel => if in_host h Sentinel then 0 else ENOENT
  | PUpdate m => if bool_decide (m ∈ sk_frozen (h_skel h)) then EPERM else 0
  | _ => 0
  end.

(** One answer to a [write] that does not take everything. *)
Inductive write_answer := WInterrupted | WFailed | WSome (n : nat).
Inductive prog_answer := ProgAlive | ProgGone | ProgError.

Record bin_stat := BinStat { bs_mode : Z; bs_uid : Z; bs_major : Z; bs_minor : Z; bs_ino : Z }.

Record pkernel := PKernel {
  pk_errno : nat -> host -> pcall -> Z;          (* the refusal of a call, by its position; 0: none *)
  pk_fs_type : Z;                                (* statfs of /sys/fs/bpf *)
  pk_mode : cstring -> Z;                        (* st_mode *)
  pk_ino : cstring -> Z;                         (* st_ino *)
  pk_sentinel_dir : stat;
  pk_new_sentinel : stat;                        (* what fstat says of the file just created *)
  pk_realpath : cstring -> Z + cstring;          (* errno, or the canonical path *)
  pk_map : string -> bpf_map;                    (* the maps of the object *)
  pk_object_maps : list (string * option Z);     (* bpf_object__for_each_map: id, None without fd *)
  pk_prog_id : string -> Z;
  pk_prog : nat -> Z -> prog_answer;             (* bpf_prog_get_fd_by_id at each poll *)
  pk_writes : list write_answer;                 (* before a write takes the rest *)
  pk_tty : option (option cstring);              (* isatty, getpass *)
  pk_ncpus : Z;
  pk_running : nat -> bool;                      (* no signal arrived yet *)
  pk_btf : option (string -> option (option Z)); (* vmlinux BTF: function, prototype length *)
  pk_uname : Z * Z;
  pk_lsm : cstring;                              (* /sys/kernel/security/lsm *)
  pk_ring_env : option cstring;                  (* COMPARTMENT_BPF_AUDIT_RB_BYTES *)
  pk_bin : cstring -> bin_stat;
  pk_bpffs_dev : option (Z * Z);
  pk_polls : list bool                           (* ring_buffer__poll: true, an error *)
}.

(** ** Actions *)

Record run := Run { r_host : host; r_log : list (pcall * Z * host) }.

Definition act (A : Type) : Type := run -> A * run.

#[export] Instance act_ret : MRet act := fun _ a s => (a, s).
#[export] Instance act_bind : MBind act := fun _ _ f m s => let '(a, s') := m s in f a s'.

Definition get_host : act host := fun s => (r_host s, s).

Section Calls.
Context (K : pkernel).

Definition answer (n : nat) (h : host) (c : pcall) : Z :=
  let e := state_errno h c in if e =? 0 then pk_errno K n h c else e.

(** One system call: its errno, with its effect when it succeeds. *)
Definition sys (c : pcall) (eff : host -> host) : act Z := fun s =>
  let e := answer (length (r_log s)) (r_host s) c in
  let h := if e =? 0 then eff (r_host s) else r_host s in
  (e, Run h (r_log s ++ [(c, e, h)])).

Definition query (c : pcall) : act Z := sys c id.
Definition succeeds (c : pcall) : act bool := e ← query c; mret (e =? 0).

(** ** Directories *)

Definition ensure_bpffs : act bool :=
  e ← query PStatfs; mret ((e =? 0) && (pk_fs_type K =? BPF_FS_MAGIC)).

Definition ensure_dir (p : cstring) : act bool :=
  e ← query (PMkdir p);
  if negb (e =? 0) && negb (e =? EEXIST) then mret false
  else e' ← query (PStat p); mret ((e' =? 0) && S_ISDIR (pk_mode K p)).

Definition fits (p : cstring) : bool := Nat.ltb (length p) PATH_MAX.

(** ** Pinning links *)

Definition link_of (h : host) (n : string) : option Z :=
  if sk_attached (h_skel h) && sk_autoload (h_skel h) n then Some (pk_prog_id K n) else None.

(** The new list of pinned names, or failure with the old one. *)
Definition pin_one_link (link : option Z) (n : string) (pinned : list string) : act (bool * list string) :=
  match link with
  | None => mret (false, pinned)
  | Some id =>
      if negb (fits (pin_path PIN_ROOT LinkDir n)) then mret (false, pinned)
      else e ← sys (PPin LinkDir n) (fun h => set_links (<[n := id]> (h_links h)) h);
           mret (if e =? 0 then (true, pinned ++ [n]) else (false, pinned))
  end.

Fixpoint unlink_pinned (d : pin_dir) (pinned : list string) : act unit :=
  match pinned with
  | [] => mret tt
  | n :: rest => sys (PUnlink (InDir d n)) (without (InDir d n)) ;; unlink_pinned d rest
  end.

Definition unlink_pinned_links (pinned : list string) : act unit := unlink_pinned LinkDir pinned.

(** [PIN_LINK]; the wrapper that is live under the canonical name; a pin that is
    skipped when the program was not loaded. *)
Inductive pin_step := PinLink (n : string) | PinEither (n legacy : string) | PinIfLoaded (n : string).

Definition pin_plan : list pin_step :=
  [PinLink "comp_inode_unlink"; PinLink "comp_inode_rename"; PinLink "comp_inode_rmdir"; PinLink "comp_inode_create";
   PinLink "comp_inode_mkdir"; PinLink "comp_inode_mknod"; PinLink "comp_inode_symlink"; PinLink "comp_inode_link";
   PinLink "comp_file_open"; PinLink "comp_file_permission"; PinLink "comp_file_truncate";
   PinEither "comp_inode_setattr" "comp_inode_setattr_legacy"; PinLink "comp_mmap_file"; PinLink "comp_file_mprotect";
   PinLink "comp_inode_setxattr"; PinLink "comp_inode_removexattr"; PinLink "comp_bprm_committed_creds";
   PinLink "comp_task_alloc"; PinLink "comp_task_prctl"; PinLink "comp_ptrace_access_check"; PinLink "comp_ptrace_traceme";
   PinLink "comp_inode_set_acl"; PinLink "comp_inode_remove_acl"; PinLink "comp_file_ioctl";
   PinIfLoaded "comp_file_ioctl_compat"; PinLink "comp_sb_mount"; PinLink "comp_sb_umount"; PinLink "comp_move_mount";
   PinIfLoaded "comp_bpf_map"].

Definition pin_one_step (h : host) (p : pin_step) (pinned : list string) : act (bool * list string) :=
  match p with
  | PinLink n => pin_one_link (link_of h n) n pinned
  | PinEither n legacy =>
      pin_one_link (match link_of h n with Some l => Some l | None => link_of h legacy end) n pinned
  | PinIfLoaded n => match link_of h n with Some l => pin_one_link (Some l) n pinned | None => mret (true, pinned) end
  end.

Fixpoint pin_steps (plan : list pin_step) (pinned : list string) : act (bool * list string) :=
  match plan with
  | [] => mret (true, pinned)
  | p :: rest =>
      h ← get_host; '(ok, pinned') ← pin_one_step h p pinned;
      if (ok : bool) then pin_steps rest pinned' else mret (false, pinned')
  end.

Definition pin_links : act bool :=
  ok1 ← ensure_bpffs; if negb ok1 then mret false else
  ok2 ← ensure_dir PIN_ROOT; if negb ok2 then mret false else
  ok3 ← ensure_dir (dir_path PIN_ROOT LinkDir); if negb ok3 then mret false else
  '(ok, pinned) ← pin_steps pin_plan [];
  if (ok : bool) then mret true else unlink_pinned_links pinned ;; mret false.

Definition KNOWN_LINK_NAMES : list string :=
  ["comp_inode_unlink"; "comp_inode_rename"; "comp_inode_rmdir"; "comp_inode_create"; "comp_inode_mkdir";
   "comp_inode_mknod"; "comp_inode_symlink"; "comp_inode_link"; "comp_file_open"; "comp_file_permission";
   "comp_file_truncate"; "comp_inode_setattr"; "comp_mmap_file"; "comp_file_mprotect"; "comp_inode_setxattr";
   "comp_inode_removexattr"; "comp_bprm_committed_creds"; "comp_bprm_check_security"; "comp_task_alloc";
   "comp_task_prctl"; "comp_ptrace_access_check"; "comp_ptrace_traceme"; "comp_inode_set_acl"; "comp_inode_remove_acl";
   "comp_file_ioctl"; "comp_file_ioctl_compat"; "comp_sb_mount"; "comp_sb_umount"; "comp_move_mount"; "comp_bpf_map"]%string.

Definition KNOWN_MAP_NAMES : list string :=
  ["sealed_inodes"; "sealed_dirs"; "sealed_devs"; "audit_rb"; "deny_total"; "audit_drop_total"; "actor_mismatch_total";
   "launcher_to_actor"; "actor_marker_map"; "policy_state_map"; "abi_version_map"; "strict_launch_missing_total";
   "strict_launch_allowed_total"; "marker_set_total"; "marker_set_fail_total"; "marker_clear_foreign_exec_total";
   "marker_copy_fork_total"; "marker_stale_generation_total"; "prctl_set_mm_exe_file_denied_total";
   "ptrace_access_denied_total"; "ptrace_traceme_denied_total"; "bpf_self_denied_total"; "pin_tamper_denied_total"]%string.

Definition known (d : pin_dir) : list string := match d with LinkDir => KNOWN_LINK_NAMES | MapDir => KNOWN_MAP_NAMES end.

Fixpoint any_pinned (names : list string) : act bool :=
  match names with
  | [] => mret false
  | n :: rest =>
      if negb (fits (pin_path PIN_ROOT LinkDir n)) then any_pinned rest
      else e ← query (PObjGet LinkDir n); if e =? ENOENT then any_pinned rest else mret true
  end.

Definition pin_tree_exists : act bool := any_pinned KNOWN_LINK_NAMES.

(** ** Removing known pins *)

Definition name_in (n : string) (table : list string) : bool := existsb (String.eqb n) table.

(** Result, pins removed, unknown names left. *)
Fixpoint sweep_loop (d : pin_dir) (names : list string) (removed unknown : nat) : act (bool * nat * nat) :=
  match names with
  | [] => mret (true, removed, unknown)
  | n :: rest =>
      if String.eqb n "." || String.eqb n ".." then sweep_loop d rest removed unknown
      else if negb (name_in n (known d)) then sweep_loop d rest removed (S unknown)
      else e ← sys (PUnlink (InDir d n)) (without (InDir d n));
           if e =? 0 then sweep_loop d rest (S removed) unknown else mret (false, removed, unknown)
  end.

Definition sweep_known (d : pin_dir) : act bool :=
  e ← query (POpenDir d);
  if e =? ENOENT then mret true
  else if negb (e =? 0) then mret false
  else h ← get_host; '(ok, _, _) ← sweep_loop d (["."; ".."]%string ++ listing d h) 0 0; mret ok.

(** ** Counter maps *)

Definition pinned_map_names : list string :=
  ["deny_total"; "audit_drop_total"; "actor_mismatch_total"; "strict_launch_missing_total";
   "strict_launch_allowed_total"; "marker_set_total"; "marker_set_fail_total"; "marker_clear_foreign_exec_total";
   "marker_copy_fork_total"; "marker_stale_generation_total"; "prctl_set_mm_exe_file_denied_total";
   "ptrace_access_denied_total"; "ptrace_traceme_denied_total"; "bpf_self_denied_total"; "pin_tamper_denied_total";
   "launcher_to_actor"; "policy_state_map"; "abi_version_map"]%string.

Fixpoint pin_maps (names done : list string) : act (bool * list string) :=
  match names with
  | [] => mret (true, done)
  | n :: rest =>
      if negb (fits (pin_path PIN_ROOT MapDir n)) then mret (false, done)
      else e ← sys (PPin MapDir n) (fun h => set_maps (<[n := pk_map K n]> (h_maps h)) h);
           if e =? 0 then pin_maps rest (done ++ [n]) else mret (false, done)
  end.

Definition pin_counter_maps : act bool :=
  a ← succeeds PAlloc; if negb a then mret false else
  ok ← ensure_dir (dir_path PIN_ROOT MapDir); if negb ok then mret false else
  '(ok, done) ← pin_maps pinned_map_names [];
  if (ok : bool) then mret true else unlink_pinned MapDir done ;; mret false.

Definition freeze_names : list string :=
  ["sealed_inodes"; "sealed_dirs"; "sealed_devs"; "deny_total"; "audit_drop_total"; "actor_mismatch_total";
   "launcher_to_actor"; "policy_state_map"; "abi_version_map"; "strict_launch_missing_total";
   "strict_launch_allowed_total"; "marker_set_total"; "marker_set_fail_total"; "marker_clear_foreign_exec_total";
   "marker_copy_fork_total"; "marker_stale_generation_total"; "prctl_set_mm_exe_file_denied_total";
   "ptrace_access_denied_total"; "ptrace_traceme_denied_total"; "protected_map_ids"; "loader_ids";
   "bpf_self_denied_total"; "pin_tamper_denied_total"]%string.

Definition freeze (m : string) (h : host) : host :=
  let s := h_skel h in set_skel (Skeleton (sk_policy s) (sk_frozen s ++ [m]) (sk_autoload s) (sk_attached s)) h.

Fixpoint freeze_each (names : list string) : act bool :=
  match names with
  | [] => mret true
  | m :: rest => e ← sys (PFreeze m) (freeze m); if e =? 0 then freeze_each rest else mret false
  end.

Definition freeze_seal_maps : act bool := freeze_each freeze_names.

End Calls.
