(* ===== verification/Unpin.v ===== *)
(** * Unpinning

    Models [--unpin] and [--stats] of [src/compartment-bpf/compartment-bpf.c]:
    the path check, the collection of program ids, the wait for the kernel to
    release them, the passphrase sentinel with its two ends, the lock, the whole
    of [unpin_action], and the counters.  The password hash is libsodium's and a
    parameter. *)

From S2P Require Import Prelude Abi Kernel CLib Config Loader Pin.
From Stdlib Require Import Ascii.
From stdpp Require Import strings.

#[local] Open Scope Z_scope.

(** crypto_pwhash_str and crypto_pwhash_str_verify. *)
Record pwhash := PwHash { pw_str : cstring -> option cstring; pw_verify : cstring -> cstring -> bool }.

Definition STRBYTES : nat := 128.

Section Unpin.
Context (K : pkernel) (PW : pwhash).

(** ** The path to unpin *)

Inductive resolved := ResolveError | ResolveRefused | Resolved (root cand : cstring).

Definition unpin_resolve (requested : option cstring) : act resolved :=
  match pk_realpath K PIN_ROOT with
  | inl e => mret (if e =? ENOENT then ResolveRefused else ResolveError)
  | inr root =>
      if negb (fits root) then mret ResolveError
      else match requested with
           | None => mret (Resolved root root)
           | Some r =>
               if negb (Loader.is_absolute r) then mret ResolveRefused
               else match pk_realpath K r with
                    | inl _ => mret ResolveRefused
                    | inr cand =>
                        if negb (fits cand) then mret ResolveError
                        else if streq cand root || has_prefix (root ++ lit "/") cand
                        then mret (Resolved root cand) else mret ResolveRefused
                    end
           end
  end.

(** ** The programs behind the pins *)

Fixpoint collect_loop (links_dir : cstring) (names : list string) (ids : list Z) : act (option (list Z)) :=
  match names with
  | [] => mret (Some ids)
  | n :: rest =>
      if negb (fits (links_dir ++ lit "/" ++ lit n)) then mret None else
      e ← query K (PObjGet LinkDir n);
      if e =? ENOENT then collect_loop links_dir rest ids
      else if negb (e =? 0) then mret None
      else e' ← query K (PInfo LinkDir n);
           if negb (e' =? 0) then mret None
           else h ← get_host;
                let id := default 0 (h_links h !! n) in
                if (id =? 0) || bool_decide (id ∈ ids) then collect_loop links_dir rest ids
                else if Nat.leb 64 (length ids) then mret None
                else collect_loop links_dir rest (ids ++ [id])
  end.

Definition collect_link_prog_ids (links_dir : cstring) : act (option (list Z)) :=
  collect_loop links_dir KNOWN_LINK_NAMES [].

(** One poll: [None] when the state of a program cannot be found out, otherwise
    how many are alive. *)
Fixpoint poll_programs (poll : nat) (ids : list Z) (alive : nat) : option nat :=
  match ids with
  | [] => Some alive
  | id :: rest =>
      match pk_prog K poll id with
      | ProgGone => poll_programs poll rest alive
      | ProgError => None
      | ProgAlive => poll_programs poll rest (S alive)
      end
  end.

(** [Some b]: the loop returned; [None]: out of fuel. *)
Fixpoint drain_loop (fuel poll : nat) (ids : list Z) (waited timeout_ms : Z) : option bool :=
  match fuel with
  | O => None
  | S fuel' =>
      match poll_programs poll ids 0 with
      | None => Some false
      | Some O => Some true
      | Some (S _) =>
          if timeout_ms <=? waited then Some false else drain_loop fuel' (S poll) ids (waited + 100) timeout_ms
      end
  end.

Definition drain_fuel (timeout_ms : Z) : nat := S (S (Z.to_nat (timeout_ms / 100))).

Definition wait_program_drain (ids : list Z) (timeout_ms : Z) : bool :=
  match ids with
  | [] => true
  | _ => default false (drain_loop (drain_fuel timeout_ms) 0 ids 0 timeout_ms)
  end.

Definition unpin_drain_or_warn (ids : list Z) : act Z := mret (if wait_program_drain ids 60000 then 0 else 1).

(** ** The passphrase *)

(** [getenv]; the variable is zeroed and unset on every path that found it. *)
Definition ed11_read_passphrase : act (option cstring) :=
  h ← get_host;
  match h_env h with
  | Some ((_ :: _) as p) =>
      if Nat.ltb 4096 (length p) then sys K PGetenv (set_env None) ;; mret None
      else a ← succeeds K PAlloc;
           sys K PGetenv (set_env None) ;; mret (if (a : bool) then Some p else None)
  | _ =>
      match pk_tty K with
      | None => mret None
      | Some None => mret None
      | Some (Some p) => a ← succeeds K PAlloc; mret (if (a : bool) then Some p else None)
      end
  end.

Fixpoint write_loop (ws : list write_answer) (rest : cstring) : act bool :=
  let append (t : cstring) (h : host) :=
    match h_sentinel h with Some (t0, st) => set_sentinel (Some (t0 ++ t, st)) h | None => h end in
  match rest with
  | [] => mret true
  | _ =>
      match ws with
      | [] => e ← sys K (PWrite (length rest)) (append rest); mret (e =? 0)
      | WInterrupted :: ws' => write_loop ws' rest
      | WFailed :: _ => mret false
      | WSome n :: ws' =>
          e ← sys K (PWrite n) (append (take n rest)); if e =? 0 then write_loop ws' (drop n rest) else mret false
      end
  end.

Definition private (mode : Z) (st : stat) : bool := (st_uid st =? 0) && (Z.land (st_mode st) 0x1ff =? mode).

Definition unlink_sentinel : act Z := sys K (PUnlink Sentinel) (without Sentinel).

(** The directory of the sentinel exists and is root's alone. *)
Definition sentinel_dir_ok : act bool :=
  e ← query K (PLstat SENTINEL_DIR);
  r ← (if e =? 0 then mret true
       else if negb (e =? ENOENT) then mret false
       else m ← query K (PMkdir SENTINEL_DIR);
            if negb (m =? 0) && negb (m =? EEXIST) then mret false else succeeds K (PLstat SENTINEL_DIR));
  mret (r && S_ISDIR (st_mode (pk_sentinel_dir K)) && private 0x1c0 (pk_sentinel_dir K)).

Definition ed11_write_sentinel (pass : cstring) : act bool :=
  s ← succeeds K PSodium; if negb s then mret false else
  d ← sentinel_dir_ok; if negb d then mret false else
  u ← unlink_sentinel; if negb (u =? 0) && negb (u =? ENOENT) then mret false else
  match pw_str PW pass with
  | None => mret false
  | Some hash =>
      e ← sys K PCreateSentinel (set_sentinel (Some ([], pk_new_sentinel K)));
      if negb (e =? 0) then mret false else
      w ← write_loop (pk_writes K) hash;
      if negb w then unlink_sentinel ;; mret false else
      f ← succeeds K PFstat;
      if negb f then unlink_sentinel ;; mret false else
      if private 0x180 (pk_new_sentinel K) && (Z.land (st_mode (pk_new_sentinel K)) S_IFMT =? S_IFREG)
      then mret true else unlink_sentinel ;; mret false
  end.

Definition ed11_pin_maybe_write_sentinel : act bool :=
  p ← ed11_read_passphrase;
  match p with
  | None => mret true
  | Some [] => mret true
  | Some pass => ed11_write_sentinel pass
  end.

(** [true]: go on. *)
Definition ed11_unpin_authgate : act bool :=
  let fail := succeeds K PAuthFail ;; mret false in
  e ← query K POpenSentinel;
  if e =? ENOENT then mret true
  else if negb (e =? 0) then mret false
  else f ← succeeds K PFstat;
  if negb f then mret false else
  h ← get_host;
  match h_sentinel h with
  | None => mret false
  | Some (text, st) =>
      if negb ((Z.land (st_mode st) S_IFMT =? S_IFREG) && private 0x180 st) then fail
      else s ← succeeds K PSodium;
           if negb s then mret false
           else r ← query K PRead;
                if negb (r =? 0) || bool_decide (text = []) then fail
                else p ← ed11_read_passphrase;
                     match p with
                     | None => fail
                     | Some pass => if pw_verify PW (until_nul (take (STRBYTES - 1) text)) pass then mret true else fail
                     end
  end.

Definition ed11_unpin_sentinel_unlink : act unit := unlink_sentinel ;; mret tt.

(** ** The lock *)

Definition LOCK_DEFAULT : cstring := lit "/run/lock/compartment-bpf-pin.lock".
Definition LOCK_FALLBACK : cstring := lit "/tmp/.compartment-bpf-pin.lock".

Definition pin_lifecycle_lock : act bool :=
  e ← query K (POpenLock LOCK_DEFAULT);
  if negb (e =? 0) && negb (e =? EACCES) && negb (e =? EROFS) && negb (e =? ENOENT) then mret false
  else opened ← (if e =? 0 then mret true else succeeds K (POpenLock LOCK_FALLBACK));
       if negb opened then mret false else succeeds K PFlock.

(** ** The action *)

Definition unpin_root (root : cstring) : act Z :=
  if negb (fits (dir_path root LinkDir)) then mret 1 else
  ids ← collect_link_prog_ids (dir_path root LinkDir);
  match ids with
  | None => mret 1
  | Some ids =>
      l ← sweep_known K LinkDir; if negb l then mret 1 else
      if negb (fits (dir_path root MapDir)) then mret 1 else
      m ← sweep_known K MapDir; if negb m then mret 1 else
      ed11_unpin_sentinel_unlink ;; unpin_drain_or_warn ids
  end.

Definition unpin_directory (cand : cstring) (d : pin_dir) : act Z :=
  ids ← (match d with LinkDir => collect_link_prog_ids cand | MapDir => mret (Some []) end);
  match ids with
  | None => mret 1
  | Some ids =>
      s ← sweep_known K d; if negb s then mret 1
      else match d with LinkDir => unpin_drain_or_warn ids | MapDir => mret 0 end
  end.

Definition unpin_leaf (d : pin_dir) (n : string) : act Z :=
  if negb (name_in n (known d)) then mret 1 else
  ids ← (match d with
         | MapDir => mret (Some [])
         | LinkDir =>
             e ← query K (PObjGet LinkDir n); if negb (e =? 0) then mret None else
             i ← query K (PInfo LinkDir n); if negb (i =? 0) then mret None else
             h ← get_host; let id := default 0 (h_links h !! n) in mret (Some (if id =? 0 then [] else [id]))
         end);
  match ids with
  | None => mret 1
  | Some ids =>
      u ← sys K (PUnlink (InDir d n)) (without (InDir d n));
      if negb (u =? 0) then mret 1 else match d with LinkDir => unpin_drain_or_warn ids | MapDir => mret 0 end
  end.

(** Everything after the last slash. *)
Definition leaf_name (s : cstring) : cstring := rev (span (Ascii.eqb "/"%char) (rev s)).1.

(** The candidate strictly inside the root. *)
Definition unpin_inside (root cand : cstring) : act Z :=
  if negb (fits (dir_path root LinkDir) && fits (dir_path root MapDir)) then mret 1 else
  e ← query K (PLstat cand); if negb (e =? 0) then mret 1 else
  let mode := pk_mode K cand in
  if S_ISDIR mode then
    if streq cand (dir_path root LinkDir) then unpin_directory cand LinkDir
    else if streq cand (dir_path root MapDir) then unpin_directory cand MapDir else mret 1
  else if negb (Z.land mode S_IFMT =? S_IFREG) then mret 1
  else match before_last_slash cand with
       | None | Some [] => mret 1
       | Some parent =>
           let leaf := String.string_of_list_ascii (leaf_name cand) in
           if streq parent (dir_path root LinkDir) then unpin_leaf LinkDir leaf
           else if streq parent (dir_path root MapDir) then unpin_leaf MapDir leaf else mret 1
       end.

Definition unpin_action (requested : option cstring) : act Z :=
  b ← ensure_bpffs K; if negb b then mret 1 else
  l ← pin_lifecycle_lock; if negb l then mret 1 else
  a ← ed11_unpin_authgate; if negb a then mret 1 else
  r ← unpin_resolve requested;
  match r with
  | ResolveError => mret 1
  | ResolveRefused => mret (match requested with Some _ => 1 | None => 0 end)
  | Resolved root cand => if streq cand root then unpin_root root else unpin_inside root cand
  end.

(** ** Pinned maps *)

Definition SIZEOF_INODE_KEY : Z := 16.
Definition SIZEOF_SEAL_VALUE : Z := 96.

Definition check_one_pinned_seal_shape (n : string) : act bool :=
  e ← query K (PObjGet MapDir n);
  if (e =? ENOENT) || (e =? EACCES) || (e =? EPERM) then mret true
  else if negb (e =? 0) then mret false
  else i ← succeeds K (PInfo MapDir n);
       if negb i then mret false else
       h ← get_host;
       mret (match h_maps h !! n with
             | Some m => (bm_key m =? SIZEOF_INODE_KEY) && (bm_value m =? SIZEOF_SEAL_VALUE)
             | None => false
             end).

Definition check_pinned_seal_map_shapes : act bool :=
  a ← check_one_pinned_seal_shape "sealed_inodes";
  if negb a then mret false else check_one_pinned_seal_shape "sealed_dirs".

Definition BPF_MAP_TYPE_PERCPU_ARRAY : Z := 6.

(** -2, -3 with errno, -1, and 0 with the sum. *)
Inductive counter_read := CounterAbsent | CounterRefused (e : Z) | CounterError | CounterValue (v : Z).

Definition read_pinned_counter (n : string) : act counter_read :=
  e ← query K (PObjGet MapDir n);
  if e =? ENOENT then mret CounterAbsent
  else if (e =? EPERM) || (e =? EACCES) then mret (CounterRefused e)
  else if negb (e =? 0) then mret CounterError
  else i ← succeeds K (PInfo MapDir n);
       h ← get_host;
       match h_maps h !! n with
       | Some m =>
           if negb i || negb ((bm_type m =? BPF_MAP_TYPE_PERCPU_ARRAY) && (bm_key m =? 4) && (bm_value m =? 8)
                              && (bm_entries m =? 1)) then mret CounterError
           else if pk_ncpus K <=? 0 then mret CounterError
           else a ← succeeds K PAlloc; if negb a then mret CounterError else
                l ← succeeds K (PLookup n); if negb l then mret CounterError else
                mret (CounterValue (foldl (fun s v => wrap64 (s + v)) 0 (take (Z.to_nat (pk_ncpus K)) (bm_cpus m))))
       | None => mret CounterError
       end.

Definition stats_names : list string :=
  ["deny_total"; "audit_drop_total"; "actor_mismatch_total"; "strict_launch_missing_total";
   "strict_launch_allowed_total"; "marker_set_total"; "marker_set_fail_total"; "marker_clear_foreign_exec_total";
   "marker_copy_fork_total"; "marker_stale_generation_total"; "prctl_set_mm_exe_file_denied_total";
   "ptrace_access_denied_total"; "ptrace_traceme_denied_total"; "bpf_self_denied_total"; "pin_tamper_denied_total"]%string.

Fixpoint read_counters (names : list string) : act (list (string * counter_read)) :=
  match names with
  | [] => mret []
  | n :: rest => r ← read_pinned_counter n; rs ← read_counters rest; mret ((n, r) :: rs)
  end.

Definition is_refused (e : Z -> bool) (r : string * counter_read) : bool :=
  match r.2 with CounterRefused x => e x | _ => false end.

(** Exit code, and the line printed when it is 0 (a counter that is absent is
    printed as a question mark). *)
Definition stats_action : act (Z * list (string * option Z)) :=
  rs ← read_counters stats_names;
  mret (if existsb (is_refused (fun e => e =? EPERM)) rs then (1, [])
        else if existsb (is_refused (fun e => negb (e =? EPERM))) rs then (1, [])
        else if forallb (fun r => match r.2 with CounterAbsent => true | _ => false end) rs then (2, [])
        else if existsb (fun r => match r.2 with CounterError => true | _ => false end) rs then (1, [])
        else (0, (fun r => (r.1, match r.2 with CounterValue v => Some v | _ => None end)) <$> rs)).

End Unpin.
