(* ===== verification/PinMain.v ===== *)
(** * The host-wide loader

    Models the rest of [src/compartment-bpf/compartment-bpf.c]: the probes that
    choose which programs are loaded, [--self-protect] in its two phases, the
    option loop and [main], from the profile to the pinned policy, with
    [load_conf] of [Loader] for the seals. *)

From S2P Require Import Prelude Abi Kernel CLib Config Loader Pin Unpin.
From Stdlib Require Import Ascii.
From stdpp Require Import strings.

#[local] Open Scope Z_scope.

(** ** Options *)

Record popts := POpts {
  o_pin : bool; o_dry_run : bool; o_parse_only : bool; o_allow_empty : bool; o_allow_candidate : bool;
  o_unpin : bool; o_stats : bool; o_unpin_path : option cstring; o_conf : option cstring;
  o_self_protect : bool; o_authorize : list cstring
}.

Definition no_opts : popts := POpts false false false false false false false None None false [].

Definition MAX_LOADER_IDS : nat := 8.

Definition starts_dash (s : cstring) : bool := has_prefix (lit "-") s.

(** The option loop of [main]: the exit code of a usage error, or the options. *)
Fixpoint parse_options (argv : list cstring) (o : popts) : Z + popts :=
  match argv with
  | [] => inr o
  | a :: rest =>
      let '(POpts pin dry ponly ae ac un st up conf sp auth) := o in
      if streq a (lit "--pin") then parse_options rest (POpts true dry ponly ae ac un st up conf sp auth)
      else if streq a (lit "--dry-run") then parse_options rest (POpts pin true ponly ae ac un st up conf sp auth)
      else if streq a (lit "--parse-only") then parse_options rest (POpts pin dry true ae ac un st up conf sp auth)
      else if streq a (lit "--allow-empty") then parse_options rest (POpts pin dry ponly true ac un st up conf sp auth)
      else if streq a (lit "--allow-candidate") then parse_options rest (POpts pin dry ponly ae true un st up conf sp auth)
      else if streq a (lit "--self-protect") then parse_options rest (POpts pin dry ponly ae ac un st up conf true auth)
      else if streq a (lit "--authorize-loader") then
        match rest with
        | [] | [] :: _ => inl 2
        | p :: rest' =>
            if Nat.leb (MAX_LOADER_IDS - 1) (length auth) then inl 2
            else parse_options rest' (POpts pin dry ponly ae ac un st up conf true (auth ++ [p]))
        end
      else if streq a (lit "--stats") then parse_options rest (POpts pin dry ponly ae ac un true up conf sp auth)
      else if streq a (lit "--unpin") then
        match rest with
        | ((_ :: _) as p) :: rest' =>
            if starts_dash p then parse_options rest (POpts pin dry ponly ae ac true st up conf sp auth)
            else parse_options rest' (POpts pin dry ponly ae ac true st (Some p) conf sp auth)
        | _ => parse_options rest (POpts pin dry ponly ae ac true st up conf sp auth)
        end
      else if starts_dash a then inl 2
      else if bool_decide (a = []) || bool_decide (is_Some conf) then inl 2
      else parse_options rest (POpts pin dry ponly ae ac un st up (Some a) sp auth)
  end.

(** The combinations refused before anything is done. *)
Definition check_opts (o : popts) : option Z :=
  if (o_unpin o || o_stats o) && o_self_protect o then Some 2
  else if o_unpin o
          && (o_pin o || o_dry_run o || o_parse_only o || o_allow_empty o || o_allow_candidate o
              || bool_decide (is_Some (o_conf o)) || o_stats o) then Some 2
  else if o_unpin o then None
  else if o_stats o
          && (o_pin o || o_dry_run o || o_parse_only o || o_allow_empty o || o_allow_candidate o
              || bool_decide (is_Some (o_conf o))) then Some 2
  else if o_stats o then None
  else if o_parse_only o && o_dry_run o then Some 2
  else if o_parse_only o && (o_pin o || o_allow_empty o) then Some 2
  else if bool_decide (o_conf o = None) then Some 2 else None.

(** What [main] does with its arguments: the observer, a usage error, or the loader. *)
Inductive entry := EntryObserve | EntryUsage (code : Z) | EntryLoader (o : popts).

Definition main_entry (argv : list cstring) : entry :=
  match argv with
  | a :: _ => if streq a (lit "observe") then EntryObserve
              else match parse_options argv no_opts with inl c => EntryUsage c | inr o => EntryLoader o end
  | [] => match parse_options argv no_opts with inl c => EntryUsage c | inr o => EntryLoader o end
  end.

Section Main.
Context (K : pkernel) (PW : pwhash) (o : popts).

Definition upd_skel (f : skeleton -> skeleton) (h : host) : host := set_skel (f (h_skel h)) h.

(** ** The environment *)

Definition lsm_delim (c : ascii) : bool := bool_decide (c ∈ lit ", " ++ [TAB; CR; LF]).

(** [bpf] must be a token of the list of active modules. *)
Definition probe_lsm_environment : act bool :=
  e ← query K PReadLsm;
  mret ((e =? 0) && bool_decide (lit "bpf" ∈ strtok_all lsm_delim (until_nul (take 4095 (pk_lsm K))))).

(** The size of the ring the smoke test sets: the whole value, 1 to 2^30. *)
Definition audit_ring_override : act bool :=
  match pk_ring_env K with
  | Some ((_ :: _) as v) =>
      match strtoul 0 v with
      | Some (n, [], _) => if (n =? 0) || (2 ^ 30 <? n) then mret false else succeeds K (PSetRingSize (wrap32 n))
      | _ => mret false
      end
  | _ => mret true
  end.

(** ** Which programs are loaded *)

Definition autoload (p : string) (b : bool) (s : skeleton) : skeleton :=
  Skeleton (sk_policy s) (sk_frozen s) (fun q => if String.eqb q p then b else sk_autoload s q) (sk_attached s).

Definition set_autoload (p : string) (b : bool) : act bool :=
  e ← sys K (PAutoload p) (upd_skel (autoload p b)); mret (e =? 0).

Definition modern_setattr : bool :=
  match pk_btf K with
  | Some btf =>
      match btf "bpf_lsm_inode_setattr"%string with
      | Some (Some vlen) => 3 <=? vlen
      | _ => let '(maj, min) := pk_uname K in negb ((maj <? 6) || ((maj =? 6) && (min <=? 8)))
      end
  | None => let '(maj, min) := pk_uname K in negb ((maj <? 6) || ((maj =? 6) && (min <=? 8)))
  end.

Definition select_inode_setattr_variant : act bool :=
  r1 ← set_autoload "comp_inode_setattr" modern_setattr;
  r2 ← set_autoload "comp_inode_setattr_legacy" (negb modern_setattr);
  mret (r1 && r2).

Definition select_file_ioctl_compat : act bool :=
  set_autoload "comp_file_ioctl_compat"
    (match pk_btf K with Some btf => bool_decide (is_Some (btf "bpf_lsm_file_ioctl_compat"%string)) | None => false end).

Definition bpf_map_hook_present : bool :=
  match pk_btf K with
  | Some btf => match btf "bpf_lsm_bpf_map"%string with Some (Some vlen) => vlen =? 2 | _ => false end
  | None => false
  end.

Definition select_bpf_map_variant : act bool :=
  if o_self_protect o && negb bpf_map_hook_present then mret false
  else set_autoload "comp_bpf_map" (bpf_map_hook_present && o_self_protect o).

(** ** Self-protection *)

(** Major and minor numbers as the kernel encodes a device. *)
Definition encode_dev (maj min : Z) : option Z :=
  if (2 ^ 12 <=? maj) || (2 ^ 20 <=? min) then None else Some (Z.lor (Z.shiftl maj 20) min).

(** The identity of a binary that may be a loader: a regular file of root's that
    others cannot write, on a device with a number. *)
Definition binary_key (p : cstring) : option inode_key :=
  let b := pk_bin K p in
  if negb (Z.land (bs_mode b) S_IFMT =? S_IFREG) then None
  else if negb (bs_uid b =? 0) then None
  else if negb (Z.land (bs_mode b) (Z.lor S_IWOTH S_IWGRP) =? 0) then None
  else match encode_dev (bs_major b) (bs_minor b) with
       | None => None
       | Some d => if d =? 0 then None else Some (InodeKey d (bs_ino b))
       end.

Definition resolve_binary_key (p : cstring) : act (option inode_key) :=
  e ← query K (POpenBin p); mret (if negb (e =? 0) then None else binary_key p).

Definition pin_root_dev : Z :=
  match pk_bpffs_dev K with Some (maj, min) => default 0 (encode_dev maj min) | None => 0 end.

Definition with_policy (f : policy -> policy) : host -> host :=
  upd_skel (fun s => Skeleton (f (sk_policy s)) (sk_frozen s) (sk_autoload s) (sk_attached s)).

Definition add_loader (k : inode_key) (p : policy) : policy :=
  Policy (sealed_inodes p) (sealed_dirs p) (sealed_devs p) (launcher_to_actor p) (policy_state_map p)
    (protected_map_ids p) (<[k := 1]> (loader_ids p)) (protected_pins p) (self_protect_cfg_map p).
Definition add_map_id (id : Z) (p : policy) : policy :=
  Policy (sealed_inodes p) (sealed_dirs p) (sealed_devs p) (launcher_to_actor p) (policy_state_map p)
    (<[id := 1]> (protected_map_ids p)) (loader_ids p) (protected_pins p) (self_protect_cfg_map p).
Definition add_pin (k : inode_key) (p : policy) : policy :=
  Policy (sealed_inodes p) (sealed_dirs p) (sealed_devs p) (launcher_to_actor p) (policy_state_map p)
    (protected_map_ids p) (loader_ids p) (<[k := 1]> (protected_pins p)) (self_protect_cfg_map p).
Definition set_cfg (c : self_protect_cfg) (p : policy) : policy :=
  Policy (sealed_inodes p) (sealed_dirs p) (sealed_devs p) (launcher_to_actor p) (policy_state_map p)
    (protected_map_ids p) (loader_ids p) (protected_pins p) (Some c).

Definition update (m : string) (f : policy -> policy) : act bool :=
  e ← sys K (PUpdate m) (with_policy f); mret (e =? 0).

Fixpoint add_loaders (paths : list cstring) : act bool :=
  match paths with
  | [] => mret true
  | p :: rest =>
      k ← resolve_binary_key p;
      match k with
      | None => mret false
      | Some k => u ← update "loader_ids" (add_loader k); if (u : bool) then add_loaders rest else mret false
      end
  end.

Fixpoint add_map_ids (maps : list (string * option Z)) : act bool :=
  match maps with
  | [] => mret true
  | (_, None) :: rest => add_map_ids rest
  | (m, Some id) :: rest =>
      e ← query K (PMapInfo m);
      if negb (e =? 0) then mret false
      else u ← update "protected_map_ids" (add_map_id id); if (u : bool) then add_map_ids rest else mret false
  end.

Definition SELF_EXE : cstring := lit "/proc/self/exe".

Definition self_protect_populate_early : act bool :=
  if negb (o_self_protect o) then mret true else
  l ← add_loaders (SELF_EXE :: o_authorize o); if negb l then mret false else
  m ← add_map_ids (pk_object_maps K); if negb m then mret false else
  update "self_protect_cfg_map" (set_cfg (SelfProtectCfg 0 1)).

Definition fixed_pins : list cstring := [BPFFS; PIN_ROOT; dir_path PIN_ROOT LinkDir; dir_path PIN_ROOT MapDir].

Fixpoint record_fixed (dev : Z) (paths : list cstring) : act bool :=
  match paths with
  | [] => mret true
  | p :: rest =>
      e ← query K (PStat p);
      if negb (e =? 0) then mret false
      else u ← update "protected_pins" (add_pin (InodeKey dev (pk_ino K p)));
           if (u : bool) then record_fixed dev rest else mret false
  end.

Fixpoint record_named (dev : Z) (d : pin_dir) (names : list string) : act bool :=
  match names with
  | [] => mret true
  | n :: rest =>
      if negb (fits (pin_path PIN_ROOT d n)) then record_named dev d rest
      else e ← query K (PStatPin d n);
           if e =? ENOENT then record_named dev d rest
           else if negb (e =? 0) then mret false
           else u ← update "protected_pins" (add_pin (InodeKey dev (pk_ino K (pin_path PIN_ROOT d n))));
                if (u : bool) then record_named dev d rest else mret false
  end.

Definition self_protect_record_pins : act bool :=
  if negb (o_self_protect o) then mret true else
  let dev := pin_root_dev in
  if dev =? 0 then mret false else
  f ← record_fixed dev fixed_pins; if negb f then mret false else
  l ← record_named dev LinkDir KNOWN_LINK_NAMES; if negb l then mret false else
  m ← record_named dev MapDir KNOWN_MAP_NAMES; if negb m then mret false else
  c ← update "self_protect_cfg_map" (set_cfg (SelfProtectCfg dev 1)); if negb c then mret false else
  z1 ← sys K (PFreeze "protected_pins") (freeze "protected_pins"); if negb (z1 =? 0) then mret false else
  z2 ← sys K (PFreeze "self_protect_cfg_map") (freeze "self_protect_cfg_map"); mret (z2 =? 0).

(** ** Pinning *)

Definition destroy : act unit :=
  sys K PDestroy (upd_skel (fun s => Skeleton (sk_policy s) (sk_frozen s) (sk_autoload s) false)) ;; mret tt.

(** [pin_window_aborted] at one of its two sites. *)
Definition running (site : nat) : bool := pk_running K site.

Fixpoint sweep_dirs (dirs : list pin_dir) : act unit :=
  match dirs with [] => mret tt | d :: rest => sweep_known K d ;; sweep_dirs rest end.

Definition sweep_back (dirs : list pin_dir) : act unit := sweep_dirs dirs ;; ed11_unpin_sentinel_unlink K.

(** The body of [if (pin)], up to its destroys: [true] when the policy is pinned. *)
Definition pin_policy : act bool :=
  l ← pin_lifecycle_lock K; if negb l then mret false else
  if negb (running 0) then mret false else
  t ← pin_tree_exists K; if (t : bool) then mret false else
  s ← ed11_pin_maybe_write_sentinel K PW; if negb s then mret false else
  p ← pin_links K; if negb p then ed11_unpin_sentinel_unlink K ;; mret false else
  if negb (running 1) then sweep_back [LinkDir] ;; mret false else
  c ← pin_counter_maps K; if negb c then sweep_back [LinkDir] ;; mret false else
  r ← self_protect_record_pins; if negb r then sweep_back [MapDir; LinkDir] ;; mret false else
  mret true.

(** ** main *)

Definition attach (s : skeleton) : skeleton := Skeleton (sk_policy s) (sk_frozen s) (sk_autoload s) true.

(** The seals [load_conf] wrote. *)
Definition with_seals (m : maps) (p : policy) : policy :=
  Policy (m_inodes m) (m_dirs m) (m_devs m) (m_launchers m) (m_state m)
    (protected_map_ids p) (loader_ids p) (protected_pins p) (self_protect_cfg_map p).

Definition note_seals (m : maps) : act unit :=
  fun s => (tt, Run (with_policy (with_seals m) (r_host s)) (r_log s)).

Definition poll_loop (polls : list bool) : Z := if existsb id polls then 1 else 0.

(** From the open object to the running daemon; [w] and [content] are what
    [load_conf] sees. *)
Definition load_and_run (w : lworld) (content : cstring) : act Z :=
  let bail := destroy ;; mret 1 in
  v1 ← select_inode_setattr_variant; if negb v1 then bail else
  v2 ← select_file_ioctl_compat; if negb v2 then bail else
  v3 ← select_bpf_map_variant; if negb v3 then bail else
  rs ← audit_ring_override; if negb rs then bail else
  t ← (if o_pin o then pin_tree_exists K else mret false); if (t : bool) then bail else
  ld ← succeeds K PLoad; if negb ld then bail else
  match load_conf RealLoad w content (o_allow_empty o) (o_pin o) (o_allow_candidate o) with
  | None => bail
  | Some m =>
      note_seals m ;;
      e ← self_protect_populate_early; if negb e then bail else
      f ← freeze_seal_maps K; if negb f then bail else
      a ← sys K PAttach (upd_skel attach); if negb (a =? 0) then bail else
      rb ← succeeds K PRingbuf; if negb rb then bail else
      p ← (if o_pin o then pin_policy else mret true); if negb p then bail else
      destroy ;; mret (poll_loop (pk_polls K))
  end.

Definition bpf_main (w : lworld) (content : cstring) : act Z :=
  match check_opts o with
  | Some code => mret code
  | None =>
      if o_unpin o then unpin_action K PW (o_unpin_path o)
      else if o_stats o then r ← stats_action K; mret r.1
      else
        sh ← check_pinned_seal_map_shapes K; if negb sh then mret 1 else
        if o_parse_only o
        then mret (if bool_decide (is_Some (load_conf ParseOnly w content false false false)) then 0 else 1)
        else if o_dry_run o
        then mret (if bool_decide (is_Some (load_conf DryRun w content (o_allow_empty o) false false)) then 0 else 1)
        else s ← succeeds K PSigaction; if negb s then mret 1 else
             l ← probe_lsm_environment; if negb l then mret 1 else load_and_run w content
  end.

End Main.

(** The object as [compartment_bpf__open] gives it. *)
Definition fresh_skeleton : skeleton := Skeleton (Policy ∅ ∅ ∅ ∅ None ∅ ∅ ∅ None) [] (fun _ => true) false.
