(* ===== verification/PinProps.v ===== *)
(** * Reasoning about the pin lifecycle

    A Hoare logic with crash conditions for the actions of [Pin], [Unpin] and
    [PinMain]: [hoare P m Q C] says that from a host in [P] the action ends in
    [Q] and that every host it goes through, which is what a kill at that moment
    leaves behind, satisfies [C].  Then what each operation does to the pin tree. *)

From S2P Require Import Prelude Abi Kernel CLib Config Loader Pin Unpin PinMain.
From Stdlib Require Import Ascii.
From stdpp Require Import strings.

#[local] Open Scope Z_scope.

(** ** The logic *)

Definition hoare {A} (P : host -> Prop) (m : act A) (Q : A -> host -> Prop) (C : host -> Prop) : Prop :=
  forall s, P (r_host s) ->
  Q (m s).1 (r_host (m s).2) /\ exists l, r_log (m s).2 = r_log s ++ l /\ Forall (fun e => C e.2) l.

Lemma hoare_ret {A} (a : A) (P : host -> Prop) (Q : A -> host -> Prop) C :
  (forall h, P h -> Q a h) -> hoare P (mret a) Q C.
Proof. intros H s Hs. split; [by apply H|]. exists []. by rewrite app_nil_r. Qed.

Lemma hoare_bind {A B} (m : act A) (f : A -> act B) P R Q C :
  hoare P m R C -> (forall a, hoare (R a) (f a) Q C) -> hoare P (m ≫= f) Q C.
Proof.
  intros Hm Hf s Hs. destruct (Hm s Hs) as (Hr & l & El & Hl). unfold mbind, act_bind.
  destruct (m s) as [a s1]. cbn in *. destruct (Hf a s1 Hr) as (Hq & l' & El' & Hl').
  split; [done|]. exists (l ++ l'). rewrite El', El, app_assoc. split; [done|]. by apply Forall_app.
Qed.

Lemma hoare_weaken {A} (m : act A) (P P' : host -> Prop) (Q Q' : A -> host -> Prop) (C C' : host -> Prop) :
  hoare P' m Q' C' -> (forall h, P h -> P' h) -> (forall a h, Q' a h -> Q a h) -> (forall h, C' h -> C h) -> hoare P m Q C.
Proof.
  intros Hm HP HQ HC s Hs. destruct (Hm s (HP _ Hs)) as (Hq & l & El & Hl). split; [by apply HQ|].
  exists l. split; [done|]. eapply Forall_impl; [exact Hl|]. intros e. apply HC.
Qed.

Lemma hoare_pre {A} (m : act A) (P P' : host -> Prop) (Q : A -> host -> Prop) C :
  hoare P' m Q C -> (forall h, P h -> P' h) -> hoare P m Q C.
Proof. intros Hm HP. eapply hoare_weaken; eauto. Qed.

Lemma hoare_post {A} (m : act A) P (Q Q' : A -> host -> Prop) C :
  hoare P m Q' C -> (forall a h, Q' a h -> Q a h) -> hoare P m Q C.
Proof. intros Hm HQ. eapply hoare_weaken; eauto. Qed.

Lemma hoare_pure {A} (m : act A) (R : Prop) P (Q : A -> host -> Prop) C :
  (R -> hoare P m Q C) -> hoare (fun h => P h /\ R) m Q C.
Proof. intros Hm s [Hs Hr]. by apply Hm. Qed.

Lemma hoare_get (P : host -> Prop) (Q : host -> host -> Prop) C : (forall h, P h -> Q h h) -> hoare P get_host Q C.
Proof. intros H s Hs. split; [by apply H|]. exists []. by rewrite app_nil_r. Qed.

Lemma hoare_if {A} (b : bool) (m1 m2 : act A) P Q C :
  (b = true -> hoare P m1 Q C) -> (b = false -> hoare P m2 Q C) -> hoare P (if b then m1 else m2) Q C.
Proof. destruct b; auto. Qed.

(** *** Actions that leave the host alone *)

Definition quiet {A} (m : act A) : Prop :=
  forall s, r_host (m s).2 = r_host s
  /\ exists l, r_log (m s).2 = r_log s ++ l /\ Forall (fun e => e.2 = r_host s) l.

Lemma hoare_quiet {A} (m : act A) (P C : host -> Prop) :
  quiet m -> (forall h, P h -> C h) -> hoare P m (fun _ => P) C.
Proof.
  intros Hm HC s Hs. destruct (Hm s) as (Hh & l & El & Hl). rewrite Hh. split; [done|]. exists l. split; [done|].
  eapply Forall_impl; [exact Hl|]. intros e ->. by apply HC.
Qed.

Lemma quiet_ret {A} (a : A) : quiet (mret a).
Proof. intros s. split; [done|]. exists []. by rewrite app_nil_r. Qed.

Lemma quiet_get : quiet get_host.
Proof. intros s. split; [done|]. exists []. by rewrite app_nil_r. Qed.

Lemma quiet_bind {A B} (m : act A) (f : A -> act B) : quiet m -> (forall a, quiet (f a)) -> quiet (m ≫= f).
Proof.
  intros Hm Hf s. destruct (Hm s) as (Hh & l & El & Hl). unfold mbind, act_bind. destruct (m s) as [a s1]. cbn in *.
  destruct (Hf a s1) as (Hh' & l' & El' & Hl'). split; [congruence|]. exists (l ++ l'). rewrite El', El, app_assoc.
  split; [done|]. apply Forall_app. split; [done|]. by rewrite <- Hh.
Qed.

Create HintDb quiet_db.
#[export] Hint Resolve quiet_ret quiet_get quiet_bind : quiet_db.

(** Splitting an action that only asks. *)
Ltac solve_quiet :=
  repeat first
    [ apply quiet_ret | apply quiet_get | solve [eauto with quiet_db nocore]
    | apply quiet_bind; [|intros ?]
    | match goal with |- quiet (match ?x with _ => _ end) => destruct x end ].

Section Logic.
Context (K : pkernel).

Lemma hoare_sys c eff (P : host -> Prop) (Q : Z -> host -> Prop) (C : host -> Prop) :
  (forall h n, P h -> let e := answer K n h c in let h' := if e =? 0 then eff h else h in Q e h' /\ C h') ->
  hoare P (sys K c eff) Q C.
Proof.
  intros H s Hs. destruct (H _ (length (r_log s)) Hs) as [Hq Hc]. split; [exact Hq|].
  exists [(c, answer K (length (r_log s)) (r_host s) c, r_host (sys K c eff s).2)]. split; [done|]. by repeat constructor.
Qed.

Lemma quiet_query c : quiet (query K c).
Proof.
  intros s. unfold query, sys. cbn. assert (H : forall b : bool, (if b then id (r_host s) else r_host s) = r_host s) by by intros [].
  rewrite H. split; [done|]. eexists. split; [done|]. by repeat constructor.
Qed.

Lemma quiet_succeeds c : quiet (succeeds K c).
Proof. apply quiet_bind; [apply quiet_query|intros; apply quiet_ret]. Qed.
#[local] Hint Resolve quiet_query quiet_succeeds : quiet_db.

Lemma hoare_query c (P : host -> Prop) (Q : Z -> host -> Prop) (C : host -> Prop) :
  (forall h n, P h -> Q (answer K n h c) h) -> (forall h, P h -> C h) -> hoare P (query K c) Q C.
Proof.
  intros HQ HC. apply hoare_sys. intros h n Hp. cbv zeta.
  assert (E : (if answer K n h c =? 0 then id h else h) = h) by by destruct (_ =? 0). rewrite E. auto.
Qed.

Lemma answer_0 n h c : answer K n h c = 0 -> state_errno h c = 0.
Proof. unfold answer. destruct (Z.eqb_spec (state_errno h c) 0); [done|]. done. Qed.

Lemma ensure_bpffs_quiet : quiet (ensure_bpffs K).
Proof. unfold ensure_bpffs. solve_quiet. Qed.

Lemma ensure_dir_quiet p : quiet (ensure_dir K p).
Proof. unfold ensure_dir. solve_quiet. Qed.

Lemma any_pinned_quiet l : quiet (any_pinned K l).
Proof. induction l; cbn [any_pinned]; solve_quiet. Qed.

Lemma lock_quiet : quiet (pin_lifecycle_lock K).
Proof. unfold pin_lifecycle_lock. solve_quiet. Qed.

Lemma collect_quiet d l ids : quiet (collect_loop K d l ids).
Proof. revert ids. induction l; intros ids; cbn [collect_loop]; solve_quiet. Qed.

Lemma sentinel_dir_quiet : quiet (sentinel_dir_ok K).
Proof. unfold sentinel_dir_ok. solve_quiet. Qed.

Lemma unpin_resolve_quiet r : quiet (unpin_resolve K r).
Proof. unfold unpin_resolve. solve_quiet. Qed.
End Logic.

#[export] Hint Resolve quiet_query quiet_succeeds ensure_bpffs_quiet ensure_dir_quiet any_pinned_quiet lock_quiet
  collect_quiet sentinel_dir_quiet unpin_resolve_quiet : quiet_db.
