(* ===== verification/UnpinProps.v ===== *)
(** * What --unpin can do

    The passphrase gate, the names it may remove and the wait for the kernel. *)

From S2P Require Import Prelude Abi Kernel CLib Config Loader Pin Unpin PinMain PinProps.
From Stdlib Require Import Ascii.
From stdpp Require Import strings.

#[local] Open Scope Z_scope.

(** ** Only known names *)

(** [h] has lost nothing but pins with known names, and gained nothing. *)
Record only_known_removed (h0 h : host) : Prop := {
  okr_links : h_links h ⊆ h_links h0;
  okr_maps : h_maps h ⊆ h_maps h0;
  okr_unknown_links : forall n, n ∉ KNOWN_LINK_NAMES -> h_links h !! n = h_links h0 !! n;
  okr_unknown_maps : forall n, n ∉ KNOWN_MAP_NAMES -> h_maps h !! n = h_maps h0 !! n;
  okr_skel : h_skel h = h_skel h0
}.

Lemma name_in_true n l : name_in n l = true <-> n ∈ l.
Proof.
  unfold name_in. rewrite existsb_exists. split.
  - intros (x & Hx & ->%String.eqb_eq). by apply list_elem_of_In.
  - intros H. exists n. split; [by apply list_elem_of_In|apply String.eqb_refl].
Qed.

Lemma okr_refl h : only_known_removed h h.
Proof. by split. Qed.

Lemma okr_env h0 h v : only_known_removed h0 h -> only_known_removed h0 (set_env v h).
Proof. by intros []. Qed.

Lemma okr_remove h0 h d n : n ∈ known d -> only_known_removed h0 h -> only_known_removed h0 (without (InDir d n) h).
Proof.
  intros Hn [H1 H2 H3 H4 H5]. destruct d; cbn [without known] in *; split; cbn; try done.
  - etrans; [apply delete_subseteq|done].
  - intros m Hm. rewrite lookup_delete_ne; [auto|]. intros ->. done.
  - etrans; [apply delete_subseteq|done].
  - intros m Hm. rewrite lookup_delete_ne; [auto|]. intros ->. done.
Qed.

Lemma okr_sentinel h0 h : only_known_removed h0 h -> only_known_removed h0 (without Sentinel h).
Proof. by intros []. Qed.

Section Unpin.
Context (K : pkernel) (PW : pwhash).

(** A call whose effect keeps the invariant keeps it. *)
Lemma hoare_keep c eff (I : host -> Prop) : (forall h, I h -> I (eff h)) -> hoare I (sys K c eff) (fun _ => I) I.
Proof. intros H. apply hoare_sys. intros h n Hi. cbv zeta. destruct (_ =? 0); auto. Qed.

Lemma keep_then {A B} (m : act A) (f : A -> act B) (I : host -> Prop) :
  hoare I m (fun _ => I) I -> (forall a, hoare I (f a) (fun _ => I) I) -> hoare I (m ≫= f) (fun _ => I) I.
Proof. apply hoare_bind. Qed.

Lemma keep_quiet {A} (m : act A) (I : host -> Prop) : quiet m -> hoare I m (fun _ => I) I.
Proof. intros H. by apply hoare_quiet. Qed.

Lemma keep_ret {A} (a : A) (I : host -> Prop) : hoare I (mret a) (fun _ => I) I.
Proof. by apply hoare_ret. Qed.
End Unpin.

(** An action all of whose effects keep an invariant. *)
Ltac solve_keep :=
  repeat first
    [ apply keep_ret | solve [eauto with keep_db nocore] | solve [apply keep_quiet; eauto with quiet_db nocore]
    | apply keep_then; [|intros ?]
    | match goal with
      | |- hoare _ (match ?x with _ => _ end) _ _ => destruct x eqn:?
      | |- hoare _ (let '(_, _) := ?x in _) _ _ => destruct x
      end
    | solve [apply hoare_keep; eauto with keep_db nocore] ].

Create HintDb keep_db.
#[export] Hint Resolve okr_env okr_sentinel : keep_db.

Section Only.
Context (K : pkernel) (PW : pwhash) (h0 : host).
Abbreviation keeps m := (hoare (only_known_removed h0) m (fun _ => only_known_removed h0) (only_known_removed h0)).

Lemma sweep_loop_only d l r u : keeps (sweep_loop K d l r u).
Proof.
  revert r u. induction l as [|n l IH]; intros r u; cbn [sweep_loop]; [apply keep_ret|].
  destruct (_ || _); [apply IH|]. destruct (name_in n (known d)) eqn:E; cbn [negb]; [|apply IH].
  apply keep_then; [apply hoare_keep; intros h; apply okr_remove; by apply name_in_true|].
  intros e. destruct (e =? 0); [apply IH|apply keep_ret].
Qed.

Lemma sweep_known_only d : keeps (sweep_known K d).
Proof.
  unfold sweep_known. apply keep_then; [apply keep_quiet; eauto with quiet_db|]. intros e. destruct (e =? ENOENT); [apply keep_ret|].
  destruct (negb _); [apply keep_ret|]. apply keep_then; [apply keep_quiet, quiet_get|]. intros h.
  apply keep_then; [apply sweep_loop_only|]. intros [[ok ?] ?]. apply keep_ret.
Qed.

Lemma read_passphrase_only : keeps (ed11_read_passphrase K).
Proof. unfold ed11_read_passphrase. solve_keep. Qed.

Lemma authgate_only : keeps (ed11_unpin_authgate K PW).
Proof.
  pose proof read_passphrase_only. unfold ed11_unpin_authgate. cbv zeta. solve_keep.
Qed.

Lemma unpin_leaf_only d n : keeps (unpin_leaf K d n).
Proof.
  unfold unpin_leaf. destruct (name_in n (known d)) eqn:E; cbn [negb]; [|apply keep_ret].
  apply keep_then; [destruct d; solve_keep|]. intros [ids|]; [|apply keep_ret].
  apply keep_then; [apply hoare_keep; intros h; apply okr_remove; by apply name_in_true|].
  intros e. destruct (negb _); [apply keep_ret|]. destruct d; apply keep_ret.
Qed.

Lemma unpin_action_only requested : keeps (unpin_action K PW requested).
Proof.
  pose proof authgate_only. pose proof sweep_known_only. pose proof unpin_leaf_only.
  assert (Hu : keeps (ed11_unpin_sentinel_unlink K)) by (unfold ed11_unpin_sentinel_unlink, unlink_sentinel; solve_keep).
  unfold unpin_action, unpin_root, unpin_inside, unpin_directory, collect_link_prog_ids, unpin_drain_or_warn. solve_keep.
Qed.
End Only.

(** ** The passphrase gate *)

(** [ENOENT] is answered only for what is not there. *)
Definition honest (K : pkernel) : Prop :=
  forall n h c, pk_errno K n h c = ENOENT ->
  match c with
  | PUnlink _ | PObjGet _ _ | PStatPin _ _ | POpenSentinel | PPin _ _ | PCreateSentinel => False
  | POpenDir d => listing d h = []
  | _ => True
  end.

(** The passphrase [ed11_read_passphrase] can return. *)
Definition offered (K : pkernel) (h : host) : option cstring :=
  match h_env h with
  | Some ((_ :: _) as p) => if Nat.ltb 4096 (length p) then None else Some p
  | _ => match pk_tty K with Some (Some p) => Some p | _ => None end
  end.

Definition authorised (K : pkernel) (PW : pwhash) (h : host) : bool :=
  match h_sentinel h with
  | None => true
  | Some (text, st) =>
      (Z.land (st_mode st) S_IFMT =? S_IFREG) && private 0x180 st
      && match offered K h with
         | Some pass => pw_verify PW (until_nul (take (STRBYTES - 1) text)) pass
         | None => false
         end
  end.

Definition same_tree (h0 h : host) : Prop :=
  h_links h = h_links h0 /\ h_maps h = h_maps h0 /\ h_sentinel h = h_sentinel h0 /\ h_skel h = h_skel h0.

Section Gate.
Context (K : pkernel) (PW : pwhash) (h0 : host) (Hhonest : honest K).

Definition untouched (h : host) : Prop := same_tree h0 h /\ h_env h = h_env h0.

Lemma honest_open n h : answer K n h POpenSentinel = ENOENT -> h_sentinel h = None.
Proof.
  unfold answer. cbn [state_errno in_host]. case_bool_decide as Hs; cbn.
  - intros H. by apply Hhonest in H.
  - intros _. destruct (h_sentinel h); [|done]. exfalso. apply Hs. eauto.
Qed.

Lemma read_passphrase_offered :
  hoare untouched (ed11_read_passphrase K)
    (fun r h => same_tree h0 h /\ forall p, r = Some p -> offered K h0 = Some p) (same_tree h0).
Proof.
  assert (Hsub : forall h, untouched h -> same_tree h0 h) by by intros h [].
  unfold ed11_read_passphrase. eapply hoare_bind; [apply (hoare_get _ (fun x h => untouched h /\ h_env x = h_env h0))|].
  { intros h Hh. split; [done|]. apply Hh. }
  intros x. apply hoare_pure. intros Ex. unfold offered. rewrite Ex.
  assert (Hrest : hoare untouched
    match pk_tty K with
    | Some (Some p) => a ← succeeds K PAlloc; mret (if (a : bool) then Some p else None)
    | _ => mret None
    end (fun r h => same_tree h0 h /\ forall p, r = Some p ->
           match pk_tty K with Some (Some p0) => Some p0 | _ => None end = Some p) (same_tree h0)).
  { destruct (pk_tty K) as [[p|]|]; [|by apply hoare_ret; auto..].
    eapply hoare_bind; [apply hoare_quiet; eauto with quiet_db|]. intros []; apply hoare_ret; naive_solver. }
  destruct (h_env h0) as [[|c p]|]; [exact Hrest| |exact Hrest].
  assert (Hclear : forall r : option cstring, (forall p', r = Some p' -> Nat.ltb 4096 (length (c :: p)) = false /\ p' = c :: p) ->
    hoare untouched (sys K PGetenv (set_env None) ;; mret r)
      (fun r h => same_tree h0 h /\ forall p', r = Some p' -> (if Nat.ltb 4096 (length (c :: p)) then None else Some (c :: p)) = Some p')
      (same_tree h0)).
  { intros r Hr. eapply (hoare_bind _ _ _ (fun _ => same_tree h0)).
    - apply hoare_sys. intros h n [Hh _]. cbv zeta. by destruct (_ =? 0).
    - intros _. apply hoare_ret. intros h Hh. split; [done|]. intros p' E. destruct (Hr _ E) as [-> ->]. done. }
  destruct (Nat.ltb 4096 (length (c :: p))) eqn:El; [by apply Hclear|].
  eapply hoare_bind; [apply hoare_quiet; eauto with quiet_db|]. intros a. apply Hclear. destruct a; [|done]. naive_solver.
Qed.

Lemma authgate_checks :
  hoare untouched (ed11_unpin_authgate K PW)
    (fun ok h => same_tree h0 h /\ (ok = true -> authorised K PW h0 = true)) (same_tree h0).
Proof.
  assert (Hsub : forall h, untouched h -> same_tree h0 h) by by intros h [].
  assert (Hfail : forall (P : host -> Prop) (R : Prop), (forall h, P h -> same_tree h0 h) ->
    hoare P (succeeds K PAuthFail ;; mret false) (fun ok h => same_tree h0 h /\ (ok = true -> R)) (same_tree h0)).
  { intros P R HP. eapply hoare_bind; [apply hoare_quiet; eauto with quiet_db|]. intros ?. apply hoare_ret. intros h Hh. by split; [apply HP|]. }
  unfold ed11_unpin_authgate. cbv zeta.
  eapply (hoare_bind _ _ _ (fun e h => untouched h /\ (e = ENOENT -> h_sentinel h0 = None))).
  { apply hoare_query; [|done]. intros h n Hh. split; [done|]. intros He%honest_open. by destruct Hh as ((_ & _ & <- & _) & _). }
  intros e. destruct (Z.eqb_spec e ENOENT) as [->|Hne].
  { apply hoare_ret. intros h [Hh Hs]. split; [auto|]. intros _. unfold authorised. by rewrite Hs. }
  destruct (negb (e =? 0)); [by apply hoare_ret; intros h [Hh _]; split; [auto|]|].
  eapply hoare_pre; [|by intros h [Hh _]; exact Hh].
  eapply hoare_bind; [apply hoare_quiet; eauto with quiet_db|]. intros []; cbn [negb]; [|by apply hoare_ret; intros h Hh; split; [auto|]].
  eapply hoare_bind; [apply (hoare_get _ (fun x h => untouched h /\ h_sentinel x = h_sentinel h0))|].
  { intros h Hh. split; [done|]. by destruct Hh as ((_ & _ & -> & _) & _). }
  intros x. apply hoare_pure. intros Ex. rewrite Ex. unfold authorised. destruct (h_sentinel h0) as [[text st]|]; [|by apply hoare_ret; auto].
  destruct (Z.land _ _ =? _) eqn:E1; cbn [negb andb]; [|by apply Hfail].
  destruct (private 0x180 st) eqn:E2; cbn [negb]; [|by apply Hfail].
  eapply hoare_bind; [apply hoare_quiet; eauto with quiet_db|]. intros []; cbn [negb]; [|by apply hoare_ret; intros h Hh; split; [apply Hsub, Hh|]].
  eapply hoare_bind; [apply hoare_quiet; eauto with quiet_db|]. intros r. destruct (_ || _); [by apply Hfail|].
  eapply hoare_bind; [apply read_passphrase_offered|]. intros [pass|]; [|by apply Hfail; intros h []].
  destruct (pw_verify PW _ pass) eqn:Ev; [|by apply Hfail; intros h []].
  apply hoare_ret. intros h [Hh Ho]. split; [done|]. intros _. by rewrite (Ho pass eq_refl).
Qed.

Lemma unpin_refused requested :
  authorised K PW h0 = false ->
  hoare untouched (unpin_action K PW requested) (fun rc h => same_tree h0 h /\ rc = 1) (same_tree h0).
Proof.
  intros Ha. assert (Hsub : forall h, untouched h -> same_tree h0 h) by by intros h [].
  unfold unpin_action. eapply hoare_bind; [apply hoare_quiet; eauto with quiet_db|].
  intros []; cbn [negb]; [|by apply hoare_ret; auto]. eapply hoare_bind; [apply hoare_quiet; eauto with quiet_db|].
  intros []; cbn [negb]; [|by apply hoare_ret; auto].
  eapply hoare_bind; [apply authgate_checks|]. intros []; cbn [negb]; [|by apply hoare_ret; intros h []].
  eapply hoare_pre; [|intros h [_ H]; rewrite Ha in H; discriminate (H eq_refl)].
  instantiate (1 := fun _ => False). by intros s [].
Qed.
End Gate.

(** ** The wait for the kernel *)

Section Drain.
Context (K : pkernel) (ids : list Z).

Definition all_gone (poll : nat) : Prop := Forall (fun id => pk_prog K poll id = ProgGone) ids.
Definition no_error (poll : nat) : Prop := Forall (fun id => pk_prog K poll id <> ProgError) ids.

(** At some poll within the budget everything was gone, and nothing was unclear before. *)
Definition drained_by (first : nat) (timeout_ms : Z) : Prop :=
  exists k, all_gone (first + k) /\ forall j, (j < k)%nat -> no_error (first + j) /\ 100 * Z.of_nat (first + j) < timeout_ms.

Lemma poll_programs_spec poll alive :
  match poll_programs K poll ids alive with
  | None => ~ no_error poll
  | Some n => no_error poll /\ (alive <= n)%nat /\ (n = alive <-> all_gone poll)
  end.
Proof.
  unfold all_gone, no_error. revert alive. induction ids as [|id l IH]; intros alive; cbn [poll_programs]; [by split_and!|].
  destruct (pk_prog K poll id) eqn:E.
  - specialize (IH (S alive)). destruct (poll_programs K poll l (S alive)) as [n|].
    + destruct IH as (H1 & H2 & H3). rewrite !Forall_cons, E. split_and!; [done|done|lia|]. split; [lia|]. by intros [].
    + intros H%Forall_cons. naive_solver.
  - specialize (IH alive). destruct (poll_programs K poll l alive) as [n|].
    + destruct IH as (H1 & H2 & H3). rewrite !Forall_cons, E. split_and!; [done|done|lia|]. rewrite H3. naive_solver.
    + intros H%Forall_cons. naive_solver.
  - intros H%Forall_cons. naive_solver.
Qed.

Lemma drain_loop_spec fuel first timeout_ms :
  timeout_ms <= 100 * Z.of_nat (first + fuel) - 100 -> (0 < fuel)%nat ->
  exists b, drain_loop K fuel first ids (100 * Z.of_nat first) timeout_ms = Some b /\ (b = true <-> drained_by first timeout_ms).
Proof.
  revert first. induction fuel as [|fuel IH]; intros first Hf Hpos; [lia|]. cbn [drain_loop].
  pose proof (poll_programs_spec first 0) as Hp. destruct (poll_programs K first ids 0) as [[|n]|].
  - destruct Hp as (_ & _ & Hg). exists true. split; [done|]. split; [|done]. intros _. exists 0%nat.
    rewrite Nat.add_0_r. split; [by apply Hg|]. lia.
  - destruct Hp as (He & _ & Hg). destruct (Z.leb_spec timeout_ms (100 * Z.of_nat first)) as [Ht|Ht].
    + exists false. split; [done|]. split; [done|]. intros ([|k] & Ha & Hb); [rewrite Nat.add_0_r in Ha; apply Hg in Ha; lia|].
      destruct (Hb 0%nat ltac:(lia)) as [_ Hlt]. rewrite Nat.add_0_r in Hlt. lia.
    + destruct (IH (S first)) as (b & Eb & Hb); [lia|lia|].
      replace (100 * Z.of_nat first + 100) with (100 * Z.of_nat (S first)) by lia. exists b. split; [done|]. rewrite Hb.
      split; intros (k & Ha & Hk).
      * exists (S k). rewrite <- Nat.add_succ_comm. split; [done|]. intros [|j] Hj; [by rewrite Nat.add_0_r|].
        rewrite <- Nat.add_succ_comm. apply Hk. lia.
      * destruct k as [|k]; [rewrite Nat.add_0_r in Ha; apply Hg in Ha; lia|]. exists k. rewrite Nat.add_succ_comm. split; [done|].
        intros j Hj. rewrite Nat.add_succ_comm. apply Hk. lia.
  - exists false. split; [done|]. split; [done|]. intros (k & Ha & Hk). destruct Hp. destruct k as [|k].
    + rewrite Nat.add_0_r in Ha. eapply Forall_impl; [exact Ha|]. cbn. by intros x ->.
    + destruct (Hk 0%nat ltac:(lia)) as [H _]. by rewrite Nat.add_0_r in H.
Qed.
End Drain.

Lemma wait_program_drain_spec K ids timeout_ms :
  wait_program_drain K ids timeout_ms = true <-> drained_by K ids 0 timeout_ms.
Proof.
  assert (Hloop : exists b, drain_loop K (drain_fuel timeout_ms) 0 ids 0 timeout_ms = Some b
                            /\ (b = true <-> drained_by K ids 0 timeout_ms)).
  { apply (drain_loop_spec K ids (drain_fuel timeout_ms) 0); unfold drain_fuel; [|lia].
    pose proof (Z.div_mod timeout_ms 100 ltac:(lia)). pose proof (Z.mod_pos_bound timeout_ms 100 ltac:(lia)). lia. }
  destruct Hloop as (b & Eb & Hb). unfold wait_program_drain. destruct ids as [|id l].
  - split; [|done]. intros _. exists 0%nat. split; [constructor|lia].
  - rewrite Eb. exact Hb.
Qed.

(** ** A complete unpin *)

Lemma in_listing d h n : n ∈ listing d h <-> in_host h (InDir d n) = true.
Proof.
  destruct d; cbn [listing in_host]; rewrite bool_decide_eq_true, list_elem_of_fmap.
  - split; [intros ([? v] & -> & Hv%elem_of_map_to_list); eauto|]. intros [v Hv]. exists (n, v). by rewrite elem_of_map_to_list.
  - split; [intros ([? v] & -> & Hv%elem_of_map_to_list); eauto|]. intros [v Hv]. exists (n, v). by rewrite elem_of_map_to_list.
Qed.

Lemma in_host_without d n h m : in_host (without (InDir d n) h) (InDir d m) = true -> m <> n /\ in_host h (InDir d m) = true.
Proof.
  destruct d; cbn; rewrite !bool_decide_eq_true; intros [v Hv]; apply lookup_delete_Some in Hv as [Hne Hv]; eauto.
Qed.

Definition swept (d : pin_dir) (h : host) : Prop := forall n, n ∈ known d -> in_host h (InDir d n) = false.

Lemma without_other d d' n h m : d <> d' -> in_host (without (InDir d n) h) (InDir d' m) = in_host h (InDir d' m).
Proof. by destruct d, d'. Qed.

Section Complete.
Context (K : pkernel) (Hhonest : honest K).

(** What a sweep of one directory leaves in the other. *)
Lemma sweep_loop_complete d l r u (I : host -> Prop) :
  (forall h n, n ∈ known d -> I h -> I (without (InDir d n) h)) ->
  hoare (fun h => I h /\ forall n, n ∈ known d -> in_host h (InDir d n) = true -> n ∈ l) (sweep_loop K d l r u)
    (fun x h => I h /\ (x.1.1 = true -> swept d h)) I.
Proof.
  intros HI. revert r u. induction l as [|n l IH]; intros r u; cbn [sweep_loop].
  { apply hoare_ret. intros h [Hi H]. split; [done|]. intros _ n Hn. apply not_true_iff_false. intros E. by apply H in E; [inversion E|]. }
  assert (Hskip : n ∉ known d -> hoare
    (fun h => I h /\ forall m, m ∈ known d -> in_host h (InDir d m) = true -> m ∈ n :: l) (sweep_loop K d l r u)
    (fun x h => I h /\ (x.1.1 = true -> swept d h)) I).
  { intros Hn. eapply hoare_pre; [apply IH|]. intros h [Hi H]. split; [done|]. intros m Hm Em. specialize (H m Hm Em). set_solver. }
  destruct (_ || _) eqn:Edot.
  { apply Hskip. intros Hn. apply orb_true_iff in Edot as [->%String.eqb_eq | ->%String.eqb_eq];
      destruct d; apply name_in_true in Hn; discriminate Hn. }
  destruct (name_in n (known d)) eqn:En; cbn [negb].
  2: { eapply hoare_pre; [apply IH|]. intros h [Hi H]. split; [done|]. intros m Hm Em. specialize (H m Hm Em).
       apply elem_of_cons in H as [->|H]; [|done]. apply name_in_true in Hm. congruence. }
  eapply (hoare_bind _ _ _ (fun e h => (I h /\ forall m, m ∈ known d -> in_host h (InDir d m) = true -> m ∈ n :: l)
     /\ (e = 0 -> in_host h (InDir d n) = false))).
  - apply hoare_sys. intros h k [Hi H]. cbv zeta. apply name_in_true in En.
    destruct (Z.eqb_spec (answer K k h (PUnlink (InDir d n))) 0) as [->|Hne]; (split; [|auto]).
    + split; [split; [by apply HI|]|].
      * intros m Hm Em%in_host_without. apply H; [done|apply Em].
      * intros _. apply not_true_iff_false. intros Em%in_host_without. naive_solver.
    + split; [by split|]. by intros.
  - intros e. destruct (Z.eqb_spec e 0) as [->|Hne].
    + eapply hoare_pre; [apply IH|]. intros h [[Hi H] Hn]. split; [done|]. intros m Hm Em.
      specialize (H m Hm Em). apply elem_of_cons in H as [->|H]; [|done]. rewrite Hn in Em; done.
    + apply hoare_ret. by intros h [[Hi _] _].
Qed.

Lemma sweep_complete d (I : host -> Prop) :
  (forall h n, n ∈ known d -> I h -> I (without (InDir d n) h)) ->
  hoare I (sweep_known K d) (fun ok h => I h /\ (ok = true -> swept d h)) I.
Proof.
  intros HI. unfold sweep_known.
  eapply (hoare_bind _ _ _ (fun e h => I h /\ (e = ENOENT -> swept d h))).
  { apply hoare_query; [|done]. intros h n Hi. split; [done|]. intros He m Hm. unfold answer in He. cbn in He.
    apply Hhonest in He. cbn in He. apply not_true_iff_false. intros Em%in_listing. rewrite He in Em. inversion Em. }
  intros e. destruct (Z.eqb_spec e ENOENT) as [->|Hne]; [by apply hoare_ret; intros h [Hi H]; split; [done|]; auto|].
  destruct (negb _); [by apply hoare_ret; intros h [Hi _]|].
  eapply (hoare_bind _ _ _ (fun x h => I h /\ x = h)); [by apply hoare_get; intros h [Hi _]|]. intros x.
  eapply (hoare_bind _ _ _ (fun r h => I h /\ (r.1.1 = true -> swept d h))); [|by intros [[ok ?] ?]; apply hoare_ret].
  eapply hoare_pre; [by apply sweep_loop_complete|]. intros h [Hi ->]. split; [done|]. intros n _ En. apply elem_of_app. right.
  by apply in_listing.
Qed.
Lemma collect_complete dir names ids h1 :
  hoare (fun h => h_links h = h_links h1) (collect_loop K dir names ids)
    (fun r h => h_links h = h_links h1 /\ forall out, r = Some out -> ids ⊆ out
       /\ forall n id, n ∈ names -> h_links h1 !! n = Some id -> id <> 0 -> id ∈ out) (fun _ => True).
Proof.
  revert ids. induction names as [|n names IH]; intros ids; cbn [collect_loop].
  { apply hoare_ret. intros h Hh. split; [done|]. intros out [= <-]. split; [done|]. intros n id Hn. inversion Hn. }
  destruct (negb _); [by apply hoare_ret|].
  eapply (hoare_bind _ _ _ (fun e h => h_links h = h_links h1 /\ (e = ENOENT -> h_links h1 !! n = None))).
  { apply hoare_query; [|done]. intros h k Hh. split; [done|]. unfold answer. cbn [state_errno in_host].
    case_bool_decide as Hs; cbn; [intros He; by apply Hhonest in He|]. intros _. rewrite <- Hh. by apply eq_None_not_Some. }
  intros e. apply hoare_pure. intros He. destruct (Z.eqb_spec e ENOENT) as [->|_].
  { eapply hoare_post; [apply IH|]. intros r h [Hh Hr]. split; [done|]. intros out Eo. destruct (Hr out Eo) as [H1 H2]. split; [done|].
    intros m id [->|Hm]%elem_of_cons Em; [rewrite He in Em by done; done|eauto]. }
  destruct (negb _); [by apply hoare_ret|].
  eapply hoare_bind; [by apply hoare_quiet; eauto with quiet_db|]. intros e'. destruct (negb _); [by apply hoare_ret|].
  eapply (hoare_bind _ _ _ (fun x h => h_links h = h_links h1 /\ h_links x = h_links h1)); [by apply hoare_get|].
  intros x. apply hoare_pure. intros ->. cbv zeta.
  assert (Hgo : forall ids', ids ⊆ ids' -> (forall id, h_links h1 !! n = Some id -> id <> 0 -> id ∈ ids') ->
    hoare (fun h => h_links h = h_links h1) (collect_loop K dir names ids')
    (fun r h => h_links h = h_links h1 /\ forall out, r = Some out -> ids ⊆ out
       /\ forall m id, m ∈ n :: names -> h_links h1 !! m = Some id -> id <> 0 -> id ∈ out) (fun _ => True)).
  { intros ids' Hs Hn. eapply hoare_post; [apply IH|]. intros r h [Hh Hr]. split; [done|]. intros out Eo. destruct (Hr out Eo) as [H1 H2].
    split; [set_solver|]. intros m id [->|Hm]%elem_of_cons Em Hid; [apply H1; eauto|eauto]. }
  destruct (h_links h1 !! n) as [id|] eqn:En; [|apply Hgo; [done|by intros ? [=]]].
  change (default 0 (Some id)) with id.
  destruct (Z.eqb_spec id 0) as [->|Hid]; cbn [orb]; [apply Hgo; [done|naive_solver]|].
  case_bool_decide as Hin; [apply Hgo; [done|naive_solver]|]. destruct (Nat.leb _ _); [by apply hoare_ret|].
  apply Hgo; [set_solver|]. intros id' [= <-] _. set_solver.
Qed.

Lemma swept_sentinel d h : swept d h -> swept d (without Sentinel h).
Proof. by destruct d. Qed.

Lemma unpin_root_complete root h1 :
  hoare (fun h => h_links h = h_links h1) (unpin_root K root)
    (fun rc h => rc = 0 -> swept LinkDir h /\ swept MapDir h
       /\ exists ids, (forall n id, n ∈ KNOWN_LINK_NAMES -> h_links h1 !! n = Some id -> id <> 0 -> id ∈ ids)
                     /\ drained_by K ids 0 60000) (fun _ => True).
Proof.
  assert (H1 : forall (P : host -> Prop) R, hoare P (mret 1) (fun rc h => rc = 0 -> R h) (fun _ => True)) by by intros; apply hoare_ret.
  unfold unpin_root. destruct (negb _); [apply H1|]. eapply hoare_bind; [apply collect_complete|].
  intros [ids|]; [|apply H1]. eapply hoare_pre.
  2: { intros h [_ H]. exact (conj I (proj2 (H ids eq_refl))). }
  apply hoare_pure. intros Hids. eapply hoare_bind; [by apply (sweep_complete LinkDir (fun _ => True))|].
  intros []; cbn [negb]; [|apply H1]. destruct (negb _); [apply H1|].
  eapply hoare_bind; [eapply hoare_weaken; [apply (sweep_complete MapDir (swept LinkDir))|by intros h [_ H]; apply H|by intros a h H; exact H|done]|].
  { intros h n _ Hs m Hm. rewrite without_other by done. by apply Hs. }
  intros []; cbn [negb]; [|apply H1].
  eapply (hoare_bind _ _ _ (fun _ h => swept LinkDir h /\ swept MapDir h)).
  { unfold ed11_unpin_sentinel_unlink, unlink_sentinel. eapply (hoare_bind _ _ _ (fun _ h => swept LinkDir h /\ swept MapDir h)).
    - apply hoare_sys. intros h n [Hl Hm]. cbv zeta. split; [|done]. destruct (_ =? 0); split; auto using swept_sentinel.
    - intros ?. by apply hoare_ret. }
  intros ?. unfold unpin_drain_or_warn. apply hoare_ret. intros h [Hl Hm] Hrc. split_and!; [done|done|]. exists ids. split; [done|].
  apply wait_program_drain_spec. by destruct (wait_program_drain K ids 60000).
Qed.

Lemma unpin_complete PW root h0 :
  pk_realpath K PIN_ROOT = inr root ->
  hoare (untouched h0) (unpin_action K PW None)
    (fun rc h => rc = 0 -> swept LinkDir h /\ swept MapDir h
       /\ exists ids, (forall n id, n ∈ KNOWN_LINK_NAMES -> h_links h0 !! n = Some id -> id <> 0 -> id ∈ ids)
                     /\ drained_by K ids 0 60000) (fun _ => True).
Proof.
  intros Hroot.
  assert (H1 : forall (P : host -> Prop) R, hoare P (mret 1) (fun rc h => rc = 0 -> R h) (fun _ => True)) by by intros; apply hoare_ret.
  unfold unpin_action. eapply hoare_bind; [by apply hoare_quiet; eauto with quiet_db|]. intros []; cbn [negb]; [|apply H1].
  eapply hoare_bind; [by apply hoare_quiet; eauto with quiet_db|]. intros []; cbn [negb]; [|apply H1].
  eapply hoare_bind; [eapply hoare_weaken; [apply (authgate_checks K PW h0 Hhonest)|done|by intros a h H; exact H|done]|].
  intros []; cbn [negb]; [|apply H1]. unfold unpin_resolve. rewrite Hroot.
  destruct (negb (fits root)); [apply H1|]. change (mret ?x ≫= ?f) with (f x). cbv beta iota.
  assert (streq root root = true) as -> by by apply bool_decide_eq_true.
  eapply hoare_pre; [apply unpin_root_complete|]. by intros h [[H _] _].
Qed.
End Complete.

(** ** The theorems *)

(** C24: without the passphrase nothing is unpinned.  When a sentinel exists and
    the passphrase offered does not verify against it (or none is offered, or the
    sentinel is not a private regular file of root), [--unpin] exits with 1 and at
    no moment of its run is a pin, the sentinel or the policy different, whatever
    path it was asked to remove and however the kernel answers. *)
Theorem unpin_requires_passphrase K PW requested h0 :
  honest K -> authorised K PW h0 = false ->
  let '(rc, s) := unpin_action K PW requested (Run h0 []) in
  rc = 1 /\ same_tree h0 (r_host s) /\ Forall (fun e => same_tree h0 e.2) (r_log s).
Proof.
  intros Hh Ha. destruct (unpin_refused K PW h0 Hh requested Ha (Run h0 [])) as ((Ht & Hr) & l & El & Hl); [done|].
  destruct (unpin_action K PW requested (Run h0 [])) as [rc s]. cbn in *. by rewrite El.
Qed.

(** [--unpin] removes known names only.  At every moment of its run, for any
    path and any answers of the kernel, the pin directories hold nothing new and
    have lost nothing but pins whose name is in the tables of the loader. *)
Theorem unpin_known_only K PW requested h0 :
  Forall (fun e => only_known_removed h0 e.2) (r_log (unpin_action K PW requested (Run h0 [])).2).
Proof.
  destruct (unpin_action_only K PW h0 requested (Run h0 [])) as (_ & l & El & Hl); [apply okr_refl|].
  by rewrite El.
Qed.

(** When [--unpin] returns 0, enforcement is gone.  No known pin is left in
    either directory, and at one of the polls within the minute every program that
    was behind a link pin had been released by the kernel, with every earlier poll
    able to tell. *)
Theorem unpin_zero_means_drained K PW root h0 :
  honest K -> pk_realpath K PIN_ROOT = inr root ->
  let '(rc, s) := unpin_action K PW None (Run h0 []) in
  rc = 0 ->
  swept LinkDir (r_host s) /\ swept MapDir (r_host s)
  /\ exists ids, (forall n id, n ∈ KNOWN_LINK_NAMES -> h_links h0 !! n = Some id -> id <> 0 -> id ∈ ids)
                /\ drained_by K ids 0 60000.
Proof.
  intros Hh Hr. destruct (unpin_complete K Hh PW root h0 Hr (Run h0 [])) as (H & _); [done|].
  by destruct (unpin_action K PW None (Run h0 [])) as [rc s].
Qed.
