(* ===== verification/PinSafety.v ===== *)
(** * Pinning is all or nothing

    The pin phase of [main]: either the whole policy is pinned or the tree is as
    it was, and at every moment in between the links are behind the passphrase. *)

From S2P Require Import Prelude Abi Kernel CLib Config Loader Pin Unpin PinMain PinProps UnpinProps.
From Stdlib Require Import Ascii.
From stdpp Require Import strings.

#[local] Open Scope Z_scope.

(** Directories can be listed and files of the process's own removed. *)
Definition removable (K : pkernel) : Prop :=
  forall n h c, match c with PUnlink _ | POpenDir _ => pk_errno K n h c = 0 | _ => True end.

(** An invariant of the pin tree and the sentinel. *)
Definition tree_inv (I : host -> Prop) : Prop :=
  forall h h', h_links h' = h_links h -> h_maps h' = h_maps h -> h_sentinel h' = h_sentinel h -> I h -> I h'.

Section Frame.
Context (K : pkernel) (PW : pwhash) (o : popts) (I : host -> Prop) (HI : tree_inv I).
Abbreviation keeps m := (hoare I m (fun _ => I) I).

Lemma keep_policy c f : keeps (sys K c (with_policy f)).
Proof. apply hoare_keep. intros h. by apply HI. Qed.

Lemma keep_freeze c m : keeps (sys K c (freeze m)).
Proof. apply hoare_keep. intros h. by apply HI. Qed.

Lemma keep_update m f : keeps (update K m f).
Proof. apply keep_then; [apply keep_policy|]. intros e. apply keep_ret. Qed.

Lemma keep_record_fixed dev l : keeps (record_fixed K dev l).
Proof. pose proof keep_update. induction l; cbn [record_fixed]; solve_keep. Qed.

Lemma keep_record_named dev d l : keeps (record_named K dev d l).
Proof. pose proof keep_update. induction l; cbn [record_named]; solve_keep. Qed.

Lemma keep_record_pins : keeps (self_protect_record_pins K o).
Proof.
  pose proof keep_update. pose proof keep_record_fixed. pose proof keep_record_named. pose proof keep_freeze.
  unfold self_protect_record_pins. cbv zeta. solve_keep.
Qed.

Lemma keep_read_passphrase : keeps (ed11_read_passphrase K).
Proof.
  assert (forall h, I h -> I (set_env None h)) by (intros h; by apply HI). unfold ed11_read_passphrase. solve_keep.
Qed.
End Frame.

(** ** The sentinel *)

Section Sentinel.
Context (K : pkernel) (PW : pwhash).

(** The host outside the sentinel. *)
Definition tree_is (L : gmap string Z) (M : gmap string bpf_map) (h : host) : Prop := h_links h = L /\ h_maps h = M.

Lemma write_loop_whole L M ws t st rest :
  hoare (fun h => tree_is L M h /\ h_sentinel h = Some (t, st)) (write_loop K ws rest)
    (fun ok h => tree_is L M h /\ (ok = true -> h_sentinel h = Some (t ++ rest, st))) (tree_is L M).
Proof.
  revert t rest. induction ws as [|a ws IH]; intros t rest; cbn [write_loop]; (destruct rest as [|c r];
    [apply hoare_ret; intros h [Hh Hs]; split; [done|]; intros _; by rewrite app_nil_r|]).
  - eapply (hoare_bind _ _ _ (fun e h => tree_is L M h /\ (e = 0 -> h_sentinel h = Some (t ++ c :: r, st)))).
    + apply hoare_sys. intros h n [Hh Hs]. cbv zeta. rewrite Hs. destruct (Z.eqb_spec (answer K n h (PWrite (length (c :: r)))) 0); [|done]. by split.
    + intros e. apply hoare_ret. intros h [Hh He]. split; [done|]. intros E%Z.eqb_eq. auto.
  - destruct a as [| |k].
    + apply IH.
    + by apply hoare_ret; intros h [Hh _].
    + eapply (hoare_bind _ _ _ (fun e h => tree_is L M h /\ (e = 0 -> h_sentinel h = Some (t ++ take k (c :: r), st)))).
      * apply hoare_sys. intros h n [Hh Hs]. cbv zeta. rewrite Hs. destruct (Z.eqb_spec (answer K n h (PWrite k)) 0); [|done]. by split.
      * intros e. destruct (Z.eqb_spec e 0) as [->|]; [|by apply hoare_ret; intros h [Hh _]].
        eapply hoare_post; [eapply hoare_pre; [apply IH|]|].
        { intros h [Hh He]. split; [done|]. by apply He. }
        intros ok h [Hh Hok]. split; [done|]. intros E. rewrite Hok by done. by rewrite <- app_assoc, take_drop.
Qed.

(** What a written sentinel is. *)
Definition sentinel_for (pass : cstring) (h : host) : Prop :=
  exists hash st, pw_str PW pass = Some hash /\ h_sentinel h = Some (hash, st)
  /\ private 0x180 st = true /\ Z.land (st_mode st) S_IFMT = S_IFREG.

Lemma unlink_sentinel_tree L M : hoare (tree_is L M) (unlink_sentinel K) (fun _ => tree_is L M) (tree_is L M).
Proof. apply hoare_keep. by intros h. Qed.

Lemma write_sentinel_spec L M pass :
  hoare (tree_is L M) (ed11_write_sentinel K PW pass)
    (fun ok h => tree_is L M h /\ (ok = true -> sentinel_for pass h)) (tree_is L M).
Proof.
  assert (Hno : forall P : host -> Prop, (forall h, P h -> tree_is L M h) ->
    hoare P (mret false) (fun ok h => tree_is L M h /\ (ok = true -> sentinel_for pass h)) (tree_is L M)).
  { intros P HP. apply hoare_ret. intros h Hh. by split; [apply HP|]. }
  assert (Hback : forall P : host -> Prop, (forall h, P h -> tree_is L M h) ->
    hoare P (unlink_sentinel K ;; mret false) (fun ok h => tree_is L M h /\ (ok = true -> sentinel_for pass h)) (tree_is L M)).
  { intros P HP. eapply hoare_bind; [eapply hoare_pre; [apply unlink_sentinel_tree|exact HP]|]. intros ?. by apply Hno. }
  unfold ed11_write_sentinel. eapply hoare_bind; [by apply hoare_quiet; eauto with quiet_db|].
  intros []; cbn [negb]; [|by apply Hno]. eapply hoare_bind; [by apply hoare_quiet; eauto with quiet_db|].
  intros []; cbn [negb]; [|by apply Hno]. eapply hoare_bind; [apply unlink_sentinel_tree|]. intros u.
  destruct (_ && _); [by apply Hno|]. destruct (pw_str PW pass) as [hash|] eqn:Eh; [|by apply Hno].
  eapply (hoare_bind _ _ _ (fun e h => tree_is L M h /\ (e = 0 -> h_sentinel h = Some ([], pk_new_sentinel K)))).
  { apply hoare_sys. intros h n Hh. cbv zeta. destruct (Z.eqb_spec (answer K n h PCreateSentinel) 0); [|done]. by split. }
  intros e. destruct (Z.eqb_spec e 0) as [->|]; cbn [negb]; [|by apply Hno; intros h []].
  eapply hoare_bind; [eapply hoare_pre; [apply write_loop_whole|]|].
  { intros h [Hh He]. split; [done|]. by apply He. }
  intros []; cbn [negb]; [|by apply Hback; intros h []].
  eapply hoare_bind; [apply hoare_quiet; [eauto with quiet_db|by intros h []]|]. intros []; cbn [negb]; [|by apply Hback; intros h []].
  destruct (private 0x180 _ && _) eqn:Ep; [|by apply Hback; intros h []].
  apply hoare_ret. intros h [Hh Hs]. split; [done|]. intros _. apply andb_true_iff in Ep as [Ep Er%Z.eqb_eq].
  exists hash, (pk_new_sentinel K). split_and!; [done|by apply Hs|done|done].
Qed.
End Sentinel.

(** ** Links *)

Definition step_name (p : pin_step) : string := match p with PinLink n | PinEither n _ | PinIfLoaded n => n end.
Definition required (p : pin_step) : bool := match p with PinIfLoaded _ => false | _ => true end.

(** The names [--pin] uses are names [--unpin] knows. *)
Lemma plan_known p : p ∈ pin_plan -> step_name p ∈ KNOWN_LINK_NAMES.
Proof.
  intros H. apply name_in_true. revert p H. apply Forall_forall.
  apply (bool_decide_unpack (Forall (fun p => name_in (step_name p) KNOWN_LINK_NAMES = true) pin_plan)). vm_compute. exact I.
Qed.

Lemma map_names_known n : n ∈ pinned_map_names -> n ∈ KNOWN_MAP_NAMES.
Proof.
  intros H. apply name_in_true. revert n H. apply Forall_forall.
  apply (bool_decide_unpack (Forall (fun n => name_in n KNOWN_MAP_NAMES = true) pinned_map_names)). vm_compute. exact I.
Qed.

(** The array of [pin_links] holds every name it records. *)
Lemma plan_fits : (length pin_plan <= 32)%nat.
Proof. vm_compute. lia. Qed.

Section Links.
Context (K : pkernel) (L0 : gmap string Z) (Hfree : forall n, n ∈ KNOWN_LINK_NAMES -> L0 !! n = None).

(** The links are those of [L0] and, among the known names, at most or exactly [l]. *)
Definition around (h : host) : Prop := forall n, n ∉ KNOWN_LINK_NAMES -> h_links h !! n = L0 !! n.
Definition links_at_most (l : list string) (h : host) : Prop :=
  around h /\ forall n, n ∈ KNOWN_LINK_NAMES -> is_Some (h_links h !! n) -> n ∈ l.
Definition links_exactly (l : list string) (h : host) : Prop :=
  links_at_most l h /\ forall n, n ∈ l -> n ∈ KNOWN_LINK_NAMES /\ is_Some (h_links h !! n).

Lemma links_restored h : links_at_most [] h -> h_links h = L0.
Proof.
  intros [Ha Hn]. apply map_eq. intros n. destruct (decide (n ∈ KNOWN_LINK_NAMES)) as [Hk|Hk]; [|by apply Ha].
  rewrite (Hfree n Hk). apply eq_None_not_Some. intros Hs. apply Hn in Hs; [inversion Hs|done].
Qed.

Lemma links_initial h : h_links h = L0 -> links_exactly [] h.
Proof.
  intros Hh. split; [split|].
  - by intros n _; rewrite Hh.
  - intros n Hk. rewrite Hh, (Hfree n Hk). by intros [? ?].
  - intros n Hn. inversion Hn.
Qed.

Section Guarded.
Context (F : host -> Prop) (HF : forall v h, F h -> F (set_links v h)).

Lemma pin_one_link_spec link n pinned :
  n ∈ KNOWN_LINK_NAMES ->
  hoare (fun h => links_exactly pinned h /\ F h) (pin_one_link K link n pinned)
    (fun r h => links_exactly r.2 h /\ F h /\ pinned ⊆ r.2 /\ (r.1 = true -> n ∈ r.2)) (fun h => around h /\ F h).
Proof.
  intros Hn. unfold pin_one_link. destruct link as [id|]; [|by apply hoare_ret; intros h []].
  destruct (negb _); [by apply hoare_ret; intros h []|].
  eapply (hoare_bind _ _ _ (fun e h => (if e =? 0 then links_exactly (pinned ++ [n]) h else links_exactly pinned h) /\ F h)).
  - apply hoare_sys. intros h k [[[Ha Hm] Hp] Hf]. cbv zeta. destruct (_ =? 0); [|split; [split; [split; [split|]|]|split]; done].
    assert (Ha' : around (set_links (<[n:=id]> (h_links h)) h)).
    { intros m Hm'. cbn. rewrite lookup_insert_ne; [by apply Ha|]. by intros ->. }
    split; [|split; auto]. split; [|auto]. split; [split; [done|]|].
    + intros m Hk [v Hv]. cbn in Hv. apply lookup_insert_Some in Hv as [[<- _]|[_ Hv]]; [set_solver|].
      apply elem_of_app. left. apply Hm; eauto.
    + intros m [Hm'|Hm']%elem_of_app; cbn.
      * destruct (decide (n = m)) as [->|Hne]; [rewrite lookup_insert_eq; eauto|]. rewrite lookup_insert_ne by done. auto.
      * apply list_elem_of_singleton in Hm' as ->. rewrite lookup_insert_eq. eauto.
  - intros e. apply hoare_ret. intros h [He Hf]. destruct (e =? 0); cbn; (split_and!; [done|done| |]); set_solver.
Qed.

Lemma pin_steps_spec plan pinned :
  Forall (fun p => step_name p ∈ KNOWN_LINK_NAMES) plan ->
  hoare (fun h => links_exactly pinned h /\ F h) (pin_steps K plan pinned)
    (fun r h => links_exactly r.2 h /\ F h /\ pinned ⊆ r.2
       /\ (r.1 = true -> Forall (fun p => required p = true -> step_name p ∈ r.2) plan)) (fun h => around h /\ F h).
Proof.
  intros Hp. revert pinned. induction Hp as [|p plan Hk Hp IH]; intros pinned; cbn [pin_steps]; [by apply hoare_ret; intros h []|].
  eapply (hoare_bind _ _ _ (fun _ h => links_exactly pinned h /\ F h)); [by apply hoare_get|]. intros x.
  eapply (hoare_bind _ _ _ (fun r h => (links_exactly r.2 h /\ F h) /\ pinned ⊆ r.2 /\ (r.1 = true -> required p = true -> step_name p ∈ r.2))).
  { destruct p as [n|n lg|n]; cbn [pin_one_step step_name required] in *.
    - eapply hoare_post; [by apply pin_one_link_spec|]. naive_solver.
    - eapply hoare_post; [by apply pin_one_link_spec|]. naive_solver.
    - destruct (link_of K x n); [eapply hoare_post; [by apply pin_one_link_spec|]; naive_solver|]. by apply hoare_ret; intros h []. }
  intros [ok pinned']. apply hoare_pure. cbn [fst snd]. intros [Hs Hr]. destruct ok.
  - eapply hoare_post; [apply IH|]. intros [ok l] h (H1 & H2 & H3 & H4). cbn [fst snd] in *. split_and!; [done|done|set_solver|].
    intros E. constructor; [|by apply H4]. intros Hq. apply H3, Hr; done.
  - apply hoare_ret. intros h [H1 H2]. by split_and!.
Qed.

Lemma around_delete n h : n ∈ KNOWN_LINK_NAMES -> around h -> around (without (InDir LinkDir n) h).
Proof. intros Hn Ha m Hm. cbn. rewrite lookup_delete_ne; [by apply Ha|]. by intros ->. Qed.

Lemma unlink_links_spec l (Hrm : removable K) :
  Forall (fun n => n ∈ KNOWN_LINK_NAMES) l ->
  hoare (fun h => links_at_most l h /\ F h) (unlink_pinned K LinkDir l) (fun _ h => links_at_most [] h /\ F h)
    (fun h => around h /\ F h).
Proof.
  intros Hl. induction Hl as [|n l Hn Hl IH]; cbn [unlink_pinned]; [by apply hoare_ret|].
  eapply (hoare_bind _ _ _ (fun _ h => links_at_most l h /\ F h)); [|by intros ?; apply IH].
  apply hoare_sys. intros h k [[Ha Hm] Hf]. cbv zeta. unfold answer. cbn [state_errno in_host]. case_bool_decide as Hs; cbn.
  - rewrite (Hrm k h (PUnlink _)). cbn. pose proof (around_delete n h Hn Ha) as Ha'. cbn in Ha'.
    split; [split; [split; [done|]|auto]|auto]. intros m Hk [v Hv]. cbn in Hv. apply lookup_delete_Some in Hv as [Hne Hv].
    specialize (Hm m Hk ltac:(eauto)). set_solver.
  - split; [split; [split; [done|]|done]|done]. intros m Hk Hv. specialize (Hm m Hk Hv).
    apply elem_of_cons in Hm as [->|?]; [|done]. done.
Qed.

Lemma pin_links_spec (Hrm : removable K) :
  hoare (fun h => h_links h = L0 /\ F h) (pin_links K)
    (fun ok h => F h /\ if (ok : bool) then around h /\ forall p, p ∈ pin_plan -> required p = true -> is_Some (h_links h !! step_name p)
                        else h_links h = L0) (fun h => around h /\ F h).
Proof.
  assert (Hc : forall h, h_links h = L0 /\ F h -> around h /\ F h) by (intros h [Hh Hf]; split; [by intros n _; rewrite Hh|done]).
  assert (Hno : hoare (fun h => h_links h = L0 /\ F h) (mret false)
    (fun ok h => F h /\ if (ok : bool) then around h /\ forall p, p ∈ pin_plan -> required p = true -> is_Some (h_links h !! step_name p)
                        else h_links h = L0) (fun h => around h /\ F h)) by by apply hoare_ret; intros h [].
  unfold pin_links. do 3 (eapply hoare_bind; [apply hoare_quiet; [eauto with quiet_db|exact Hc]|intros []; cbn [negb]; [|exact Hno]]).
  eapply hoare_bind; [eapply hoare_pre; [apply (pin_steps_spec pin_plan [])|]|].
  { apply Forall_forall. apply plan_known. }
  { intros h [Hh Hf]. split; [by apply links_initial|done]. }
  intros [[] pinned]; cbn [fst snd].
  - apply hoare_ret. intros h ([[Ha _] Hp] & Hf & _ & Hr). split; [done|]. split; [done|]. intros p Hin Hq.
    specialize (Hr eq_refl). rewrite Forall_forall in Hr. by apply Hp, Hr.
  - eapply (hoare_bind _ _ _ (fun _ h => links_at_most [] h /\ F h)).
    + eapply hoare_pre; [apply (hoare_pure _ (Forall (fun n => n ∈ KNOWN_LINK_NAMES) pinned)); intros Hk; by apply unlink_links_spec|].
      intros h ([Hm Hp] & Hf & _). split; [done|]. apply Forall_forall. intros n Hn. by apply Hp.
    + intros ?. apply hoare_ret. intros h [Hh Hf]. split; [done|]. by apply links_restored.
Qed.
End Guarded.
End Links.

(** ** Maps *)

Section MapPins.
Context (K : pkernel) (M0 : gmap string bpf_map) (F : host -> Prop) (HF : forall v h, F h -> F (set_maps v h)).

(** Every map pin is one of [M0] or of [l]. *)
Definition maps_within (l : list string) (h : host) : Prop :=
  forall n v, h_maps h !! n = Some v -> n ∈ l \/ M0 !! n = Some v.

Lemma pin_maps_spec names done :
  hoare (fun h => F h /\ maps_within done h /\ forall n, n ∈ done -> is_Some (h_maps h !! n)) (pin_maps K names done)
    (fun r h => F h /\ maps_within r.2 h /\ r.2 ⊆ done ++ names
       /\ (r.1 = true -> forall n, n ∈ done ++ names -> is_Some (h_maps h !! n))) F.
Proof.
  revert done. induction names as [|n names IH]; intros done; cbn [pin_maps].
  { apply hoare_ret. intros h (Hf & Hw & Hd). rewrite app_nil_r. by split_and!. }
  destruct (negb _); [by apply hoare_ret; intros h (? & ? & ?); split_and!; [done..|set_solver|]|].
  eapply (hoare_bind _ _ _ (fun e h => F h /\ maps_within (if e =? 0 then done ++ [n] else done) h
            /\ forall m, m ∈ (if e =? 0 then done ++ [n] else done) -> is_Some (h_maps h !! m))).
  - apply hoare_sys. intros h k (Hf & Hw & Hd). cbv zeta. destruct (_ =? 0); [|done]. split; [|auto]. split_and!; [auto| |].
    + intros m v Hv. cbn in Hv. apply lookup_insert_Some in Hv as [[<- _]|[_ Hv]]; [set_solver|]. apply Hw in Hv. set_solver.
    + intros m Hm. cbn. destruct (decide (n = m)) as [->|]; [rewrite lookup_insert_eq; eauto|]. rewrite lookup_insert_ne by done. set_solver.
  - intros e. destruct (e =? 0).
    + eapply hoare_post; [apply IH|]. intros r h H. by rewrite <- app_assoc in H.
    + by apply hoare_ret; intros h (? & ? & ?); split_and!; [done..|set_solver|].
Qed.

Lemma unlink_maps_spec l (Hrm : removable K) :
  hoare (fun h => F h /\ maps_within l h) (unlink_pinned K MapDir l) (fun _ h => F h /\ maps_within [] h) F.
Proof.
  induction l as [|n l IH]; cbn [unlink_pinned]; [by apply hoare_ret|].
  eapply (hoare_bind _ _ _ (fun _ h => F h /\ maps_within l h)); [|by intros ?; apply IH].
  apply hoare_sys. intros h k [Hf Hw]. cbv zeta. unfold answer. cbn [state_errno in_host]. case_bool_decide as Hs; cbn.
  - rewrite (Hrm k h (PUnlink _)). cbn. split; [|auto]. split; [auto|]. intros m v Hv. cbn in Hv.
    apply lookup_delete_Some in Hv as [Hne Hv]. apply Hw in Hv. set_solver.
  - split; [|done]. split; [done|]. intros m v Hv. pose proof (Hw m v Hv) as [[->|?]%elem_of_cons|?]; [|auto..]. destruct Hs. eauto.
Qed.

Lemma pin_counter_maps_spec (Hrm : removable K) :
  hoare (fun h => F h /\ maps_within [] h) (pin_counter_maps K)
    (fun ok h => F h /\ if (ok : bool) then maps_within KNOWN_MAP_NAMES h /\ forall n, n ∈ pinned_map_names -> is_Some (h_maps h !! n)
                        else maps_within [] h) F.
Proof.
  assert (Hf : forall h, F h /\ maps_within [] h -> F h) by by intros h [].
  unfold pin_counter_maps. do 2 (eapply hoare_bind; [apply hoare_quiet; [eauto with quiet_db|exact Hf]|intros []; cbn [negb];
    [|by apply hoare_ret; intros h []]]).
  eapply hoare_bind; [eapply hoare_pre; [apply (pin_maps_spec pinned_map_names [])|]|].
  { intros h [H1 H2]. split_and!; [done|done|]. intros n Hn. inversion Hn. }
  intros [[] l]; cbn [fst snd].
  - apply hoare_ret. intros h (H1 & H2 & H3 & H4). split; [done|]. split; [|by apply H4].
    intros n v Hv. destruct (H2 n v Hv) as [Hn|]; [left|by right]. by apply map_names_known, H3.
  - eapply (hoare_bind _ _ _ (fun _ h => F h /\ maps_within [] h)); [|by intros ?; apply hoare_ret].
    eapply hoare_pre; [by apply unlink_maps_spec|]. by intros h (? & ? & _).
Qed.
End MapPins.

(** ** Rolling back *)

Lemma listing_nodup d h : NoDup (listing d h).
Proof. destruct d; apply NoDup_fst_map_to_list. Qed.

Lemma hoare_and {A} (m : act A) P P' (Q Q' : A -> host -> Prop) C C' :
  hoare P m Q C -> hoare P' m Q' C' -> hoare (fun h => P h /\ P' h) m (fun a h => Q a h /\ Q' a h) C.
Proof. intros H1 H2 s [Hs Hs']. destruct (H1 s Hs) as (Hq & Hl), (H2 s Hs') as (Hq' & _). auto. Qed.

Section Sweep.
Context (K : pkernel) (Hhonest : honest K) (Hrm : removable K).

Lemma sweep_loop_ok d l r u :
  NoDup l -> hoare (fun h => forall n, n ∈ l -> in_host h (InDir d n) = true) (sweep_loop K d l r u) (fun x _ => x.1.1 = true) (fun _ => True).
Proof.
  intros Hd. revert r u. induction Hd as [|n l Hn Hd IH]; intros r u; cbn [sweep_loop]; [by apply hoare_ret|].
  assert (Hskip : forall r u, hoare (fun h => forall m, m ∈ n :: l -> in_host h (InDir d m) = true) (sweep_loop K d l r u)
    (fun x _ => x.1.1 = true) (fun _ => True)) by (intros; eapply hoare_pre; [apply IH|]; set_solver).
  destruct (_ || _); [apply Hskip|]. destruct (negb _); [apply Hskip|].
  eapply (hoare_bind _ _ _ (fun e h => e = 0 /\ forall m, m ∈ l -> in_host h (InDir d m) = true)).
  - apply hoare_sys. intros h k Hh. cbv zeta. split; [|done]. unfold answer. cbn [state_errno].
    rewrite Hh, (Hrm k h (PUnlink _)) by set_solver. cbn. split; [done|]. intros m Hm.
    assert (m <> n) by (intros ->; done). specialize (Hh m ltac:(set_solver)). destruct d; cbn in *;
      rewrite bool_decide_eq_true in *; by rewrite lookup_delete_ne.
  - intros e s [-> Hs]. by apply IH.
Qed.

(** A sweep removes every known pin of the directory. *)
Lemma sweep_restores d (I : host -> Prop) :
  (forall h n, n ∈ known d -> I h -> I (without (InDir d n) h)) ->
  hoare I (sweep_known K d) (fun _ h => I h /\ swept d h) I.
Proof.
  intros HI. eapply hoare_post.
  - eapply hoare_pre; [apply (hoare_and _ _ (fun _ => True) _ (fun ok _ => ok = true) _ (fun _ => True) (sweep_complete K Hhonest d I HI))|done].
    unfold sweep_known. eapply (hoare_bind _ _ _ (fun e _ => e = 0)).
    + apply hoare_query; [|done]. intros h n _. unfold answer. cbn. apply (Hrm n h (POpenDir d)).
    + intros e. eapply hoare_pre; [apply (hoare_pure _ (e = 0) (fun _ => True))|by auto]. intros ->.
      change (0 =? ENOENT) with false. cbn [negb Z.eqb]. eapply (hoare_bind _ _ _ (fun x h => x = h)); [by apply hoare_get|]. intros x.
      eapply (hoare_bind _ _ _ (fun r _ => r.1.1 = true)); [|by intros [[ok ?] ?]; apply hoare_ret].
      eapply hoare_pre; [apply (sweep_loop_ok d (listing d x) 0 0), listing_nodup|]. intros h ->. intros n. apply in_listing.
  - cbn. intros ok h [[Hi Hs] Hok]. auto.
Qed.
End Sweep.

(** ** The pin phase *)

(** Memory for the passphrase can be had. *)
Definition allocates (K : pkernel) : Prop := forall n h, pk_errno K n h PAlloc = 0.

Lemma links_fit n : n ∈ KNOWN_LINK_NAMES -> fits (pin_path PIN_ROOT LinkDir n) = true.
Proof.
  intros H. revert n H. apply Forall_forall.
  apply (bool_decide_unpack (Forall (fun n => fits (pin_path PIN_ROOT LinkDir n) = true) KNOWN_LINK_NAMES)). vm_compute. exact I.
Qed.

Lemma any_pinned_free K (Hhonest : honest K) (I : host -> Prop) names :
  (forall n, n ∈ names -> fits (pin_path PIN_ROOT LinkDir n) = true) ->
  hoare I (any_pinned K names) (fun b h => I h /\ (b = false -> forall n, n ∈ names -> h_links h !! n = None)) I.
Proof.
  induction names as [|n names IH]; intros Hf; cbn [any_pinned].
  { apply hoare_ret. intros h Hi. split; [done|]. intros _ n Hn. inversion Hn. }
  rewrite (Hf n) by set_solver. cbn [negb].
  eapply (hoare_bind _ _ _ (fun e h => I h /\ (e = ENOENT -> h_links h !! n = None))).
  { apply hoare_query; [|done]. intros h k Hi. split; [done|]. unfold answer. cbn [state_errno in_host].
    case_bool_decide as Hs; cbn; [intros He; by apply Hhonest in He|]. intros _. by apply eq_None_not_Some. }
  intros e. destruct (Z.eqb_spec e ENOENT) as [->|]; [|by apply hoare_ret; intros h [Hi _]].
  eapply hoare_weaken; [eapply (hoare_and _ _ (fun h => h_links h !! n = None) _ (fun _ h => h_links h !! n = None) _ (fun h => h_links h !! n = None));
    [apply IH; set_solver|apply hoare_quiet; [apply any_pinned_quiet|done]]| | |done].
  - intros h [Hi Hn]. auto.
  - intros b h [[Hi Hb] Hn]. split; [done|]. intros E m [->|Hm]%elem_of_cons; auto.
Qed.

Lemma read_passphrase_exact K h0 :
  allocates K -> hoare (untouched h0) (ed11_read_passphrase K) (fun r _ => r = offered K h0) (fun _ => True).
Proof.
  intros Ha. unfold ed11_read_passphrase, offered.
  assert (Hal : forall P : host -> Prop, hoare P (succeeds K PAlloc) (fun a h => P h /\ a = true) (fun _ => True)).
  { intros P. eapply (hoare_bind _ _ _ (fun e h => P h /\ e = 0)).
    - apply hoare_query; [|done]. intros h n Hp. split; [done|]. unfold answer. cbn. apply Ha.
    - intros e. apply hoare_ret. by intros h [Hp ->]. }
  eapply hoare_bind; [apply (hoare_get _ (fun x h => True /\ h_env x = h_env h0)); by intros h []|].
  intros x. apply hoare_pure. intros ->.
  assert (Htty : hoare (fun _ => True) match pk_tty K with
    | Some (Some p) => a ← succeeds K PAlloc; mret (if (a : bool) then Some p else None) | _ => mret None end
    (fun r _ => r = match pk_tty K with Some (Some p) => Some p | _ => None end) (fun _ => True)).
  { destruct (pk_tty K) as [[p|]|]; [|by apply hoare_ret..]. eapply hoare_bind; [apply Hal|]. intros a. by apply hoare_ret; intros h [_ ->]. }
  destruct (h_env h0) as [[|c p]|]; [exact Htty| |exact Htty].
  destruct (Nat.ltb _ _).
  - eapply (hoare_bind _ _ _ (fun _ _ => True)); [by apply hoare_sys|]. intros ?. by apply hoare_ret.
  - eapply hoare_bind; [apply Hal|]. intros a. apply hoare_pure. intros ->.
    eapply (hoare_bind _ _ _ (fun _ _ => True)); [by apply hoare_sys|]. intros ?. by apply hoare_ret.
Qed.

Section Phase.
Context (K : pkernel) (PW : pwhash) (o : popts) (h0 : host) (Hhonest : honest K) (Hrm : removable K).
Abbreviation L0 := (h_links h0).
Abbreviation M0 := (h_maps h0).

(** [G]: what is true once the sentinel has been written. *)
Context (G : host -> Prop) (HG : forall h h', h_sentinel h' = h_sentinel h -> G h -> G h').
Context (Hwrite : hoare (untouched h0) (ed11_pin_maybe_write_sentinel K PW)
                    (fun ok h => tree_is L0 M0 h /\ (ok = true -> G h)) (tree_is L0 M0)).

Definition covered (h : host) : Prop := h_links h = L0 \/ G h.

(** The policy is pinned, or everything is as it was. *)
Definition phase_outcome (ok : bool) (h : host) : Prop :=
  if ok then G h /\ around L0 h /\ (forall p, p ∈ pin_plan -> required p = true -> is_Some (h_links h !! step_name p))
             /\ (forall n, n ∈ pinned_map_names -> is_Some (h_maps h !! n))
             /\ (forall n, n ∈ KNOWN_LINK_NAMES -> h_links h0 !! n = None)
  else h_links h = L0 /\ h_maps h ⊆ M0.

Definition back (h : host) : Prop := h_links h = L0 /\ maps_within M0 [] h.

Lemma back_failed P : (forall h, P h -> back h) -> hoare P (mret false) phase_outcome covered.
Proof.
  intros HP. apply hoare_ret. intros h Hh%HP. destruct Hh as [Hl Hm]. split; [done|]. apply map_subseteq_spec.
  intros n v Hv. apply Hm in Hv as [Hn|Hv]; [inversion Hn|done].
Qed.

Lemma sentinel_dropped : hoare back (ed11_unpin_sentinel_unlink K ;; mret false) phase_outcome covered.
Proof.
  eapply (hoare_bind _ _ _ (fun _ => back)); [|intros ?; by apply back_failed].
  eapply hoare_weaken; [|done|by intros a h H; exact H|by intros h H; left; apply (proj1 (H : back h))].
  unfold ed11_unpin_sentinel_unlink, unlink_sentinel. apply keep_then; [|intros; apply keep_ret]. by apply hoare_keep.
Qed.

Section Free.
Context (Hfree : forall n, n ∈ KNOWN_LINK_NAMES -> L0 !! n = None).

Lemma around_back h : around L0 h -> swept LinkDir h -> h_links h = L0.
Proof.
  intros Ha Hs. apply (links_restored L0 Hfree). split; [done|]. intros n Hn Hi. specialize (Hs n Hn). cbn in Hs.
  apply bool_decide_eq_false in Hs. done.
Qed.

Lemma swept_maps h : maps_within M0 KNOWN_MAP_NAMES h -> swept MapDir h -> maps_within M0 [] h.
Proof.
  intros Hw Hs n v Hv. destruct (Hw n v Hv) as [Hn|]; [|by right]. specialize (Hs n Hn). cbn in Hs.
  apply bool_decide_eq_false in Hs. destruct Hs. eauto.
Qed.

Lemma sentinel_unlinked : hoare back (ed11_unpin_sentinel_unlink K) (fun _ => back) covered.
Proof.
  eapply hoare_weaken; [|done|by intros a h H; exact H|by intros h H; left; apply (proj1 (H : back h))].
  unfold ed11_unpin_sentinel_unlink, unlink_sentinel. apply keep_then; [|intros; apply keep_ret]. by apply hoare_keep.
Qed.

(** What is true while the roll-back runs. *)
Definition rolling (h : host) : Prop := around L0 h /\ G h.

Lemma rolling_without d n h : n ∈ known d -> rolling h -> rolling (without (InDir d n) h).
Proof.
  intros Hn [Ha Hg]. split; [|by apply (HG h); [destruct d|]]. destruct d; [by apply around_delete|exact Ha].
Qed.

Lemma links_swept_back (P : host -> Prop) :
  (forall h, P h -> rolling h /\ maps_within M0 [] h) -> hoare P (sweep_back K [LinkDir] ;; mret false) phase_outcome covered.
Proof.
  intros HP. eapply (hoare_bind _ _ _ (fun _ => back)); [|intros ?; by apply back_failed].
  unfold sweep_back. cbn [sweep_dirs]. eapply (hoare_bind _ _ _ (fun _ => back)); [|intros ?; apply sentinel_unlinked].
  eapply (hoare_bind _ _ _ (fun _ => back)); [|by intros ?; apply hoare_ret].
  eapply hoare_weaken; [apply (sweep_restores K Hhonest Hrm LinkDir (fun h => rolling h /\ maps_within M0 [] h))| | |].
  - intros h n Hn [Hr Hm]. split; [by apply rolling_without|exact Hm].
  - exact HP.
  - intros ? h [[[Ha _] Hm] Hs]. split; [by apply around_back|done].
  - intros h [[_ Hg] _]. by right.
Qed.

Lemma all_swept_back (P : host -> Prop) :
  (forall h, P h -> rolling h /\ maps_within M0 KNOWN_MAP_NAMES h) -> hoare P (sweep_back K [MapDir; LinkDir] ;; mret false) phase_outcome covered.
Proof.
  intros HP. eapply (hoare_bind _ _ _ (fun _ => back)); [|intros ?; by apply back_failed].
  unfold sweep_back. cbn [sweep_dirs]. eapply (hoare_bind _ _ _ (fun _ => back)); [|intros ?; apply sentinel_unlinked].
  eapply (hoare_bind _ _ _ (fun _ h => rolling h /\ maps_within M0 [] h)).
  - eapply hoare_weaken; [apply (sweep_restores K Hhonest Hrm MapDir (fun h => rolling h /\ maps_within M0 KNOWN_MAP_NAMES h))| | |].
    + intros h n Hn [Hr Hm]. split; [by apply rolling_without|]. intros m v Hv. cbn in Hv. apply lookup_delete_Some in Hv as [_ Hv]. by apply Hm.
    + exact HP.
    + intros ? h [[Hr Hm] Hs]. split; [done|by apply swept_maps].
    + intros h [[_ Hg] _]. by right.
  - intros ?. eapply (hoare_bind _ _ _ (fun _ => back)); [|by intros ?; apply hoare_ret].
    eapply hoare_weaken; [apply (sweep_restores K Hhonest Hrm LinkDir (fun h => rolling h /\ maps_within M0 [] h))|done| |].
    + intros h n Hn [Hr Hm]. split; [by apply rolling_without|exact Hm].
    + intros ? h [[[Ha _] Hm] Hs]. split; [by apply around_back|done].
    + intros h [[_ Hg] _]. by right.
Qed.

(** From the moment the sentinel is in place. *)
Lemma pin_rest_spec :
  hoare (fun h => tree_is L0 M0 h /\ G h)
    (p ← pin_links K; if negb p then ed11_unpin_sentinel_unlink K ;; mret false else
     if negb (running K 1) then sweep_back K [LinkDir] ;; mret false else
     c ← pin_counter_maps K; if negb c then sweep_back K [LinkDir] ;; mret false else
     r ← self_protect_record_pins K o; if negb r then sweep_back K [MapDir; LinkDir] ;; mret false else
     mret true) phase_outcome covered.
Proof.
  eapply hoare_bind; [eapply hoare_weaken; [apply (pin_links_spec K L0 Hfree (fun h => G h /\ h_maps h = M0)); [|exact Hrm]| | |]|].
  { intros v h [Hg Hm]. split; [by apply (HG h)|done]. }
  { by intros h [[Hl Hm] Hg]. }
  { by intros p h H; exact H. }
  { intros h [_ [Hg _]]. by right. }
  intros []; cbn [negb].
  2: { eapply hoare_pre; [apply sentinel_dropped|]. intros h [[_ Hm] Hl]. split; [done|]. intros n v. rewrite Hm. auto. }
  assert (Hw : forall h, h_maps h = M0 -> maps_within M0 [] h) by (intros h E n v; rewrite E; auto).
  destruct (negb (running K 1)); [by apply links_swept_back; intros h [[Hg Hm] [Ha _]]; split; [|apply Hw]|].
  set (R := fun h => rolling h /\ forall p, p ∈ pin_plan -> required p = true -> is_Some (h_links h !! step_name p)).
  eapply hoare_bind; [eapply hoare_weaken; [apply (pin_counter_maps_spec K M0 R); [|exact Hrm]| | |]|].
  { intros v h [[Ha Hg] Hp]. split; [split; [done|by apply (HG h)]|done]. }
  { intros h [[Hg Hm] [Ha Hp]]. split; [|by apply Hw]. by split. }
  { by intros c h H; exact H. }
  { intros h [[_ Hg] _]. by right. }
  intros []; cbn [negb]; [|by apply links_swept_back; intros h [[Hr _] Hm]].
  eapply hoare_bind; [eapply hoare_weaken; [apply (keep_record_pins K o
    (fun h => (R h /\ maps_within M0 KNOWN_MAP_NAMES h) /\ forall n, n ∈ pinned_map_names -> is_Some (h_maps h !! n)))| | |]|].
  { intros h h' E1 E2 E3 [[[[Ha Hg] Hp] Hm] Hn]. unfold R, rolling, around, maps_within. rewrite E1, E2.
    split; [split; [split; [split; [done|by apply (HG h)]|done]|done]|done]. }
  { intros h (Hr & Hm & Hn). exact (conj (conj Hr Hm) Hn). }
  { by intros r h H; exact H. }
  { intros h [[[[_ Hg] _] _] _]. by right. }
  intros []; cbn [negb]; [|by apply all_swept_back; intros h [[[Hr _] Hm] _]].
  apply hoare_ret. intros h [[[[Ha Hg] Hp] Hm] Hn]. cbn. auto.
Qed.
End Free.

Lemma pin_policy_spec : hoare (untouched h0) (pin_policy K PW o) phase_outcome covered.
Proof.
  assert (Hb : forall h, untouched h0 h -> back h).
  { intros h [(H1 & H2 & _) _]. split; [done|]. intros n v. rewrite H2. auto. }
  assert (Hc : forall h, untouched h0 h -> covered h) by (intros h Hh; left; by apply Hb).
  unfold pin_policy. eapply hoare_bind; [apply hoare_quiet; [eauto with quiet_db|exact Hc]|]. intros []; cbn [negb]; [|by apply back_failed].
  destruct (negb (running K 0)); [by apply back_failed|].
  eapply hoare_bind; [eapply hoare_weaken; [apply (any_pinned_free K Hhonest (untouched h0) KNOWN_LINK_NAMES links_fit)|done|by intros b h H; exact H|exact Hc]|].
  intros []; [by apply back_failed; intros h [Hh _]; apply Hb|].
  eapply hoare_pre; [apply (hoare_pure _ (forall n, n ∈ KNOWN_LINK_NAMES -> L0 !! n = None) (untouched h0))|].
  2: { intros h [Hh Hf]. split; [done|]. intros n Hn. destruct Hh as ((<- & _) & _). by apply Hf. }
  intros Hfree. eapply hoare_bind; [eapply hoare_weaken; [exact Hwrite|done|by intros s h H; exact H|by intros h [H _]; left]|].
  intros []; cbn [negb]; [|apply back_failed; intros h [[Hl Hm] _]; split; [done|]; intros n v; rewrite Hm; auto].
  eapply hoare_pre; [by apply pin_rest_spec|]. intros h [Ht Hg]. auto.
Qed.
End Phase.

(** ** The theorems *)

Lemma maybe_write_any K PW h0 :
  hoare (untouched h0) (ed11_pin_maybe_write_sentinel K PW)
    (fun ok h => tree_is (h_links h0) (h_maps h0) h /\ (ok = true -> True)) (tree_is (h_links h0) (h_maps h0)).
Proof.
  assert (Hsub : forall h, same_tree h0 h -> tree_is (h_links h0) (h_maps h0) h) by by intros h (? & ? & _).
  unfold ed11_pin_maybe_write_sentinel. eapply hoare_bind.
  { eapply hoare_weaken; [apply read_passphrase_offered|done|by intros r h H; exact H|exact Hsub]. }
  intros [[|c p]|]; [by apply hoare_ret; intros h [H _]; split; [apply Hsub|]| |by apply hoare_ret; intros h [H _]; split; [apply Hsub|]].
  eapply hoare_weaken; [apply write_sentinel_spec|intros h [H _]; by apply Hsub|by intros ok h [H _]|done].
Qed.

Lemma maybe_write_guarded K PW h0 pass :
  allocates K -> offered K h0 = Some pass -> pass <> [] ->
  hoare (untouched h0) (ed11_pin_maybe_write_sentinel K PW)
    (fun ok h => tree_is (h_links h0) (h_maps h0) h /\ (ok = true -> sentinel_for PW pass h)) (tree_is (h_links h0) (h_maps h0)).
Proof.
  intros Ha Ho Hp. assert (Hsub : forall h, same_tree h0 h -> tree_is (h_links h0) (h_maps h0) h) by by intros h (? & ? & _).
  unfold ed11_pin_maybe_write_sentinel.
  eapply (hoare_bind _ _ _ (fun r h => tree_is (h_links h0) (h_maps h0) h /\ r = Some pass)).
  { eapply hoare_weaken; [apply (hoare_and _ _ _ _ _ _ _ (read_passphrase_offered K h0) (read_passphrase_exact K h0 Ha))|done| |exact Hsub].
    intros r h [[H _] ->]. split; [by apply Hsub|done]. }
  intros r. apply hoare_pure. intros ->. destruct pass; [done|]. apply write_sentinel_spec.
Qed.

(** C26: pinning is all or nothing.  When the pin phase succeeds, every required
    link and every counter map is pinned; when it fails or is interrupted by a
    signal, for whatever reason, the link pins are exactly those that were there
    before and no map pin has been added, provided the process may list the
    directories and remove its own pins. *)
Theorem pin_all_or_nothing K PW o h0 :
  honest K -> removable K ->
  let '(ok, s) := pin_policy K PW o (Run h0 []) in
  if (ok : bool)
  then (forall p, p ∈ pin_plan -> required p = true -> is_Some (h_links (r_host s) !! step_name p))
       /\ (forall n, n ∈ pinned_map_names -> is_Some (h_maps (r_host s) !! n))
  else h_links (r_host s) = h_links h0 /\ h_maps (r_host s) ⊆ h_maps h0.
Proof.
  intros Hh Hr. destruct (pin_policy_spec K PW o h0 Hh Hr (fun _ => True) ltac:(done) (maybe_write_any K PW h0) (Run h0 [])) as (H & _); [done|].
  destruct (pin_policy K PW o (Run h0 [])) as [[] s]; cbn in *; [by destruct H as (_ & _ & ? & ? & _)|done].
Qed.

(** C25: no moment of the pin phase leaves links without their passphrase.  When
    one of at most 4096 bytes was offered, at every point where the process can be
    killed either the link pins are those that were there before, or the sentinel
    holds the hash of the passphrase, complete, in a private regular file of root.
    This is under three conditions: ENOENT is answered only for what is not there
    ([honest]), memory for the passphrase can be had ([allocates]), and the process
    can list its directories and unlink its own pins ([removable]).  Without the
    last one a rollback can remove the sentinel and leave a link
    ([rollback_drops_sentinel] of PinDemo); a longer passphrase is taken for none
    ([long_passphrase_pins_unguarded] there). *)
Theorem pin_crash_safe K PW o h0 pass :
  honest K -> removable K -> allocates K -> offered K h0 = Some pass -> pass <> [] ->
  Forall (fun e => h_links e.2 = h_links h0 \/ sentinel_for PW pass e.2) (r_log (pin_policy K PW o (Run h0 [])).2).
Proof.
  intros Hh Hr Ha Ho Hp.
  destruct (pin_policy_spec K PW o h0 Hh Hr (sentinel_for PW pass)
    ltac:(unfold sentinel_for; intros h h' ->; done) (maybe_write_guarded K PW h0 pass Ha Ho Hp) (Run h0 [])) as (_ & l & El & Hl); [done|].
  by rewrite El.
Qed.

(** C27: unpinning undoes pinning.  After a [--pin] that succeeded, a later
    [--unpin] of the whole tree that returns 0 leaves exactly the link pins that
    were there before the [--pin], whatever else was in the directory, and no
    known pin in either directory. *)
Theorem unpin_undoes_pin K K' PW o root h0 h1 :
  honest K -> removable K -> honest K' -> pk_realpath K' PIN_ROOT = inr root ->
  let '(ok, s) := pin_policy K PW o (Run h0 []) in
  let '(rc, s') := unpin_action K' PW None (Run h1 []) in
  ok = true -> same_tree (r_host s) h1 -> rc = 0 ->
  h_links (r_host s') = h_links h0 /\ swept MapDir (r_host s').
Proof.
  intros Hh Hr Hh' Hroot.
  destruct (pin_policy_spec K PW o h0 Hh Hr (fun _ => True) ltac:(done) (maybe_write_any K PW h0) (Run h0 [])) as (Hp & _); [done|].
  destruct (unpin_complete K' Hh' PW root h1 Hroot (Run h1 [])) as (Hu & _); [done|].
  destruct (unpin_action_only K' PW h1 None (Run h1 [])) as (Ho & _); [done|].
  destruct (pin_policy K PW o (Run h0 [])) as [ok s], (unpin_action K' PW None (Run h1 [])) as [rc s']. cbn in *.
  intros -> (El & _) ->. destruct (Hu eq_refl) as (Hl & Hm & _). split; [|done]. destruct Hp as (_ & Ha & _ & _ & Hfree).
  apply map_eq. intros n. destruct (decide (n ∈ KNOWN_LINK_NAMES)) as [Hk|Hk].
  - rewrite (Hfree n Hk). specialize (Hl n Hk). cbn in Hl. apply bool_decide_eq_false in Hl. by apply eq_None_not_Some.
  - rewrite <- (Ha n Hk), <- El. by apply (okr_unknown_links _ _ Ho).
Qed.
