(* ===== verification/PinArmed.v ===== *)
(** * A pinned policy protects itself

    With [--self-protect] the hooks refuse to remove the pins, except for an
    authorised loader; and the programs are never attached before the policy they
    enforce is complete and frozen. *)

From S2P Require Import Prelude Abi Kernel Demo SealCore Hooks SealSpec SealRefine HookSpec HookRefine HookProps.
From S2P Require Import CLib Config Loader Pin Unpin PinMain PinProps UnpinProps PinSafety.
From Stdlib Require Import Ascii.
From stdpp Require Import strings.

#[local] Open Scope Z_scope.

(** ** What is true at the end of an action *)

Definition ends {A} (m : act A) (Q : A -> host -> Prop) : Prop := forall s, Q (m s).1 (r_host (m s).2).

Lemma ends_bind {A B} (m : act A) (f : A -> act B) Q : (forall a, ends (f a) Q) -> ends (m ≫= f) Q.
Proof. intros H s. unfold mbind, act_bind. destruct (m s) as [a s']. apply H. Qed.

Lemma ends_ret {A} (a : A) (Q : A -> host -> Prop) : (forall h, Q a h) -> ends (mret a) Q.
Proof. intros H s. apply H. Qed.

Lemma ends_seq {A B} (m : act A) (f : A -> act B) R (Q : B -> host -> Prop) :
  ends m R -> (forall a s, R a (r_host s) -> Q (f a s).1 (r_host (f a s).2)) -> ends (m ≫= f) Q.
Proof. intros Hm Hf s. specialize (Hm s). unfold mbind, act_bind. destruct (m s) as [a s']. by apply Hf. Qed.

(** ** The pins on record *)

Definition pol (h : host) : policy := sk_policy (h_skel h).
Definition pin_key (K : pkernel) (d : pin_dir) (n : string) : inode_key :=
  InodeKey (pin_root_dev K) (pk_ino K (pin_path PIN_ROOT d n)).
Definition recorded (K : pkernel) (d : pin_dir) (names : list string) (h : host) : Prop :=
  forall n, n ∈ names -> in_host h (InDir d n) = true -> is_Some (protected_pins (pol h) !! pin_key K d n).

Lemma known_fits d n : n ∈ known d -> fits (pin_path PIN_ROOT d n) = true.
Proof.
  intros H. revert n H. apply Forall_forall.
  destruct d; [apply (bool_decide_unpack (Forall (fun n => fits (pin_path PIN_ROOT LinkDir n) = true) (known LinkDir)))
              |apply (bool_decide_unpack (Forall (fun n => fits (pin_path PIN_ROOT MapDir n) = true) (known MapDir)))];
    vm_compute; exact I.
Qed.

Lemma recorded_add K d names k h : recorded K d names h -> recorded K d names (with_policy (add_pin k) h).
Proof.
  intros H n Hn Hi. specialize (H n Hn Hi). cbn in *.
  destruct (decide (k = pin_key K d n)) as [->|Hne]; [rewrite lookup_insert_eq; eauto|by rewrite lookup_insert_ne].
Qed.

Section Record.
Context (K : pkernel) (Hhonest : honest K).

(** An invariant that recording one more pin keeps. *)
Definition add_stable (I : host -> Prop) : Prop := forall k h, I h -> I (with_policy (add_pin k) h).

Lemma update_pins (I : host -> Prop) k :
  add_stable I -> hoare I (update K "protected_pins" (add_pin k))
    (fun ok h => I h /\ (ok = true -> is_Some (protected_pins (pol h) !! k))) I.
Proof.
  intros HI. unfold update. eapply (hoare_bind _ _ _ (fun e h => I h /\ (e = 0 -> is_Some (protected_pins (pol h) !! k)))).
  - apply hoare_sys. intros h n Hi. cbv zeta. destruct (Z.eqb_spec (answer K n h (PUpdate "protected_pins")) 0); [|done].
    split; [split; [by apply HI|]|by apply HI]. intros _. cbn. rewrite lookup_insert_eq. eauto.
  - intros e. apply hoare_ret. intros h [Hi He]. split; [done|]. intros E%Z.eqb_eq. auto.
Qed.

Lemma record_fixed_spec dev l (I : host -> Prop) : add_stable I -> hoare I (record_fixed K dev l) (fun _ => I) I.
Proof.
  intros HI. induction l as [|p l IH]; cbn [record_fixed]; [by apply hoare_ret|].
  apply keep_then; [apply keep_quiet; eauto with quiet_db|]. intros e. destruct (negb _); [apply keep_ret|].
  eapply hoare_bind; [by apply update_pins|]. intros []; [|by apply hoare_ret; intros h []]. eapply hoare_pre; [exact IH|]. by intros h [].
Qed.

Lemma record_named_spec d names (I : host -> Prop) :
  add_stable I -> (forall n, n ∈ names -> n ∈ known d) ->
  hoare I (record_named K (pin_root_dev K) d names) (fun ok h => I h /\ (ok = true -> recorded K d names h)) I.
Proof.
  revert I. induction names as [|n names IH]; intros I HI Hk; cbn [record_named].
  { apply hoare_ret. intros h Hi. split; [done|]. intros _ n Hn. inversion Hn. }
  rewrite known_fits by (apply Hk; set_solver). cbn [negb].
  eapply (hoare_bind _ _ _ (fun e h => I h /\ (e = ENOENT -> in_host h (InDir d n) = false))).
  { apply hoare_query; [|done]. intros h k Hi. split; [done|]. unfold answer. cbn [state_errno].
    destruct (in_host h (InDir d n)); cbn; [intros He; by apply Hhonest in He|done]. }
  assert (Hrest : forall J : host -> Prop, add_stable J -> (forall h, J h -> I h /\ recorded K d [n] h) ->
    hoare J (record_named K (pin_root_dev K) d names) (fun ok h => I h /\ (ok = true -> recorded K d (n :: names) h)) I).
  { intros J HJ Hsub. eapply hoare_weaken; [apply (IH J HJ); set_solver|done| |by intros h H; apply Hsub].
    intros ok h [Hj Hr]. destruct (Hsub h Hj) as [Hi H1]. split; [done|]. intros E m [->|Hm]%elem_of_cons; [apply H1; set_solver|by apply Hr]. }
  intros e. destruct (Z.eqb_spec e ENOENT) as [->|].
  { eapply hoare_pre; [apply (Hrest (fun h => I h /\ in_host h (InDir d n) = false))|].
    - intros k h [Hi Hn]. split; [by apply HI|exact Hn].
    - intros h [Hi Hn]. split; [done|]. intros m Hm. apply list_elem_of_singleton in Hm as ->. by rewrite Hn.
    - intros h [Hi Hn]. auto. }
  destruct (negb _); [by apply hoare_ret; intros h [Hi _]|]. eapply hoare_pre; [|by intros h [Hi _]; exact Hi].
  eapply hoare_bind; [by apply update_pins|]. intros []; [|by apply hoare_ret; intros h [Hi _]].
  eapply hoare_pre; [apply (Hrest (fun h => I h /\ recorded K d [n] h))|].
  - intros k h [Hi Hr]. split; [by apply HI|by apply recorded_add].
  - done.
  - intros h [Hi Hr]. split; [done|]. intros m Hm _. apply list_elem_of_singleton in Hm as ->. by apply Hr.
Qed.

(** A policy that protects its pins. *)
Record self_protected (h : host) : Prop := {
  sp_links : recorded K LinkDir KNOWN_LINK_NAMES h;
  sp_maps : recorded K MapDir KNOWN_MAP_NAMES h;
  sp_cfg : self_protect_cfg_map (pol h) = Some (SelfProtectCfg (pin_root_dev K) 1);
  sp_dev : pin_root_dev K <> 0;
  sp_frozen : ("protected_pins" ∈ sk_frozen (h_skel h) /\ "self_protect_cfg_map" ∈ sk_frozen (h_skel h))%string
}.

Lemma record_pins_spec o :
  o_self_protect o = true ->
  hoare (fun _ => True) (self_protect_record_pins K o) (fun ok h => ok = true -> self_protected h) (fun _ => True).
Proof.
  intros Ho. unfold self_protect_record_pins. rewrite Ho. cbn [negb]. cbv zeta.
  destruct (Z.eqb_spec (pin_root_dev K) 0) as [|Hdev]; [by apply hoare_ret|].
  assert (Hno : forall (P : host -> Prop) (R : host -> Prop), hoare P (mret false) (fun ok h => ok = true -> R h) (fun _ => True)).
  { intros P R. by apply hoare_ret. }
  eapply hoare_bind; [by apply (record_fixed_spec _ _ (fun _ => True))|]. intros []; cbn [negb]; [|apply Hno].
  eapply hoare_bind; [by apply (record_named_spec LinkDir KNOWN_LINK_NAMES (fun _ => True))|]. intros []; cbn [negb]; [|apply Hno].
  eapply hoare_bind; [eapply hoare_weaken; [apply (record_named_spec MapDir KNOWN_MAP_NAMES (recorded K LinkDir KNOWN_LINK_NAMES))|
    by intros h [_ H]; apply H|by intros ok h H; exact H|done]|].
  { intros k h. apply recorded_add. }
  { done. }
  intros []; cbn [negb]; [|apply Hno].
  set (R := fun h => (recorded K LinkDir KNOWN_LINK_NAMES h /\ recorded K MapDir KNOWN_MAP_NAMES h)
                     /\ self_protect_cfg_map (pol h) = Some (SelfProtectCfg (pin_root_dev K) 1)).
  eapply (hoare_bind _ _ _ (fun ok h => ok = true -> R h)).
  { unfold update. eapply (hoare_bind _ _ _ (fun e h => e = 0 -> R h)); [|intros e; apply hoare_ret; intros h H E%Z.eqb_eq; auto].
    apply hoare_sys. intros h n [Hl Hm]. cbv zeta. split; [|done].
    destruct (Z.eqb_spec (answer K n h (PUpdate "self_protect_cfg_map")) 0); [|done].
    intros _. split; [|done]. split; [exact Hl|by apply Hm]. }
  intros []; cbn [negb]; [|apply Hno]. eapply hoare_pre; [|by intros h H; exact (H eq_refl)].
  eapply (hoare_bind _ _ _ (fun e h => e = 0 -> R h /\ "protected_pins"%string ∈ sk_frozen (h_skel h))).
  { apply hoare_sys. intros h n Hr. cbv zeta. split; [|done]. destruct (Z.eqb_spec (answer K n h (PFreeze "protected_pins")) 0); [|done].
    intros _. split; [exact Hr|]. cbn. set_solver. }
  intros e. destruct (Z.eqb_spec e 0) as [->|]; cbn [negb]; [|apply Hno]. eapply hoare_pre; [|by intros h H; exact (H eq_refl)].
  eapply (hoare_bind _ _ _ (fun e h => e = 0 -> self_protected h)); [|intros e; apply hoare_ret; intros h H E%Z.eqb_eq; auto].
  apply hoare_sys. intros h n [[[Hl Hm] Hc] Hf]. cbv zeta. split; [|done].
  destruct (Z.eqb_spec (answer K n h (PFreeze "self_protect_cfg_map")) 0); [|done].
  intros _. split; [exact Hl|exact Hm|exact Hc|done|]. cbn. set_solver.
Qed.

Lemma pin_policy_protects PW o :
  o_self_protect o = true -> ends (pin_policy K PW o) (fun ok h => ok = true -> self_protected h).
Proof.
  intros Ho. assert (Hno : ends (mret false) (fun ok h => ok = true -> self_protected h)) by by apply ends_ret.
  unfold pin_policy. apply ends_bind. intros []; cbn [negb]; [|exact Hno]. destruct (negb _); [exact Hno|].
  apply ends_bind. intros []; [exact Hno|]. apply ends_bind. intros []; cbn [negb]; [|exact Hno].
  apply ends_bind. intros []; cbn [negb]; [|by apply ends_bind]. destruct (negb _); [by apply ends_bind|].
  apply ends_bind. intros []; cbn [negb]; [|by apply ends_bind].
  assert (Hb : ends (sweep_back K [MapDir; LinkDir] ;; mret false) (fun ok h => ok = true -> self_protected h)) by by apply ends_bind.
  apply (ends_seq _ _ (fun ok h => ok = true -> self_protected h)); [intros s; by apply record_pins_spec|].
  intros [] s H; cbn [negb]; [exact H|apply Hb].
Qed.
End Record.

(** C23: a policy pinned with [--self-protect] cannot be unpinned by anyone else.
    After the pin phase succeeds, every known pin in the tree is on record, the
    record and its switch are frozen, and the hooks running on that policy refuse
    to unlink, rmdir or rename a pin (as source or destination) with [-EACCES] for
    every caller whose executable is not an authorised loader. *)
Theorem pins_protected K PW o h0 E dy x d n :
  honest K -> o_self_protect o = true ->
  let '(ok, s) := pin_policy K PW o (Run h0 []) in
  ok = true -> e_policy E = pol (r_host s) ->
  n ∈ known d -> in_host (r_host s) (InDir d n) = true ->
  inode_key_of E (inode_of E x) = pin_key K d n -> is_loader E = false ->
  ("protected_pins" ∈ sk_frozen (h_skel (r_host s)) /\ "self_protect_cfg_map" ∈ sk_frozen (h_skel (r_host s)))%string
  /\ verdict E (HInodeUnlink x) dy = - EACCES /\ verdict E (HInodeRmdir x) dy = - EACCES
  /\ forall y, verdict E (HInodeRename x y) dy = - EACCES /\ verdict E (HInodeRename y x) dy = - EACCES.
Proof.
  intros Hh Ho. pose proof (pin_policy_protects K Hh PW o Ho (Run h0 [])) as Hsp.
  destruct (pin_policy K PW o (Run h0 [])) as [ok s]. cbn in Hsp. intros -> HE Hn Hin Hkey Hl. specialize (Hsp eq_refl) as [H1 H2 H3 H4 H5].
  assert (Ht : pin_tamper E x).
  { split; [|done]. unfold protected_pin, self_protect. rewrite HE, H3, Hkey. cbn.
    assert (Hnull : is_null (inode_of E x) = false).
    { destruct (inode_of E x) eqn:Ei; [done|]. exfalso. apply H4. change (InodeKey 0 0 = pin_key K d n) in Hkey. by injection Hkey as <- _. }
    rewrite Hnull, Z.eqb_refl, (proj2 (Z.eqb_neq _ _) H4). cbn. apply bool_decide_eq_true. destruct d; auto. }
  split; [done|]. pose proof (unlink_iff E dy x) as Hu. rewrite Forall_cons, Forall_singleton in Hu. destruct Hu as [[Hu _] [Hr _]].
  split; [by apply Hu; left|]. split; [by apply Hr; left|]. intros y.
  split; [apply (proj1 (rename_iff E dy x y)); tauto|apply (proj1 (rename_iff E dy y x)); tauto].
Qed.

(** ** Attached means complete *)

Section Armed.
Context (K : pkernel) (PW : pwhash) (o : popts).

(** *** What the pin phase keeps *)

Record pin_stable (I : host -> Prop) : Prop := {
  ps_skel : forall h h', h_skel h' = h_skel h -> I h -> I h';
  ps_add_pin : forall k h, I h -> I (with_policy (add_pin k) h);
  ps_cfg : forall d h, I h -> I (with_policy (set_cfg (SelfProtectCfg d 1)) h);
  ps_freeze : forall m h, I h -> I (freeze m h)
}.

Section Stable.
Context (I : host -> Prop) (HI : pin_stable I).
Abbreviation keeps m := (hoare I m (fun _ => I) I).

Lemma keep_tree c eff : (forall h, h_skel (eff h) = h_skel h) -> keeps (sys K c eff).
Proof. intros He. apply hoare_keep. intros h. by apply (ps_skel I HI). Qed.

Lemma keep_unlink f : keeps (sys K (PUnlink f) (without f)).
Proof. apply keep_tree. by intros h; destruct f as [[]|]. Qed.

Lemma keep_pin_one link n l : keeps (pin_one_link K link n l).
Proof.
  unfold pin_one_link. destruct link; [|apply keep_ret]. destruct (negb _); [apply keep_ret|].
  apply keep_then; [by apply keep_tree|]. intros e. apply keep_ret.
Qed.

Lemma keep_pin_steps plan l : keeps (pin_steps K plan l).
Proof.
  pose proof keep_pin_one. revert l. induction plan as [|p plan IH]; intros l; cbn [pin_steps]; [apply keep_ret|].
  apply keep_then; [apply keep_quiet, quiet_get|]. intros h. apply keep_then; [destruct p; cbn [pin_one_step]; solve_keep|].
  intros [[] l']; [apply IH|apply keep_ret].
Qed.

Lemma keep_unlink_pinned d l : keeps (unlink_pinned K d l).
Proof. pose proof keep_unlink. induction l; cbn [unlink_pinned]; solve_keep. Qed.

Lemma keep_pin_links : keeps (pin_links K).
Proof.
  pose proof keep_pin_steps. pose proof keep_unlink_pinned. unfold pin_links, unlink_pinned_links. solve_keep.
Qed.

Lemma keep_pin_maps names l : keeps (pin_maps K names l).
Proof.
  revert l. induction names as [|n names IH]; intros l; cbn [pin_maps]; [apply keep_ret|]. destruct (negb _); [apply keep_ret|].
  apply keep_then; [by apply keep_tree|]. intros e. destruct (e =? 0); [apply IH|apply keep_ret].
Qed.

Lemma keep_pin_counter_maps : keeps (pin_counter_maps K).
Proof. pose proof keep_pin_maps. pose proof keep_unlink_pinned. unfold pin_counter_maps. solve_keep. Qed.

Lemma keep_sweep_loop d l r u : keeps (sweep_loop K d l r u).
Proof. pose proof keep_unlink. revert r u. induction l; intros r u; cbn [sweep_loop]; solve_keep. Qed.

Lemma keep_sweep d : keeps (sweep_known K d).
Proof. pose proof keep_sweep_loop. unfold sweep_known. solve_keep. Qed.

Lemma keep_sentinel_unlink : keeps (ed11_unpin_sentinel_unlink K).
Proof. pose proof keep_unlink. unfold ed11_unpin_sentinel_unlink, unlink_sentinel. solve_keep. Qed.

Lemma keep_sweep_back l : keeps (sweep_back K l).
Proof.
  pose proof keep_sweep. pose proof keep_sentinel_unlink. unfold sweep_back. apply keep_then; [|eauto].
  induction l; cbn [sweep_dirs]; solve_keep.
Qed.

Lemma keep_write_loop ws rest : keeps (write_loop K ws rest).
Proof.
  revert rest. induction ws as [|a ws IH]; intros rest; cbn [write_loop]; (destruct rest; [apply keep_ret|]).
  - apply keep_then; [|intros; apply keep_ret]. apply keep_tree. intros h. by destruct (h_sentinel h) as [[]|].
  - destruct a; [apply IH|apply keep_ret|]. apply keep_then; [apply keep_tree; intros h; by destruct (h_sentinel h) as [[]|]|].
    intros e. destruct (e =? 0); [apply IH|apply keep_ret].
Qed.

Lemma keep_write_sentinel p : keeps (ed11_write_sentinel K PW p).
Proof.
  pose proof keep_write_loop. pose proof keep_unlink as Hu.
  assert (keeps (sys K PCreateSentinel (set_sentinel (Some ([], pk_new_sentinel K))))) by by apply keep_tree.
  unfold ed11_write_sentinel, unlink_sentinel. solve_keep.
Qed.

Lemma keep_maybe_write : keeps (ed11_pin_maybe_write_sentinel K PW).
Proof.
  pose proof keep_write_sentinel. assert (keeps (ed11_read_passphrase K)).
  { assert (keeps (sys K PGetenv (set_env None))) by by apply keep_tree. unfold ed11_read_passphrase. solve_keep. }
  unfold ed11_pin_maybe_write_sentinel. solve_keep.
Qed.

Lemma keep_records : keeps (self_protect_record_pins K o).
Proof.
  assert (Hp : forall k, keeps (update K "protected_pins" (add_pin k))).
  { intros k. apply keep_then; [|intros; apply keep_ret]. apply hoare_keep. apply (ps_add_pin I HI). }
  assert (forall d l, keeps (record_fixed K d l)) by (intros d l; induction l; cbn [record_fixed]; solve_keep).
  assert (forall d t l, keeps (record_named K d t l)) by (intros d t l; induction l; cbn [record_named]; solve_keep).
  assert (forall d, keeps (update K "self_protect_cfg_map" (set_cfg (SelfProtectCfg d 1)))).
  { intros d. apply keep_then; [|intros; apply keep_ret]. apply hoare_keep. apply (ps_cfg I HI). }
  assert (forall m, keeps (sys K (PFreeze m) (freeze m))) by (intros m; apply hoare_keep, (ps_freeze I HI)).
  unfold self_protect_record_pins. cbv zeta. solve_keep.
Qed.

Lemma keep_pin_policy : keeps (pin_policy K PW o).
Proof.
  pose proof keep_maybe_write. pose proof keep_pin_links. pose proof keep_sweep_back. pose proof keep_sentinel_unlink.
  pose proof keep_pin_counter_maps. pose proof keep_records. unfold pin_policy, pin_tree_exists. solve_keep.
Qed.
End Stable.
(** *** A complete policy *)

Definition seals_are (m : maps) (p : policy) : Prop :=
  sealed_inodes p = m_inodes m /\ sealed_dirs p = m_dirs m /\ sealed_devs p = m_devs m
  /\ launcher_to_actor p = m_launchers m /\ policy_state_map p = m_state m.

(** The gate on the maps: who is a loader, which maps are protected, switched on. *)
Record gate_set (h : host) : Prop := {
  gs_loaders : forall k, is_Some (loader_ids (pol h) !! k) <-> exists p, p ∈ SELF_EXE :: o_authorize o /\ binary_key K p = Some k;
  gs_self : is_Some (binary_key K SELF_EXE);
  gs_maps : forall n id, (n, Some id) ∈ pk_object_maps K -> is_Some (protected_map_ids (pol h) !! id);
  gs_on : exists d, self_protect_cfg_map (pol h) = Some (SelfProtectCfg d 1)
}.

Record armed (m : maps) (h : host) : Prop := {
  ar_seals : seals_are m (pol h);
  ar_frozen : forall x, x ∈ freeze_names -> x ∈ sk_frozen (h_skel h);
  ar_gate : o_self_protect o = true -> gate_set h /\ sk_autoload (h_skel h) "comp_bpf_map"%string = true
}.

Lemma armed_stable m : pin_stable (armed m).
Proof.
  split.
  - intros h h' E [H1 H2 H3]. unfold pol in *. split; rewrite ?E; [unfold pol; by rewrite E|done|].
    intros Ho. destruct (H3 Ho) as [[G1 G2 G3 G4] Ha]. split; [|done]. split; unfold pol in *; rewrite ?E; auto.
  - intros k h [H1 H2 H3]. split; [exact H1|exact H2|]. intros Ho. destruct (H3 Ho) as [[G1 G2 G3 G4] Ha]. by split.
  - intros d h [H1 H2 H3]. split; [exact H1|exact H2|]. intros Ho. destruct (H3 Ho) as [[G1 G2 G3 G4] Ha]. split; [|done].
    split; [exact G1|exact G2|exact G3|]. by exists d.
  - intros x h [H1 H2 H3]. split; [exact H1| |].
    + intros y Hy. cbn. apply elem_of_app. left. by apply H2.
    + intros Ho. destruct (H3 Ho) as [[G1 G2 G3 G4] Ha]. by split.
Qed.

(** *** Before the attach *)

Definition detached (h : host) : Prop := sk_attached (h_skel h) = false.

Section Before.
Context (m : maps).

(** Nothing is attached, the seals are those of the profile and the map gate is
    loaded when asked for. *)
Record base (h : host) : Prop := {
  ba_detached : detached h;
  ba_seals : seals_are m (pol h);
  ba_gate : o_self_protect o = true -> sk_autoload (h_skel h) "comp_bpf_map"%string = true
}.

Definition loaders_are (paths : list cstring) (h : host) : Prop :=
  forall k, is_Some (loader_ids (pol h) !! k) <-> exists p, p ∈ paths /\ binary_key K p = Some k.

Lemma update_spec x f (P Q : host -> Prop) :
  (forall h, P h -> detached h) -> (forall h, P h -> detached (with_policy f h)) -> (forall h, P h -> Q (with_policy f h)) ->
  hoare P (update K x f) (fun ok h => ok = true -> Q h) detached.
Proof.
  intros HP Hd HQ. unfold update. eapply (hoare_bind _ _ _ (fun e h => e = 0 -> Q h)).
  - apply hoare_sys. intros h n Hh. cbv zeta. destruct (Z.eqb_spec (answer K n h (PUpdate x)) 0); auto.
    split; [done|auto].
  - intros e. apply hoare_ret. intros h H E%Z.eqb_eq. auto.
Qed.

Lemma add_loaders_spec paths done :
  hoare (fun h => base h /\ loaders_are done h) (add_loaders K paths)
    (fun ok h => ok = true -> (base h /\ loaders_are (done ++ paths) h) /\ forall p, p ∈ paths -> is_Some (binary_key K p)) detached.
Proof.
  assert (Hd : forall h l, base h /\ loaders_are l h -> detached h) by (intros h l [Hb _]; apply (ba_detached h Hb)).
  revert done. induction paths as [|p paths IH]; intros done; cbn [add_loaders].
  { apply hoare_ret. intros h H _. rewrite app_nil_r. split; [done|]. intros p Hp. inversion Hp. }
  eapply (hoare_bind _ _ _ (fun r h => (base h /\ loaders_are done h) /\ (r = None \/ r = binary_key K p))).
  { unfold resolve_binary_key. eapply hoare_bind; [apply hoare_quiet; [eauto with quiet_db|intros h; apply Hd]|]. intros e.
    apply hoare_ret. intros h H. split; [done|]. destruct (negb _); auto. }
  intros r. apply hoare_pure. intros Hr. destruct r as [k|]; [|by apply hoare_ret].
  destruct Hr as [|Hk]; [done|]. symmetry in Hk.
  eapply hoare_bind; [apply (update_spec _ _ _ (fun h => base h /\ loaders_are (done ++ [p]) h)); [intros h; apply Hd|intros h; apply Hd|]|].
  - intros h [[B1 B2 B3] Hl]. split; [by split|]. intros k'. cbn. destruct (decide (k = k')) as [<-|Hne].
    + rewrite lookup_insert_eq. split; [|by eauto]. intros _. exists p. split; [set_solver|done].
    + rewrite lookup_insert_ne, (Hl k') by done. split; intros (q & Hq & Eq); exists q; (split; [|done]); [set_solver|].
      apply elem_of_app in Hq as [|Hq%list_elem_of_singleton]; [done|]. subst. congruence.
  - intros []; [|by apply hoare_ret]. eapply hoare_weaken; [apply (IH (done ++ [p]))|intros h H; exact (H eq_refl)| |done].
    intros ok h H E. destruct (H E) as [[Hb Hl] Hp]. rewrite <- app_assoc in Hl. split; [done|].
    intros q [->|Hq]%elem_of_cons; [rewrite Hk; eauto|auto].
Qed.

Definition ids_are (l : list (string * option Z)) (h : host) : Prop :=
  forall n id, (n, Some id) ∈ l -> is_Some (protected_map_ids (pol h) !! id).

Lemma add_map_ids_spec paths l done :
  hoare (fun h => (base h /\ loaders_are paths h) /\ ids_are done h) (add_map_ids K l)
    (fun ok h => ok = true -> (base h /\ loaders_are paths h) /\ ids_are (done ++ l) h) detached.
Proof.
  assert (Hd : forall h l, (base h /\ loaders_are paths h) /\ ids_are l h -> detached h) by (intros h ? [[Hb _] _]; apply (ba_detached h Hb)).
  revert done. induction l as [|[x [id|]] l IH]; intros done; cbn [add_map_ids].
  - apply hoare_ret. intros h H _. by rewrite app_nil_r.
  - eapply hoare_bind; [apply hoare_quiet; [eauto with quiet_db|intros h; apply Hd]|]. intros e. destruct (negb _); [by apply hoare_ret|].
    eapply hoare_bind; [apply (update_spec _ _ _ (fun h => (base h /\ loaders_are paths h) /\ ids_are (done ++ [(x, Some id)]) h)); [intros h; apply Hd|intros h; apply Hd|]|].
    + intros h [[[B1 B2 B3] Hl] Hi]. split; [split; [by split|exact Hl]|]. intros n id' Hn. cbn.
      destruct (decide (id = id')) as [->|]; [rewrite lookup_insert_eq; eauto|]. rewrite lookup_insert_ne by done.
      apply elem_of_app in Hn as [Hn|Hn%list_elem_of_singleton]; [by apply (Hi n)|]. congruence.
    + intros []; [|by apply hoare_ret]. eapply hoare_weaken; [apply (IH (done ++ [(x, Some id)]))|intros h H; exact (H eq_refl)| |done].
      intros ok h H E. specialize (H E). by rewrite <- app_assoc in H.
  - eapply hoare_weaken; [apply (IH (done ++ [(x, None)]))| | |done].
    + intros h [H Hi]. split; [done|]. intros n id [Hn|Hn%list_elem_of_singleton]%elem_of_app; [by apply (Hi n)|done].
    + intros ok h H E. specialize (H E). by rewrite <- app_assoc in H.
Qed.

(** The first phase of self-protection. *)
Lemma populate_early_spec :
  hoare (fun h => base h /\ loader_ids (pol h) = ∅) (self_protect_populate_early K o)
    (fun ok h => ok = true -> base h /\ (o_self_protect o = true -> gate_set h)) detached.
Proof.
  unfold self_protect_populate_early. destruct (o_self_protect o) eqn:Ho; cbn [negb]; [|by apply hoare_ret; intros h []].
  eapply hoare_bind; [eapply hoare_pre; [apply (add_loaders_spec (SELF_EXE :: o_authorize o) [])|]|].
  { intros h [Hb He]. split; [done|]. intros k. rewrite He, lookup_empty. split; [by intros [? ?]|]. intros (p & Hp & _). inversion Hp. }
  intros []; cbn [negb]; [|by apply hoare_ret].
  eapply hoare_pre; [apply (hoare_pure _ (is_Some (binary_key K SELF_EXE)) (fun h => base h /\ loaders_are (SELF_EXE :: o_authorize o) h))|].
  2: { intros h H. destruct (H eq_refl) as [Hb Hs]. split; [done|]. apply Hs. set_solver. }
  intros Hself. eapply hoare_bind; [eapply hoare_pre; [apply (add_map_ids_spec (SELF_EXE :: o_authorize o) (pk_object_maps K) [])|]|].
  { intros h H. split; [done|]. intros n id Hn. inversion Hn. }
  intros []; cbn [negb]; [|by apply hoare_ret]. eapply hoare_pre; [|by intros h H; exact (H eq_refl)].
  apply update_spec; [by intros h [[[]]]|by intros h [[[]]]|].
  intros h [[[B1 B2 B3] Hl] Hi]. split; [by split|]. intros _. split; [exact Hl|done|exact Hi|by exists 0].
Qed.

Lemma freeze_each_spec (R : host -> Prop) names done :
  (forall h x, R h -> R (freeze x h)) -> (forall h, R h -> detached h) ->
  hoare (fun h => R h /\ forall x, x ∈ done -> x ∈ sk_frozen (h_skel h)) (freeze_each K names)
    (fun ok h => ok = true -> R h /\ forall x, x ∈ done ++ names -> x ∈ sk_frozen (h_skel h)) detached.
Proof.
  intros HR Hd. revert done. induction names as [|x names IH]; intros done; cbn [freeze_each].
  { apply hoare_ret. intros h H _. by rewrite app_nil_r. }
  eapply (hoare_bind _ _ _ (fun e h => e = 0 -> R h /\ forall y, y ∈ done ++ [x] -> y ∈ sk_frozen (h_skel h))).
  - apply hoare_sys. intros h n [Hr Hf]. cbv zeta. destruct (Z.eqb_spec (answer K n h (PFreeze x)) 0); [|(split; [done|by apply Hd])].
    split; [|by apply Hd, HR]. intros _. split; [by apply HR|]. intros y Hy. cbn. set_solver.
  - intros e. destruct (Z.eqb_spec e 0) as [->|]; [|by apply hoare_ret]. eapply hoare_weaken; [apply (IH (done ++ [x]))|intros h H; exact (H eq_refl)| |done].
    intros ok h H E. specialize (H E). by rewrite <- app_assoc in H.
Qed.
End Before.

(** *** From the open object to the attach *)

(** Nothing is attached and the maps are as [compartment_bpf__open] gives them. *)
Definition opened (h : host) : Prop :=
  detached h /\ pol h = sk_policy fresh_skeleton.

Lemma autoload_spec p b (P : host -> Prop) :
  (forall h, P h -> opened h) -> hoare P (set_autoload K p b) (fun ok h => opened h /\ (ok = true -> sk_autoload (h_skel h) p = b)) opened.
Proof.
  intros HP. unfold set_autoload. eapply (hoare_bind _ _ _ (fun e h => opened h /\ (e = 0 -> sk_autoload (h_skel h) p = b))).
  - apply hoare_sys. intros h n Hh%HP. cbv zeta. destruct (Z.eqb_spec (answer K n h (PAutoload p)) 0); [|by repeat split; try apply Hh].
    assert (opened (upd_skel (autoload p b) h)) by apply Hh. split; [|done]. split; [done|]. intros _. cbn. by rewrite String.eqb_refl.
  - intros e. apply hoare_ret. intros h [Hh He]. split; [done|]. intros ?%Z.eqb_eq. auto.
Qed.

Lemma opened_autoload p b : hoare opened (set_autoload K p b) (fun _ => opened) opened.
Proof. eapply hoare_post; [by apply autoload_spec|]. by intros ok h []. Qed.

Lemma opened_setattr : hoare opened (select_inode_setattr_variant K) (fun _ => opened) opened.
Proof. unfold select_inode_setattr_variant. do 2 (apply keep_then; [apply opened_autoload|intros ?]). apply keep_ret. Qed.

Definition gated (h : host) : Prop := opened h /\ (o_self_protect o = true -> sk_autoload (h_skel h) "comp_bpf_map"%string = true).

Lemma bpf_map_variant_spec : hoare opened (select_bpf_map_variant K o) (fun ok h => opened h /\ (ok = true -> gated h)) opened.
Proof.
  unfold select_bpf_map_variant. destruct (o_self_protect o) eqn:Ho, (bpf_map_hook_present K); cbn [andb negb].
  2: by apply hoare_ret.
  all: eapply hoare_post; [by apply autoload_spec|]; intros ok h [H1 H2]; (split; [done|]); intros ->; (split; [done|]); rewrite Ho; (done || by intros _; apply H2).
Qed.

Lemma ring_override_quiet : quiet (audit_ring_override K).
Proof. unfold audit_ring_override. solve_quiet. Qed.

Lemma tree_exists_quiet : quiet (pin_tree_exists K).
Proof. unfold pin_tree_exists. solve_quiet. Qed.

(** *** The run *)

Section Run.
Context (w : lworld) (content : cstring).

Definition loads (m : maps) : Prop := load_conf RealLoad w content (o_allow_empty o) (o_pin o) (o_allow_candidate o) = Some m.

(** When the programs are attached, the profile has loaded and its policy is complete. *)
Definition covered (h : host) : Prop := sk_attached (h_skel h) = true -> exists m, loads m /\ armed m h.

Lemma detached_covered h : detached h -> covered h.
Proof. unfold covered. by intros ->. Qed.

Lemma armed_covered m h : loads m -> armed m h -> covered h.
Proof. intros Hl Ha _. by exists m. Qed.

Lemma destroy_covered : hoare covered (destroy K) (fun _ => covered) covered.
Proof. apply keep_then; [|intros; apply keep_ret]. apply hoare_keep. intros h _. by apply detached_covered. Qed.

(** The early return of [main]. *)
Lemma bail_covered (P : host -> Prop) (n : Z) :
  (forall h, P h -> covered h) -> hoare P (destroy K ;; mret n) (fun _ _ => True) covered.
Proof.
  intros HP. eapply hoare_bind; [eapply hoare_pre; [apply destroy_covered|done]|]. intros ?. by apply hoare_ret.
Qed.

(** A step of [main] that bails out when it fails. *)
Lemma step_covered (m : act bool) (k : act Z) (P Q D : host -> Prop) :
  hoare P m (fun ok h => D h /\ (ok = true -> Q h)) D -> (forall h, D h -> covered h) ->
  hoare Q k (fun _ _ => True) covered ->
  hoare P (ok ← m; if negb ok then destroy K ;; mret 1 else k) (fun _ _ => True) covered.
Proof.
  intros Hm HD Hk. eapply hoare_bind; [eapply hoare_weaken; [exact Hm|done| |exact HD]; intros ok h H; exact H|].
  intros []; cbn [negb]; [eapply hoare_pre; [exact Hk|]; intros h [_ H]; by apply H|]. apply bail_covered. intros h [H _]. auto.
Qed.

(** Two facts about one action. *)
Lemma hoare_with {A} (m : act A) (P D : host -> Prop) (Q : A -> host -> Prop) :
  (forall h, P h -> D h) -> hoare D m (fun _ => D) D -> hoare P m Q D -> hoare P m (fun a h => D h /\ Q a h) D.
Proof.
  intros HP H1 H2 s Hs. destruct (H1 s (HP _ Hs)) as [Hd _], (H2 s Hs) as [Hq Hl]. by split.
Qed.

Lemma keep_detached c eff : (forall h, sk_attached (h_skel (eff h)) = sk_attached (h_skel h)) -> hoare detached (sys K c eff) (fun _ => detached) detached.
Proof. intros He. apply hoare_keep. intros h Hh. unfold detached in *. by rewrite He. Qed.

Lemma detached_update x f : hoare detached (update K x f) (fun _ => detached) detached.
Proof. apply keep_then; [by apply keep_detached|]. intros; apply keep_ret. Qed.

Lemma detached_early : hoare detached (self_protect_populate_early K o) (fun _ => detached) detached.
Proof.
  pose proof detached_update. assert (forall p, quiet (resolve_binary_key K p)) by (intros p; unfold resolve_binary_key; solve_quiet).
  assert (forall l, hoare detached (add_loaders K l) (fun _ => detached) detached) by (intros l; induction l; cbn [add_loaders]; solve_keep).
  assert (forall l, hoare detached (add_map_ids K l) (fun _ => detached) detached)
    by (intros l; induction l as [|[? []] l]; cbn [add_map_ids]; solve_keep).
  unfold self_protect_populate_early. solve_keep.
Qed.

Lemma detached_freeze : hoare detached (freeze_seal_maps K) (fun _ => detached) detached.
Proof.
  unfold freeze_seal_maps. induction freeze_names as [|x l IH]; cbn [freeze_each]; [apply keep_ret|].
  apply keep_then; [by apply keep_detached|]. intros e. destruct (e =? 0); [done|apply keep_ret].
Qed.

Section Loaded.
Context (m : maps) (Hm : loads m).

Definition ready (h : host) : Prop := base m h /\ (o_self_protect o = true -> gate_set h).

Lemma freeze_ready :
  hoare ready (freeze_seal_maps K) (fun ok h => ok = true -> ready h /\ forall x, x ∈ freeze_names -> x ∈ sk_frozen (h_skel h)) detached.
Proof.
  eapply hoare_pre; [apply (freeze_each_spec ready freeze_names [])|].
  - intros h x [[B1 B2 B3] G]. split; [by split|]. intros Ho. destruct (G Ho). by split.
  - intros h [[B1 _ _] _]. exact B1.
  - intros h H. split; [done|]. intros x Hx. inversion Hx.
Qed.

Lemma attach_armed (k : act Z) :
  hoare (armed m) k (fun _ _ => True) covered ->
  hoare (fun h => ready h /\ forall x, x ∈ freeze_names -> x ∈ sk_frozen (h_skel h))
    (a ← sys K PAttach (upd_skel attach); if negb (a =? 0) then destroy K ;; mret 1 else k) (fun _ _ => True) covered.
Proof.
  intros Hk. eapply (hoare_bind _ _ _ (fun a h => if a =? 0 then armed m h else detached h)).
  - apply hoare_sys. intros h n [[[B1 B2 B3] G] F]. cbv zeta. destruct (answer K n h PAttach =? 0) eqn:E; [|by split; [|apply detached_covered]].
    assert (Ha : armed m (upd_skel attach h)); [|by split; [|apply (armed_covered m)]]. split; [exact B2|exact F|].
    intros Ho. split; [|by apply B3]. by destruct (G Ho).
  - intros a. destruct (a =? 0); cbn [negb]; [done|]. apply bail_covered. apply detached_covered.
Qed.

Lemma armed_run :
  hoare (armed m)
    (rb ← succeeds K PRingbuf; if negb rb then destroy K ;; mret 1 else
     p ← (if o_pin o then pin_policy K PW o else mret true); if negb p then destroy K ;; mret 1 else
     destroy K ;; mret (poll_loop (pk_polls K))) (fun _ _ => True) covered.
Proof.
  assert (Hc : forall h, armed m h -> covered h) by by intros; apply (armed_covered m).
  eapply (step_covered _ _ _ (armed m) (armed m)); [|done|].
  { eapply hoare_post; [apply keep_quiet; eauto with quiet_db|]. by auto. }
  eapply (step_covered _ _ _ (armed m) (armed m)); [|done|by apply bail_covered].
  eapply hoare_post; [|intros ok h H; split; [exact H|by auto]].
  destruct (o_pin o); [apply keep_pin_policy, armed_stable|apply keep_ret].
Qed.
End Loaded.

Lemma note_seals_spec m (P Q : host -> Prop) C :
  (forall h, P h -> Q (with_policy (with_seals m) h)) -> hoare P (note_seals m) (fun _ => Q) C.
Proof. intros H s Hs. split; [by apply H|]. exists []. by rewrite app_nil_r. Qed.

Lemma gated_detached h : gated h -> detached h.
Proof. by intros [[? _] _]. Qed.

(** A question between two steps of [main], before the attach. *)
Lemma ask_gated (b : act bool) (k : act Z) :
  quiet b -> hoare gated k (fun _ _ => True) covered ->
  hoare gated (ok ← b; if negb ok then destroy K ;; mret 1 else k) (fun _ _ => True) covered.
Proof.
  intros Hb Hk. apply (step_covered _ _ _ gated gated); [|intros; by apply detached_covered, gated_detached|done].
  eapply hoare_post; [by apply keep_quiet|]. by auto.
Qed.

Lemma loaded_run m :
  loads m ->
  hoare gated
    (note_seals m ;;
     e ← self_protect_populate_early K o; if negb e then destroy K ;; mret 1 else
     f ← freeze_seal_maps K; if negb f then destroy K ;; mret 1 else
     a ← sys K PAttach (upd_skel attach); if negb (a =? 0) then destroy K ;; mret 1 else
     rb ← succeeds K PRingbuf; if negb rb then destroy K ;; mret 1 else
     p ← (if o_pin o then pin_policy K PW o else mret true); if negb p then destroy K ;; mret 1 else
     destroy K ;; mret (poll_loop (pk_polls K))) (fun _ _ => True) covered.
Proof.
  intros Hm. eapply hoare_bind; [apply (note_seals_spec m _ (fun h => base m h /\ loader_ids (pol h) = ∅))|intros ?].
  { intros h [[Hd Hp] Ha]. unfold pol in *. split; [split|]; cbn; rewrite ?Hp; [exact Hd|by repeat split|exact Ha|done]. }
  eapply (step_covered _ _ _ (ready m) detached); [apply hoare_with|apply detached_covered|].
  { intros h [[B _ _] _]. exact B. } { apply detached_early. } { apply populate_early_spec. }
  eapply (step_covered _ _ _ _ detached); [apply hoare_with|apply detached_covered|].
  { intros h [[B _ _] _]. exact B. } { apply detached_freeze. } { apply freeze_ready. }
  by apply attach_armed, armed_run.
Qed.

Lemma load_and_run_covered : hoare opened (load_and_run K PW o w content) (fun _ _ => True) covered.
Proof.
  assert (Ho : forall h, opened h -> covered h) by by intros h [? _]; apply detached_covered.
  unfold load_and_run. cbv zeta.
  apply (step_covered _ _ _ opened opened); [|done|]. { eapply hoare_post; [apply opened_setattr|]. by auto. }
  apply (step_covered _ _ _ opened opened); [|done|]. { eapply hoare_post; [apply opened_autoload|]. by auto. }
  apply (step_covered _ _ _ gated opened); [apply bpf_map_variant_spec|done|].
  apply ask_gated; [apply ring_override_quiet|].
  eapply hoare_bind; [apply hoare_quiet; [destruct (o_pin o); [apply tree_exists_quiet|apply quiet_ret]|]|].
  { intros h Hh. by apply detached_covered, gated_detached. }
  intros []. { apply bail_covered. intros. by apply detached_covered, gated_detached. }
  apply ask_gated; [eauto with quiet_db|].
  destruct (load_conf _ _ _ _ _ _) as [m|] eqn:Hm; [by apply loaded_run|].
  apply bail_covered. intros. by apply detached_covered, gated_detached.
Qed.

End Run.

End Armed.

(** C22: No window without a complete policy: at every moment of a run of the
    loader at which its programs are attached, whatever the kernel refuses and
    whenever it is killed, the profile has loaded, its seals are in the maps, the
    maps are frozen, and with [--self-protect] the gate on [bpf(2)] is loaded,
    knows every map of the object and exactly the authorised loaders. *)
Theorem enforcement_complete K PW o w content h0 :
  h_skel h0 = fresh_skeleton ->
  Forall (fun e => sk_attached (h_skel e.2) = true ->
      exists m, load_conf RealLoad w content (o_allow_empty o) (o_pin o) (o_allow_candidate o) = Some m /\ armed K o m e.2)
    (r_log (load_and_run K PW o w content (Run h0 [])).2).
Proof.
  intros H0. assert (Hs : opened h0) by (unfold opened, detached, pol; by rewrite H0).
  destruct (load_and_run_covered K PW o w content (Run h0 []) Hs) as (_ & l & -> & Hl). exact Hl.
Qed.

