(* ===== verification/PinDemo.v ===== *)
(** * A host on which to pin and unpin

    A kernel that refuses nothing and a password hash that keeps the passphrase
    in clear: the theorems on the pin lifecycle applied to concrete runs, and the
    runs in which the code does less than its comments say. *)

From S2P Require Import Prelude Abi Kernel Demo SealCore Hooks SealSpec SealRefine HookSpec HookRefine HookProps.
From S2P Require Import CLib Config Loader LoaderSafety Pin Unpin PinMain PinProps UnpinProps PinSafety PinArmed.
From Stdlib Require Import Ascii.
From stdpp Require Import strings.

#[local] Open Scope Z_scope.

Module Pinned.

Definition private_file : stat := {| st_mode := 0x8180; st_uid := 0 |}.
Definition private_dir : stat := {| st_mode := 0x41c0; st_uid := 0 |}.

(** The pin of the [inode_unlink] program is inode 101 of device 8. *)
Definition ino (p : cstring) : Z := if streq p (pin_path PIN_ROOT LinkDir "comp_inode_unlink") then 101 else 1.

(** [refuse] is the errno of each call, [signal] tells whether one arrived at a
    check, [drained] from which poll on the programs are gone. *)
Definition kernel_with (refuse : pcall -> Z) (signal : nat -> bool) (drained : nat) : pkernel := {|
  pk_errno := fun _ _ => refuse; pk_fs_type := BPF_FS_MAGIC; pk_mode := fun _ => 0x41c0; pk_ino := ino;
  pk_sentinel_dir := private_dir; pk_new_sentinel := private_file; pk_realpath := inr;
  pk_map := fun _ => BpfMap 6 4 8 1 [2; 3]; pk_object_maps := [("sealed_inodes"%string, Some 7); ("rodata"%string, None)];
  pk_prog_id := fun _ => 9; pk_prog := fun poll _ => if Nat.leb drained poll then ProgGone else ProgAlive;
  pk_writes := [WInterrupted; WSome 3]; pk_tty := None; pk_ncpus := 2; pk_running := fun n => negb (signal n);
  pk_btf := Some (fun f => if String.eqb f "bpf_lsm_bpf_map" then Some (Some 2) else None);
  pk_uname := (6, 8); pk_lsm := lit "lockdown,capability,bpf"; pk_ring_env := None;
  pk_bin := fun _ => BinStat 0x81ed 0 0 8 201; pk_bpffs_dev := Some (0, 8); pk_polls := [false]
|}.

Definition calm : pkernel := kernel_with (fun _ => 0) (fun _ => false) 3.

Definition hash : pwhash := PwHash (fun p => Some (lit "$argon2id$" ++ p)) (fun t p => streq t (lit "$argon2id$" ++ p)).

Definition opts : popts := POpts true false false false false false false None (Some (lit "/etc/c.conf")) true [].

Definition clean (pass : option cstring) : host := Host ∅ ∅ None fresh_skeleton pass.
Definition attached (pass : option cstring) : host := set_skel (attach fresh_skeleton) (clean pass).

(** The host after [--pin] with the passphrase, and a new process with another one. *)
Definition after_pin : host := r_host (pin_policy calm hash opts (Run (attached (Some (lit "secret"))) [])).2.
Definition unpinning (pass : string) : host := set_env (Some (lit pass)) after_pin.

(** The editor of [Demo] under a policy. *)
Definition policy_env (p : policy) : env := {|
  e_kernel := demo_kernel; e_policy := p; e_current := Some 1%positive; e_ktime := 1;
  e_pid_tgid := 0; e_uid_gid := 0; e_comm := demo_name; e_reserve := fun _ => true; e_storage_alloc := true
|}.

Lemma calm_honest : honest calm.
Proof. intros n h c H. discriminate. Qed.

Lemma calm_removable : removable calm.
Proof. intros n h []; done. Qed.

Lemma calm_allocates : allocates calm.
Proof. done. Qed.

End Pinned.
Import Pinned.

(** ** The passphrase *)

Lemma unpin_requires_passphrase_witness :
  (unpin_action calm hash None (Run (unpinning "guess") [])).1 = 1
  /\ h_links (r_host (unpin_action calm hash None (Run (unpinning "guess") [])).2) = h_links after_pin
  /\ size (h_links after_pin) = 29%nat.
Proof.
  pose proof (unpin_requires_passphrase calm hash None (unpinning "guess") calm_honest) as H.
  assert (Ha : authorised calm hash (unpinning "guess") = false) by (vm_compute; reflexivity).
  specialize (H Ha). destruct (unpin_action calm hash None (Run (unpinning "guess") [])) as [rc s] eqn:E.
  destruct H as (-> & (Hl & _) & _). split; [done|]. split; [exact Hl|]. vm_compute. reflexivity.
Defined.

Lemma unpin_zero_means_drained_witness :
  (unpin_action calm hash None (Run (unpinning "secret") [])).1 = 0
  /\ swept LinkDir (r_host (unpin_action calm hash None (Run (unpinning "secret") [])).2)
  /\ exists ids, drained_by calm ids 0 60000.
Proof.
  assert (Hc : (unpin_action calm hash None (Run (unpinning "secret") [])).1 = 0) by (vm_compute; reflexivity).
  pose proof (unpin_zero_means_drained calm hash PIN_ROOT (unpinning "secret") calm_honest eq_refl) as H.
  destruct (unpin_action calm hash None (Run (unpinning "secret") [])) as [rc s]. cbn in Hc. subst rc.
  destruct (H eq_refl) as (Hs & _ & ids & _ & Hd). eauto.
Defined.

Lemma pin_crash_safe_witness :
  (exists e, e ∈ r_log (pin_policy calm hash opts (Run (attached (Some (lit "secret"))) [])).2 /\ h_links e.2 <> ∅)
  /\ Forall (fun e => h_links e.2 = ∅ \/ sentinel_for hash (lit "secret") e.2)
       (r_log (pin_policy calm hash opts (Run (attached (Some (lit "secret"))) [])).2).
Proof.
  split.
  - assert (H : existsb (fun e => Nat.eqb (size (h_links e.2)) 29)
      (r_log (pin_policy calm hash opts (Run (attached (Some (lit "secret"))) [])).2) = true) by (vm_compute; reflexivity).
    apply existsb_exists in H as (e & He & Hs%Nat.eqb_eq). exists e. split; [by apply list_elem_of_In|].
    intros Hn. rewrite Hn in Hs. discriminate.
  - apply (pin_crash_safe calm hash opts (attached (Some (lit "secret"))) (lit "secret")); (apply calm_honest || apply calm_removable || done).
Defined.

Lemma pin_all_or_nothing_witness :
  (pin_policy calm hash opts (Run (attached None) [])).1 = true
  /\ is_Some (h_links (r_host (pin_policy calm hash opts (Run (attached None) [])).2) !! "comp_file_open"%string)
  /\ let stopped := kernel_with (fun _ => 0) (fun n => Nat.eqb n 1) 3 in
     (pin_policy stopped hash opts (Run (attached None) [])).1 = false
     /\ h_links (r_host (pin_policy stopped hash opts (Run (attached None) [])).2) = ∅.
Proof.
  assert (Hc : (pin_policy calm hash opts (Run (attached None) [])).1 = true) by (vm_compute; reflexivity).
  pose proof (pin_all_or_nothing calm hash opts (attached None) calm_honest calm_removable) as H.
  destruct (pin_policy calm hash opts (Run (attached None) [])) as [ok s]. cbn in Hc. subst ok. destruct H as [H _].
  split; [done|]. split; [by apply (H (PinLink "comp_file_open")); [apply (list_elem_of_lookup_2 _ 8)|]|]. cbv zeta.
  set (stopped := kernel_with _ _ _).
  assert (Hf : (pin_policy stopped hash opts (Run (attached None) [])).1 = false) by (vm_compute; reflexivity).
  assert (H1 : honest stopped) by (intros n h c E; discriminate). assert (H2 : removable stopped) by (intros n h []; done).
  pose proof (pin_all_or_nothing stopped hash opts (attached None) H1 H2) as H'.
  destruct (pin_policy stopped hash opts (Run (attached None) [])) as [ok' s']. cbn in Hf. subst ok'. destruct H' as [H' _]. split; [done|exact H'].
Defined.

Lemma same_tree_env h v : same_tree h (set_env v h).
Proof. done. Qed.

Lemma unpin_undoes_pin_witness :
  let h := r_host (pin_policy calm hash opts (Run (attached (Some (lit "secret"))) [])).2 in
  let U := unpin_action calm hash None (Run (set_env (Some (lit "secret")) h) []) in
  U.1 = 0 /\ h_links (r_host U.2) = ∅.
Proof.
  intros h U. pose proof (unpin_undoes_pin calm calm hash opts PIN_ROOT (attached (Some (lit "secret")))
    (set_env (Some (lit "secret")) h) calm_honest calm_removable calm_honest eq_refl) as H.
  pose proof (same_tree_env h (Some (lit "secret"))) as Ht.
  fold U in H. subst h. set (R := pin_policy calm hash opts (Run (attached (Some (lit "secret"))) [])) in *.
  assert (Hc : U.1 = 0) by (vm_compute; reflexivity). assert (Hp : R.1 = true) by (vm_compute; reflexivity).
  clearbody U. clearbody R. destruct U as [rc s'], R as [ok s]. cbn in Hc, Hp. subst. split; [done|]. by apply H.
Defined.

Lemma pins_protected_witness :
  verdict (policy_env (pol after_pin)) (HInodeUnlink (Some 11%positive)) demo_dyn = - EACCES
  /\ verdict (policy_env (pol after_pin)) (HInodeRename (Some 31%positive) (Some 11%positive)) demo_dyn = - EACCES.
Proof.
  unfold after_pin. set (R := pin_policy calm hash opts (Run (attached (Some (lit "secret"))) [])).
  pose proof (pins_protected calm hash opts (attached (Some (lit "secret"))) (policy_env (pol (r_host R.2))) demo_dyn (Some 11%positive)
    LinkDir "comp_inode_unlink" calm_honest eq_refl) as H.
  fold R in H. assert (Hc : R.1 = true) by (vm_compute; reflexivity).
  assert (Hi : in_host (r_host R.2) (InDir LinkDir "comp_inode_unlink") = true) by (vm_compute; reflexivity).
  assert (Hl : is_loader (policy_env (pol (r_host R.2))) = false) by (vm_compute; reflexivity).
  clearbody R. destruct R as [ok s]. cbn in Hc. subst ok. cbn [fst snd] in *.
  destruct (H eq_refl eq_refl) as (_ & Hu & _ & Hr).
  - apply (bool_decide_unpack _). vm_compute. exact Logic.I.
  - exact Hi.
  - vm_compute. reflexivity.
  - exact Hl.
  - split; [exact Hu|apply Hr].
Defined.

(** The run attaches, and every moment of it at which the programs are attached is
    covered. *)
Lemma enforcement_complete_witness :
  existsb (fun e => sk_attached (h_skel e.2)) (r_log (load_and_run calm hash opts Example.world Example.profile (Run (clean None) [])).2) = true
  /\ Forall (fun e => sk_attached (h_skel e.2) = true ->
       exists m, load_conf RealLoad Example.world Example.profile false true false = Some m /\ armed calm opts m e.2)
       (r_log (load_and_run calm hash opts Example.world Example.profile (Run (clean None) [])).2).
Proof.
  split; [vm_compute; reflexivity|]. apply (enforcement_complete calm hash opts Example.world Example.profile (clean None)). reflexivity.
Defined.

(** ** Runs that do less than the comments say *)

(** A passphrase of more than 4096 bytes was given, and [--pin] succeeds without a
    sentinel: [--unpin] then asks for nothing. *)
Example long_passphrase_pins_unguarded :
  let '(ok, s) := pin_policy calm hash opts (Run (attached (Some (replicate 4097 "x"%char))) []) in
  ok = true /\ h_sentinel (r_host s) = None /\ (unpin_action calm hash None (Run (r_host s) [])).1 = 0.
Proof. vm_compute. done. Qed.

(** The sentinel of a killed [--pin] is not overwritten by a later [--pin] that
    gives no passphrase: its tree can only be unpinned with the old one. *)
Example stale_sentinel_survives :
  let stale := set_sentinel (Some (lit "$argon2id$old", private_file)) (attached None) in
  let '(ok, s) := pin_policy calm hash opts (Run stale []) in
  ok = true /\ h_sentinel (r_host s) = h_sentinel stale /\ (unpin_action calm hash None (Run (r_host s) [])).1 = 1.
Proof. vm_compute. done. Qed.

(** A roll-back that cannot remove a link removes the sentinel all the same: the
    link stays pinned and the passphrase no longer guards it. *)
Example rollback_drops_sentinel :
  let stuck := kernel_with (fun c => match c with
    | PUnlink (InDir LinkDir "comp_file_open"%string) => EPERM | PPin MapDir _ => EPERM | _ => 0 end) (fun _ => false) 3 in
  let '(ok, s) := pin_policy stuck hash opts (Run (attached (Some (lit "secret"))) []) in
  ok = false /\ in_host (r_host s) (InDir LinkDir "comp_file_open") = true /\ h_sentinel (r_host s) = None.
Proof. vm_compute. done. Qed.
