(* ===== verification/AbiWire.v ===== *)
(** * The wire format of the shared structures

    Models the layout of [src/compartment-bpf/compartment-abi.h]: the C layout
    rules for its structures, their sizes as the header asserts them, and the
    bytes that the in-kernel programs and the loader exchange through maps and
    the ring buffer (little-endian).  A value that does not fit its field is
    stored truncated, as C does. *)

From S2P Require Import Prelude Abi.

#[local] Open Scope Z_scope.

(** ** C layout *)

Inductive ctype := U8 | U32 | U64 | Arr (t : ctype) (n : nat) | Struct (fields : list ctype).

Definition round_up (n a : nat) : nat := ((n + a - 1) / a * a)%nat.

Fixpoint alignof (t : ctype) : nat :=
  match t with
  | U8 => 1 | U32 => 4 | U64 => 8
  | Arr t _ => alignof t
  | Struct fs => foldr (fun f a => Nat.max (alignof f) a) 1%nat fs
  end.

Fixpoint sizeof (t : ctype) : nat :=
  match t with
  | U8 => 1 | U32 => 4 | U64 => 8
  | Arr t n => sizeof t * n
  | Struct fs =>
      let last := foldl (fun off f => round_up off (alignof f) + sizeof f)%nat 0%nat fs in
      round_up last (alignof t)
  end.

(** The bytes of the fields alone: equal to [sizeof] when there is no padding. *)
Fixpoint payload (t : ctype) : nat :=
  match t with
  | U8 => 1 | U32 => 4 | U64 => 8
  | Arr t n => payload t * n
  | Struct fs => foldr (fun f n => payload f + n)%nat 0%nat fs
  end.

Definition inode_key_t : ctype := Struct [U64; U64].
Definition actor_id_t : ctype := Struct [U64; U64].
Definition audit_event_t : ctype :=
  Struct [U32; U32; U64; U32; U32; U32; U32; U64; U64; U64; U64; Arr U8 16; Arr U8 16].
Definition seal_value_t : ctype :=
  Struct [U32; U8; Arr U8 3; Arr actor_id_t COMPARTMENT_MAX_ACTORS_PER_SEAL; Arr U8 16; U32; U32].
Definition launcher_actor_t : ctype := Struct [inode_key_t; U32; U32].
Definition actor_marker_t : ctype := Struct [inode_key_t; U32; U32; U32; U32].
Definition policy_state_t : ctype := Struct [U32; U32].
Definition self_protect_cfg_t : ctype := Struct [U64; U32; U32].

(** The assertions of the header. *)
Example abi_static_asserts :
  (sizeof audit_event_t, sizeof actor_id_t, sizeof seal_value_t, sizeof launcher_actor_t, sizeof actor_marker_t,
   sizeof policy_state_t, sizeof self_protect_cfg_t)%nat = (96, 16, 96, 24, 32, 8, 16)%nat.
Proof. reflexivity. Qed.

(** ** Codecs *)

(** A field or a structure on the wire: its bytes, how it is read, and the value
    that is read back. *)
Record codec (A : Type) := Codec {
  c_type : ctype;
  c_enc : A -> list Z;
  c_dec : list Z -> option (A * list Z);
  c_fit : A -> A
}.
Arguments c_type {A}. Arguments c_enc {A}. Arguments c_dec {A}. Arguments c_fit {A}.

(** What a structure of the header promises to both sides. *)
Class Wire {A} (c : codec A) : Prop := {
  wire_length a : length (c_enc c a) = payload (c_type c);
  wire_dec a rest : c_dec c (c_enc c a ++ rest) = Some (c_fit c a, rest);
  wire_used l a rest : c_dec c l = Some (a, rest) -> length l = (payload (c_type c) + length rest)%nat
}.

Lemma wire_short {A} (c : codec A) `{Wire A c} l : (length l < payload (c_type c))%nat -> c_dec c l = None.
Proof. intros Hl. destruct (c_dec c l) as [[a r]|] eqn:E; [|done]. apply wire_used in E. lia. Qed.

(** *** Integers *)

Fixpoint le_bytes (n : nat) (z : Z) : list Z :=
  match n with O => [] | S n => z mod 256 :: le_bytes n (z / 256) end.

Fixpoint le_value (n : nat) (l : list Z) : option (Z * list Z) :=
  match n, l with
  | O, _ => Some (0, l)
  | S n, b :: l => '(v, r) ← le_value n l; Some (b + 256 * v, r)
  | S _, [] => None
  end.

Definition uint (t : ctype) : codec Z :=
  Codec Z t (le_bytes (sizeof t)) (le_value (sizeof t)) (fun z => z mod 256 ^ Z.of_nat (sizeof t)).

Lemma le_bytes_length n z : length (le_bytes n z) = n.
Proof. revert z. induction n; intros z; cbn; auto. Qed.

Lemma le_value_bytes n z rest : le_value n (le_bytes n z ++ rest) = Some (z mod 256 ^ Z.of_nat n, rest).
Proof.
  revert z. induction n as [|n IH]; intros z; [by rewrite Z.mod_1_r|]. cbn [le_bytes app le_value]. rewrite IH. cbn.
  do 2 f_equal. rewrite Nat2Z.inj_succ, Z.pow_succ_r by lia. rewrite Z.rem_mul_r by lia. done.
Qed.

Lemma le_value_used n l v r : le_value n l = Some (v, r) -> length l = (n + length r)%nat.
Proof.
  revert l v. induction n as [|n IH]; intros [|b l] v; cbn; try done; [by intros [= _ <-]..|].
  destruct (le_value n l) as [[w r']|] eqn:E; cbn; [|done]. intros [= _ <-]. by rewrite (IH _ _ E).
Qed.

Lemma wire_uint t : payload t = sizeof t -> Wire (uint t).
Proof. intros Hp. split; cbn; [intros; rewrite Hp; apply le_bytes_length|apply le_value_bytes|rewrite Hp; apply le_value_used]. Qed.

#[export] Instance wire_u8 : Wire (uint U8) := wire_uint U8 eq_refl.
#[export] Instance wire_u32 : Wire (uint U32) := wire_uint U32 eq_refl.
#[export] Instance wire_u64 : Wire (uint U64) := wire_uint U64 eq_refl.

(** *** Sequences *)

(** An array: what is missing is zero, what is too much is lost. *)
Fixpoint dec_array {A} (c : codec A) (n : nat) (l : list Z) : option (list A * list Z) :=
  match n with
  | O => Some ([], l)
  | S n => '(a, l) ← c_dec c l; '(r, l) ← dec_array c n l; Some (a :: r, l)
  end.

Definition array {A} (c : codec A) (zero : A) (n : nat) : codec (list A) :=
  Codec (list A) (Arr (c_type c) n) (fun s => mjoin (c_enc c <$> resize n zero s)) (dec_array c n)
    (fun s => c_fit c <$> resize n zero s).

Section Array.
Context {A} (c : codec A) `{Wire A c}.

Lemma enc_cons (x : list Z) l : mjoin (x :: l) = x ++ mjoin l.
Proof. done. Qed.

Lemma enc_all_length s : length (mjoin (c_enc c <$> s)) = (payload (c_type c) * length s)%nat.
Proof. induction s as [|a s IH]; [cbn; lia|]. rewrite fmap_cons, enc_cons, length_app, IH, wire_length. cbn. lia. Qed.

Lemma dec_array_enc s rest : dec_array c (length s) (mjoin (c_enc c <$> s) ++ rest) = Some (c_fit c <$> s, rest).
Proof. induction s as [|a s IH]; [done|]. cbn [length dec_array]. rewrite fmap_cons, enc_cons, <- app_assoc, wire_dec. cbn. by rewrite IH. Qed.

Lemma dec_array_used n l s r : dec_array c n l = Some (s, r) -> length l = (payload (c_type c) * n + length r)%nat.
Proof.
  revert l s. induction n as [|n IH]; intros l s; cbn; [intros [= _ <-]; lia|].
  destruct (c_dec c l) as [[a l1]|] eqn:E1; cbn; [|done]. destruct (dec_array c n l1) as [[t l2]|] eqn:E2; cbn; [|done].
  intros [= _ <-]. apply wire_used in E1. apply IH in E2. lia.
Qed.

#[export] Instance wire_array zero n : Wire (array c zero n).
Proof.
  split; cbn; [|intros s rest|apply dec_array_used].
  - intros s. by rewrite enc_all_length, length_resize.
  - rewrite <- (length_resize s n zero) at 1. apply dec_array_enc.
Qed.
End Array.

(** Two fields, one after the other; a structure is a record around its fields. *)
Definition both {A B} (ca : codec A) (cb : codec B) : codec (A * B) :=
  Codec (A * B) (Struct [c_type ca; c_type cb]) (fun p => c_enc ca p.1 ++ c_enc cb p.2)
    (fun l => '(a, l) ← c_dec ca l; '(b, l) ← c_dec cb l; Some ((a, b), l)) (fun p => (c_fit ca p.1, c_fit cb p.2)).

#[export] Instance wire_both {A B} (ca : codec A) (cb : codec B) : Wire ca -> Wire cb -> Wire (both ca cb).
Proof.
  intros Ha Hb. split; cbn.
  - intros [a b]. cbn. rewrite length_app, !wire_length. lia.
  - intros [a b] rest. cbn. rewrite <- app_assoc, wire_dec. cbn. by rewrite wire_dec.
  - intros l [a b] r. destruct (c_dec ca l) as [[a' l1]|] eqn:E1; cbn; [|done].
    destruct (c_dec cb l1) as [[b' l2]|] eqn:E2; cbn; [|done]. intros [= _ _ <-]. apply wire_used in E1, E2. lia.
Qed.

Definition as_struct {A B} (t : ctype) (c : codec A) (mk : A -> B) (un : B -> A) : codec B :=
  Codec B t (fun b => c_enc c (un b)) (fun l => '(a, l) ← c_dec c l; Some (mk a, l)) (fun b => mk (c_fit c (un b))).

Lemma wire_struct {A B} t (c : codec A) (mk : A -> B) (un : B -> A) :
  Wire c -> payload t = payload (c_type c) -> Wire (as_struct t c mk un).
Proof.
  intros Hc Hp. split; cbn; rewrite ?Hp.
  - intros b. apply wire_length.
  - intros b rest. by rewrite wire_dec.
  - intros l b r. destruct (c_dec c l) as [[a l']|] eqn:E; cbn; [|done]. intros [= _ <-]. by apply wire_used in E.
Qed.

(** ** The structures *)

#[local] Infix "⊗" := both (at level 40, left associativity).

Definition inode_key_c : codec inode_key :=
  as_struct inode_key_t (uint U64 ⊗ uint U64) (fun '(d, i) => InodeKey d i) (fun k => (key_dev k, key_ino k)).
Definition actor_id_c : codec actor_id :=
  as_struct actor_id_t (uint U64 ⊗ uint U64) (fun '(d, i) => ActorId d i) (fun k => (actor_dev k, actor_ino k)).
Definition chars (n : nat) : codec (list Z) := array (uint U8) 0 n.

Definition audit_event_c : codec audit_event :=
  as_struct audit_event_t
    (uint U32 ⊗ uint U32 ⊗ uint U64 ⊗ uint U32 ⊗ uint U32 ⊗ uint U32 ⊗ uint U32
     ⊗ uint U64 ⊗ uint U64 ⊗ uint U64 ⊗ uint U64 ⊗ chars 16 ⊗ chars 16)
    (fun '(v, p, t, pid, ppid, uid, a, d, i, cd, ci, comm, name) => AuditEvent v p t pid ppid uid a d i cd ci comm name)
    (fun e => (ev_version e, ev_pad0 e, ev_ts_ns e, ev_pid e, ev_ppid e, ev_uid e, ev_action e,
               ev_dev e, ev_ino e, ev_caller_dev e, ev_caller_ino e, ev_comm e, ev_actor_name e)).

Definition seal_value_c : codec seal_value :=
  as_struct seal_value_t
    (uint U32 ⊗ uint U8 ⊗ chars 3 ⊗ array actor_id_c (ActorId 0 0) COMPARTMENT_MAX_ACTORS_PER_SEAL ⊗ chars 16
     ⊗ uint U32 ⊗ uint U32)
    (fun '(f, n, _, a, name, s, g) => SealValue f n a name s g)
    (fun v => (sv_flags v, sv_actor_count v, [], sv_actor v, sv_actor_name v, sv_strict_actor_slot v, sv_strict_generation v)).

Definition launcher_actor_c : codec launcher_actor :=
  as_struct launcher_actor_t (inode_key_c ⊗ uint U32 ⊗ uint U32) (fun '(k, s, g) => LauncherActor k s g)
    (fun l => (la_target l, la_actor_slot l, la_policy_generation l)).
Definition actor_marker_c : codec actor_marker :=
  as_struct actor_marker_t (inode_key_c ⊗ uint U32 ⊗ uint U32 ⊗ uint U32 ⊗ uint U32) (fun '(k, s, g, st, p) => ActorMarker k s g st p)
    (fun m => (am_target m, am_actor_slot m, am_policy_generation m, am_state m, am_pad m)).
Definition policy_state_c : codec policy_state :=
  as_struct policy_state_t (uint U32 ⊗ uint U32) (fun '(g, s) => PolicyState g s) (fun p => (ps_generation p, ps_strict_loaded p)).
Definition self_protect_cfg_c : codec self_protect_cfg :=
  as_struct self_protect_cfg_t (uint U64 ⊗ uint U32 ⊗ uint U32) (fun '(d, e, _) => SelfProtectCfg d e) (fun c => (cfg_pin_dev c, cfg_enabled c, 0)).

Ltac solve_wire := apply wire_struct; [repeat apply wire_both; typeclasses eauto|reflexivity].

#[export] Instance wire_inode_key : Wire inode_key_c. Proof. solve_wire. Qed.
#[export] Instance wire_actor_id : Wire actor_id_c. Proof. solve_wire. Qed.
#[export] Instance wire_audit_event : Wire audit_event_c. Proof. solve_wire. Qed.
#[export] Instance wire_seal_value : Wire seal_value_c. Proof. solve_wire. Qed.
#[export] Instance wire_launcher_actor : Wire launcher_actor_c. Proof. solve_wire. Qed.
#[export] Instance wire_actor_marker : Wire actor_marker_c. Proof. solve_wire. Qed.
#[export] Instance wire_policy_state : Wire policy_state_c. Proof. solve_wire. Qed.
#[export] Instance wire_self_protect_cfg : Wire self_protect_cfg_c. Proof. solve_wire. Qed.

(** ** Values that fit *)

Definition fits_in (t : ctype) (z : Z) : Prop := 0 <= z < 256 ^ Z.of_nat (sizeof t).
Definition key_fits (k : inode_key) : Prop := fits_in U64 (key_dev k) /\ fits_in U64 (key_ino k).
Definition name_fits (n : name16) : Prop := length n = 16%nat /\ Forall (fits_in U8) n.

Record seal_fits (v : seal_value) : Prop := {
  sf_flags : fits_in U32 (sv_flags v);
  sf_count : fits_in U8 (sv_actor_count v);
  sf_length : length (sv_actor v) = COMPARTMENT_MAX_ACTORS_PER_SEAL;
  sf_actors : Forall (fun a => fits_in U64 (actor_dev a) /\ fits_in U64 (actor_ino a)) (sv_actor v);
  sf_name : name_fits (sv_actor_name v);
  sf_slot : fits_in U32 (sv_strict_actor_slot v);
  sf_generation : fits_in U32 (sv_strict_generation v)
}.

Record event_fits (e : audit_event) : Prop := {
  ef_u32 : Forall (fits_in U32) [ev_version e; ev_pad0 e; ev_pid e; ev_ppid e; ev_uid e; ev_action e];
  ef_u64 : Forall (fits_in U64) [ev_ts_ns e; ev_dev e; ev_ino e; ev_caller_dev e; ev_caller_ino e];
  ef_comm : name_fits (ev_comm e);
  ef_actor : name_fits (ev_actor_name e)
}.

Lemma uint_fit t z : fits_in t z -> c_fit (uint t) z = z.
Proof. intros H. by apply Z.mod_small. Qed.

Lemma array_fit {A} (c : codec A) zero n s : length s = n -> Forall (fun a => c_fit c a = a) s -> c_fit (array c zero n) s = s.
Proof. intros Hl Hs. cbn. rewrite resize_all_alt by done. rewrite <- (list_fmap_id s) at 2. by apply Forall_fmap_ext_1. Qed.

Lemma chars_fit n : name_fits n -> c_fit (chars 16) n = n.
Proof. intros [Hl Hn]. apply array_fit; [done|]. eapply Forall_impl; [exact Hn|]. intros z. apply uint_fit. Qed.

Lemma seal_fit v : seal_fits v -> c_fit seal_value_c v = v.
Proof.
  intros [H1 H2 H3 H4 H5 H6 H7]. destruct v as [f n a name s g]. cbn -[uint array chars] in *.
  rewrite !uint_fit, chars_fit by done. f_equal. apply array_fit; [done|]. eapply Forall_impl; [exact H4|].
  intros [d i] [Hd Hi]. cbn -[uint]. by rewrite !uint_fit.
Qed.

Lemma event_fit e : event_fits e -> c_fit audit_event_c e = e.
Proof.
  intros [H1 H2 H3 H4]. destruct e. cbn -[uint array chars] in *.
  decompose_Forall_hyps. f_equal; first [by apply (uint_fit U32)|by apply (uint_fit U64)|by apply chars_fit].
Qed.

(** The loader and the in-kernel programs read what the other wrote.  A seal,
    a launcher entry and an audit event whose fields are in range take exactly the
    bytes [sizeof] gives, with no padding between fields, and are read back
    unchanged, whatever follows them in the buffer. *)
Theorem wire_roundtrip v e l rest :
  seal_fits v -> event_fits e ->
  key_fits (la_target l) -> fits_in U32 (la_actor_slot l) -> fits_in U32 (la_policy_generation l) ->
  (c_dec seal_value_c (c_enc seal_value_c v ++ rest) = Some (v, rest) /\ length (c_enc seal_value_c v) = sizeof seal_value_t)
  /\ (c_dec audit_event_c (c_enc audit_event_c e ++ rest) = Some (e, rest) /\ length (c_enc audit_event_c e) = sizeof audit_event_t)
  /\ (c_dec launcher_actor_c (c_enc launcher_actor_c l ++ rest) = Some (l, rest)
      /\ length (c_enc launcher_actor_c l) = sizeof launcher_actor_t).
Proof.
  intros Hv He [Hk1 Hk2] Hs Hg. rewrite !wire_dec, !wire_length, seal_fit, event_fit by done.
  destruct l as [[d i] s g]. cbn -[uint] in *. by rewrite !uint_fit.
Qed.
