(* ===== verification/AuditLine.v ===== *)
(** * The audit stream

    Models [action_name] and [audit_handler] of
    [src/compartment-bpf/compartment-bpf.c]: what the loader prints for an event
    of the ring buffer; and composes them with the hooks: a refusal is printed,
    under the name of its action, on one line. *)

From S2P Require Import Prelude Abi Kernel Demo SealCore Hooks SealSpec SealRefine HookSpec HookRefine HookProps.
From S2P Require Import CLib EnvAudit AbiWire.
From Stdlib Require Import Ascii.
From stdpp Require Import strings.

#[local] Open Scope Z_scope.

(** ** The printer *)

Definition action_names : list (Z * string) :=
  [(ACTION_DENY_UNLINK, "DENY_UNLINK"); (ACTION_DENY_RENAME, "DENY_RENAME"); (ACTION_DENY_WRITE, "DENY_WRITE");
   (ACTION_DENY_ACTOR_MISMATCH, "DENY_ACTOR_MISMATCH"); (ACTION_DENY_CHMOD, "DENY_CHMOD");
   (ACTION_DENY_CREATE, "DENY_CREATE"); (ACTION_DENY_UNPIN_AUTH_FAIL, "DENY_UNPIN_AUTH_FAIL");
   (ACTION_DENY_STRICT_LAUNCH_MISSING, "DENY_STRICT_LAUNCH_MISSING");
   (ACTION_DENY_WRITE_PARENT_DIR, "DENY_WRITE_PARENT_DIR"); (ACTION_DENY_CHMOD_PARENT_DIR, "DENY_CHMOD_PARENT_DIR");
   (ACTION_DENY_PRCTL_SET_MM, "DENY_PRCTL_SET_MM"); (ACTION_DENY_PTRACE_ACCESS, "DENY_PTRACE_ACCESS");
   (ACTION_DENY_PTRACE_TRACEME, "DENY_PTRACE_TRACEME"); (ACTION_DENY_MOUNT, "DENY_MOUNT");
   (ACTION_DENY_UMOUNT, "DENY_UMOUNT"); (ACTION_DENY_BPF_SELF, "DENY_BPF_SELF");
   (ACTION_DENY_PIN_TAMPER, "DENY_PIN_TAMPER")]%string.

Definition action_name (a : Z) : string :=
  match List.find (fun p => a =? p.1) action_names with Some p => p.2 | None => "?"%string end.

(** The bytes of a name up to its terminator, the unprintable ones replaced. *)
Fixpoint safe_name (s : list Z) : cstring :=
  match s with
  | [] => []
  | c :: rest => if c =? 0 then []
                 else (if (0x20 <=? c) && (c <=? 0x7e) then chr (Z.to_nat c) else "?"%char) :: safe_name rest
  end.

Definition audit_line (e : audit_event) : cstring :=
  let actor := safe_name (ev_actor_name e) in
  lit "[audit] " ++ lit (action_name (ev_action e)) ++ lit " ts=" ++ print_u (ev_ts_ns e)
  ++ lit " pid=" ++ print_u (ev_pid e) ++ lit " ppid=" ++ print_u (ev_ppid e) ++ lit " uid=" ++ print_u (ev_uid e)
  ++ lit " comm=" ++ safe_name (ev_comm e) ++ lit " dev=" ++ print_u (ev_dev e) ++ lit " ino=" ++ print_u (ev_ino e)
  ++ (if negb (ev_caller_dev e =? 0) || negb (ev_caller_ino e =? 0)
      then lit " caller_dev=" ++ print_u (ev_caller_dev e) ++ lit " caller_ino=" ++ print_u (ev_caller_ino e)
           ++ (if bool_decide (actor = []) then [] else lit " actor=" ++ actor)
      else [])
  ++ [LF].

(** The bytes of one ring-buffer record; [None]: only a warning is printed. *)
Definition audit_handler (data : list Z) : option cstring :=
  if Nat.ltb (length data) (sizeof audit_event_t) then None
  else '(e, _) ← c_dec audit_event_c data;
       if negb (ev_version e =? COMPARTMENT_ABI_VERSION) then None else Some (audit_line e).

(** ** One line *)

Lemma safe_name_printable s : Forall printable (safe_name s).
Proof.
  induction s as [|c s IH]; cbn; [done|]. destruct (c =? 0); [done|]. constructor; [|done].
  destruct (Z.leb_spec 0x20 c), (Z.leb_spec c 0x7e); cbn [andb]; try done. unfold printable, cval, chr.
  rewrite nat_ascii_embedding by lia. lia.
Qed.

Lemma action_name_printable a : Forall printable (lit (action_name a)).
Proof.
  unfold action_name. destruct (List.find _ _) as [p|] eqn:E; [|by repeat constructor].
  apply find_some in E as [Hin _]. revert p Hin. apply List.Forall_forall.
  repeat (constructor; [by repeat constructor|]). constructor.
Qed.

(** Everything but the last character is printable. *)
Definition one_line (s : cstring) : Prop := exists body, s = body ++ [LF] /\ Forall printable body.

Lemma audit_line_one e : one_line (audit_line e).
Proof.
  unfold audit_line. cbv zeta. rewrite !app_assoc. eexists. split; [reflexivity|].
  pose proof safe_name_printable. pose proof print_u_printable. pose proof action_name_printable.
  repeat first [done|apply Forall_app; split|case_match|by repeat constructor].
Qed.

(** ** The actions the hooks emit *)

(** The names of the codes 1 to 17 of [compartment-abi.h], in their order. *)
Definition refusal_labels : list string :=
  ["DENY_UNLINK"; "DENY_RENAME"; "DENY_WRITE"; "DENY_ACTOR_MISMATCH"; "DENY_CHMOD"; "DENY_CREATE";
   "DENY_UNPIN_AUTH_FAIL"; "DENY_STRICT_LAUNCH_MISSING"; "DENY_WRITE_PARENT_DIR"; "DENY_CHMOD_PARENT_DIR";
   "DENY_PRCTL_SET_MM"; "DENY_PTRACE_ACCESS"; "DENY_PTRACE_TRACEME"; "DENY_MOUNT"; "DENY_UMOUNT"; "DENY_BPF_SELF";
   "DENY_PIN_TAMPER"]%string.

Definition known_action (a : Z) : Prop := 1 <= a <= 17.

Lemma known_action_label a : known_action a -> refusal_labels !! Z.to_nat (a - 1) = Some (action_name a).
Proof.
  intros H. assert (Hn : exists n, a = Z.of_nat n + 1 /\ (n < 17)%nat) by (exists (Z.to_nat (a - 1)); unfold known_action in H; lia).
  destruct Hn as (n & -> & Hn). do 17 (destruct n as [|n]; [reflexivity|]). lia.
Qed.

Definition named (o : outcome) : Prop := forall em, o_emit o = Some em -> known_action (em_action em).

Lemma named_pass : named o_pass.
Proof. by intros em. Qed.

Lemma named_seq o1 o2 : named o1 -> named o2 -> named (o_seq o1 o2).
Proof. unfold named, o_seq. intros H1 H2 em. destruct (_ =? 0); cbn; auto. Qed.

Lemma named_seqs l : Forall named l -> named (o_seqs l).
Proof. induction 1; [apply named_pass|]. by apply named_seq. Qed.

Ltac solve_known := vm_compute; split; discriminate.

Lemma named_checks E mk l : Forall (fun c => known_action (ck_action c)) l -> named (checks_outcome E mk l).
Proof.
  intros H. apply named_seqs, Forall_fmap. eapply Forall_impl; [exact H|]. intros c Hc.
  unfold compose, check_outcome, seal_outcome, strict_outcome. repeat case_match; intros em [= <-]; try done; solve_known.
Qed.

Lemma checks_app_known (l1 l2 : list check) :
  Forall (fun c => known_action (ck_action c)) l1 -> Forall (fun c => known_action (ck_action c)) l2 ->
  Forall (fun c => known_action (ck_action c)) (l1 ++ l2).
Proof. intros. by apply Forall_app. Qed.

Lemma inode_checks_known E i mask a : known_action a -> Forall (fun c => known_action (ck_action c)) (inode_checks E i mask a).
Proof. intros Ha. unfold inode_checks, opt_check. repeat case_match; cbn [app]; repeat first [apply Forall_nil_2|apply Forall_cons_2|done]. Qed.

Lemma parent_checks_known E d mask a : known_action a -> Forall (fun c => known_action (ck_action c)) (parent_checks E d mask a).
Proof.
  intros Ha. unfold parent_checks, ancestor_checks. apply Forall_join, Forall_fmap, Forall_true. intros x.
  unfold compose, dir_checks. repeat case_match; repeat first [apply Forall_nil_2|apply Forall_cons_2|done].
Qed.

Create HintDb named_db.
#[export] Hint Resolve named_pass named_seq named_checks checks_app_known inode_checks_known parent_checks_known : named_db.

Lemma named_deny rc bumps em : known_action (em_action em) -> named (Outcome rc bumps (Some em)).
Proof. by intros H em' [= <-]. Qed.

Lemma named_hit a h : known_action a -> named (hit_outcome a h).
Proof. intros Ha. destruct h; [by apply named_deny|apply named_pass]. Qed.
#[export] Hint Resolve named_hit named_deny : named_db.

Ltac solve_named :=
  repeat match goal with
    | |- known_action _ => solve_known
    | |- named o_pass => apply named_pass
    | |- named (Outcome _ _ (Some _)) => apply named_deny
    | |- named (hit_outcome _ _) => apply named_hit
    | |- named (checks_outcome _ _ _) => apply named_checks
    | |- named (o_seqs _) => apply named_seqs; repeat first [apply Forall_nil_2|apply Forall_cons_2]
    | |- Forall _ (_ ++ _) => apply checks_app_known
    | |- Forall _ (inode_checks _ _ _ _) => apply inode_checks_known
    | |- Forall _ (parent_checks _ _ _ _) => apply parent_checks_known
    | |- Forall _ [] => apply Forall_nil_2
    | |- context [if ?b then _ else _] => destruct b
    | |- context [match ?x with _ => _ end] => destruct x
    end.

Lemma hook_named E mk h : named (hook_outcome E mk h).
Proof.
  destruct h; cbn [hook_outcome];
    unfold mount_outcome, umount_outcome, bpf_map_outcome, side_deny, pin_outcome, unlink_checks, create_checks,
      write_checks, chmod_checks, link_checks, rename_dir_checks, rename_inode_checks, setattr_checks, mount_checks;
    solve_named.
Qed.

(** ** From the refusal to the line *)

Lemma audit_handler_enc e :
  ev_version e = COMPARTMENT_ABI_VERSION -> audit_handler (c_enc audit_event_c e) = Some (audit_line (c_fit audit_event_c e)).
Proof.
  intros Hv. unfold audit_handler. rewrite wire_length, <- (app_nil_r (c_enc _ e)), wire_dec. cbn -[c_fit audit_line].
  assert (E : ev_version (c_fit audit_event_c e) = ev_version e mod 256 ^ 4) by done. by rewrite E, Hv.
Qed.

Lemma audit_handler_short n e : (n < 96)%nat -> audit_handler (take n (c_enc audit_event_c e)) = None.
Proof.
  intros Hn. unfold audit_handler. rewrite length_take, wire_length.
  destruct (Nat.ltb_spec (n `min` payload (c_type audit_event_c)) (sizeof audit_event_t)) as [|Hs]; [done|].
  exfalso. change (sizeof audit_event_t) with 96%nat in Hs. lia.
Qed.

(** C17: a refusal is printed under its own name.  When a hook program refuses a
    call and the ring has room, it puts there one record with the action its
    specification emits, and the bytes of that record make the loader print
    exactly one line, which begins with the label of that action code in
    [compartment-abi.h]; no byte a caller controls can break or forge a line, and
    a record that is cut short prints none. *)
Theorem refusal_printed E h d :
  let '(r, d') := run_hook (hook_code E h 0) d in
  r <> 0 -> e_reserve E (audit_rb d) = true ->
  exists e em label rest, audit_rb d' = audit_rb d ++ [e]
  /\ o_emit (hook_outcome E (actor_marker_map d) h) = Some em /\ ev_action e = em_action em
  /\ refusal_labels !! Z.to_nat (em_action em - 1) = Some label
  /\ audit_handler (c_enc audit_event_c e) = Some (lit "[audit] " ++ lit label ++ lit " ts=" ++ rest)
  /\ one_line (lit "[audit] " ++ lit label ++ lit " ts=" ++ rest)
  /\ (forall n, (n < 96)%nat -> audit_handler (take n (c_enc audit_event_c e)) = None).
Proof.
  rewrite (run_hook_implements E _ (hook_outcome E (actor_marker_map d) h)) by apply hook_implements.
  set (o := hook_outcome E (actor_marker_map d) h). pose proof (hook_named E (actor_marker_map d) h) as Hn.
  assert (Hok : outcome_ok o) by apply hook_outcome_ok. fold o in Hn. intros Hr Hring.
  destruct (o_emit o) as [em|] eqn:He; [|exfalso; by apply Hr, Hok]. pose proof (Hn em He) as Ha.
  unfold apply_outcome. rewrite He. unfold emit_dyn. cbn [audit_rb counter_incr]. rewrite bump_all_ring, Hring.
  set (e := build_event E _ _ _ _ _ _). exists e, em, (action_name (em_action em)).
  assert (Hl : exists rest, audit_line (c_fit audit_event_c e) = lit "[audit] " ++ lit (action_name (em_action em)) ++ lit " ts=" ++ rest).
  { eexists. unfold audit_line. cbv zeta. do 2 f_equal. f_equal.
    change (ev_action (c_fit audit_event_c e)) with (em_action em mod 2 ^ 32). unfold known_action in Ha. by rewrite Z.mod_small by lia. }
  destruct Hl as [rest Hl]. exists rest. rewrite audit_handler_enc, Hl by done. split; [cbn; by rewrite bump_all_ring|].
  split; [done|]. split; [done|]. split; [by apply known_action_label|]. split; [done|]. split; [rewrite <- Hl; apply audit_line_one|].
  intros n. apply audit_handler_short.
Qed.

(** A command name with a newline and a terminal escape in it. *)
Definition rude_env : env :=
  let E := demo_env demo_uniform (Some 1%positive) in
  {| e_kernel := e_kernel E; e_policy := e_policy E; e_current := e_current E; e_ktime := e_ktime E; e_pid_tgid := e_pid_tgid E;
     e_uid_gid := e_uid_gid E; e_comm := [10; 27; 91; 65; 0; 66; 0; 0; 0; 0; 0; 0; 0; 0; 0; 0]; e_reserve := e_reserve E;
     e_storage_alloc := e_storage_alloc E |}.

Lemma refusal_printed_witness :
  exists e rest, audit_rb (run_hook (hook_code rude_env (HInodeUnlink (Some 11%positive)) 0) demo_dyn).2 = [e]
  /\ audit_handler (c_enc audit_event_c e) = Some (lit "[audit] " ++ lit "DENY_UNLINK" ++ lit " ts=" ++ rest)
  /\ one_line (lit "[audit] " ++ lit "DENY_UNLINK" ++ lit " ts=" ++ rest).
Proof.
  pose proof (refusal_printed rude_env (HInodeUnlink (Some 11%positive)) demo_dyn) as H.
  assert (Hr : (run_hook (hook_code rude_env (HInodeUnlink (Some 11%positive)) 0) demo_dyn).1 <> 0) by (vm_compute; discriminate).
  assert (Hem : (em_action <$> o_emit (hook_outcome rude_env (actor_marker_map demo_dyn) (HInodeUnlink (Some 11%positive)))) = Some 1)
    by (vm_compute; reflexivity).
  destruct (run_hook (hook_code rude_env (HInodeUnlink (Some 11%positive)) 0) demo_dyn) as [r d'].
  destruct (H Hr eq_refl) as (e & em & label & rest & H1 & H2 & _ & H3 & H4 & H5 & _). exists e, rest.
  rewrite H2 in Hem. cbn in Hem. injection Hem as Hem. rewrite Hem in H3. injection H3 as <-. by split_and!.
Defined.

Example rude_line :
  (c_enc audit_event_c <$> audit_rb (run_hook (hook_code rude_env (HInodeUnlink (Some 11%positive)) 0) demo_dyn).2) ≫= (fun b => option_list (audit_handler b))
  = [lit "[audit] DENY_UNLINK ts=123456789 pid=4242 ppid=4242 uid=1000 comm=??[A dev=8 ino=100" ++ [LF]].
Proof. vm_compute. reflexivity. Qed.

Definition demo_event : audit_event :=
  build_event (demo_env demo_strict (Some 1%positive)) ACTION_DENY_WRITE 8 101 8 200 (Some demo_name).

Lemma wire_roundtrip_witness :
  c_dec seal_value_c (c_enc seal_value_c demo_strict ++ [7]) = Some (demo_strict, [7])
  /\ c_dec audit_event_c (c_enc audit_event_c demo_event ++ [7]) = Some (demo_event, [7])
  /\ length (c_enc audit_event_c demo_event) = 96%nat.
Proof.
  destruct (wire_roundtrip demo_strict demo_event (LauncherActor (InodeKey 8 200) 1 7) [7]) as ((Hs & _) & (He & Hl) & _).
  - split; try (split; vm_compute; congruence); try reflexivity;
      [repeat (constructor; [split; split; vm_compute; congruence|]); constructor
      |split; [reflexivity|]; repeat (constructor; [split; vm_compute; congruence|]); constructor].
  - split; try (split; [reflexivity|]); repeat (constructor; [split; vm_compute; congruence|]); constructor.
  - split; split; vm_compute; congruence.
  - split; vm_compute; congruence.
  - split; vm_compute; congruence.
  - by split_and!.
Defined.
