(* ===== verification/AuditDir.v ===== *)
(** * The audit directory and the parent chain

    Models the rest of the audit log of [src/compartment.h]: [get_ppid_chain],
    [audit_varlib_parent_ok], [audit_default_dir], [audit_open_private_dir] and
    [audit_log_open], and composes the default directory with the built-in
    profiles and the Landlock ruleset: the confined process cannot rewrite its
    own trail. *)

From S2P Require Import Prelude CLib Config ConfigProps Seccomp Profile EnvAudit Landlock User ProfileProps UserProps UserDemo.
From Stdlib Require Import Ascii.
From stdpp Require Import strings.

#[local] Open Scope Z_scope.

(** ** The parent chain *)

(** [sscanf (line, "PPid:\t%d")] on a line of the status file: the parent, or 0. *)
Definition ppid_of_line (line : cstring) : Z :=
  match scan_number 10 (drop 5 line) with
  | Some (neg, v, _) => if neg then - v else v
  | None => 0
  end.

Definition is_ppid_line (line : cstring) : bool := has_prefix (lit "PPid:") line.

(** The parent as [/proc/<pid>/status] has it, 0 without such a line. *)
Definition ppid_of_status (status : cstring) : Z :=
  match List.find is_ppid_line ((fgets_all 255 status).*1) with Some l => ppid_of_line l | None => 0 end.

(** [status pid] is the text of the file, [None] when it cannot be opened; at most
    [max_len] entries. *)
Fixpoint get_ppid_chain (status : Z -> option cstring) (cur : Z) (max_len : nat) : list Z :=
  match max_len with
  | O => []
  | S n =>
      if cur <=? 1 then []
      else match status cur with
           | None => []
           | Some text =>
               let ppid := ppid_of_status text in
               if (ppid =? 0) || (ppid =? cur) then [] else ppid :: get_ppid_chain status ppid n
           end
  end.

(** ** The directory *)

Record aworld := AWorld {
  aw_geteuid : Z; aw_getuid : Z;
  aw_opendir : cstring -> option (option stat);  (* open (O_DIRECTORY | O_NOFOLLOW), fstat *)
  aw_lstat : cstring -> option stat;
  aw_mkdir : cstring -> bool;                    (* made, or there already *)
  aw_today : cstring;                            (* strftime "%Y-%m-%d.log" *)
  aw_openat : cstring -> cstring -> bool
}.

Definition AUDIT_VARLIB_PARENT : cstring := lit "/var/lib/compartment/audit".
Definition VARLIB_PREFIX : cstring := AUDIT_VARLIB_PARENT ++ lit "/".
Definition AUDIT_DIR_MAX : nat := PATH_MAX - 32.

Definition others_write (st : stat) : bool := negb (Z.land (st_mode st) (Z.lor S_IWGRP S_IWOTH) =? 0).
Definition exactly_private (want_uid : Z) (st : stat) : bool :=
  (st_uid st =? want_uid) && (Z.land (st_mode st) 0xfff =? 0x1c0).

Section Dir.
Context (w : aworld).

Definition audit_varlib_parent_ok : bool :=
  match aw_opendir w AUDIT_VARLIB_PARENT with
  | Some (Some st) => (st_uid st =? 0) && negb (others_write st)
  | _ => false
  end.

Definition fitting (dirsz : nat) (s : cstring) : option cstring := if Nat.ltb (length s) dirsz then Some s else None.

Definition ADMIN_DIR (uid : Z) : cstring := AUDIT_VARLIB_PARENT ++ lit "/" ++ print_u uid.
Definition FALLBACK_DIR (uid : Z) : cstring := lit "/var/tmp/compartment-audit-" ++ print_u uid.
Definition ROOT_DIR : cstring := lit "/var/log/compartment".

Definition audit_default_dir (dirsz : nat) : option cstring :=
  if aw_geteuid w =? 0 then fitting dirsz ROOT_DIR
  else
    let uid := aw_getuid w in
    if audit_varlib_parent_ok && bool_decide (is_Some (fitting dirsz (ADMIN_DIR uid)))
       && match aw_lstat w (ADMIN_DIR uid) with
          | Some st => S_ISDIR (st_mode st) && exactly_private uid st
          | None => false
          end
    then Some (ADMIN_DIR uid)
    else fitting dirsz (FALLBACK_DIR uid).

Definition audit_open_private_dir (path : cstring) (want_uid : Z) : bool :=
  match aw_opendir w path with Some (Some st) => exactly_private want_uid st | _ => false end.

(** The directory the day file is created in, after the checks; and whether
    [mkdir] was called on it. *)
Definition audit_log_dir_open (cfg : Config) : option (cstring * bool) :=
  match audit_log_dir cfg with
  | Some d =>
      d ← fitting AUDIT_DIR_MAX d;
      if negb (aw_mkdir w d) then None
      else match aw_opendir w d with
           | Some (Some st) => if negb (st_uid st =? aw_geteuid w) || others_write st then None else Some (d, true)
           | _ => None
           end
  | None =>
      d ← audit_default_dir AUDIT_DIR_MAX;
      let make := negb (has_prefix VARLIB_PREFIX d) in
      if make && negb (aw_mkdir w d) then None
      else if audit_open_private_dir d (aw_getuid w) then Some (d, make) else None
  end.

(** The log file, and the rule [audit_warn_if_writable] warns about. *)
Definition audit_log_open (realpath : cstring -> option cstring) (cfg : Config)
  : option (cstring * cstring * option PathRule) :=
  '(d, _) ← audit_log_dir_open cfg;
  if aw_openat w d (aw_today w) then Some (d, aw_today w, audit_warn_if_writable realpath cfg d) else None.

End Dir.

(** ** The chain is the ancestry *)

(** The parent a process file names, when it names one. *)
Definition parent (status : Z -> option cstring) (p : Z) : option Z :=
  text ← status p; let q := ppid_of_status text in if (q =? 0) || (q =? p) then None else Some q.

(** [l] is the line of ancestors of [p]. *)
Inductive ancestry (status : Z -> option cstring) : Z -> list Z -> Prop :=
  | anc_top p : p <= 1 \/ parent status p = None -> ancestry status p []
  | anc_up p q l : 1 < p -> parent status p = Some q -> ancestry status q l -> ancestry status p (q :: l).

Lemma chain_unfold status cur n :
  get_ppid_chain status cur (S n)
  = if cur <=? 1 then [] else match parent status cur with Some q => q :: get_ppid_chain status q n | None => [] end.
Proof. cbn. unfold parent. destruct (cur <=? 1); [done|]. destruct (status cur); [|done]. cbn. by destruct (_ || _). Qed.

(** The recorded chain is the ancestry.  [get_ppid_chain] returns at most
    [max_len] entries, and they are the first [max_len] ancestors of the process
    whatever the status files contain: the chain is cut only at the limit, and
    stops only at process 1 or where no parent is named. *)
Theorem ppid_chain_exact status pid l n :
  ancestry status pid l -> get_ppid_chain status pid n = take n l.
Proof.
  intros H. revert n. induction H as [p Hp|p q l Hp Hq _ IH]; intros [|n]; try done; rewrite chain_unfold.
  - destruct (Z.leb_spec p 1); [done|]. destruct Hp as [? | ->]; [lia|done].
  - destruct (Z.leb_spec p 1); [lia|]. rewrite Hq. cbn [take]. by rewrite IH.
Qed.

(** Status files of a small process tree: 40 -> 7 -> 1. *)
Definition demo_status (p : Z) : option cstring :=
  if p =? 40 then Some (lit "Name:" ++ [TAB] ++ lit "sh" ++ [LF] ++ lit "PPid:" ++ [TAB] ++ lit "7" ++ [LF] ++ lit "Uid:" ++ [LF])
  else if p =? 7 then Some (lit "PPid:" ++ [TAB] ++ lit "1" ++ [LF]) else None.

Lemma ppid_chain_exact_witness : get_ppid_chain demo_status 40 1 = take 1 [7; 1] /\ get_ppid_chain demo_status 40 32 = [7; 1].
Proof.
  assert (H : ancestry demo_status 40 [7; 1]).
  { apply anc_up; [lia|vm_compute; reflexivity|]. apply anc_up; [lia|vm_compute; reflexivity|]. apply anc_top. left. lia. }
  split; [apply (ppid_chain_exact _ _ _ 1 H)|apply (ppid_chain_exact _ _ _ 32 H)].
Defined.

(** ** What the log directory is *)

Lemma fitting_Some n s d : fitting n s = Some d -> d = s.
Proof. unfold fitting. destruct (Nat.ltb _ _); congruence. Qed.

(** The three places the default can be. *)
Lemma default_dir_cases w n d :
  audit_default_dir w n = Some d ->
  (aw_geteuid w = 0 /\ d = ROOT_DIR)
  \/ (aw_geteuid w <> 0 /\ d = ADMIN_DIR (aw_getuid w) /\ audit_varlib_parent_ok w = true
      /\ exists st, aw_lstat w d = Some st /\ S_ISDIR (st_mode st) = true /\ exactly_private (aw_getuid w) st = true)
  \/ (aw_geteuid w <> 0 /\ d = FALLBACK_DIR (aw_getuid w)).
Proof.
  unfold audit_default_dir. destruct (Z.eqb_spec (aw_geteuid w) 0) as [He|He]; [intros ->%fitting_Some; by left|].
  cbv zeta. destruct (_ && _) eqn:E; [|intros ->%fitting_Some; right; by right].
  intros [= <-]. right. left. rewrite !andb_true_iff in E. destruct E as [[Hp _] Hs].
  split; [done|]. split; [done|]. split; [done|]. destruct (aw_lstat w _) as [st|]; [|done]. exists st.
  by apply andb_true_iff in Hs.
Qed.

Lemma private_not_shared uid st : exactly_private uid st = true -> others_write st = false /\ st_uid st = uid.
Proof.
  unfold exactly_private, others_write. intros [Hu%Z.eqb_eq Hm%Z.eqb_eq]%andb_true_iff. split; [|done].
  apply negb_false_iff, Z.eqb_eq. assert (Hs : Z.lor S_IWGRP S_IWOTH = Z.land 0xfff 0x12) by reflexivity.
  by rewrite Hs, Z.land_assoc, Hm.
Qed.

#[local] Arguments has_prefix : simpl never.

(** C19: the audit trail is never written where others can write.  When
    [audit_log_open] succeeds, the directory it holds open is a real directory
    (no symbolic link), of the effective user when the operator chose it and of
    the real user with mode 0700 exactly when it is a default; no other user can
    write to it.  A directory provisioned by the administrator is used only below
    a parent of root's that others cannot write, and is never created. *)
Theorem audit_log_private w realpath cfg d name warn :
  audit_log_open w realpath cfg = Some (d, name, warn) ->
  exists st, aw_opendir w d = Some (Some st) /\ others_write st = false
  /\ match audit_log_dir cfg with
     | Some dir => d = dir /\ st_uid st = aw_geteuid w
     | None => exactly_private (aw_getuid w) st = true
               /\ (has_prefix VARLIB_PREFIX d = true ->
                   audit_varlib_parent_ok w = true /\ audit_log_dir_open w cfg = Some (d, false))
     end.
Proof.
  unfold audit_log_open. destruct (audit_log_dir_open w cfg) as [[d' made]|] eqn:E; cbn; [|done].
  destruct (aw_openat w d' (aw_today w)); [|done]. intros [= <- <- <-]. unfold audit_log_dir_open in E. revert E.
  destruct (audit_log_dir cfg) as [dir|].
  - destruct (fitting _ dir) as [x|] eqn:Ef; cbn; [|done]. apply fitting_Some in Ef as ->. destruct (aw_mkdir w dir); cbn; [|done].
    destruct (aw_opendir w dir) as [[st|]|] eqn:Eo; [|done..]. destruct (negb _ || _) eqn:Ec; [done|]. intros [= <- <-].
    apply orb_false_iff in Ec as [Hu%negb_false_iff%Z.eqb_eq Hw]. by exists st.
  - destruct (audit_default_dir w _) as [x|] eqn:Ed; cbn; [|done]. destruct (_ && _); [done|].
    destruct (audit_open_private_dir w x _) eqn:Eo; [|done]. intros [= <- <-].
    unfold audit_open_private_dir in Eo. destruct (aw_opendir w x) as [[st|]|]; [|done..]. exists st.
    destruct (private_not_shared _ _ Eo) as [Hw _]. split; [done|]. split; [done|]. split; [done|]. intros Hp. rewrite Hp. split; [|done].
    destruct (default_dir_cases _ _ _ Ed) as [[_ ->]|[(_ & _ & H & _)|[_ ->]]]; [done|done|].
    apply has_prefix_true in Hp as [t Ht]. discriminate.
Qed.

(** ** The confined process and its trail *)

Definition comps (p : cstring) : list cstring := strtok_all (Ascii.eqb "/"%char) p.

(** By its name, [p] is the audit directory or above it. *)
Definition reaches (dir p : cstring) : bool := bool_decide (comps p `prefix_of` comps dir).

Section Trail.
(** A Landlock rule holds for the directory its path leads to, through symbolic
    links, and what is below: whether that covers the audit directory. *)
Context (covers : cstring -> bool).

(** No writable rule covers the directory, nor does the working directory. *)
Definition trail_safe (c : Config) : Prop :=
  Forall (fun r => is_writable_mode (mode r) = true -> covers (path r) = false) (paths c)
  /\ forall d, workdir c = Some d -> covers (trim_question d) = false.

Lemma trail_safe_denies k cfg rs r :
  trail_safe cfg -> apply_landlock k cfg = Some rs -> right_abi r <= ll_abi k -> is_write_right r = true ->
  fs_allows rs covers r = false.
Proof.
  intros Hs Hrs Hr Hw. rewrite (fs_allows_policy _ _ _ _ _ Hrs Hr). unfold policy_allows.
  apply not_true_is_false. rewrite existsb_exists. intros (o & Ho%list_elem_of_In & (Hg & _)%andb_true_iff).
  apply andb_true_iff in Hg as [Hc Hg]. assert (Hm : is_writable_mode (mode o) = true) by by destruct r, (mode o).
  destruct Hs as [Hs _]. rewrite Forall_forall in Hs. rewrite (Hs o Ho Hm) in Hc. done.
Qed.

Lemma add_each_safe {A} (f : Config -> A -> option Config) l c :
  (forall c x c', x ∈ l -> f c x = Some c' -> trail_safe c -> trail_safe c') ->
  trail_safe c -> trail_safe (add_each f l c).1.
Proof.
  revert c. induction l as [|x l IH]; intros c Hf Hc; cbn; [done|]. destruct (f c x) as [c'|] eqn:E; [|done].
  apply IH; [|eapply Hf; [|exact E|done]; set_solver]. intros. eapply Hf; [|eassumption..]. set_solver.
Qed.

Lemma and_then_safe r k : trail_safe r.1 -> (forall c, trail_safe c -> trail_safe (k c).1) -> trail_safe (and_then r k).1.
Proof. unfold and_then. intros H Hk. destruct r as [c []]; cbn in *; auto. Qed.

Lemma add_path_safe c p m dup c' :
  (is_writable_mode m = true -> covers (trim_question p) = false) -> cfg_add_path c p m dup = Some c' -> trail_safe c -> trail_safe c'.
Proof.
  intros Hp Ha Hc. unfold cfg_add_path in Ha. destruct (append_limited _ _ _) as [l|] eqn:E; cbn in Ha; [|done].
  simplify_eq. unfold append_limited in E. destruct (Nat.leb _ _) in E; simplify_eq. destruct Hc as [Hc Hd]. split; [|exact Hd]. cbn.
  apply Forall_app. split; [done|]. by repeat constructor.
Qed.

Lemma same_paths_safe c c' : paths c' = paths c -> workdir c' = workdir c -> trail_safe c -> trail_safe c'.
Proof. unfold trail_safe. by intros -> ->. Qed.

End Trail.

Lemma comps_var s : comps (lit "/var/" ++ s) = lit "var" :: comps s.
Proof. reflexivity. Qed.

Lemma default_dir_var w n d : audit_default_dir w n = Some d -> exists t, comps d = lit "var" :: t.
Proof.
  intros [[_ ->]|[(_ & -> & _)|[_ ->]]]%default_dir_cases; eexists.
  - exact (comps_var (lit "log/compartment")).
  - exact (comps_var (lit "lib/compartment/audit/" ++ print_u _)).
  - exact (comps_var (lit "tmp/compartment-audit-" ++ print_u _)).
Qed.

(** Paths whose first component is another one. *)
Lemma reaches_elsewhere d t p : comps d = lit "var" :: t -> head (comps p) <> Some (lit "var") -> comps p <> [] -> reaches d p = false.
Proof.
  intros Hd Hh Hn. apply bool_decide_eq_false. intros [x Hx]. destruct (comps p) as [|c cs]; [done|].
  rewrite Hd in Hx. cbn in *. congruence.
Qed.

Definition elsewhere (p : cstring) : bool := negb (bool_decide (head (comps p) = Some (lit "var"))) && negb (bool_decide (comps p = [])).

Lemma writable_elsewhere : Forall (fun s => elsewhere (trim_question (lit s)) = true) (ai_rw_paths ++ ai_rw_dev).
Proof. repeat (constructor; [vm_compute; reflexivity|]). constructor. Qed.

(** The directories every built-in profile makes writable. *)
Definition builtin_writable : list string := ai_rw_paths ++ ai_rw_dev.

Section Builtin.
Context (U : uworld) (dir : cstring) (t : list cstring) (Hdir : comps dir = lit "var" :: t) (covers : cstring -> bool).
Context (Hfixed : forall s, s ∈ builtin_writable -> covers (trim_question (lit s)) = true -> reaches dir (trim_question (lit s)) = true).
Context (Hhome : forall home, w_home (uw_p U) = Some home -> covers (trim_question home) = false).
#[local] Abbreviation trail_safe := (trail_safe covers).

Lemma add_rw_safe l c :
  (forall s, s ∈ l -> s ∈ builtin_writable) -> trail_safe c ->
  trail_safe (add_each (fun c s => cfg_add_path c (lit s) PATH_RW false) l c).1.
Proof.
  intros Hl. apply add_each_safe. intros c0 s c' Hs. apply add_path_safe. intros _.
  pose proof writable_elsewhere as He. rewrite Forall_forall in He. specialize (He s (Hl s Hs)). unfold elsewhere in He.
  apply andb_true_iff in He as [H1%negb_true_iff%bool_decide_eq_false H2%negb_true_iff%bool_decide_eq_false].
  destruct (covers (trim_question (lit s))) eqn:Ec; [|done]. apply Hfixed in Ec; [|by apply Hl].
  by rewrite (reaches_elsewhere _ t) in Ec.
Qed.

Lemma block_name_safe c s c' : block_name (w_nr (uw_p U)) c s = Some c' -> trail_safe c -> trail_safe c'.
Proof.
  unfold block_name, cfg_add_blocked. intros H.
  apply same_paths_safe; (destruct (resolve_syscall _ _); [|by simplify_eq]); (destruct (append_limited _ _ _); cbn in H; by simplify_eq).
Qed.

Lemma env_deny_safe c s c' : cfg_add_env_deny c s = Some c' -> trail_safe c -> trail_safe c'.
Proof. unfold cfg_add_env_deny. intros H. apply same_paths_safe; (destruct (append_limited _ _ _); cbn in H; by simplify_eq). Qed.

Lemma of_opt_safe c o : trail_safe c -> (forall c', o = Some c' -> trail_safe c') -> trail_safe (of_opt c o).1.
Proof. intros Hc Ho. destruct o; cbn; auto. Qed.

Lemma ai_agent_safe c : trail_safe c -> trail_safe (apply_profile_ai_agent U c).1.
Proof.
  intros Hc. unfold apply_profile_ai_agent. cbv zeta.
  apply and_then_safe; [apply add_each_safe; [|done]; intros c0 s c' _; by apply add_path_safe|]. intros c1 H1.
  apply and_then_safe; [apply add_rw_safe; [set_solver|done]|]. intros c2 H2.
  apply and_then_safe; [apply add_rw_safe; [set_solver|done]|]. intros c3 H3.
  apply and_then_safe; [|intros c4 H4; apply and_then_safe; [|intros c5 H5; apply and_then_safe; [|intros c6 H6]]].
  - destruct (w_home (uw_p U)) as [home|] eqn:Eh; [|done]. destruct (home_dir_usable _ _ _); [|done].
    apply of_opt_safe; [done|]. intros c' Hp. apply (add_path_safe _ _ _ _ _ _ (fun _ => Hhome home eq_refl) Hp H3).
  - destruct (workdir c4) as [d|] eqn:Ed; [|done]. apply of_opt_safe; [done|]. intros c' Hp.
    eapply (add_path_safe _ _ _ _ _ _ _ Hp H4). Unshelve. intros _. by apply H4.
  - apply add_each_safe; [|done]. intros c0 s c' _. apply block_name_safe.
  - apply add_each_safe; [|done]. intros c0 s c' _. apply env_deny_safe.
Qed.

Lemma strict_safe c : trail_safe c -> trail_safe (apply_profile_strict U c).1.
Proof.
  intros Hc. apply and_then_safe; [by apply ai_agent_safe|]. intros c1 H1. apply add_each_safe; [|done].
  intros c0 s c' _. apply block_name_safe.
Qed.
End Builtin.

(** C18: a confined process cannot rewrite its own trail, on a host laid out as
    expected.  Under a built-in profile ([ai-agent] or [strict]) without further
    rules, the installed Landlock ruleset grants no write right that the kernel
    knows on the default audit directory, for any user, provided that neither the
    home directory nor the working directory leads to that directory or above it
    (through symbolic links or not), and that the fixed writable directories of
    the profile ([/tmp], [/dev/shm] and so on) are where their names say: one of
    them covers the audit directory only if its path is a prefix of it.  [covers]
    says which paths lead to the audit directory or above it. *)
Theorem default_trail_unwritable U w k c cfg rs r dir covers :
  audit_default_dir w AUDIT_DIR_MAX = Some dir ->
  (forall s, s ∈ builtin_writable -> covers (trim_question (lit s)) = true -> reaches dir (trim_question (lit s)) = true) ->
  (forall home, w_home (uw_p U) = Some home -> covers (trim_question home) = false) ->
  paths c = [] -> (forall d, workdir c = Some d -> covers (trim_question d) = false) ->
  cfg = (apply_profile_ai_agent U c).1 \/ cfg = (apply_profile_strict U c).1 ->
  apply_landlock k cfg = Some rs -> right_abi r <= ll_abi k -> is_write_right r = true ->
  fs_allows rs covers r = false.
Proof.
  intros Hd Hf Hh Hp Hw Hcfg Hrs Hr Hwr. destruct (default_dir_var _ _ _ Hd) as [t Ht].
  assert (Hc : trail_safe covers c) by (split; [rewrite Hp; constructor|done]).
  apply (trail_safe_denies covers k cfg); [|done..].
  destruct Hcfg as [->| ->]; [by apply (ai_agent_safe U dir t Ht)|by apply (strict_safe U dir t Ht)].
Qed.

(** ** A host *)

Definition demo_aworld (uid : Z) : aworld := {|
  aw_geteuid := uid; aw_getuid := uid;
  aw_opendir := fun p => if streq p AUDIT_VARLIB_PARENT then Some (Some {| st_mode := 0x41ed; st_uid := 0 |})
                         else Some (Some {| st_mode := 0x41c0; st_uid := uid |});
  aw_lstat := fun _ => Some {| st_mode := 0x41c0; st_uid := uid |};
  aw_mkdir := fun _ => true; aw_today := lit "2026-01-01.log"; aw_openat := fun _ _ => true
|}.

Lemma audit_log_private_witness :
  audit_log_open (demo_aworld 1000) (fun p => Some p) user_config
    = Some (lit "/var/lib/compartment/audit/1000", lit "2026-01-01.log", None)
  /\ audit_varlib_parent_ok (demo_aworld 1000) = true.
Proof.
  assert (H : audit_log_open (demo_aworld 1000) (fun p => Some p) user_config
    = Some (lit "/var/lib/compartment/audit/1000", lit "2026-01-01.log", None)) by (vm_compute; reflexivity).
  split; [exact H|]. destruct (audit_log_private _ _ _ _ _ _ H) as (st & _ & _ & Hd). apply Hd. vm_compute. reflexivity.
Defined.

Lemma default_trail_unwritable_witness :
  exists rs, apply_landlock demo_landlock (apply_profile_ai_agent (demo_system (demo_world [])) user_config).1 = Some rs
  /\ fs_allows rs (reaches (lit "/var/lib/compartment/audit/1000")) WriteFile = false
  /\ fs_allows rs (reaches (lit "/tmp/x")) WriteFile = true.
Proof.
  set (cfg := (apply_profile_ai_agent (demo_system (demo_world [])) user_config).1).
  assert (H : match apply_landlock demo_landlock cfg with Some rs => fs_allows rs (reaches (lit "/tmp/x")) WriteFile | None => false end = true)
    by (vm_compute; reflexivity).
  assert (Hh : match w_home (uw_p (demo_system (demo_world []))) with
               | Some home => reaches (lit "/var/lib/compartment/audit/1000") (trim_question home) | None => false end = false)
    by (vm_compute; reflexivity).
  assert (Hd : audit_default_dir (demo_aworld 1000) AUDIT_DIR_MAX = Some (lit "/var/lib/compartment/audit/1000")) by (vm_compute; reflexivity).
  destruct (apply_landlock demo_landlock cfg) as [rs|] eqn:E; [|discriminate H]. exists rs. split; [reflexivity|]. split; [|exact H].
  apply (default_trail_unwritable (demo_system (demo_world [])) (demo_aworld 1000) demo_landlock user_config cfg rs WriteFile (lit "/var/lib/compartment/audit/1000"));
    [exact Hd|by intros s _ Hs| |reflexivity|by intros d|by left|exact E|vm_compute; discriminate|reflexivity].
  intros home Eh. rewrite Eh in Hh. exact Hh.
Defined.
