(* ===== verification/ObserveRun.v ===== *)
(** * A run of the observer

    Models the rest of [observe_main] of
    [src/compartment-bpf/compartment-observe.c]: loading, the map of tracked
    binaries, attaching, starting the command, the poll loop, stopping the
    command, reading the table and writing the profile and the provenance file.
    What the observer does is a list of events; the kernel's answers are a record.
    A run is [None] while its answers do not end the poll loop. *)

From S2P Require Import Prelude Abi Kernel Demo SealCore CLib Config Loader.
From S2P Require Import ObserveBpf ObserveSpec Observe ObserveMain ObserveSetup.
From Stdlib Require Import Ascii.
From stdpp Require Import strings.

#[local] Open Scope Z_scope.

(** ** Answers and events *)

Inductive poll_result := PollOk | PollIntr | PollError.

(** What one turn of the loop sees: the signal flag at its head, the ring buffer,
    [waitpid] and the clock. *)
Record turn := Turn { tu_stop : bool; tu_poll : poll_result; tu_reaped : bool; tu_expired : bool }.

Record orun := ORun {
  or_open : bool; or_load : bool;
  or_update : actor_reg -> bool; or_freeze : bool; or_attach : bool; or_fork : bool; or_ring : bool;
  or_turns : list turn; or_flush : poll_result;
  or_kernel : kernel_answers;                                   (* for terminate_observe_child *)
  or_drops : Z; or_overflow : Z;                                (* the two counters *)
  or_calloc : bool;
  or_table : list (observed_key * option observed_value);      (* get_next_key, lookup *)
  or_launchers : list (launcher_key * launcher_value);
  or_fopen : bool; or_fclose : bool; or_prov_open : bool; or_prov_close : bool
}.

Inductive run_event :=
  | ETarget (f : file_id) (slot : Z)
  | EFreeze | EAttach | EFork
  | EReaped                                      (* waitpid in the loop returned the child *)
  | EKillWait                                    (* SIGTERM and a blocking wait *)
  | ETerminate (rc : Z) (h : list term_action)
  | EProfile (file : cstring) (text : cstring)   (* no name: standard output *)
  | EProvenance (file : cstring) (text : cstring)
  | EDestroy.

Definition AO_MAX_OBSERVED : Z := 65536.

Section Run.
Context (w : oworld) (R : orun) (fuel : nat).

(** ** Before the command *)

Fixpoint populate_targets (actors : list actor_reg) : bool * list run_event :=
  match actors with
  | [] => (true, [])
  | a :: rest =>
      if negb (or_update R a) then (false, [])
      else let '(ok, tr) := populate_targets rest in
           (ok, ETarget (FileId (ar_dev a) (ar_ino a)) (ar_slot a) :: tr)
  end.

(** ** The loop *)

(** The exit code so far and whether the command was reaped. *)
Fixpoint poll_turns (live has_child timed : bool) (turns : list turn) : option (Z * bool) :=
  match turns with
  | [] => None
  | t :: rest =>
      if tu_stop t then Some (0, false)
      else match live, tu_poll t with
           | true, PollIntr => poll_turns live has_child timed rest
           | true, PollError => Some (1, false)
           | _, _ =>
               let reaped := has_child && tu_reaped t in
               if timed && tu_expired t then Some (0, reaped)
               else if reaped then Some (0, true)
               else poll_turns live has_child timed rest
           end
  end.

(** ** The table *)

Definition read_rows : list (observed_key * observed_value) :=
  take (Z.to_nat AO_MAX_OBSERVED) (omap (fun r : observed_key * option observed_value => v ← r.2; Some (r.1, v)) (or_table R)).

(** How the paths of a row, or of the launchers, were found. *)
Definition row_lookups (no_resolve : bool) (kv : observed_key * observed_value) : list how_resolved :=
  if no_resolve then [] else
  let k := kv.1 in
  let r := resolve_path w (ok_dev k) (ok_ino k) in
  r.2 :: match r.1.2 with
         | [] => if negb (ok_parent_dev k =? 0) || negb (ok_parent_ino k =? 0)
                 then [(resolve_path w (ok_parent_dev k) (ok_parent_ino k)).2] else []
         | _ => []
         end.

Definition launcher_lookups (no_resolve : bool) (a : actor_reg) : list how_resolved :=
  if no_resolve then [] else
  (fun lv : launcher_key * launcher_value => (resolve_path w (lk_parent_dev lv.1) (lk_parent_ino lv.1)).2)
    <$> List.filter (fun lv : launcher_key * launcher_value => lk_actor_slot lv.1 =? ar_slot a) (or_launchers R).

Definition failures (l : list how_resolved) : Z :=
  Z.of_nat (length (List.filter (fun h => match h with NotFound => true | _ => false end) l)).
Definition fallbacks (l : list how_resolved) : Z :=
  Z.of_nat (length (List.filter (fun h => match h with ByMount => true | _ => false end) l)).

Definition print_04x (z : Z) : cstring := replicate (4 - length (print_x z)) "0"%char ++ print_x z.

(** One member of the JSON object. *)
Definition member (name : string) (value : cstring) : cstring := quoted (lit name) ++ lit ":" ++ value.

Definition provenance_text (o : observe_opts) (nentries : nat) (lookups : list how_resolved) : cstring :=
  lit "{" ++ member "tool" (quoted (lit "compartment-bpf observe")) ++ lit ","
  ++ member "observed_at" (quoted (ow_now w)) ++ lit ","
  ++ member "nactors" (print_u (Z.of_nat (length (oo_actors o)))) ++ lit ","
  ++ member "observed_entries" (print_u (Z.of_nat nentries)) ++ lit ","
  ++ member "ringbuf_drops" (print_u (or_drops R)) ++ lit ","
  ++ member "map_overflow" (print_u (or_overflow R)) ++ lit ","
  ++ member "path_resolve_fail" (print_u (failures lookups)) ++ lit ","
  ++ member "path_resolve_fallback" (print_u (fallbacks lookups)) ++ lit ","
  ++ member "abi_version" (quoted (lit "0x" ++ print_04x (detect_runtime_abi w (oo_no_dir_dest o)))) ++ lit ","
  ++ member "status" (quoted (lit "candidate")) ++ lit "}" ++ [LF].

(** What is written at the end of a profile run: the exit code and the events. *)
Definition write_results (o : observe_opts) (rc : Z) : Z * list run_event :=
  if negb (or_calloc R) then (1, [])
  else
    let rows := read_rows in
    let entries := make_entry w (oo_no_resolve_paths o) <$> rows in
    let row_l := mjoin (row_lookups (oo_no_resolve_paths o) <$> rows) in
    let to_file := negb (bool_decide (oo_output o = [])) in
    if to_file && negb (or_fopen R) then (1, [])
    else
      let st := RunStats (or_drops R) (or_overflow R) (failures row_l) (fallbacks row_l) in
      let text := render (emit_profile w (oo_no_dir_dest o) (oo_no_resolve_paths o) entries (oo_actors o) (or_launchers R) st) in
      let rc1 := if to_file && negb (or_fclose R) then 1 else rc in
      match oo_provenance_out o with
      | [] => (rc1, [EProfile (oo_output o) text])
      | f =>
          if negb (or_prov_open R) then (1, [EProfile (oo_output o) text])
          else let l := row_l ++ mjoin (launcher_lookups (oo_no_resolve_paths o) <$> oo_actors o) in
               (if or_prov_close R then rc1 else 1,
                [EProfile (oo_output o) text; EProvenance f (provenance_text o (length entries) l)])
      end.

(** ** The whole run *)

(** After the attach; [live]: a format that prints events as they come. *)
Definition watch (o : observe_opts) : option (Z * list run_event) :=
  let live := match oo_format o with FMT_PROFILE => false | _ => true end in
  let has_child := negb (bool_decide (oo_cmd o = [])) in
  if has_child && negb (or_fork R) then Some (1, [])
  else
    let forked := if has_child then [EFork] else [] in
    if live && negb (or_ring R) then Some (1, forked ++ (if has_child then [EKillWait] else []))
    else
      '(rc, reaped) ← poll_turns live has_child (0 <? oo_duration o) (or_turns R);
      let rc1 := match live, or_flush R with true, PollError => 1 | _, _ => rc end in
      let seen := if (reaped : bool) then [EReaped] else [] in
      '(rc2, stopped) ← (if has_child && negb reaped
                         then '(r, h) ← terminate_observe_child (or_kernel R) fuel;
                              Some (if r <? 0 then 1 else rc1, [ETerminate r h])
                         else Some (rc1, []));
      let '(rc3, written) := if live then (rc2, []) else write_results o rc2 in
      Some (rc3, forked ++ seen ++ stopped ++ written).

Definition observe_run (o : observe_opts) : option (Z * list run_event) :=
  if negb (or_open R) then Some (1, [])
  else if negb (or_load R) then Some (1, [EDestroy])
  else
    let '(ok, targets) := populate_targets (oo_actors o) in
    if negb ok then Some (1, targets ++ [EDestroy])
    else if negb (or_freeze R) then Some (1, targets ++ [EDestroy])
    else if negb (or_attach R) then Some (1, targets ++ [EFreeze; EDestroy])
    else '(rc, tr) ← watch o; Some (rc, targets ++ [EFreeze; EAttach] ++ tr ++ [EDestroy]).

End Run.

(** ** What a run does *)

Definition target_event (a : actor_reg) : run_event := ETarget (FileId (ar_dev a) (ar_ino a)) (ar_slot a).

Section Props.
Context (w : oworld) (R : orun) (fuel : nat).

Lemma populate_spec actors :
  (populate_targets R actors).1 = true -> (populate_targets R actors).2 = target_event <$> actors.
Proof.
  induction actors as [|a l IH]; cbn; [done|]. destruct (or_update R a); cbn; [|done].
  destruct (populate_targets R l) as [ok tr]. cbn in *. intros ->. by rewrite IH.
Qed.

Lemma populate_only actors e : e ∈ (populate_targets R actors).2 -> exists f s, e = ETarget f s.
Proof.
  induction actors as [|a l IH]; cbn; [by inversion 1|]. destruct (or_update R a); cbn; [|by inversion 1].
  destruct (populate_targets R l) as [ok tr]. cbn in *. intros [->|H]%elem_of_cons; eauto.
Qed.

(** The command is gone: reaped, waited for, or stopped by [terminate_observe_child],
    whose failure makes the exit code 1. *)
Definition child_gone (rc : Z) (tr : list run_event) : Prop :=
  EReaped ∈ tr \/ EKillWait ∈ tr
  \/ exists r h, ETerminate r h ∈ tr /\ terminate_observe_child (or_kernel R) fuel = Some (r, h) /\ (r < 0 -> rc = 1).

Lemma write_results_rc o rc : rc = 1 -> (write_results w R o rc).1 = 1.
Proof. intros ->. unfold write_results. cbv zeta. repeat case_match; reflexivity. Qed.

Lemma write_results_events o rc e : e ∈ (write_results w R o rc).2 -> (exists f t, e = EProfile f t) \/ exists f t, e = EProvenance f t.
Proof.
  unfold write_results. cbv zeta. intros He.
  repeat case_match; cbn [snd] in He; repeat (apply elem_of_cons in He as [->|He]; [eauto|]); inversion He.
Qed.

Lemma poll_no_child live timed turns rc b : poll_turns live false timed turns = Some (rc, b) -> b = false.
Proof.
  induction turns as [|t l IH]; cbn; [done|]. destruct (tu_stop t); [by intros [= _ <-]|].
  destruct live, (tu_poll t); try done; try (by intros [= _ <-]); destruct (timed && tu_expired t); try done; by intros [= _ <-].
Qed.

Lemma watch_child o rc tr : watch w R fuel o = Some (rc, tr) -> EFork ∈ tr -> child_gone rc tr.
Proof.
  unfold watch. cbv zeta. set (live := match oo_format o with FMT_PROFILE => false | _ => true end).
  destruct (bool_decide (oo_cmd o = [])) eqn:Ec; cbn [negb andb].
  - destruct (live && _); [intros [= <- <-] H; inversion H|].
    destruct (poll_turns live false _ _) as [[rc0 b]|] eqn:Ep; cbn; [|done]. apply poll_no_child in Ep as ->. cbn.
    intros H He. exfalso. destruct live; [simplify_eq; inversion He|].
    destruct (write_results w R o _) as [rc3 wr] eqn:Ew. simplify_eq.
    assert (Hw : EFork ∈ (write_results w R o rc0).2) by by rewrite Ew. apply write_results_events in Hw as [(? & ? & ?)|(? & ? & ?)]; done.
  - destruct (or_fork R); cbn [negb]; [|intros [= <- <-] H; inversion H].
    destruct (live && _); [intros [= <- <-] _; right; left; set_solver|].
    destruct (poll_turns live true _ _) as [[rc0 b]|] eqn:Ep; cbn; [|done]. destruct b; cbn.
    { intros H _. destruct (if live then _ else _) as [rc3 wr]. simplify_eq. left. set_solver. }
    destruct (terminate_observe_child (or_kernel R) fuel) as [[r h]|] eqn:Et; cbn; [|done].
    intros H _. right. right. exists r, h. destruct (if live then _ else _) as [rc3 wr] eqn:Ew. simplify_eq.
    split; [set_solver|]. split; [done|]. intros Hr. destruct (Z.ltb_spec r 0); [|lia]. destruct live; [by simplify_eq|].
    change rc with (rc, wr).1. rewrite <- Ew. by apply write_results_rc.
Qed.
End Props.

(** C33: the observer misses no start and leaves no child.  When the command is
    started, the map of tracked binaries held every actor and was frozen, and the
    programs were attached before; and when the run ends, the command has been
    reaped, waited for, or stopped by [terminate_observe_child], and an exit code
    other than 1 means that this did not fail. *)
Theorem observer_run_safe w R fuel o rc tr :
  observe_run w R fuel o = Some (rc, tr) -> EFork ∈ tr ->
  (exists rest, tr = (target_event <$> oo_actors o) ++ [EFreeze; EAttach] ++ rest /\ EFork ∈ rest)
  /\ child_gone R fuel rc tr.
Proof.
  unfold observe_run. destruct (or_open R); cbn [negb]; [|intros [= <- <-] H; inversion H].
  destruct (or_load R); cbn [negb]; [|intros [= <- <-] H; set_solver].
  pose proof (populate_spec R (oo_actors o)) as Hp. pose proof (populate_only R (oo_actors o)) as Ho.
  destruct (populate_targets R (oo_actors o)) as [ok targets]. cbn [fst snd] in *.
  assert (Hn : EFork ∉ targets) by (intros H; apply Ho in H as (? & ? & ?); done).
  destruct ok; cbn [negb]; [|intros [= <- <-] H; set_solver]. rewrite (Hp eq_refl) in *.
  destruct (or_freeze R); cbn [negb]; [|intros [= <- <-] H; set_solver].
  destruct (or_attach R); cbn [negb]; [|intros [= <- <-] H; set_solver].
  destruct (watch w R fuel o) as [[rc0 tr0]|] eqn:Ew; cbn [mbind option_bind]; [|done]. intros [= <- <-] H.
  assert (Hf : EFork ∈ tr0) by set_solver. split; [exists (tr0 ++ [EDestroy]); split; [done|set_solver]|].
  destruct (watch_child w R fuel o rc0 tr0 Ew Hf) as [Hr|[Hr|(r & h & Hr & Ht & Hrc)]].
  - left. set_solver.
  - right; left. set_solver.
  - right; right. exists r, h. split; [set_solver|done].
Qed.

(** ** The profile and the table *)

Lemma write_results_profile w R o rc :
  (write_results w R o rc).1 = 0 ->
  exists st, EProfile (oo_output o) (render (emit_profile w (oo_no_dir_dest o) (oo_no_resolve_paths o)
      (make_entry w (oo_no_resolve_paths o) <$> read_rows R) (oo_actors o) (or_launchers R) st)) ∈ (write_results w R o rc).2.
Proof.
  unfold write_results. cbv zeta. destruct (or_calloc R); cbn [negb]; [|done]. destruct (_ && negb (or_fopen R)); [done|].
  set (st := RunStats _ _ _ _). intros H. exists st. destruct (oo_provenance_out o); [by left|].
  destruct (or_prov_open R); cbn [negb]; by left.
Qed.

Lemma run_profile w R fuel o tr :
  observe_run w R fuel o = Some (0, tr) -> oo_format o = FMT_PROFILE ->
  exists st, EProfile (oo_output o) (render (emit_profile w (oo_no_dir_dest o) (oo_no_resolve_paths o)
      (make_entry w (oo_no_resolve_paths o) <$> read_rows R) (oo_actors o) (or_launchers R) st)) ∈ tr.
Proof.
  unfold observe_run. intros H Hf. revert H.
  destruct (or_open R); cbn [negb]; [|done]. destruct (or_load R); cbn [negb]; [|done].
  destruct (populate_targets R (oo_actors o)) as [[] targets]; cbn [negb]; [|done].
  destruct (or_freeze R); cbn [negb]; [|done]. destruct (or_attach R); cbn [negb]; [|done].
  destruct (watch w R fuel o) as [[rc0 tr0]|] eqn:Ew; cbn [mbind option_bind]; [|done]. intros [= -> <-].
  revert Ew. unfold watch. rewrite Hf. cbv zeta. cbn [andb].
  destruct (_ && negb (or_fork R)); [done|].
  destruct (poll_turns _ _ _ _) as [[rc1 b]|]; cbn [mbind option_bind]; [|done].
  destruct (if _ && negb b then _ else _) as [[rc2 stopped]|]; cbn [mbind option_bind]; [|done].
  destruct (write_results w R o rc2) as [rc3 wr] eqn:E. intros [= -> <-].
  assert (H0 : (write_results w R o rc2).1 = 0) by by rewrite E.
  destruct (write_results_profile _ _ _ _ H0) as [st Hst]. rewrite E in Hst. exists st. set_solver.
Qed.

(** The table as the iteration finds it, in whatever order. *)
Definition table_read (R : orun) (m : gmap observed_key observed_value) : Prop :=
  or_table R ≡ₚ (fun kv : observed_key * observed_value => (kv.1, Some kv.2)) <$> map_to_list m.

Lemma read_rows_table R m :
  table_read R m -> (size m <= Z.to_nat AO_MAX_OBSERVED)%nat -> read_rows R ≡ₚ map_to_list m.
Proof.
  intros Ht Hs. unfold read_rows. set (f := fun r : observed_key * option observed_value => v ← r.2; Some (r.1, v)).
  assert (Hf : forall l : list (observed_key * observed_value), omap f ((fun kv => (kv.1, Some kv.2)) <$> l) = l).
  { induction l as [|[k v] l IH]; [done|]. cbn. by f_equal. }
  assert (Hp : omap f (or_table R) ≡ₚ map_to_list m) by (rewrite Ht, Hf; done).
  rewrite take_ge; [done|]. by rewrite Hp, length_map_to_list.
Qed.

Lemma make_entry_key w b kv : en_key (make_entry w b kv) = kv.1 /\ en_val (make_entry w b kv) = kv.2.
Proof. destruct kv as [k v]. unfold make_entry. destruct b; [done|]. by destruct (resolve_path _ _ _) as [[]]. Qed.

(** C16: the profile says what was done, all of it and nothing else.  When a profile
    run ends with 0, it has written a profile made from one entry per key of the
    table; and for any calls the kernel saw while the programs were attached, with
    room in the table, an entry is there exactly when an attributed operation
    with its key was made, with its count and the flags that say by whom. *)
Theorem observed_profile_complete w R fuel o tr l :
  observe_run w R fuel o = Some (0, tr) -> oo_format o = FMT_PROFILE ->
  Forall (fun c : oenv * ohook => forall m, oe_update_files c.1 m = 0) l ->
  table_read R (observed_files (run_calls l odyn_init)) ->
  (size (observed_files (run_calls l odyn_init)) <= Z.to_nat AO_MAX_OBSERVED)%nat ->
  exists entries st,
    EProfile (oo_output o) (render (emit_profile w (oo_no_dir_dest o) (oo_no_resolve_paths o) entries
      (oo_actors o) (or_launchers R) st)) ∈ tr
    /\ NoDup (en_key <$> entries)
    /\ forall k t, (exists e, e ∈ entries /\ en_key e = k /\ entry_tally (en_val e) = t)
                   <-> tally (of_key k (calls_obs l odyn_init)) = Some t.
Proof.
  intros Hrun Hf Hl Ht Hs. destruct (run_profile _ _ _ _ _ Hrun Hf) as [st Hst].
  pose proof (read_rows_table _ _ Ht Hs) as Hp. eexists _, st. split; [exact Hst|].
  assert (Hk : en_key <$> (make_entry w (oo_no_resolve_paths o) <$> read_rows R) = (read_rows R).*1).
  { rewrite <- list_fmap_compose. apply list_fmap_ext. intros i kv _. apply make_entry_key. }
  rewrite Hk. split; [rewrite Hp; apply NoDup_fst_map_to_list|]. intros k t.
  assert (Hex : entry_tally <$> observed_files (run_calls l odyn_init) !! k = tally (of_key k (calls_obs l odyn_init))).
  { exact (run_calls_exact l [] odyn_init Hl (fun _ => eq_refl) k). }
  rewrite <- Hex. split.
  - intros (e & (kv & -> & Hin)%list_elem_of_fmap & <- & <-). rewrite Hp in Hin. destruct kv as [k v].
    apply elem_of_map_to_list in Hin. destruct (make_entry_key w (oo_no_resolve_paths o) (k, v)) as [-> ->]. cbn. by rewrite Hin.
  - intros H. destruct (observed_files (run_calls l odyn_init) !! k) as [v|] eqn:E; [|done]. cbn in H. simplify_eq.
    exists (make_entry w (oo_no_resolve_paths o) (k, v)).
    destruct (make_entry_key w (oo_no_resolve_paths o) (k, v)) as [-> ->]. split; [|done].
    apply list_elem_of_fmap. exists (k, v). split; [done|]. rewrite Hp. by apply elem_of_map_to_list.
Qed.

(** ** A concrete run *)

Module Session.

(** The program is started, opens a file twice, and has exited at the second turn. *)
Definition calls : list (oenv * ohook) :=
  [(roomy demo_oenv, OBprm (Some 2%positive)); (roomy demo_oenv, OFileOpen (Some 1%positive));
   (roomy demo_oenv, OFileOpen (Some 1%positive))].

Definition table : gmap observed_key observed_value := observed_files (run_calls calls odyn_init).

Definition answers : orun := {|
  or_open := true; or_load := true; or_update := fun _ => true; or_freeze := true; or_attach := true;
  or_fork := true; or_ring := true;
  or_turns := [Turn false PollOk false false; Turn false PollOk true false]; or_flush := PollOk;
  or_kernel := stubborn; or_drops := 0; or_overflow := 0; or_calloc := true;
  or_table := (fun kv : observed_key * observed_value => (kv.1, Some kv.2)) <$> map_to_list table;
  or_launchers := []; or_fopen := true; or_fclose := true; or_prov_open := true; or_prov_close := true
|}.

(** The same, but the user interrupts the run, and the command ignores SIGTERM. *)
Definition interrupted : orun := {|
  or_open := true; or_load := true; or_update := fun _ => true; or_freeze := true; or_attach := true;
  or_fork := true; or_ring := true;
  or_turns := [Turn true PollOk false false]; or_flush := PollOk;
  or_kernel := stubborn; or_drops := 0; or_overflow := 0; or_calloc := true; or_table := [];
  or_launchers := []; or_fopen := true; or_fclose := true; or_prov_open := true; or_prov_close := true
|}.

Definition app : actor_reg := ActorReg (lit "app") (lit "/bin/app") 8 200 3 false.
Definition opts : observe_opts :=
  ObserveOpts [app] (-1) (-1) FMT_PROFILE false false true false [] [] [lit "/bin/app"].

Definition events (R : orun) : list run_event :=
  match observe_run Host.host R 1 opts with Some (_, tr) => tr | None => [] end.
Definition code (R : orun) : option Z := fst <$> observe_run Host.host R 1 opts.

Lemma run_of R : code R = Some 0 -> observe_run Host.host R 1 opts = Some (0, events R).
Proof. unfold code, events. by destruct (observe_run Host.host R 1 opts) as [[rc tr]|]; intros [= ->]. Qed.

Definition is_fork (e : run_event) : bool := match e with EFork => true | _ => false end.
Lemma forks tr : existsb is_fork tr = true -> EFork ∈ tr.
Proof. intros (e & H & He)%existsb_exists. apply list_elem_of_In. by destruct e. Qed.
End Session.

Lemma observer_run_safe_witness : child_gone Session.interrupted 1 0 (Session.events Session.interrupted).
Proof.
  refine (proj2 (observer_run_safe Host.host Session.interrupted 1 Session.opts 0 _ _ _)).
  - apply Session.run_of. vm_compute. reflexivity.
  - apply Session.forks. vm_compute. reflexivity.
Defined.

Lemma observed_profile_complete_witness :
  exists entries st e,
    EProfile [] (render (emit_profile Host.host false true entries [Session.app] [] st)) ∈ Session.events Session.answers
    /\ e ∈ entries /\ en_key e = ObservedKey 3 AO_OP_OPEN_RW 8 101 8 100 /\ entry_tally (en_val e) = (2, true, false).
Proof.
  destruct (observed_profile_complete Host.host Session.answers 1 Session.opts (Session.events Session.answers) Session.calls)
    as (entries & st & Hw & _ & Hk).
  - apply Session.run_of. vm_compute. reflexivity.
  - reflexivity.
  - repeat constructor.
  - apply Permutation_refl.
  - apply Nat.leb_le. vm_compute. reflexivity.
  - destruct (proj2 (Hk (ObservedKey 3 AO_OP_OPEN_RW 8 101 8 100) (2, true, false))) as (e & He & Hke & Ht).
    + vm_compute. reflexivity.
    + exists entries, st, e. split; [exact Hw|]. done.
Defined.
