(* ===== verification/Inet.v ===== *)
(** * Addresses and ranges

    The address routines of the C library ([inet_pton], [inet_ntop]) on the bytes
    of an address, and [ip_in_cidr] and [is_ip_in_allowed_range] of
    [src/archive/shell-guard/shell-guard.c] above them. *)

From S2P Require Import Prelude CLib Numerals Observe.
From Stdlib Require Import Ascii.
From stdpp Require Import strings.

#[local] Open Scope Z_scope.

Inductive family := AF_INET | AF_INET6.

Definition addr_len (f : family) : nat := match f with AF_INET => 4%nat | AF_INET6 => 16%nat end.

(** ** [inet_pton] *)

(** The fields between the dots, empty ones included. *)
Fixpoint fields (sep : ascii) (s : cstring) : list cstring :=
  match s with
  | [] => [[]]
  | c :: r => if Ascii.eqb c sep then [] :: fields sep r
              else match fields sep r with f :: fs => (c :: f) :: fs | [] => [[c]] end
  end.

(** An octet: decimal, no superfluous zero, at most 255. *)
Definition octet (f : cstring) : option Z :=
  match digits 10 0 f with
  | (v, []) =>
      match f with
      | [] => None
      | c :: rest => if Ascii.eqb c "0"%char && negb (bool_decide (rest = [])) then None
                     else if v <=? 255 then Some v else None
      end
  | _ => None
  end.

Definition inet_pton4 (s : cstring) : option (list Z) :=
  b ← mapM octet (fields "."%char s);
  if Nat.eqb (length b) 4 then Some b else None.

(** The state of the scanner of an IPv6 address: the bytes so far, where the double
    colon was, the digits of the current group and where the group began. *)
Record scan6 := Scan6 { s6_bytes : list Z; s6_colon : option nat; s6_digits : nat; s6_val : Z; s6_tok : cstring }.

Definition put_group (v : Z) (b : list Z) : list Z := b ++ [v / 256; v mod 256].

Fixpoint scan_v6 (s : cstring) (st : scan6) : option scan6 :=
  match s with
  | [] => Some st
  | c :: r =>
      if digit_value c <? 16 then
        if Nat.eqb (s6_digits st) 4 then None
        else scan_v6 r (Scan6 (s6_bytes st) (s6_colon st) (S (s6_digits st)) (s6_val st * 16 + digit_value c) (s6_tok st))
      else if Ascii.eqb c ":"%char then
        if Nat.eqb (s6_digits st) 0 then
          match s6_colon st with
          | Some _ => None
          | None => scan_v6 r (Scan6 (s6_bytes st) (Some (length (s6_bytes st))) 0 0 r)
          end
        else if bool_decide (r = []) || Nat.ltb 16 (length (s6_bytes st) + 2) then None
        else scan_v6 r (Scan6 (put_group (s6_val st) (s6_bytes st)) (s6_colon st) 0 0 r)
      else if Ascii.eqb c "."%char && Nat.leb (length (s6_bytes st) + 4) 16 then
        match inet_pton4 (s6_tok st) with
        | Some b => Some (Scan6 (s6_bytes st ++ b) (s6_colon st) 0 0 [])
        | None => None
        end
      else None
  end.

(** The zeros of the double colon fill the address up. *)
Definition finish_v6 (st : scan6) : option (list Z) :=
  if Nat.ltb 0 (s6_digits st) && Nat.ltb 16 (length (s6_bytes st) + 2) then None
  else
    let b := if Nat.ltb 0 (s6_digits st) then put_group (s6_val st) (s6_bytes st) else s6_bytes st in
    match s6_colon st with
    | Some i => if Nat.leb 16 (length b) then None
                else Some (take i b ++ replicate (16 - length b) 0 ++ drop i b)
    | None => if Nat.eqb (length b) 16 then Some b else None
    end.

Definition inet_pton6 (s : cstring) : option (list Z) :=
  match s with
  | [] => None
  | c :: r =>
      let st tok := Scan6 [] None 0 0 tok in
      if Ascii.eqb c ":"%char
      then match r with
           | c' :: _ => if Ascii.eqb c' ":"%char then scan_v6 r (st r) ≫= finish_v6 else None
           | [] => None
           end
      else scan_v6 s (st s) ≫= finish_v6
  end.

Definition inet_pton (f : family) (s : cstring) : option (list Z) :=
  match f with AF_INET => inet_pton4 s | AF_INET6 => inet_pton6 s end.

(** ** [inet_ntop] *)

Definition inet_ntop4 (b : list Z) : cstring :=
  match print_u <$> b with
  | [] => []
  | f :: fs => f ++ mjoin ((fun g => "."%char :: g) <$> fs)
  end.

Fixpoint words (b : list Z) : list Z :=
  match b with hi :: lo :: r => hi * 256 + lo :: words r | _ => [] end.

(** The length of the run of zeros at the head. *)
Fixpoint zeros (ws : list Z) : nat :=
  match ws with w :: r => if w =? 0 then S (zeros r) else 0%nat | [] => 0%nat end.

(** The first longest run of zero groups: where it starts and its length. *)
Fixpoint best_run (i : nat) (ws : list Z) (best : nat * nat) : nat * nat :=
  match ws with
  | [] => best
  | _ :: r => let n := zeros ws in best_run (S i) r (if Nat.ltb best.2 n then (i, n) else best)
  end.

(** The text of the groups from the [i]-th on; [v4]: the address ends in the text of
    its last four bytes. *)
Fixpoint group_text (i base len : nat) (v4 : option cstring) (ws : list Z) : cstring :=
  match ws with
  | [] => []
  | w :: r =>
      if Nat.leb base i && Nat.ltb i (base + len)
      then (if Nat.eqb i base then lit ":" else []) ++ group_text (S i) base len v4 r
      else (if Nat.eqb i 0 then [] else lit ":")
           ++ match v4 with
              | Some t => if Nat.eqb i 6 then t else print_x w ++ group_text (S i) base len v4 r
              | None => print_x w ++ group_text (S i) base len v4 r
              end
  end.

Definition inet_ntop6 (b : list Z) : cstring :=
  let ws := words b in
  let '(base, len) := best_run 0 ws (0%nat, 0%nat) in
  let '(base, len) := if Nat.ltb len 2 then (8%nat, 0%nat) else (base, len) in
  let v4 := if Nat.eqb base 0 && (Nat.eqb len 6 || (Nat.eqb len 5 && bool_decide (ws !! 5%nat = Some 0xffff)))
            then Some (inet_ntop4 (drop 12 b)) else None in
  group_text 0 base len v4 ws ++ (if Nat.ltb 0 len && Nat.eqb (base + len) 8 then lit ":" else []).

Definition inet_ntop (f : family) (b : list Z) : cstring :=
  match f with AF_INET => inet_ntop4 b | AF_INET6 => inet_ntop6 b end.

(** ** Ranges *)

(** [atoi]: the [int] of [strtol], 0 without digits. *)
Definition to_int (z : Z) : Z := let m := z mod 2 ^ 32 in if m <? 2 ^ 31 then m else m - 2 ^ 32.
Definition atoi (s : cstring) : Z := match strtol 10 s with Some (v, _, _) => to_int v | None => 0 end.

(** The buffer of the network has [INET6_ADDRSTRLEN + 4] bytes. *)
Definition NETWORK_MAX : nat := 49.

(** The network, the number of significant bits and the family. *)
Definition cidr_parts (cidr : cstring) : cstring * Z * family :=
  let network := take NETWORK_MAX cidr in
  let f := if strchr network ":"%char then AF_INET6 else AF_INET in
  match span (Ascii.eqb "/"%char) network with
  | (net, _ :: bits) => (net, atoi bits, f)
  | (net, []) => (net, 8 * Z.of_nat (addr_len f), f)
  end.

(** [((1 << r) - 1) << (8 - r)] in an [unsigned char]. *)
Definition bit_mask (r : Z) : Z := Z.land (Z.shiftl (Z.shiftl 1 r - 1) (8 - r)) 0xff.

Definition ip_in_cidr (ip_str cidr : cstring) : bool :=
  let '(net, prefix_length, f) := cidr_parts cidr in
  if (prefix_length <? 0) || (8 * Z.of_nat (addr_len f) <? prefix_length) then false
  else match inet_pton f ip_str, inet_pton f net with
       | Some ip_bin, Some network_bin =>
           let full_bytes := Z.to_nat (prefix_length / 8) in
           let remaining_bits := prefix_length mod 8 in
           if negb (bool_decide (take full_bytes ip_bin = take full_bytes network_bin)) then false
           else if 0 <? remaining_bits
           then Z.land (default 0 (ip_bin !! full_bytes)) (bit_mask remaining_bits)
                =? Z.land (default 0 (network_bin !! full_bytes)) (bit_mask remaining_bits)
           else true
       | _, _ => false
       end.

Definition is_ip_in_allowed_range (ranges : list cstring) (ip_str : cstring) : bool :=
  existsb (ip_in_cidr ip_str) ranges.

(** ** An address is its bytes *)

Definition is_byte (z : Z) : Prop := 0 <= z < 256.

Lemma digits_nonneg b acc s : 0 <= b -> 0 <= acc -> 0 <= (digits b acc s).1.
Proof.
  intros Hb. revert acc. induction s as [|c s IH]; intros acc Ha; cbn; [done|]. destruct (_ <? _); [|done].
  apply IH. assert (0 <= digit_value c) by (unfold digit_value, cval; repeat case_match; lia). nia.
Qed.

Lemma octet_byte f v : octet f = Some v -> is_byte v.
Proof.
  unfold octet. pose proof (digits_nonneg 10 0 f) as H. destruct (digits 10 0 f) as [x []]; [|done]. destruct f; [done|].
  destruct (_ && _); [done|]. destruct (Z.leb_spec x 255); [|done]. intros [= <-]. cbn in H. unfold is_byte. lia.
Qed.

Lemma pton4_bytes s b : inet_pton4 s = Some b -> length b = 4%nat /\ Forall is_byte b.
Proof.
  unfold inet_pton4. destruct (mapM octet _) as [l|] eqn:E; cbn; [|done].
  destruct (Nat.eqb_spec (length l) 4); [|done]. intros [= <-]. split; [done|].
  apply mapM_Some in E. eapply Forall2_Forall_r; [exact E|]. apply Forall_true. intros f v. apply octet_byte.
Qed.

(** What the scanner keeps. *)
Record scan_ok (st : scan6) : Prop := ScanOk {
  so_bytes : Forall is_byte (s6_bytes st); so_len : (length (s6_bytes st) <= 16)%nat;
  so_val : 0 <= s6_val st < 16 ^ Z.of_nat (s6_digits st); so_digits : (s6_digits st <= 4)%nat }.

Lemma put_group_bytes st :
  scan_ok st -> Forall is_byte (put_group (s6_val st) (s6_bytes st))
  /\ length (put_group (s6_val st) (s6_bytes st)) = (length (s6_bytes st) + 2)%nat.
Proof.
  intros [Hb _ Hv Hd]. unfold put_group. rewrite length_app. split; [|done]. apply Forall_app. split; [done|].
  assert (Hp : 16 ^ Z.of_nat (s6_digits st) <= 16 ^ 4) by (apply Z.pow_le_mono_r; lia). change (16 ^ 4) with 65536 in Hp.
  repeat constructor; unfold is_byte; [apply Z.div_pos; lia|apply Z.div_lt_upper_bound; lia|apply Z.mod_pos_bound; lia..].
Qed.

Lemma scan_v6_ok s st st' : scan_ok st -> scan_v6 s st = Some st' -> scan_ok st'.
Proof.
  revert st. induction s as [|c r IH]; intros st Hst; cbn [scan_v6]; [by intros [= <-]|].
  destruct (Z.ltb_spec (digit_value c) 16).
  { destruct (Nat.eqb_spec (s6_digits st) 4); [done|]. apply IH. destruct Hst as [Hb Hl Hv Hd]. split; cbn [s6_bytes s6_digits s6_val]; [done|done| |lia].
    assert (0 <= digit_value c) by (unfold digit_value, cval; repeat case_match; lia).
    rewrite Nat2Z.inj_succ, Z.pow_succ_r by lia. lia. }
  destruct (Ascii.eqb c ":").
  { destruct (Nat.eqb_spec (s6_digits st) 0).
    - destruct (s6_colon st); [done|]. apply IH. destruct Hst. split; cbn [s6_bytes s6_digits s6_val]; [done|done|cbn; lia|lia].
    - destruct (bool_decide (r = []) || _) eqn:E; [done|]. apply orb_false_iff in E as [_ E%Nat.ltb_ge]. apply IH.
      destruct (put_group_bytes st Hst) as [Hb Hl]. split; cbn [s6_bytes s6_digits s6_val]; [done|lia|cbn; lia|lia]. }
  destruct (_ && _) eqn:E; [|done]. apply andb_true_iff in E as [_ E%Nat.leb_le].
  destruct (inet_pton4 (s6_tok st)) as [b|] eqn:Eb; [|done]. apply pton4_bytes in Eb as [Hl Hb]. intros [= <-].
  destruct Hst as [Hb0 Hl0 _ _]. split; cbn [s6_bytes s6_digits s6_val]; [by apply Forall_app|rewrite length_app; lia|cbn; lia|lia].
Qed.

Lemma finish_v6_bytes st b : scan_ok st -> finish_v6 st = Some b -> length b = 16%nat /\ Forall is_byte b.
Proof.
  intros Hst. unfold finish_v6. destruct (put_group_bytes st Hst) as [Hg Hgl]. destruct Hst as [Hb Hl _ _].
  destruct (_ && _) eqn:E; [done|]. cbv zeta.
  set (b0 := if Nat.ltb 0 (s6_digits st) then _ else _).
  assert (H0 : Forall is_byte b0) by (unfold b0; by destruct (Nat.ltb 0 (s6_digits st))).
  destruct (s6_colon st) as [i|].
  - destruct (Nat.leb_spec 16 (length b0)); [done|]. intros [= <-]. split.
    + rewrite !length_app, length_replicate, length_take, length_drop. lia.
    + rewrite !Forall_app. split; [by apply Forall_take|]. split; [|by apply Forall_drop].
      apply Forall_replicate. unfold is_byte. lia.
  - destruct (Nat.eqb_spec (length b0) 16); [|done]. by intros [= <-].
Qed.

Lemma pton_bytes f s b : inet_pton f s = Some b -> length b = addr_len f /\ Forall is_byte b.
Proof.
  destruct f; [apply pton4_bytes|]. cbn [inet_pton addr_len]. unfold inet_pton6. destruct s as [|c r]; [done|].
  assert (H0 : forall tok, scan_ok (Scan6 [] None 0 0 tok)) by (intros; split; cbn; [done|lia|lia|lia]).
  assert (H : forall s tok, scan_v6 s (Scan6 [] None 0 0 tok) ≫= finish_v6 = Some b -> length b = 16%nat /\ Forall is_byte b).
  { intros s tok. destruct (scan_v6 s _) as [st|] eqn:E; cbn; [|done]. apply finish_v6_bytes. eapply scan_v6_ok; [apply H0|exact E]. }
  cbv zeta. destruct (Ascii.eqb c ":"); [|apply H]. destruct r as [|c' r]; [done|]. destruct (Ascii.eqb c' ":"); [apply H|done].
Qed.

(** ** A range is its leading bits *)

(** The [i]-th bit of an address, counted from its front. *)
Definition addr_bit (b : list Z) (i : nat) : bool :=
  Z.testbit (default 0 (b !! (i / 8)%nat)) (7 - Z.of_nat (i mod 8)).

Lemma byte_ext x y : is_byte x -> is_byte y -> (forall k, 0 <= k < 8 -> Z.testbit x k = Z.testbit y k) -> x = y.
Proof.
  intros Hx Hy H. apply Z.bits_inj'. intros k Hk. destruct (Z.lt_ge_cases k 8) as [Hk'|Hk']; [apply H; lia|].
  assert (Hp : 2 ^ 8 <= 2 ^ k) by (apply Z.pow_le_mono_r; lia). unfold is_byte in *. change (2 ^ 8) with 256 in Hp.
  rewrite <- (Z.mod_small x (2 ^ k)), <- (Z.mod_small y (2 ^ k)) by lia. by rewrite !Z.mod_pow2_bits_high by lia.
Qed.

Lemma bit_mask_spec r k : 0 < r < 8 -> 0 <= k -> Z.testbit (bit_mask r) k = (8 - r <=? k) && (k <? 8).
Proof.
  intros Hr Hk. destruct (Z.lt_ge_cases k 8) as [H|H].
  - assert (Hr' : r = 1 \/ r = 2 \/ r = 3 \/ r = 4 \/ r = 5 \/ r = 6 \/ r = 7) by lia.
    assert (Hk' : k = 0 \/ k = 1 \/ k = 2 \/ k = 3 \/ k = 4 \/ k = 5 \/ k = 6 \/ k = 7) by lia.
    destruct Hr' as [->|[->|[->|[->|[->|[->| ->]]]]]];
      destruct Hk' as [->|[->|[->|[->|[->|[->|[->| ->]]]]]]]; reflexivity.
  - unfold bit_mask. rewrite Z.land_spec. change 0xff with (Z.ones 8). rewrite Z.ones_spec_high by lia.
    rewrite andb_false_r. symmetry. apply andb_false_iff. right. by apply Z.ltb_ge.
Qed.

Lemma masked_eq r x y :
  0 < r < 8 ->
  Z.land x (bit_mask r) = Z.land y (bit_mask r) <-> forall j, 0 <= j < r -> Z.testbit x (7 - j) = Z.testbit y (7 - j).
Proof.
  intros Hr. split.
  - intros H j Hj. apply (f_equal (fun z => Z.testbit z (7 - j))) in H. rewrite !Z.land_spec, !bit_mask_spec in H by lia.
    destruct (Z.leb_spec (8 - r) (7 - j)); [|lia]. destruct (Z.ltb_spec (7 - j) 8); [|lia]. by rewrite !andb_true_r in H.
  - intros H. apply Z.bits_inj'. intros k Hk. rewrite !Z.land_spec, !bit_mask_spec by lia.
    destruct (Z.leb_spec (8 - r) k), (Z.ltb_spec k 8); cbn [andb]; rewrite ?andb_false_r; try done.
    rewrite !andb_true_r. replace k with (7 - (7 - k)) by lia. apply H. lia.
Qed.

Section Bits.
Context (a b : list Z) (len : nat) (Ha : length a = len) (Hb : length b = len)
  (Hab : Forall is_byte a) (Hbb : Forall is_byte b).

Lemma take_bits m : (m <= len)%nat ->
  take m a = take m b <-> forall i, (i < 8 * m)%nat -> addr_bit a i = addr_bit b i.
Proof.
  intros Hm. split.
  - intros H i Hi. unfold addr_bit. assert (Hq : (i / 8 < m)%nat) by (apply Nat.Div0.div_lt_upper_bound; lia).
    by rewrite <- (lookup_take_lt a m), <- (lookup_take_lt b m), H by done.
  - intros H. apply list_eq. intros j. destruct (Nat.lt_ge_cases j m) as [Hj|Hj]; [|by rewrite !lookup_take_ge].
    rewrite !lookup_take_lt by done. destruct (lookup_lt_is_Some_2 a j) as [x Hx]; [lia|].
    destruct (lookup_lt_is_Some_2 b j) as [y Hy]; [lia|]. rewrite Hx, Hy. f_equal.
    apply byte_ext; [by eapply (Forall_lookup_1 _ a)|by eapply (Forall_lookup_1 _ b)|]. intros k Hk.
    specialize (H (j * 8 + Z.to_nat (7 - k))%nat). unfold addr_bit in H.
    rewrite Nat.div_add_l, (Nat.div_small (Z.to_nat (7 - k)) 8), Nat.add_0_r in H by lia.
    rewrite Nat.add_comm, Nat.Div0.mod_add, Nat.mod_small in H by lia. rewrite Hx, Hy in H. cbn in H.
    replace (7 - Z.of_nat (Z.to_nat (7 - k))) with k in H by lia. apply H. lia.
Qed.
End Bits.

Lemma rest_bits a b m r : 0 < r < 8 ->
  Z.land (default 0 (a !! m)) (bit_mask r) = Z.land (default 0 (b !! m)) (bit_mask r)
  <-> forall i, (8 * m <= i < 8 * m + Z.to_nat r)%nat -> addr_bit a i = addr_bit b i.
Proof.
  intros Hr. rewrite masked_eq by done. split.
  - intros H i Hi. unfold addr_bit.
    replace i with (m * 8 + (i - 8 * m))%nat by lia. rewrite Nat.div_add_l, (Nat.div_small (i - 8 * m) 8), Nat.add_0_r by lia.
    rewrite (Nat.add_comm (m * 8)), Nat.Div0.mod_add, Nat.mod_small by lia. apply H. lia.
  - intros H j Hj. specialize (H (m * 8 + Z.to_nat j)%nat). unfold addr_bit in H.
    rewrite Nat.div_add_l, (Nat.div_small (Z.to_nat j) 8), Nat.add_0_r in H by lia.
    rewrite (Nat.add_comm (m * 8)), Nat.Div0.mod_add, Nat.mod_small in H by lia.
    rewrite Z2Nat.id in H by lia. apply H. lia.
Qed.

(** C36: a range is exactly its leading bits.  [ip_in_cidr] accepts an address
    exactly when the range is well formed (a network address of its family and
    a number of bits that family has), the address is one of the same family and
    agrees with the network on that many leading bits. *)
Theorem cidr_exact ip_str cidr net n f :
  cidr_parts cidr = (net, n, f) ->
  ip_in_cidr ip_str cidr = true
  <-> 0 <= n <= 8 * Z.of_nat (addr_len f)
      /\ exists a b, inet_pton f ip_str = Some a /\ inet_pton f net = Some b
         /\ forall i, (i < Z.to_nat n)%nat -> addr_bit a i = addr_bit b i.
Proof.
  intros Hc. unfold ip_in_cidr. rewrite Hc. set (len := addr_len f).
  destruct (Z.ltb_spec n 0); [split; [done|lia]|]. destruct (Z.ltb_spec (8 * Z.of_nat len) n); [split; [done|lia]|]. cbn [orb].
  destruct (inet_pton f ip_str) as [a|] eqn:Ea; [|split; [done|by intros (_ & ? & ? & ? & _)]].
  destruct (inet_pton f net) as [b|] eqn:Eb; [|split; [done|by intros (_ & ? & ? & _ & ? & _)]].
  destruct (pton_bytes _ _ _ Ea) as [La Fa], (pton_bytes _ _ _ Eb) as [Lb Fb]. fold len in La, Lb.
  pose proof (Z.mod_pos_bound n 8) as Hr. pose proof (Z.div_mod n 8) as Hn.
  set (m := Z.to_nat (n / 8)). set (r := n mod 8) in *. assert (Hm : Z.of_nat m = n / 8) by (apply Z2Nat.id, Z.div_pos; lia).
  transitivity (forall i, (i < Z.to_nat n)%nat -> addr_bit a i = addr_bit b i).
  2: { split; [intros H1; split; [lia|]; by exists a, b|]. intros (_ & a' & b' & [= <-] & [= <-] & H1). exact H1. }
  pose proof (take_bits a b len La Lb Fa Fb m ltac:(lia)) as Ht.
  case_bool_decide as Et; cbn [negb].
  - destruct (Z.ltb_spec 0 r) as [Hp|Hp].
    + rewrite Z.eqb_eq, (rest_bits a b m r ltac:(lia)). split.
      * intros Hs i Hi. destruct (Nat.lt_ge_cases i (8 * m)); [by apply Ht|]. apply Hs. lia.
      * intros Hs i Hi. apply Hs. lia.
    + split; [|done]. intros _ i Hi. apply Ht; [done|]. lia.
  - split; [done|]. intros Hs. exfalso. apply Et, Ht. intros i Hi. apply Hs. lia.
Qed.

Lemma cidr_exact_witness :
  cidr_parts (lit "172.16.0.0/12") = (lit "172.16.0.0", 12, AF_INET)
  /\ (ip_in_cidr (lit "172.31.255.254") (lit "172.16.0.0/12") = true
      <-> 0 <= 12 <= 32 /\ exists a b, inet_pton AF_INET (lit "172.31.255.254") = Some a
            /\ inet_pton AF_INET (lit "172.16.0.0") = Some b
            /\ forall i, (i < 12)%nat -> addr_bit a i = addr_bit b i)
  /\ ip_in_cidr (lit "172.31.255.254") (lit "172.16.0.0/12") = true
  /\ ip_in_cidr (lit "172.32.0.1") (lit "172.16.0.0/12") = false.
Proof.
  assert (H : cidr_parts (lit "172.16.0.0/12") = (lit "172.16.0.0", 12, AF_INET)) by (vm_compute; reflexivity).
  split; [exact H|]. split; [exact (cidr_exact (lit "172.31.255.254") _ _ _ _ H)|]. split; vm_compute; reflexivity.
Defined.
