(* ===== verification/ShellGuard.v ===== *)
(** * The archived shell-guard

    Models [src/archive/shell-guard/shell-guard.c]: the log line of an invocation,
    the policy checks and the hand-over to the real shell, in the monitoring and
    in the enforcing build.  The policy tables are those of the generated
    [config.h]; the tables below hold the entries before the terminator.  What
    [/proc], the password database and libseccomp answer is a record.  The host
    is little-endian. *)

From S2P Require Import Prelude CLib Config EnvAudit AbiWire AuditDir Inet.
From Stdlib Require Import Ascii.
From stdpp Require Import strings.

#[local] Open Scope Z_scope.

Record gpolicy := GPolicy {
  allowed_uids : list Z; allowed_gids : list Z;
  allowed_cwds : list cstring; allowed_executables : list cstring;
  forbidden_env_vars : list cstring; allowed_env_vars : list cstring;
  allowed_network_ranges : list cstring; seccomp_allowed_syscalls : list cstring
}.

Record gworld := GWorld {
  gw_pid : Z; gw_ppid : Z; gw_uid : Z; gw_gid : Z;
  gw_status : Z -> option cstring;               (* /proc/<pid>/status *)
  gw_exe : Z -> option cstring;                  (* the links exe, cwd and fd/0 *)
  gw_cwd : Z -> option cstring;
  gw_stdin : Z -> option cstring;
  gw_fds : Z -> option (list (cstring * option cstring));  (* the names in fd, and their links *)
  gw_net : cstring -> option cstring;            (* the files of /proc/net *)
  gw_stack : nat -> Z;                           (* what an unset [addr_parts] holds *)
  gw_strftime : option cstring; gw_user : option cstring;
  gw_malloc : bool; gw_strdup : nat -> bool;
  gw_access_x : cstring -> bool; gw_execv : cstring -> bool;
  gw_seccomp_init : bool; gw_resolve : cstring -> option Z; gw_rule_add : Z -> bool; gw_seccomp_load : bool
}.

Definition MAX_PPID_CHAIN : nat := 64.
Definition MAX_LOG_MESSAGE_SIZE : nat := 4096.
Definition MAX_ARG_STR_LENGTH : nat := 1024.
Definition MAX_PPID_STR_LENGTH : nat := 256.
Definition MAX_CWD_LENGTH : nat := 1024.
Definition MAX_TTY_INFO_LENGTH : nat := 256.
Definition MAX_ALLOWED_ARG_LENGTH : nat := 4096.
Definition ALLOWED_CHARS : cstring :=
  lit "abcdefghijklmnopqrstuvwxyzABCDEFGHIJKLMNOPQRSTUVWXYZ0123456789-_. /".
Definition SHELL_DIR : cstring := lit "/bin/shells".

(** ** C library *)

(** POSIX [basename], which cuts trailing slashes off its argument: the name, and
    what is left of the argument. *)
Definition is_slash (c : ascii) : bool := Ascii.eqb "/"%char c.

Definition basename (p : cstring) : cstring * cstring :=
  match p with
  | [] => (lit ".", [])
  | _ => match rstrip is_slash p with
         | [] => (lit "/", p)
         | s => (rev (span is_slash (rev s)).1, s)
         end
  end.

Definition print_d (z : Z) : cstring := if z <? 0 then "-"%char :: print_u (- z) else print_u z.

(** [strncat] on a buffer of [size] bytes with a [size_t] limit; [None]: it writes
    past the buffer. *)
Definition strncat (size : nat) (dst src : cstring) (limit : Z) : option cstring :=
  let k := limit mod 2 ^ 64 in
  let s := if Z.of_nat (length src) <=? k then src else take (Z.to_nat k) src in
  if Nat.leb (length dst + length s + 1) size then Some (dst ++ s) else None.

(** The room before the terminator. *)
Definition room (size : nat) (s : cstring) (spare : Z) : Z := Z.of_nat size - Z.of_nat (length s) - spare.

Definition getenv (name : cstring) (env : list cstring) : option cstring :=
  match name with
  | [] => None
  | _ => e ← List.find (has_prefix (name ++ lit "=")) env; Some (drop (length name + 1) e)
  end.

Definition setenv (name value : cstring) (env : list cstring) : list cstring :=
  if bool_decide (name = []) || strchr name "="%char then env
  else let e := name ++ lit "=" ++ value in
       match list_find (fun x => has_prefix (name ++ lit "=") x = true) env with
       | Some (i, _) => <[i := e]> env
       | None => env ++ [e]
       end.

(** What follows the first occurrence of [pat], inclusive, is cut. *)
Fixpoint cut_at (pat s : cstring) : cstring :=
  if has_prefix pat s then [] else match s with [] => [] | c :: r => c :: cut_at pat r end.

(** [sscanf (s, "%X")]. *)
Definition scan_x (s : cstring) : option (Z * cstring) :=
  let '(neg, s1) := scan_sign (skip isspace s) in
  let t := match s1 with
           | z :: x :: r => if Ascii.eqb z "0"%char && Ascii.eqb (tolower x) "x"%char && starts_digit 16 r then r else s1
           | _ => s1
           end in
  '(_, v, r) ← scan_digits neg 16 t; Some ((if (neg : bool) then - v else v) mod 2 ^ 32, r).

(** A directive [c] of a format, and [%*s]. *)
Definition expect (c : ascii) (s : cstring) : option cstring :=
  match s with a :: r => if Ascii.eqb a c then Some r else None | [] => None end.
Definition skip_word (s : cstring) : option cstring :=
  let t := skip isspace s in let '(w, r) := span isspace t in if bool_decide (w = []) then None else Some r.

Fixpoint skip_words (n : nat) (s : cstring) : option cstring :=
  match n with O => Some s | S n' => skip_word s ≫= skip_words n' end.

Section Guard.
Context (P : gpolicy) (w : gworld).

(** ** The parent chain *)

Fixpoint get_ppid_chain (cur : Z) (max_length : nat) : list Z :=
  match max_length with
  | O => []
  | S n =>
      if cur =? 1 then []
      else match gw_status w cur with
           | None => []
           | Some text =>
               let ppid := ppid_of_status text in
               if (ppid =? 0) || (ppid =? cur) then [] else ppid :: get_ppid_chain ppid n
           end
  end.

(** ** The log line *)

(** The items with [sep] between them, as far as the buffer goes. *)
Fixpoint cat_items (size : nat) (sep acc : cstring) (l : list cstring) : option cstring :=
  match l with
  | [] => Some acc
  | a :: r =>
      if Nat.ltb (length acc) (size - 1) then
        acc1 ← strncat size acc a (room size acc 1);
        acc2 ← (if negb (bool_decide (r = [])) && Nat.ltb (length acc1) (size - 1)
                then strncat size acc1 sep (room size acc1 1) else Some acc1);
        cat_items size sep acc2 r
      else Some acc
  end.

Definition arg_str_size (argv : list cstring) : nat :=
  Nat.min (1 + sum_list ((fun a => length a + 1)%nat <$> argv)) MAX_ARG_STR_LENGTH.
Definition arg_str (argv : list cstring) : option cstring := cat_items (arg_str_size argv) (lit " ") [] argv.

Definition ppid_str_size (chain : list Z) : nat :=
  match Nat.min (length chain * 16) MAX_PPID_STR_LENGTH with O => 1%nat | n => n end.
Definition ppid_str (chain : list Z) : option cstring :=
  cat_items (ppid_str_size chain) (lit "->") [] (print_d <$> chain).

Definition get_cwd (pid : Z) : option cstring := take (PATH_MAX - 1) <$> gw_cwd w pid.
Definition tty_info (pid : Z) : cstring :=
  match gw_stdin w pid with Some l => take 255 l | None => lit "No TTY" end.

Definition time_str : cstring := default (lit "Unknown Time") (gw_strftime w).
Definition username : cstring := default (lit "unknown") (gw_user w).

Definition dquoted (s : cstring) : cstring := [chr 34] ++ s ++ [chr 34].

(** [None]: a buffer is written past its end. *)
Definition log_execution (shell_name : cstring) (argv : list cstring) (chain : list Z) : option cstring :=
  args ← arg_str argv;
  pids ← ppid_str chain;
  Some (take (MAX_LOG_MESSAGE_SIZE - 1)
    (lit "[" ++ time_str ++ lit "] USER:" ++ username ++ lit " UID:" ++ print_d (to_int (gw_uid w))
     ++ lit " PID:" ++ print_d (gw_pid w) ++ lit " PPID:" ++ print_d (gw_ppid w)
     ++ lit " PPID_EXE:" ++ dquoted (default (lit "Unknown") (take (PATH_MAX - 1) <$> gw_exe w (gw_ppid w)))
     ++ lit " PPID_CHAIN:" ++ take 256 pids ++ lit " CMD:" ++ dquoted shell_name
     ++ lit " ARGS:" ++ dquoted (take 1024 args)
     ++ lit " CWD:" ++ dquoted (take MAX_CWD_LENGTH (default (lit "Unknown") (get_cwd (gw_pid w))))
     ++ lit " TTY:" ++ dquoted (take MAX_TTY_INFO_LENGTH (tty_info (gw_pid w))))).

(** ** Refusing *)

(** How a run ends without a shell; [Overflow]: the stack is written past a buffer. *)
Inductive gstop := Denied (message : cstring) | Failed | Overflow.

Definition DENY_STR_SIZE : nat := 256.

Fixpoint deny_items (acc : cstring) (l : list cstring) : option cstring :=
  match l with
  | [] => Some acc
  | a :: r =>
      acc1 ← strncat DENY_STR_SIZE acc a (room DENY_STR_SIZE acc 2);
      acc2 ← (if bool_decide (r = []) then Some acc1 else strncat DENY_STR_SIZE acc1 (lit "->") (room DENY_STR_SIZE acc1 1));
      deny_items acc2 r
  end.

Definition deny_execution (reason : cstring) (chain : list Z) : gstop :=
  match deny_items [] (print_d <$> chain) with
  | None => Overflow
  | Some pids =>
      Denied (take (MAX_LOG_MESSAGE_SIZE - 1)
        (lit "[" ++ time_str ++ lit "] DENIED USER:" ++ username ++ lit " UID:" ++ print_d (to_int (gw_uid w))
         ++ lit " REASON:" ++ reason ++ lit " PPID_CHAIN:" ++ pids))
  end.

(** ** The checks *)

(** An array of ids ends at the value -1. *)
Fixpoint id_in (id : Z) (l : list Z) : bool :=
  match l with [] => false | a :: r => if a =? UINT32_MAX then false else (id =? a) || id_in id r end.

Definition is_uid_allowed (uid : Z) : bool := id_in uid (allowed_uids P).
Definition is_gid_allowed (gid : Z) : bool := id_in gid (allowed_gids P).
Definition check_rate_limit (uid : Z) : bool := true.

Definition is_cwd_allowed (cwd : cstring) : bool := existsb (fun a => has_prefix a cwd) (allowed_cwds P).

Definition is_executable_allowed (pid : Z) : bool :=
  match gw_exe w pid with
  | None => false
  | Some link => existsb (streq (cut_at (lit " (deleted)") (take (PATH_MAX - 1) link))) (allowed_executables P)
  end.

Definition check_forbidden_env (env : list cstring) : bool :=
  negb (existsb (fun n => bool_decide (is_Some (getenv n env))) (forbidden_env_vars P)).

Fixpoint restore_env (i : nat) (saved : list (cstring * cstring)) (env : list cstring) : list cstring :=
  match saved with
  | [] => env
  | (n, v) :: r => restore_env (S i) r (if gw_strdup w i then setenv n v env else env)
  end.

Definition sanitize_environment (env : list cstring) : list cstring :=
  restore_env 0 (take 64 (omap (fun n => v ← getenv n env; Some (n, v)) (allowed_env_vars P))) [].

Definition validate_arguments (argv : list cstring) (chain : list Z) : gstop + bool :=
  if existsb (fun a => Nat.ltb MAX_ALLOWED_ARG_LENGTH (length a)) argv
  then inl (deny_execution (lit "Argument too long") chain)
  else inr (forallb (forallb (strchr ALLOWED_CHARS)) (tail argv)).

(** ** Sockets *)

(** A line of a file of [/proc/net]: the local address in hexadecimal digits and the
    inode. *)
Definition scan_net_line (width : nat) (line : cstring) : option (cstring * Z) :=
  '(_, _, s) ← scan_number 10 line;
  s ← expect ":"%char s;
  let s := skip isspace s in
  let h := take width (span (fun c => 16 <=? digit_value c) s).1 in
  if bool_decide (h = []) then None
  else
    s ← expect ":"%char (drop (length h) s);
    '(_, s) ← scan_x s;
    s ← skip_words 7 s;
    '(inode, _) ← scan_llu s;
    Some (h, inode).

(** [sscanf (h, "%8X%8X%8X%8X")]: the groups that are there. *)
Fixpoint hex_parts (n i : nat) (h : cstring) : list Z :=
  match n with
  | O => []
  | S n' => (match take 8 h with [] => gw_stack w i | g => (digits 16 0 g).1 end) :: hex_parts n' (S i) (drop 8 h)
  end.

Definition socket_address (f : family) (h : cstring) : list Z :=
  match f with
  | AF_INET => le_bytes 4 (digits 16 0 h).1
  | AF_INET6 => mjoin ((fun v => rev (le_bytes 4 v)) <$> hex_parts 4 0 h)   (* htonl *)
  end.

(** The answer and the message logged. *)
Definition check_inode_in_net_file (inode : Z) (net_file : cstring) (f : family) (protocol : cstring) : bool * list cstring :=
  match gw_net w net_file with
  | None => (false, [])
  | Some text =>
      let width := match f with AF_INET => 8%nat | AF_INET6 => 32%nat end in
      let rows := omap (fun l : cstring * bool => scan_net_line width l.1) (tail (fgets_all 511 text)) in
      match List.find (fun r : cstring * Z => r.2 =? inode) rows with
      | None => (false, [])
      | Some (h, _) =>
          let ip := inet_ntop f (socket_address f h) in
          let ok := is_ip_in_allowed_range (allowed_network_ranges P) ip in
          (ok, [lit (if (ok : bool) then "Allowed " else "Disallowed ") ++ protocol ++ lit " socket to " ++ ip])
      end
  end.

Definition net_files : list (cstring * family * cstring) :=
  [(lit "/proc/net/tcp", AF_INET, lit "tcp"); (lit "/proc/net/tcp6", AF_INET6, lit "tcp6");
   (lit "/proc/net/udp", AF_INET, lit "udp"); (lit "/proc/net/udp6", AF_INET6, lit "udp6");
   (lit "/proc/net/raw", AF_INET, lit "raw"); (lit "/proc/net/raw6", AF_INET6, lit "raw6")].

Fixpoint search_files (inode : Z) (files : list (cstring * family * cstring)) : bool * list cstring :=
  match files with
  | [] => (false, [])
  | (file, f, protocol) :: rest =>
      let '(ok, m) := check_inode_in_net_file inode file f protocol in
      if ok then (true, m) else let '(ok', m') := search_files inode rest in (ok', m ++ m')
  end.

(** The inode of a descriptor that is a socket. *)
Definition socket_inode (entry : cstring * option cstring) : option Z :=
  if has_prefix (lit ".") entry.1 then None
  else l ← entry.2;
       let l := take 255 l in
       if has_prefix (lit "socket:[") l
       then '(i, _) ← scan_llu (drop 8 l); if i =? 0 then None else Some i
       else None.

Fixpoint search_sockets (fds : list (cstring * option cstring)) : bool * list cstring :=
  match fds with
  | [] => (true, [])
  | e :: rest =>
      match socket_inode e with
      | None => search_sockets rest
      | Some i =>
          let '(ok, m) := search_files i net_files in
          if ok then (true, m) else let '(ok', m') := search_sockets rest in (ok', m ++ m')
      end
  end.

Definition has_allowed_socket (pid : Z) : bool * list cstring :=
  match gw_fds w pid with None => (false, []) | Some fds => search_sockets fds end.

Fixpoint is_ppid_chain_valid (chain : list Z) : bool * list cstring :=
  match chain with
  | [] => (true, [])
  | p :: rest =>
      if negb (is_executable_allowed p) then (false, [])
      else match get_cwd p with
           | None => (false, [])
           | Some cwd =>
               if negb (is_cwd_allowed cwd) then (false, [])
               else let '(ok, m) := has_allowed_socket p in
                    if negb ok then (false, m)
                    else let '(ok', m') := is_ppid_chain_valid rest in (ok', m ++ m')
           end
  end.

(** ** The filter and the hand-over *)

Fixpoint allow_rules (names : list cstring) : option (list Z) :=
  match names with
  | [] => Some []
  | n :: rest => nr ← gw_resolve w n; if gw_rule_add w nr then cons nr <$> allow_rules rest else None
  end.

(** The system calls the loaded filter allows; every other one fails with [EPERM]. *)
Definition apply_strict_seccomp : option (list Z) :=
  if negb (gw_seccomp_init w) then None
  else l ← allow_rules (seccomp_allowed_syscalls P); if gw_seccomp_load w then Some l else None.

Inductive gresult :=
  | GStop (s : gstop)
  | GExec (file : cstring) (argv env : list cstring) (filter : option (list Z)).

Definition real_shell_path (shell_name : cstring) : cstring := take (PATH_MAX - 1) (SHELL_DIR ++ lit "/" ++ shell_name).

(** The answer and the messages logged. *)
Definition execute_real_shell (monitoring : bool) (path : cstring) (argv env : list cstring) (filter : option (list Z))
  : gresult * list cstring :=
  if negb (gw_access_x w path) && negb monitoring
  then (GStop (deny_execution (lit "Real shell not found or not executable") []), [])
  else (if gw_execv w path then GExec path argv env filter else GStop Failed,
        if gw_access_x w path then [] else [lit "Real shell not found or not executable: " ++ path]).

(** The policy of the enforcing build: the environment and the filter of the shell. *)
Definition enforce_policy (argv env : list cstring) (chain : list Z)
  : (gstop + (list cstring * list Z)) * list cstring :=
  let deny reason := inl (deny_execution (lit reason) chain) in
  if negb (is_uid_allowed (gw_uid w)) then (deny "UID not allowed"%string, [])
  else if negb (is_gid_allowed (gw_gid w)) then (deny "GID not allowed"%string, [])
  else if negb (check_rate_limit (gw_uid w)) then (deny "Rate limit exceeded"%string, [])
  else
    let '(valid, m) := is_ppid_chain_valid chain in
    if negb valid then (deny "Parent process chain validation failed"%string, m)
    else if negb (check_forbidden_env env) then (deny "Forbidden environment variables detected"%string, m)
    else
      let env' := sanitize_environment env in
      match validate_arguments argv chain with
      | inl s => (inl s, m)
      | inr false => (deny "Invalid command arguments"%string, m)
      | inr true => match apply_strict_seccomp with Some l => (inr (env', l), m) | None => (inl Failed, m) end
      end.

Definition guard_main (monitoring : bool) (argv env : list cstring) : gresult * list cstring :=
  let '(shell_name, argv) := match argv with
                             | [] => (lit ".", [])
                             | a0 :: rest => let '(n, a0') := basename a0 in (n, a0' :: rest)
                             end in
  let chain := get_ppid_chain (gw_pid w) MAX_PPID_CHAIN in
  if negb (gw_malloc w) then (GStop Failed, [])
  else match log_execution shell_name argv chain with
       | None => (GStop Overflow, [])
       | Some line =>
           if monitoring
           then let '(r, m) := execute_real_shell true (real_shell_path shell_name) argv env None in (r, line :: m)
           else match enforce_policy argv env chain with
                | (inl s, m) => (GStop s, line :: m)
                | (inr (env', l), m) =>
                    let '(r, m') := execute_real_shell false (real_shell_path shell_name) argv env' (Some l) in
                    (r, line :: m ++ m')
                end
       end.

End Guard.
