(* ===== verification/ShellGuardProps.v ===== *)
(** * What shell-guard lets through

    Theorems about [ShellGuard]: a shell the enforcing build starts has passed the
    policy and runs with the allowed environment under the filter; the log line
    stays within its buffers.  And the runs in which the code does less than it
    means to. *)

From S2P Require Import Prelude CLib Config EnvAudit AbiWire AuditDir Inet ShellGuard.
From Stdlib Require Import Ascii.
From stdpp Require Import strings.

#[local] Open Scope Z_scope.
#[local] Arguments has_prefix : simpl never.
#[local] Arguments strncat : simpl never.

(** ** The log line *)

Fixpoint sep_join (sep : cstring) (l : list cstring) : cstring :=
  match l with [] => [] | [a] => a | a :: r => a ++ sep ++ sep_join sep r end.

Lemma sep_join_cons sep a r : r <> [] -> sep_join sep (a :: r) = a ++ sep ++ sep_join sep r.
Proof. by destruct r. Qed.

Lemma strncat_take size dst src n :
  (length dst + n + 1 <= size)%nat -> Z.of_nat n < 2 ^ 64 -> strncat size dst src (Z.of_nat n) = Some (dst ++ take n src).
Proof.
  intros Hs Hn. unfold strncat. rewrite Z.mod_small by lia. rewrite Nat2Z.id.
  assert (Hx : (if Z.of_nat (length src) <=? Z.of_nat n then src else take n src) = take n src).
  { destruct (Z.leb_spec (Z.of_nat (length src)) (Z.of_nat n)); [|done]. by rewrite take_ge by lia. }
  rewrite Hx. pose proof (length_take src n). destruct (Nat.leb_spec (length dst + length (take n src) + 1) size); [done|lia].
Qed.

Lemma strncat_room size acc s :
  (length acc < size)%nat -> Z.of_nat size < 2 ^ 64 ->
  strncat size acc s (room size acc 1) = Some (take (size - 1) (acc ++ s)).
Proof.
  intros Ha Hs. unfold room. replace (Z.of_nat size - Z.of_nat (length acc) - 1) with (Z.of_nat (size - 1 - length acc)) by lia.
  rewrite strncat_take by lia. by rewrite take_app, (take_ge acc) by lia.
Qed.

Lemma take_more {A} n (x y : list A) : (n <= length (take n x))%nat -> take n (x ++ y) = take n x.
Proof. intros H. rewrite length_take in H. rewrite take_app_le by lia. done. Qed.

Lemma cat_items_spec size sep l acc :
  (0 < size)%nat -> Z.of_nat size < 2 ^ 64 -> (length acc < size)%nat ->
  cat_items size sep acc l = Some (take (size - 1) (acc ++ sep_join sep l)).
Proof.
  intros H0 Hs. revert acc. induction l as [|a r IH]; intros acc Ha; cbn [cat_items].
  { cbn. rewrite app_nil_r, take_ge by lia. done. }
  destruct (Nat.ltb_spec (length acc) (size - 1)) as [Hl|Hl]; [|by rewrite take_app_le, take_ge by lia].
  rewrite strncat_room by done. cbn [mbind option_bind]. set (acc1 := take (size - 1) (acc ++ a)).
  assert (H1 : (length acc1 < size)%nat) by (unfold acc1; rewrite length_take; lia).
  case_bool_decide as Hr; cbn [negb andb mbind option_bind].
  { rewrite Hr in *. cbn [cat_items sep_join]. done. }
  rewrite sep_join_cons by done. rewrite (app_assoc acc).
  destruct (Nat.ltb_spec (length acc1) (size - 1)) as [Hl1|Hl1].
  - assert (Hacc : acc1 = acc ++ a).
    { unfold acc1 in *. rewrite length_take in Hl1. apply take_ge. lia. }
    rewrite strncat_room by done. cbn [mbind option_bind]. rewrite IH by (rewrite length_take; lia). rewrite Hacc, (app_assoc (acc ++ a)).
    destruct (Nat.le_gt_cases (size - 1) (length ((acc ++ a) ++ sep))) as [Hx|Hx].
    + rewrite (take_app_le (take _ _)) by (rewrite length_take; lia). rewrite take_idemp.
      by rewrite (take_app_le ((acc ++ a) ++ sep)) by lia.
    + by rewrite (take_ge ((acc ++ a) ++ sep)) by lia.
  - cbn [mbind option_bind]. rewrite IH by done.
    assert (Hm : (size - 1 <= length (take (size - 1) (acc ++ a)))%nat) by exact Hl1.
    rewrite (take_more (size - 1) (acc ++ a)) by done. unfold acc1.
    rewrite take_app_le by done. by rewrite take_idemp.
Qed.

Lemma sep_join_length l : (length (sep_join (lit " ") l) <= sum_list ((fun a => length a + 1)%nat <$> l))%nat.
Proof.
  induction l as [|a [|b r] IH]; [done|cbn; lia|]. rewrite sep_join_cons by done. rewrite !length_app.
  change (length (lit " ")) with 1%nat. rewrite fmap_cons. set (t := b :: r) in *.
  change (sum_list (?x :: ?l)) with (x + sum_list l)%nat. lia.
Qed.

Lemma arg_str_exact argv : arg_str argv = Some (take (MAX_ARG_STR_LENGTH - 1) (sep_join (lit " ") argv)).
Proof.
  unfold arg_str, arg_str_size. unfold MAX_ARG_STR_LENGTH. rewrite cat_items_spec by (cbn; lia). rewrite app_nil_l. f_equal.
  pose proof (sep_join_length argv) as H. set (n := sum_list _) in *.
  destruct (Nat.le_gt_cases (1 + n) 1024); [rewrite !take_ge by lia; done|]. by rewrite Nat.min_r by lia.
Qed.

Lemma ppid_str_exact chain :
  ppid_str chain = Some (take (ppid_str_size chain - 1) (sep_join (lit "->") (print_d <$> chain))).
Proof.
  unfold ppid_str. assert (H : (0 < ppid_str_size chain <= 256)%nat).
  { unfold ppid_str_size, MAX_PPID_STR_LENGTH. destruct (Nat.min _ _) eqn:E; lia. }
  rewrite cat_items_spec by (cbn; lia). by rewrite app_nil_l.
Qed.

(** The fields of the line, in order. *)
Definition log_fields (w : gworld) (shell_name : cstring) (argv : list cstring) (chain : list Z) : list (string * cstring) :=
  [("USER", username w); ("UID", print_d (to_int (gw_uid w))); ("PID", print_d (gw_pid w)); ("PPID", print_d (gw_ppid w));
   ("PPID_EXE", dquoted (default (lit "Unknown") (take 4095 <$> gw_exe w (gw_ppid w))));
   ("PPID_CHAIN", take (ppid_str_size chain - 1) (sep_join (lit "->") (print_d <$> chain)));
   ("CMD", dquoted shell_name);
   ("ARGS", dquoted (take 1023 (sep_join (lit " ") argv)));
   ("CWD", dquoted (default (lit "Unknown") (take 1024 <$> gw_cwd w (gw_pid w))));
   ("TTY", dquoted (default (lit "No TTY") (take 255 <$> gw_stdin w (gw_pid w))))]%string.

Definition full_line (w : gworld) (fields : list (string * cstring)) : cstring :=
  lit "[" ++ time_str w ++ lit "]" ++ List.concat ((fun f : string * cstring => lit " " ++ lit f.1 ++ lit ":" ++ f.2) <$> fields).

Lemma default_take (n m : nat) (d : cstring) (o : option cstring) :
  (length d <= n)%nat -> take n (default d (take m <$> o)) = default d (take (Nat.min n m) <$> o).
Proof. intros Hd. destruct o as [x|]; cbn; [apply take_take|by apply take_ge]. Qed.

Lemma log_execution_exact w shell_name argv chain :
  log_execution w shell_name argv chain = Some (take 4095 (full_line w (log_fields w shell_name argv chain))).
Proof.
  unfold log_execution. rewrite arg_str_exact, ppid_str_exact. cbn [mbind option_bind]. f_equal.
  assert (Hs : (ppid_str_size chain <= 256)%nat).
  { unfold ppid_str_size, MAX_PPID_STR_LENGTH. destruct (Nat.min _ _) eqn:E; lia. }
  rewrite (take_ge (take (ppid_str_size chain - 1) _)) by (rewrite length_take; lia).
  rewrite (take_ge (take (MAX_ARG_STR_LENGTH - 1) _)) by (rewrite length_take; unfold MAX_ARG_STR_LENGTH; lia).
  unfold get_cwd, tty_info. rewrite default_take by (vm_compute; lia).
  change (Nat.min MAX_CWD_LENGTH (PATH_MAX - 1)) with 1024%nat.
  replace (match gw_stdin w (gw_pid w) with Some l => take 255 l | None => lit "No TTY" end)
    with (default (lit "No TTY") (take 255 <$> gw_stdin w (gw_pid w))) by (by destruct (gw_stdin w (gw_pid w))).
  rewrite default_take by (vm_compute; lia). change (Nat.min MAX_TTY_INFO_LENGTH 255) with 255%nat.
  unfold full_line, log_fields. cbn [fmap list_fmap List.concat fst snd].
  change (MAX_LOG_MESSAGE_SIZE - 1)%nat with 4095%nat. change (MAX_ARG_STR_LENGTH - 1)%nat with 1023%nat.
  change (PATH_MAX - 1)%nat with 4095%nat. f_equal.
  rewrite <- ?app_assoc, ?app_nil_r. reflexivity.
Qed.

Lemma log_execution_some w shell_name argv chain : is_Some (log_execution w shell_name argv chain).
Proof. rewrite log_execution_exact. by eexists. Qed.

(** C37: logging an invocation stays within its buffers, and the line is exact.  For
    any arguments and any parent chain [log_execution] writes no buffer past its
    end, and the line is the first 4095 characters of the time and the ten fields,
    in this order: the arguments separated by spaces and cut at 1023 characters, the
    chain separated by arrows and cut at the size of its buffer, links cut at the
    size of theirs.  What does not fit in 4095 characters is lost
    ([long_parent_hides_command]). *)
Theorem log_in_bounds w shell_name argv chain :
  log_execution w shell_name argv chain = Some (take 4095 (full_line w (log_fields w shell_name argv chain))).
Proof. apply log_execution_exact. Qed.

Lemma full_line_app w l l' :
  full_line w (l ++ l')
  = full_line w l ++ List.concat ((fun f : string * cstring => lit " " ++ lit f.1 ++ lit ":" ++ f.2) <$> l').
Proof. unfold full_line. by rewrite fmap_app, List.concat_app, <- !app_assoc. Qed.

(** A parent whose path fills the line hides the chain, the command and its
    arguments. *)
Lemma long_parent_hides_command w link name name' argv argv' chain chain' :
  gw_exe w (gw_ppid w) = Some link -> (4060 <= length link <= 4095)%nat ->
  log_execution w name argv chain = log_execution w name' argv' chain'.
Proof.
  intros Hl Hn. rewrite !log_execution_exact. f_equal.
  assert (Hf : forall n a c, exists rest, log_fields w n a c = take 5 (log_fields w name argv chain) ++ rest) by (intros; by eexists).
  destruct (Hf name argv chain) as [r1 E1], (Hf name' argv' chain') as [r2 E2]. set (front := take 5 _) in *.
  assert (Hlen : (4095 <= length (full_line w front))%nat).
  { unfold full_line, front, log_fields. rewrite Hl. cbn [take fmap list_fmap List.concat fst snd option_fmap option_map default].
    unfold dquoted, id. rewrite (take_ge link) by lia. rewrite !length_app.
    repeat match goal with |- context [length (lit ?x)] => let n := eval vm_compute in (length (lit x)) in change (length (lit x)) with n end.
    cbn [length]. lia. }
  rewrite E1, E2, !full_line_app, !take_app_le by done. done.
Qed.

(** ** The environment *)

Lemma setenv_elem n v env e : e ∈ setenv n v env -> e ∈ env \/ e = n ++ lit "=" ++ v.
Proof.
  unfold setenv. destruct (_ || _); [by left|]. cbv zeta. destruct (list_find _ env) as [[i x]|].
  - intros [j Hj]%list_elem_of_lookup. apply list_lookup_insert_Some in Hj as [(_ & <- & _)|[_ Hj]]; [by right|].
    left. by eapply list_elem_of_lookup_2.
  - intros [H|H%list_elem_of_singleton]%elem_of_app; [by left|by right].
Qed.

Lemma restore_elem w i saved env e :
  e ∈ restore_env w i saved env -> e ∈ env \/ exists n v, (n, v) ∈ saved /\ e = n ++ lit "=" ++ v.
Proof.
  revert i env. induction saved as [|[n v] saved IH]; intros i env; cbn [restore_env]; [by left|].
  intros [H|(n' & v' & H & ->)]%IH.
  - destruct (gw_strdup w i); [|by left]. apply setenv_elem in H as [H| ->]; [by left|]. right. exists n, v. split; [left|done].
  - right. exists n', v'. split; [by right|done].
Qed.

Lemma sanitize_elem P w env e :
  e ∈ sanitize_environment P w env -> exists n v, e = n ++ lit "=" ++ v /\ n ∈ allowed_env_vars P /\ getenv n env = Some v.
Proof.
  unfold sanitize_environment. intros [H|(n & v & H & ->)]%restore_elem; [by inversion H|].
  exists n, v. split; [done|]. apply elem_of_take in H as (i & H & _). apply list_elem_of_lookup_2 in H.
  apply list_elem_of_omap in H as (n' & Hin & Hg). destruct (getenv n' env) as [v'|] eqn:E; [|done]. cbn in Hg. by simplify_eq.
Qed.

(** ** The checks *)

Lemma id_in_elem id l : id_in id l = true -> id ∈ l.
Proof.
  induction l as [|a l IH]; cbn; [done|]. destruct (a =? UINT32_MAX); [done|].
  intros [->%Z.eqb_eq|H]%orb_true_iff; [by left|]. right. by apply IH.
Qed.

(** What the policy asks of a parent. *)
Definition parent_allowed (P : gpolicy) (w : gworld) (p : Z) : Prop :=
  (exists link, gw_exe w p = Some link
     /\ cut_at (lit " (deleted)") (take (PATH_MAX - 1) link) ∈ allowed_executables P)
  /\ (exists cwd dir, gw_cwd w p = Some cwd /\ dir ∈ allowed_cwds P /\ dir `prefix_of` take (PATH_MAX - 1) cwd)
  /\ is_Some (gw_fds w p).

Lemma executable_allowed_spec P w p : is_executable_allowed P w p = true ->
  exists link, gw_exe w p = Some link /\ cut_at (lit " (deleted)") (take (PATH_MAX - 1) link) ∈ allowed_executables P.
Proof.
  unfold is_executable_allowed. destruct (gw_exe w p) as [link|]; [|done]. intros (x & Hx & He)%existsb_exists.
  exists link. split; [done|]. apply streq_true in He as ->. by apply list_elem_of_In.
Qed.

Lemma cwd_allowed_spec P cwd : is_cwd_allowed P cwd = true -> exists dir, dir ∈ allowed_cwds P /\ dir `prefix_of` cwd.
Proof.
  unfold is_cwd_allowed. intros (x & Hx & He)%existsb_exists. exists x. split; [by apply list_elem_of_In|].
  apply has_prefix_true in He as [t ->]. by exists t.
Qed.

Lemma chain_valid_spec P w chain : (is_ppid_chain_valid P w chain).1 = true -> Forall (parent_allowed P w) chain.
Proof.
  induction chain as [|p chain IH]; cbn [is_ppid_chain_valid]; [done|].
  destruct (is_executable_allowed P w p) eqn:Ee; cbn [negb]; [|done].
  unfold get_cwd. destruct (gw_cwd w p) as [cwd|] eqn:Ec; cbn [fmap option_fmap option_map]; [|done].
  destruct (is_cwd_allowed P _) eqn:Ew; cbn [negb]; [|done].
  unfold has_allowed_socket. destruct (gw_fds w p) as [fds|] eqn:Ef; [|done].
  destruct (search_sockets P w fds) as [[] m]; cbn [negb]; [|done].
  destruct (is_ppid_chain_valid P w chain) as [ok m']. cbn. intros Hok. constructor; [|by apply IH].
  apply executable_allowed_spec in Ee. apply cwd_allowed_spec in Ew as (dir & Hd & Hp).
  split; [done|]. split; [by exists cwd, dir|done].
Qed.

Lemma allow_rules_spec w names l : allow_rules w names = Some l -> Forall2 (fun n nr => gw_resolve w n = Some nr) names l.
Proof.
  revert l. induction names as [|n names IH]; intros l; cbn [allow_rules]; [by intros [= <-]|].
  destruct (gw_resolve w n) as [nr|] eqn:E; cbn [mbind option_bind]; [|done]. destruct (gw_rule_add w nr); [|done].
  destruct (allow_rules w names) as [l'|]; cbn; [|done]. intros [= <-]. constructor; [done|by apply IH].
Qed.

(** The arguments of the shell. *)
Definition argument_ok (a : cstring) : Prop := Forall (fun c => c ∈ ALLOWED_CHARS) a.

Lemma validate_spec w argv chain :
  validate_arguments w argv chain = inr true ->
  Forall (fun a => (length a <= MAX_ALLOWED_ARG_LENGTH)%nat) argv /\ Forall argument_ok (tail argv).
Proof.
  unfold validate_arguments. destruct (existsb _ argv) eqn:E; [done|]. intros [= H]. split.
  - apply Forall_forall. intros a Ha. apply Nat.nlt_ge. intros Hl. apply not_true_iff_false in E. apply E.
    apply existsb_exists. exists a. split; [by apply list_elem_of_In|by apply Nat.ltb_lt].
  - apply Forall_forall. intros a Ha. rewrite forallb_forall in H. specialize (H a). rewrite <- list_elem_of_In in H.
    specialize (H Ha). apply Forall_forall. intros c Hc. rewrite forallb_forall in H. specialize (H c).
    rewrite <- list_elem_of_In in H. specialize (H Hc). by apply bool_decide_eq_true in H.
Qed.

Lemma forbidden_spec P env : check_forbidden_env P env = true -> Forall (fun n => getenv n env = None) (forbidden_env_vars P).
Proof.
  unfold check_forbidden_env. rewrite negb_true_iff. intros H. apply Forall_forall. intros n Hn.
  destruct (getenv n env) as [v|] eqn:E; [|done]. exfalso. apply not_true_iff_false in H. apply H, existsb_exists.
  exists n. split; [by apply list_elem_of_In|]. rewrite E. by apply bool_decide_eq_true.
Qed.

Lemma enforce_policy_spec P w argv env chain env' l m :
  enforce_policy P w argv env chain = (inr (env', l), m) ->
  (gw_uid w ∈ allowed_uids P /\ gw_gid w ∈ allowed_gids P /\ Forall (parent_allowed P w) chain)
  /\ Forall (fun n => getenv n env = None) (forbidden_env_vars P)
  /\ env' = sanitize_environment P w env
  /\ (Forall (fun a => (length a <= MAX_ALLOWED_ARG_LENGTH)%nat) argv /\ Forall argument_ok (tail argv))
  /\ Forall2 (fun n nr => gw_resolve w n = Some nr) (seccomp_allowed_syscalls P) l.
Proof.
  unfold enforce_policy. cbv zeta.
  destruct (is_uid_allowed P _) eqn:Eu; cbn [negb]; [|done]. destruct (is_gid_allowed P _) eqn:Eg; cbn [negb]; [|done].
  cbn [check_rate_limit negb]. pose proof (chain_valid_spec P w chain) as Hc.
  destruct (is_ppid_chain_valid P w chain) as [[] mm]; cbn [negb]; [|done].
  destruct (check_forbidden_env P env) eqn:Ef; cbn [negb]; [|done].
  destruct (validate_arguments w argv chain) as [s|[]] eqn:Ev; [done| |done].
  unfold apply_strict_seccomp. destruct (gw_seccomp_init w); cbn [negb]; [|done].
  destruct (allow_rules w _) as [rules|] eqn:Er; cbn [mbind option_bind]; [|done]. destruct (gw_seccomp_load w); [|done].
  intros [= <- <- <-]. apply id_in_elem in Eu, Eg. apply forbidden_spec in Ef. apply validate_spec in Ev.
  apply allow_rules_spec in Er. auto.
Qed.

(** The ancestors of a process, from the status files: [q] is the parent of [p],
    and [q] is [n] generations above [p].  Process 1, a process whose status cannot
    be read, and one whose parent is given as 0 or itself, have none. *)
Definition parent_is (w : gworld) (p q : Z) : Prop :=
  p <> 1 /\ exists text, gw_status w p = Some text /\ ppid_of_status text = q /\ q <> 0 /\ q <> p.

Inductive ancestor (w : gworld) : Z -> nat -> Z -> Prop :=
  | ancestor_parent p q : parent_is w p q -> ancestor w p 1 q
  | ancestor_up p q n r : parent_is w p q -> ancestor w q n r -> ancestor w p (S n) r.

Lemma ancestor_in_chain w p n q max : ancestor w p n q -> (n <= max)%nat -> q ∈ get_ppid_chain w p max.
Proof.
  intros H. revert max. induction H as [p q Hp|p q n r Hp _ IH]; intros [|max] Hm; try lia.
  all: destruct Hp as (H1 & text & Hs & Hq & H0 & Hne); cbn [get_ppid_chain].
  all: rewrite (proj2 (Z.eqb_neq _ _) H1), Hs; cbn zeta; rewrite Hq.
  all: rewrite (proj2 (Z.eqb_neq _ _) H0), (proj2 (Z.eqb_neq _ _) Hne); cbn [orb].
  - left.
  - right. apply IH. lia.
Qed.

(** C35: the enforcing build starts only a shell that passed its checks.  When a
    real shell is started, the user and the group are listed, every ancestor up to
    64 generations above runs a listed program, in a directory whose path begins
    with the characters of a listed one, and has a listing of descriptors; no
    forbidden variable was set; the shell gets only listed variables with their
    values, arguments without special characters, a filter of exactly the listed
    system calls, and is an executable file named in the directory of shells.
    Nothing is said of the sockets of the ancestors: the audit of sockets refuses
    nothing ([socket_audit_vacuous]); and a directory that only begins like a listed
    one passes ([cwd_prefix_of_characters]). *)
Theorem guard_enforces P w argv env file argv' env' filter m :
  guard_main P w false argv env = (GExec file argv' env' filter, m) ->
  (gw_uid w ∈ allowed_uids P /\ gw_gid w ∈ allowed_gids P
   /\ forall n p, ancestor w (gw_pid w) n p -> (n <= 64)%nat -> parent_allowed P w p)
  /\ Forall (fun n => getenv n env = None) (forbidden_env_vars P)
  /\ (forall e, e ∈ env' -> exists n v, e = n ++ lit "=" ++ v /\ n ∈ allowed_env_vars P /\ getenv n env = Some v)
  /\ (Forall (fun a => (length a <= MAX_ALLOWED_ARG_LENGTH)%nat) argv' /\ Forall argument_ok (tail argv')
      /\ tail argv' = tail argv)
  /\ (exists l, filter = Some l /\ Forall2 (fun n nr => gw_resolve w n = Some nr) (seccomp_allowed_syscalls P) l)
  /\ (gw_access_x w file = true /\ exists name, file = real_shell_path name).
Proof.
  unfold guard_main.
  set (na := match argv with [] => _ | _ => _ end).
  assert (Ht : tail na.2 = tail argv) by (unfold na; destruct argv as [|a0 rest]; [done|]; by destruct (basename a0)).
  destruct na as [name args]. cbn [snd] in Ht. cbv zeta.
  destruct (gw_malloc w); cbn [negb]; [|done]. destruct (log_execution _ _ _ _) as [line|]; [|done].
  destruct (enforce_policy _ _ _ _ _) as [[s|[e l]] mm] eqn:E; [done|]. apply enforce_policy_spec in E as (Hi & Hf & -> & [Hl Ha] & Hs).
  unfold execute_real_shell. cbn [negb]. rewrite andb_true_r.
  destruct (gw_access_x w (real_shell_path name)) eqn:Ex; cbn [negb]; [|done]. destruct (gw_execv w _); [|done].
  intros [= <- <- <- <- <-]. destruct Hi as (Hu & Hg & Hc). split.
  { split_and!; [done|done|]. intros n p Hp Hn. rewrite Forall_forall in Hc. apply Hc. by eapply ancestor_in_chain. }
  split; [done|]. split; [by apply sanitize_elem|]. split; [done|].
  split; [by exists l|]. split; [done|]. by exists name.
Qed.

(** The monitoring build refuses nothing: it logs, and starts the shell with the
    environment it was given. *)
Lemma monitoring_never_refuses P w argv env name a0 rest :
  gw_malloc w = true -> argv = a0 :: rest -> (basename a0).1 = name -> gw_execv w (real_shell_path name) = true ->
  exists m, guard_main P w true argv env = (GExec (real_shell_path name) ((basename a0).2 :: rest) env None, m).
Proof.
  intros Hm -> Hn Hx. unfold guard_main. destruct (basename a0) as [n a0']. cbn in Hn. subst n. rewrite Hm. cbn [negb].
  destruct (log_execution_some w name (a0' :: rest) (get_ppid_chain w (gw_pid w) MAX_PPID_CHAIN)) as [line ->].
  unfold execute_real_shell. cbn [negb]. rewrite andb_false_r, Hx. by eexists.
Qed.

(** ** Where the checks do less than they mean to *)

(** The socket audit refuses nothing: a process whose descriptors can be listed
    passes, whatever its sockets and whatever the allowed ranges are. *)
Lemma search_sockets_true P w fds : (search_sockets P w fds).1 = true.
Proof.
  induction fds as [|e fds IH]; cbn [search_sockets]; [done|]. destruct (socket_inode e); [|done].
  destruct (search_files P w _ _) as [[] m]; [done|]. by destruct (search_sockets P w fds).
Qed.

Lemma socket_audit_vacuous P w pid : (has_allowed_socket P w pid).1 = bool_decide (is_Some (gw_fds w pid)).
Proof. unfold has_allowed_socket. destruct (gw_fds w pid) as [fds|]; cbn; [apply search_sockets_true|done]. Qed.

(** The text of the chain is whole while it has at most 254 characters. *)
Lemma deny_items_fit acc l :
  (length (acc ++ sep_join (lit "->") l) <= 254)%nat -> deny_items acc l = Some (acc ++ sep_join (lit "->") l).
Proof.
  revert acc. induction l as [|a r IH]; intros acc Hl; cbn [deny_items]; [by rewrite app_nil_r|].
  assert (Ha : (length acc + length a <= 254)%nat).
  { rewrite length_app in Hl. destruct r as [|b r]; [done|]. rewrite sep_join_cons, !length_app in Hl by done. lia. }
  unfold room, DENY_STR_SIZE. replace (Z.of_nat 256 - Z.of_nat (length acc) - 2) with (Z.of_nat (254 - length acc)) by lia.
  rewrite strncat_take by lia. cbn [mbind option_bind]. rewrite (take_ge a) by lia.
  case_bool_decide as Hr; cbn [mbind option_bind].
  - subst r. by cbn.
  - rewrite sep_join_cons in * by done. rewrite (app_assoc acc) in Hl.
    assert (Hs : (length (acc ++ a) + 2 <= 254)%nat).
    { rewrite !length_app in Hl. change (length (lit "->")) with 2%nat in Hl. rewrite length_app. lia. }
    replace (Z.of_nat 256 - Z.of_nat (length (acc ++ a)) - 1) with (Z.of_nat (255 - length (acc ++ a))) by lia.
    rewrite strncat_take by lia. cbn [mbind option_bind]. rewrite (take_ge (lit "->")) by (change (length (lit "->")) with 2%nat; lia).
    rewrite IH; [by rewrite <- !app_assoc|]. by rewrite <- !app_assoc in *.
Qed.

(** Beyond that the limit of [strncat] wraps around, and the refusal writes past its
    buffer: a chain of 40 parents with five-digit numbers is enough. *)
Lemma deny_overflows w : deny_execution w (lit "UID not allowed") (seqZ 30000 40) = Overflow.
Proof.
  unfold deny_execution. assert (H : deny_items [] (print_d <$> (seqZ 30000 40)) = None) by (vm_compute; reflexivity).
  by rewrite H.
Qed.

(** A login shell has a dash before its name, which is kept. *)
Lemma login_shell_not_found : real_shell_path (basename (lit "-bash")).1 = lit "/bin/shells/-bash".
Proof. vm_compute. reflexivity. Qed.

(** The listed directories are prefixes of characters, not of components. *)
Lemma cwd_prefix_of_characters P : lit "/tmp" ∈ allowed_cwds P -> is_cwd_allowed P (lit "/tmp-of-mallory") = true.
Proof. intros H. apply existsb_exists. exists (lit "/tmp"). split; [by apply list_elem_of_In|]. vm_compute. reflexivity. Qed.

(** The kernel writes a word of an IPv6 address as the host reads it; the code
    swaps its bytes, so the loopback address is not the loopback address. *)
Lemma ipv6_loopback_misread w :
  inet_ntop AF_INET6 (socket_address w AF_INET6 (lit "00000000000000000000000001000000")) = lit "::1.0.0.0"
  /\ inet_ntop AF_INET (socket_address w AF_INET (lit "0100007F")) = lit "127.0.0.1".
Proof. split; vm_compute; reflexivity. Qed.

(** ** A concrete run *)

Module Login.
Definition policy : gpolicy := GPolicy [0; 1000] [0; 1000] [lit "/home"; lit "/"] [lit "/usr/sbin/sshd"; lit "/sbin/init"]
  [lit "LD_PRELOAD"] [lit "PATH"; lit "HOME"] [lit "127.0.0.0/8"] [lit "read"; lit "execve"].

(** 40 was started by sshd (7), which was started by init. *)
Definition world : gworld := {|
  gw_pid := 40; gw_ppid := 7; gw_uid := 1000; gw_gid := 1000; gw_status := demo_status;
  gw_exe := fun p => if p =? 7 then Some (lit "/usr/sbin/sshd (deleted)") else Some (lit "/sbin/init");
  gw_cwd := fun _ => Some (lit "/"); gw_stdin := fun _ => Some (lit "/dev/pts/1");
  gw_fds := fun _ => Some [(lit "3", Some (lit "socket:[77]"))];
  gw_net := fun f => if streq f (lit "/proc/net/tcp")
                     then Some (lit "  sl  local_address" ++ [LF]
                       ++ lit "   0: 08080808:0016 00000000:0000 0A 00000000:00000000 00:00000000 00000000 0 0 77 1" ++ [LF])
                     else None;
  gw_stack := fun _ => 0; gw_strftime := Some (lit "2026-05-16 00:00:00"); gw_user := Some (lit "alice");
  gw_malloc := true; gw_strdup := fun _ => true; gw_access_x := fun _ => true; gw_execv := fun _ => true;
  gw_seccomp_init := true; gw_resolve := fun n => if streq n (lit "read") then Some 0 else Some 59;
  gw_rule_add := fun _ => true; gw_seccomp_load := true
|}.

Definition argv : list cstring := [lit "/bin/bash"; lit "-c"; lit "ls /tmp"].
Definition env : list cstring := [lit "PATH=/bin"; lit "EVIL=1"; lit "HOME=/home/alice"].

(** The socket to 8.8.8.8 is logged as not allowed, and the shell starts. *)
Example starts : guard_main policy world false argv env
  = (GExec (lit "/bin/shells/bash") argv [lit "PATH=/bin"; lit "HOME=/home/alice"] (Some [0; 59]),
     [default [] (log_execution world (lit "bash") argv [7; 1]); lit "Disallowed tcp socket to 8.8.8.8"; lit "Disallowed tcp socket to 8.8.8.8"]).
Proof. vm_compute. reflexivity. Qed.
End Login.

Lemma guard_enforces_witness :
  (parent_allowed Login.policy Login.world 7 /\ parent_allowed Login.policy Login.world 1)
  /\ (exists n v, lit "PATH=/bin" = n ++ lit "=" ++ v /\ n ∈ allowed_env_vars Login.policy /\ getenv n Login.env = Some v).
Proof.
  destruct (guard_enforces Login.policy Login.world Login.argv Login.env _ _ _ _ _ Login.starts) as ((_ & _ & H) & _ & He & _).
  assert (H1 : parent_is Login.world 40 7) by (split; [done|]; eexists; split; [vm_compute; reflexivity|]; by vm_compute).
  assert (H2 : parent_is Login.world 7 1) by (split; [done|]; eexists; split; [vm_compute; reflexivity|]; by vm_compute).
  split; [split|apply He; by left].
  - apply (H 1%nat); [by apply ancestor_parent|lia].
  - apply (H 2%nat); [by eapply ancestor_up, ancestor_parent|lia].
Defined.
