(* ===== verification/Resources.v ===== *)
(** * What is held and what is released

    The strings of a [Config] as pointers: the allocations and releases of the
    option loops and the profile parser, and [config_free_oneshot], of
    [src/compartment.h]; and the list of held descriptors ([held_fds_push],
    [held_fds_release]) of [src/compartment-bpf/compartment-bpf.c]. *)

From S2P Require Import Prelude.
From stdpp Require Import gmap fin_sets functions strings.

(** ** The heap *)

(** A string is absent, not ours (an argument, a literal, or the string of another
    structure), or an allocation. *)
Inductive ptr := Null | Borrowed | Heap (a : positive).

Abbreviation heap := (gset positive).

Definition xstrdup (h : heap) : ptr * heap := let a := fresh h in (Heap a, {[a]} ∪ h).

(** [None]: a string that is not ours, or one that was freed before. *)
Definition free (p : ptr) (h : heap) : option heap :=
  match p with
  | Null => Some h
  | Borrowed => None
  | Heap a => if decide (a ∈ h) then Some (h ∖ {[a]}) else None
  end.

Fixpoint free_all (l : list ptr) (h : heap) : option heap :=
  match l with [] => Some h | p :: r => free p h ≫= free_all r end.

(** ** The strings of a configuration *)

(** The arrays whose strings are always ours, and the single strings. *)
Inductive str_array := Cgroups | CapAllowed | CapDrop | Masks | MountMasks | MountFlags.
Inductive str_field := Workdir | AuditLogDir | ProfileSource | Rootdir | Username | Netns | UidMap | GidMap.

#[export] Instance array_eq_dec : EqDecision str_array.
Proof. solve_decision. Defined.
#[export] Instance field_eq_dec : EqDecision str_field.
Proof. solve_decision. Defined.

Definition str_arrays : list str_array := [Cgroups; CapAllowed; CapDrop; Masks; MountMasks; MountFlags].
Definition str_fields : list str_field := [Workdir; AuditLogDir; ProfileSource; Rootdir; Username; Netns; UidMap; GidMap].

Record strings_of := StringsOf {
  s_paths : list (ptr * bool);      (* with the flag [owned] *)
  s_env_deny : list (ptr * bool);
  s_env_allow : list (ptr * bool);
  s_array : str_array -> list ptr;
  s_string : str_field -> ptr
}.

Definition no_strings : strings_of := StringsOf [] [] [] (fun _ => []) (fun _ => Null).

(** What the tools do to them.  An entry of the first three arrays is duplicated or
    [src] is stored as it is; a path with a question mark is always duplicated.
    A single string replaces one that is freed before ([true]) or dropped. *)
Inductive edit :=
  | AddPath (src : ptr) (optional dup : bool)
  | AddEnvDeny (src : ptr) (dup : bool)
  | AddEnvAllow (src : ptr) (dup : bool)
  | AddStr (k : str_array)
  | SetString (f : str_field) (release : bool).

Definition new_entry (src : ptr) (dup : bool) (h : heap) : (ptr * bool) * heap :=
  if dup then let '(p, h') := xstrdup h in ((p, true), h') else ((src, false), h).

Definition apply_edit (e : edit) (c : strings_of) (h : heap) : option (strings_of * heap) :=
  match e with
  | AddPath src optional dup =>
      let '(x, h') := new_entry src (optional || dup) h in
      Some (StringsOf (s_paths c ++ [x]) (s_env_deny c) (s_env_allow c) (s_array c) (s_string c), h')
  | AddEnvDeny src dup =>
      let '(x, h') := new_entry src dup h in
      Some (StringsOf (s_paths c) (s_env_deny c ++ [x]) (s_env_allow c) (s_array c) (s_string c), h')
  | AddEnvAllow src dup =>
      let '(x, h') := new_entry src dup h in
      Some (StringsOf (s_paths c) (s_env_deny c) (s_env_allow c ++ [x]) (s_array c) (s_string c), h')
  | AddStr k =>
      let '(p, h') := xstrdup h in
      Some (StringsOf (s_paths c) (s_env_deny c) (s_env_allow c) (<[k := s_array c k ++ [p]]> (s_array c)) (s_string c), h')
  | SetString f release =>
      h1 ← (if release then free (s_string c f) h else Some h);
      let '(p, h') := xstrdup h1 in
      Some (StringsOf (s_paths c) (s_env_deny c) (s_env_allow c) (s_array c) (<[f := p]> (s_string c)), h')
  end.

Definition owned_only (l : list (ptr * bool)) : list ptr := (List.filter snd l).*1.
Definition forget_owned (l : list (ptr * bool)) : list (ptr * bool) :=
  (fun x : ptr * bool => if x.2 then (Null, false) else x) <$> l.

Definition config_free_oneshot (c : strings_of) (h : heap) : option (strings_of * heap) :=
  h ← free_all (owned_only (s_paths c)) h;
  h ← free_all (owned_only (s_env_deny c)) h;
  h ← free_all (owned_only (s_env_allow c)) h;
  h ← free_all (mjoin (s_array c <$> str_arrays)) h;
  h ← free_all (s_string c <$> str_fields) h;
  Some (StringsOf (forget_owned (s_paths c)) (forget_owned (s_env_deny c)) (forget_owned (s_env_allow c))
                  (fun _ => []) (fun _ => Null), h).

(** [load_profile_file]: the edits go to a copy, which is kept only on success. *)
Fixpoint apply_edits (l : list edit) (c : strings_of) (h : heap) : option (strings_of * heap) :=
  match l with [] => Some (c, h) | e :: r => '(c', h') ← apply_edit e c h; apply_edits r c' h' end.

Definition load_transaction (edits : list edit) (ok : bool) (c : strings_of) (h : heap) : option (strings_of * heap) :=
  '(c', h') ← apply_edits edits c h; Some (if ok then c' else c, h').

(** ** Ownership *)

Definition address (p : ptr) : option positive := match p with Heap a => Some a | _ => None end.

(** The strings in [l] are ours, each once, and allocated. *)
Record owns (l : list ptr) (h : heap) : Prop := Owns {
  own_ours : Borrowed ∉ l; own_once : NoDup (omap address l); own_live : Forall (.∈ h) (omap address l) }.

#[export] Instance owns_proper : Proper ((≡ₚ) ==> (=) ==> iff) owns.
Proof.
  intros l l' Hl h ? <-. split; intros [Ho Hn Hf]; split; revert Ho Hn Hf; by rewrite Hl.
Qed.

Lemma owns_dup l h a : a ∉ h -> owns l h -> owns (Heap a :: l) ({[a]} ∪ h).
Proof.
  intros Ha [Ho Hn Hf]. split; cbn.
  - by intros [?|?]%elem_of_cons.
  - constructor; [|done]. rewrite Forall_forall in Hf. intros Hin. by apply Ha, Hf.
  - constructor; [set_solver|]. eapply Forall_impl; [exact Hf|]. set_solver.
Qed.

Lemma owns_drop p l h : owns (p :: l) h -> owns l h.
Proof.
  intros [Ho Hn Hf]. rewrite not_elem_of_cons in Ho. destruct Ho as [_ Ho]. destruct p; cbn in *; split; try done.
  - by inversion Hn.
  - by decompose_Forall_hyps.
Qed.

Lemma owns_free p l h : owns (p :: l) h -> exists h', free p h = Some h' /\ owns l h' /\ h' = h ∖ list_to_set (omap address [p]).
Proof.
  intros H. pose proof (owns_drop _ _ _ H) as Hd. destruct H as [Ho Hn Hf]. destruct p as [| |a]; cbn in *.
  - exists h. split; [done|]. split; [done|]. set_solver.
  - exfalso. apply Ho. by left.
  - decompose_Forall_hyps. rewrite decide_True by done. exists (h ∖ {[a]}). split; [done|]. split; [|set_solver].
    destruct Hd as [Hdo Hdn Hdf]. inversion Hn; subst. split; [done|done|].
    apply Forall_forall. intros x Hx. rewrite Forall_forall in Hdf. specialize (Hdf x Hx). set_solver.
Qed.

Lemma free_all_owned l l' h :
  owns (l ++ l') h -> exists h', free_all l h = Some h' /\ owns l' h' /\ h' = h ∖ list_to_set (omap address l).
Proof.
  revert h. induction l as [|p l IH]; intros h H; cbn [free_all].
  - exists h. split; [done|]. split; [done|]. set_solver.
  - destruct (owns_free p (l ++ l') h H) as (h1 & -> & H1 & ->). cbn [mbind option_bind].
    destruct (IH _ H1) as (h2 & -> & H2 & ->). eexists. split; [done|]. split; [done|].
    destruct p; cbn; set_solver.
Qed.

(** ** The strings a configuration owns *)

Definition to_free (c : strings_of) : list ptr :=
  owned_only (s_paths c) ++ owned_only (s_env_deny c) ++ owned_only (s_env_allow c)
  ++ mjoin (s_array c <$> str_arrays) ++ (s_string c <$> str_fields).

(** One slot of a total function over a list of names, apart from the others. *)
Lemma slot_split {K A} `{EqDecision K} (ks : list K) (k : K) :
  NoDup ks -> k ∈ ks ->
  exists rest, forall (f : K -> A) v, f <$> ks ≡ₚ f k :: (f <$> rest) /\ <[k := v]> f <$> ks ≡ₚ v :: (f <$> rest).
Proof.
  intros Hn Hk. destruct (elem_of_Permutation ks k) as [H _]. destruct (H Hk) as [rest Hr]. exists rest. intros f v.
  rewrite Hr in Hn. apply NoDup_cons in Hn as [Hnk _]. split; rewrite Hr, fmap_cons; [done|].
  rewrite fn_lookup_insert. apply Permutation_skip, reflexive_eq, list_fmap_ext. intros i x Hx.
  apply fn_lookup_insert_ne. intros ->. apply Hnk. by eapply list_elem_of_lookup_2.
Qed.

Lemma owned_only_app l x : owned_only (l ++ [x]) = owned_only l ++ (if x.2 then [x.1] else []).
Proof. unfold owned_only. rewrite List.filter_app, fmap_app. destruct x as [p []]; done. Qed.

(** A new entry is the new allocation, or is not counted. *)
Definition counted (x : ptr * bool) : list ptr := if x.2 then [x.1] else [].

Lemma new_entry_owns src dup h x h' l : new_entry src dup h = (x, h') -> owns l h -> owns (counted x ++ l) h'.
Proof.
  unfold new_entry, xstrdup. intros E H. destruct dup; simplify_eq; [|done]. apply owns_dup; [apply is_fresh|done].
Qed.

Lemma edit_owns e c h :
  owns (to_free c) h -> exists c' h', apply_edit e c h = Some (c', h') /\ owns (to_free c') h'.
Proof.
  intros H. destruct e as [src opt dup|src dup|src dup|k|f release]; cbn [apply_edit].
  1-3: destruct (new_entry _ _ h) as [x h'] eqn:E; eexists _, _; (split; [done|]); pose proof (new_entry_owns _ _ _ _ _ _ E H) as Hn;
    unfold to_free in *; cbn [s_paths s_env_deny s_env_allow s_array s_string]; rewrite owned_only_app; fold (counted x).
  - by rewrite <- app_assoc, Permutation_app_swap_app.
  - by rewrite <- (app_assoc (owned_only (s_env_deny c))), (Permutation_app_swap_app (owned_only (s_env_deny c))), Permutation_app_swap_app.
  - by rewrite <- (app_assoc (owned_only (s_env_allow c))), (Permutation_app_swap_app (owned_only (s_env_allow c))),
      (Permutation_app_swap_app (owned_only (s_env_deny c))), Permutation_app_swap_app.
  - unfold xstrdup. eexists _, _. split; [reflexivity|]. unfold to_free in *. cbn [s_paths s_env_deny s_env_allow s_array s_string].
    destruct (slot_split (A := list ptr) str_arrays k) as [rest Hs]; [apply (bool_decide_unpack _); by vm_compute|destruct k; set_solver|].
    assert (Hm : mjoin (<[k := s_array c k ++ [Heap (fresh h)]]> (s_array c) <$> str_arrays) ≡ₚ Heap (fresh h) :: mjoin (s_array c <$> str_arrays)).
    { destruct (Hs (s_array c) (s_array c k ++ [Heap (fresh h)])) as [-> ->]. cbn [mjoin list_join].
      rewrite <- app_assoc. cbn [app]. by rewrite <- Permutation_middle. }
    rewrite Hm. cbn [app]. rewrite <- !Permutation_middle. apply owns_dup; [apply is_fresh|done].
  - unfold to_free in *. destruct (slot_split (A := ptr) str_fields f) as [rest Hs]; [apply (bool_decide_unpack _); by vm_compute|destruct f; set_solver|].
    destruct (Hs (s_string c) Null) as [H1 _]. rewrite H1 in H. rewrite <- !Permutation_middle in H.
    assert (Hh : exists h1, (if release then free (s_string c f) h else Some h) = Some h1
      /\ owns (owned_only (s_paths c) ++ owned_only (s_env_deny c) ++ owned_only (s_env_allow c)
               ++ mjoin (s_array c <$> str_arrays) ++ (s_string c <$> rest)) h1).
    { destruct release; [|exists h; split; [done|by eapply owns_drop]]. destruct (owns_free _ _ _ H) as (h1 & ? & ? & _). by exists h1. }
    destruct Hh as (h1 & -> & Ho). cbn [mbind option_bind]. unfold xstrdup. eexists _, _. split; [reflexivity|]. cbn [s_paths s_env_deny s_env_allow s_array s_string].
    destruct (Hs (s_string c) (Heap (fresh h1))) as [_ H2]. rewrite H2, <- !Permutation_middle. apply owns_dup; [apply is_fresh|done].
Qed.

Lemma edits_own l c h :
  owns (to_free c) h -> exists c' h', apply_edits l c h = Some (c', h') /\ owns (to_free c') h'.
Proof.
  revert c h. induction l as [|e l IH]; intros c h H; cbn [apply_edits]; [by exists c, h|].
  destruct (edit_owns e c h H) as (c1 & h1 & -> & H1). cbn [mbind option_bind]. by apply IH.
Qed.

Lemma no_strings_own h : owns (to_free no_strings) h.
Proof. split; [set_solver|constructor|constructor]. Qed.

Lemma owned_forget l : owned_only (forget_owned l) = [].
Proof. induction l as [|[p []] l IH]; cbn; done. Qed.

Lemma forget_idemp l : forget_owned (forget_owned l) = forget_owned l.
Proof. unfold forget_owned. rewrite <- list_fmap_compose. apply list_fmap_ext. by intros i [p []] _. Qed.

Lemma free_all_app l l' h : free_all (l ++ l') h = free_all l h ≫= free_all l'.
Proof. revert h. induction l as [|p l IH]; intros h; cbn; [done|]. destruct (free p h); cbn; [apply IH|done]. Qed.

Definition released (c : strings_of) : strings_of :=
  StringsOf (forget_owned (s_paths c)) (forget_owned (s_env_deny c)) (forget_owned (s_env_allow c)) (fun _ => []) (fun _ => Null).

Lemma config_free_to_free c h : config_free_oneshot c h = h' ← free_all (to_free c) h; Some (released c, h').
Proof.
  unfold config_free_oneshot, to_free. rewrite !free_all_app.
  destruct (free_all (owned_only (s_paths c)) h) as [h1|]; cbn [mbind option_bind]; [|done]. rewrite free_all_app.
  destruct (free_all (owned_only (s_env_deny c)) h1) as [h2|]; cbn [mbind option_bind]; [|done]. rewrite free_all_app.
  destruct (free_all (owned_only (s_env_allow c)) h2) as [h3|]; cbn [mbind option_bind]; [|done]. rewrite free_all_app.
  by destruct (free_all (mjoin (s_array c <$> str_arrays)) h3).
Qed.

Lemma released_twice c h : config_free_oneshot (released c) h = Some (released c, h).
Proof.
  rewrite config_free_to_free. unfold to_free, released. cbn [s_paths s_env_deny s_env_allow s_array s_string].
  rewrite !owned_forget, !forget_idemp. done.
Qed.

(** C40: releasing a configuration is exact.  After any sequence of options and
    profile directives, [config_free_oneshot] frees every string the configuration
    owns exactly once and none that it does not own (an argument, a literal, or a
    path that is the working directory), leaves every other allocation alone,
    and a second call frees nothing. *)
Theorem release_exact l h0 :
  exists c h, apply_edits l no_strings h0 = Some (c, h)
  /\ exists c' h', config_free_oneshot c h = Some (c', h')
     /\ list_to_set (omap address (to_free c)) ⊆ h /\ NoDup (omap address (to_free c)) /\ (Borrowed ∉ to_free c)
     /\ h' = h ∖ list_to_set (omap address (to_free c))
     /\ config_free_oneshot c' h' = Some (c', h').
Proof.
  destruct (edits_own l no_strings h0 (no_strings_own h0)) as (c & h & Ha & Ho). exists c, h. split; [done|].
  destruct (free_all_owned (to_free c) [] h) as (h' & Hf & _ & Hh); [by rewrite app_nil_r|].
  exists (released c), h'. rewrite config_free_to_free, Hf. destruct Ho as [H1 H2 H3]. split; [done|].
  split; [|split; [done|split; [done|split; [done|apply released_twice]]]].
  intros a Ha'%elem_of_list_to_set. rewrite Forall_forall in H3. by apply H3.
Qed.

(** ** A profile that is rejected *)

Definition releases (e : edit) : bool := match e with SetString _ r => r | _ => false end.

Lemma edit_grows e c h c' h' : releases e = false -> apply_edit e c h = Some (c', h') -> h ⊆ h'.
Proof.
  intros Hr. destruct e as [src opt dup|src dup|src dup|k|f r]; cbn in *; [| | | |subst r; cbn].
  1-3: destruct (new_entry _ _ h) as [x h1] eqn:E; intros [= <- <-]; unfold new_entry, xstrdup in E; repeat case_match; simplify_eq; set_solver.
  all: intros [= <- <-]; set_solver.
Qed.

Lemma owns_mono l h h' : h ⊆ h' -> owns l h -> owns l h'.
Proof. intros Hs [H1 H2 H3]. split; [done|done|]. eapply Forall_impl; [exact H3|]. set_solver. Qed.

(** A rejected load that released nothing leaves the caller what it had. *)
Lemma failed_load_keeps l c h c' h' :
  forallb (fun e => negb (releases e)) l = true -> owns (to_free c) h ->
  load_transaction l false c h = Some (c', h') -> c' = c /\ owns (to_free c) h'.
Proof.
  intros Hl Ho. unfold load_transaction. destruct (apply_edits l c h) as [[c1 h1]|] eqn:E; cbn; [|done]. intros [= <- <-].
  split; [done|]. eapply owns_mono; [|exact Ho]. clear Ho. revert c h E Hl.
  induction l as [|e l IH]; intros c h; cbn [apply_edits forallb]; [by intros [= <- <-]|].
  destruct (apply_edit e c h) as [[c2 h2]|] eqn:E; cbn; [|done]. intros Ha [He%negb_true_iff Hl]%andb_true_iff.
  etransitivity; [by eapply edit_grows|]. by eapply IH.
Qed.

(** [workdir] and [audit-log] do release: after a rejected profile with such a line
    the caller's string is gone, and releasing the configuration frees it again. *)
Lemma failed_load_dangles :
  exists c h c' h', apply_edits [SetString Workdir true; SetString AuditLogDir true] no_strings ∅ = Some (c, h)
  /\ load_transaction [SetString Workdir true] false c h = Some (c', h') /\ config_free_oneshot c' h' = None.
Proof. eexists _, _, _, _. split; [vm_compute; reflexivity|]. split; [vm_compute; reflexivity|]. vm_compute. reflexivity. Qed.

(** ** Held descriptors *)

#[local] Open Scope Z_scope.

(** The descriptors in use, and the room of the buffer. *)
Record held_fds := HeldFds { hf_buf : list Z; hf_cap : nat }.

Definition no_fds : held_fds := HeldFds [] 0.

(** [realloc n]: whether there is memory for [n] entries. *)
Definition held_fds_push (realloc : nat -> bool) (h : held_fds) (fd : Z) : option held_fds :=
  if Nat.eqb (length (hf_buf h)) (hf_cap h) then
    let nc := if Nat.eqb (hf_cap h) 0 then 16%nat else (hf_cap h * 2)%nat in
    if realloc nc then Some (HeldFds (hf_buf h ++ [fd]) nc) else None
  else Some (HeldFds (hf_buf h ++ [fd]) (hf_cap h)).

(** The descriptors closed, and the empty list. *)
Definition held_fds_release (h : held_fds) : list Z * held_fds := (hf_buf h, no_fds).

Fixpoint push_all (realloc : nat -> bool) (h : held_fds) (fds : list Z) : option held_fds :=
  match fds with [] => Some h | fd :: r => held_fds_push realloc h fd ≫= fun h' => push_all realloc h' r end.

(** No write past the buffer, and room that is not used up grows by doubling. *)
Definition held_ok (h : held_fds) : Prop :=
  (length (hf_buf h) <= hf_cap h)%nat /\ (hf_cap h = 0%nat \/ hf_cap h <= 2 * length (hf_buf h) + 16)%nat.

Lemma push_ok realloc h fd h' :
  held_ok h -> held_fds_push realloc h fd = Some h' ->
  held_ok h' /\ hf_buf h' = hf_buf h ++ [fd] /\ (length (hf_buf h) < hf_cap h')%nat.
Proof.
  unfold held_ok, held_fds_push. intros [Hl Hc]. destruct (Nat.eqb_spec (length (hf_buf h)) (hf_cap h)) as [He|He].
  - destruct (realloc _); [|done]. intros [= <-]. cbn [hf_buf hf_cap]. rewrite length_app. cbn [length].
    destruct (Nat.eqb_spec (hf_cap h) 0); split; [lia|split; [done|lia]|lia|split; [done|lia]].
  - intros [= <-]. cbn [hf_buf hf_cap]. rewrite length_app. cbn [length]. split; [lia|split; [done|lia]].
Qed.

Lemma push_all_ok realloc fds h h' :
  held_ok h -> push_all realloc h fds = Some h' -> held_ok h' /\ hf_buf h' = hf_buf h ++ fds.
Proof.
  revert h. induction fds as [|fd fds IH]; intros h Hok; cbn [push_all]; [intros [= <-]; by rewrite app_nil_r|].
  destruct (held_fds_push realloc h fd) as [h1|] eqn:E; cbn [mbind option_bind]; [|done]. intros H.
  destruct (push_ok _ _ _ _ Hok E) as (H1 & Hb & _). destruct (IH _ H1 H) as [H2 Hb2]. split; [done|].
  by rewrite Hb2, Hb, <- app_assoc.
Qed.

(** Every descriptor pushed is held, and released once, in order. *)
Lemma held_released realloc fds h :
  push_all realloc no_fds fds = Some h -> held_ok h /\ held_fds_release h = (fds, no_fds).
Proof.
  intros H. destruct (push_all_ok realloc fds no_fds h) as [Hok Hb]; [split; [done|by left]|done|]. split; [done|].
  unfold held_fds_release. by rewrite Hb.
Qed.
