(* ===== verification/Hardening.v ===== *)
(** * The last step before the command

    Models [apply_hardening] of [src/compartment-user.c]: both modes call it just
    before [execvp], after the filter is installed, and do not look at what its
    two calls return.  A call the installed filter refuses does nothing, and one
    it kills ends the process. *)

From S2P Require Import Prelude CLib Config ConfigProps Seccomp Profile EnvAudit Landlock User ProfileProps UserProps UserDemo.
From Stdlib Require Import Ascii.
From stdpp Require Import strings.

#[local] Open Scope Z_scope.

Definition PR_SET_DUMPABLE : Z := 4.
Definition PR_CAP_AMBIENT : Z := 47.

(** What the calls would answer without a filter. *)
Record hworld := HWorld { hw_clear_ambient : bool; hw_set_dumpable : bool }.

Record hardening := Hardened { ambient_cleared : bool; dumpable : bool }.

Section Hardening.
Context (U : uworld) (w : hworld).

(** A [prctl] under the filter of the process: whether it took effect; [None]: the
    process is killed. *)
Definition filtered_prctl (p : uproc) (op : Z) (answer : bool) : option bool :=
  match up_filter p with
  | None => Some answer
  | Some prog =>
      let nr := default (-1) (w_nr (uw_p U) "prctl"%string) in
      match run_filter prog (SeccompData nr (AUDIT_ARCH (uw_arch U)) op) with
      | None => Some false
      | Some v => if v =? SECCOMP_RET_KILL_PROCESS then None
                  else Some (((v =? SECCOMP_RET_ALLOW) || (v =? SECCOMP_RET_LOG)) && answer)
      end
  end.

Definition apply_hardening (p : uproc) : option hardening :=
  a ← filtered_prctl p PR_CAP_AMBIENT (hw_clear_ambient w);
  d ← filtered_prctl p PR_SET_DUMPABLE (hw_set_dumpable w);
  Some (Hardened a (negb d)).

(** A run of compartment-user up to the command. *)
Definition start (r : uresult) : option (Config * uproc * hardening) :=
  match r with
  | UExec _ _ c p => h ← apply_hardening p; Some (c, p, h)
  | UExit _ => None
  end.
End Hardening.

(** ** What is left of it under a policy *)

(** The policy's verdict on [prctl]; with no list there is no filter. *)
Definition prctl_policy (U : uworld) (c : Config) : Z :=
  if use_seccomp c && (seccomp_allow_mode c || negb (bool_decide (blocked_syscalls c = [])))
  then seccomp_policy (uw_arch U) c (SeccompData (default (-1) (w_nr (uw_p U) "prctl"%string)) (AUDIT_ARCH (uw_arch U)) 0)
  else SECCOMP_RET_ALLOW.

Lemma policy_any_arg a c nr ar x y : seccomp_policy a c (SeccompData nr ar x) = seccomp_policy a c (SeccompData nr ar y).
Proof. done. Qed.

Lemma install_filter_exact U c p p' :
  install_filter U c p = Some p' ->
  match apply_seccomp (uw_arch U) c (uw_alloc_ok U) (uw_load_filter U) with
  | SeccompInstalled prog => up_filter p' = Some prog
  | _ => up_filter p' = up_filter p /\ seccomp_allow_mode c = false /\ blocked_syscalls c = []
  end.
Proof.
  unfold install_filter. destruct (apply_seccomp _ _ _ _) as [| |prog] eqn:E; [done| |intros [= <-]; done].
  intros [= <-]. split; [done|]. unfold apply_seccomp in E.
  destruct (seccomp_allow_mode c); [by repeat case_match|]. destruct (blocked_syscalls c); [done|]. by repeat case_match.
Qed.

(** The filter of the process the normal mode starts. *)
Lemma enforce_filter U c p p' :
  enforce U c p = Some p' -> up_filter p = None ->
  match up_filter p' with
  | Some prog => use_seccomp c = true /\ apply_seccomp (uw_arch U) c (uw_alloc_ok U) (uw_load_filter U) = SeccompInstalled prog
                 /\ (seccomp_allow_mode c = true \/ blocked_syscalls c <> [])
  | None => use_seccomp c = false \/ (seccomp_allow_mode c = false /\ blocked_syscalls c = [])
  end.
Proof.
  unfold enforce. intros H Hf. apply bind_Some in H as (p1 & H1 & H). apply bind_Some in H as (p2 & H2 & H).
  apply bind_Some in H as (p3 & H3 & H). apply bind_Some in H as (p4 & H4 & H).
  apply bind_Some in H as (p5 & H5 & H). apply bind_Some in H as (p6 & H6 & H).
  assert (F1 : up_filter p1 = None).
  { destruct (use_no_new_privs c); [destruct (uw_set_nnp_ok U); [|done]|]; by simplify_eq. }
  destruct (sanitized_shape c p1) as (e & He & _). rewrite He in H2.
  apply apply_masks_spec in H2 as (_ & ns & l & ->). apply apply_cap_drops_spec in H3 as (_ & d & inh & sb & ->).
  apply close_inherited_fds_spec in H4 as (_ & fds & ->).
  assert (F5 : up_filter p5 = None).
  { destruct (use_landlock c); [apply bind_Some in H5 as (r & _ & [= <-])|]; by simplify_eq. }
  assert (F6 : up_filter p' = up_filter p6).
  { destruct (workdir c) as [wd|]; [destruct (uw_chdir U wd); [|done]|]; by simplify_eq. }
  rewrite F6. destruct (use_seccomp c); [|simplify_eq; rewrite F5; by left].
  apply install_filter_exact in H6. destruct (apply_seccomp _ _ _ _) as [| |prog] eqn:E.
  1,2: destruct H6 as (-> & ? & ?); rewrite F5; by right.
  rewrite H6. split; [done|]. split; [done|]. unfold apply_seccomp in E. destruct (seccomp_allow_mode c); [by left|].
  right. by destruct (blocked_syscalls c).
Qed.

(** What a started command comes from. *)
Lemma user_main_runs U opts cmd p f argv c p' :
  nr_table_ok (w_nr (uw_p U)) -> user_main U opts cmd p = UExec f argv c p' -> config_wf c /\ enforce U c p = Some p'.
Proof.
  intros Hnr. unfold user_main. destruct (apply_opts U opts _) as [rc|st] eqn:Eo; [done|].
  assert (Hi : opts_inv opts (us_cfg st)).
  { apply (apply_opts_inv U Hnr opts []) in Eo; [done|]. split; try done. apply user_config_wf. }
  intros H. destruct (final_policy U st) as [c0|] eqn:Ef; [|by destruct cmd, (us_dump st)].
  assert (H' : enforce U c0 p = Some p' /\ c0 = c).
  { destruct cmd, (us_dump st); try done; cbn [orb] in H; destruct (dry_run c0); try done;
      destruct (audit c0 && _); try done; destruct (Nat.ltb 0 (preflight_check U c0) && _); try done;
      destruct (enforce U c0 p); try done; destruct (uw_exec_ok U); by simplify_eq. }
  destruct H' as [He ->]. split; [|done]. apply (final_policy_inv U Hnr opts) in Ef as [Hc _]; [|done]. apply Hc.
Qed.


(** ** Under an allow-list without [prctl] *)

Definition allow_list_files : list (string * cstring) :=
  [("/etc/compartment/tight.conf"%string, text ["ro /usr"; "allow read"; "allow execve"])].

(** The numbers of x86-64. *)
Definition tight_nr (s : string) : option Z :=
  if String.eqb s "read" then Some 0 else if String.eqb s "execve" then Some 59 else if String.eqb s "prctl" then Some 157 else None.

Definition tight_world : world :=
  let w := demo_world allow_list_files in
  {| w_getuid := w_getuid w; w_home := w_home w; w_user := w_user w; w_pw_name := w_pw_name w; w_stat := w_stat w;
     w_open := w_open w; w_opendir := w_opendir w; w_realpath := w_realpath w; w_fdopen := w_fdopen w; w_nr := tight_nr |}.

Lemma tight_nr_ok : nr_table_ok tight_nr.
Proof. intros s n. unfold tight_nr. repeat case_match; intros; simplify_eq; unfold nr_ok; lia. Qed.

Definition tight_system : uworld := demo_system tight_world.
Definition willing : hworld := HWorld true true.
Definition tight_opts : list uopt := [OProfile (lit "tight")].

Definition tight_result : option (Config * uproc) := result_of (user_main tight_system tight_opts [lit "agent"] login).


(** The command starts, and what the last step is for has not happened. *)
Lemma allow_list_skips_hardening :
  (snd <$> start tight_system willing (user_main tight_system tight_opts [lit "agent"] login)) = Some (Hardened false true).
Proof. vm_compute. reflexivity. Qed.
