(* ===== verification/DryRun.v ===== *)
(** * What --dry-run says

    Models the listings [--dry-run] prints: the one of [src/compartment-user.c]
    and the one of [src/compartment-root.c].  A listing is a list of lines that
    [render_listing] turns into the text.  The theorems compare what a listing
    says with what the real run does. *)

From S2P Require Import Prelude CLib Config ConfigProps Seccomp Profile EnvAudit Landlock User ProfileProps UserProps UserDump UserDemo.
From S2P Require Import AuditDir Root.
From Stdlib Require Import Ascii.
From stdpp Require Import strings.

#[local] Open Scope comp_scope.
#[local] Open Scope Z_scope.

(** ** Lines *)

(** What is said of the path of a rule. *)
Inductive rule_note := NoNote | NoteSkipped | NoteFails.

Inductive lline :=
  | LText (s : cstring)                                (* a whole line *)
  | LBare (s : cstring)                                (* printed without a newline *)
  | LRule (r : PathRule) (n : rule_note)
  | LPort (directive : string) (port : Z)
  | LMask (m : cstring * bool) (absent : bool)
  | LAudit (dir : cstring).

Definition note_text (n : rule_note) : cstring :=
  match n with
  | NoNote => []
  | NoteSkipped => lit "   (absent — optional, skipped)"
  | NoteFails => lit "   (ABSENT — this run would fail)"
  end.

Definition render_lline (l : lline) : cstring :=
  match l with
  | LText s => s ++ [LF]
  | LBare s => s
  | LRule r n => lit "    " ++ lit (mode_name (mode r)) ++ [SP] ++ optional_value (path r) (optional r) ++ note_text n ++ [LF]
  | LPort d p => lit "    " ++ lit d ++ [SP] ++ print_u p ++ [LF]
  | LMask m absent => lit "    mask " ++ optional_value m.1 m.2
                      ++ (if absent then lit "   (absent — nothing to hide)" else []) ++ [LF]
  | LAudit d => lit "  audit: yes (log: " ++ d ++ lit ")" ++ [LF]
  end.

Definition render_listing (l : list lline) : cstring := concat (render_lline <$> l).

Definition yes_no (b : bool) : cstring := lit (if b then "yes" else "no").
Definition count {A} (l : list A) : cstring := print_u (Z.of_nat (length l)).
Definition plural {A} (l : list A) : cstring := if Nat.eqb (length l) 1 then [] else lit "s".

(** What the listings ask the system. *)
Record dworld := DWorld {
  dw_stat : cstring -> bool; dw_lstat : cstring -> bool;
  dw_abi : Z; dw_nr : string -> option Z; dw_audit : aworld }.

Section Listing.
Context (D : dworld).

(** The Landlock port rules, the same in both tools. *)
Definition listed_ports (c : Config) : list lline :=
  let rules := net_bind_ports c ++ net_connect_ports c in
  if bool_decide (rules = []) && negb (net_default_deny c) then []
  else [LText (lit "  landlock net: " ++ lit (if 4 <=? dw_abi D then "yes" else "NOT SUPPORTED on this kernel")
               ++ lit " (" ++ count rules ++ lit " TCP port rule" ++ plural rules ++ lit ")")]
       ++ (LPort "net-bind" <$> net_bind_ports c) ++ (LPort "net-connect" <$> net_connect_ports c)
       ++ (if net_default_deny c then [LText (lit "    net-default deny")] else []).

(** *** compartment-user *)

Definition rule_line (r : PathRule) : lline :=
  LRule r (if dw_stat D (path r) then NoNote else if optional r then NoteSkipped else NoteFails).

Definition listed_caps_masks (c : Config) : list lline :=
  (match cap_drop_names c with
   | [] => []
   | l => [LText (lit "  cap-drop: " ++ count l ++ lit " capabilit" ++ lit (if Nat.eqb (length l) 1 then "y" else "ies"))]
          ++ ((fun n => LText (lit "    cap-drop " ++ n)) <$> l)
   end)
  ++ (match masks c with
      | [] => []
      | l => [LText (lit "  mask: " ++ count l ++ lit " path" ++ plural l ++ lit " (private mount namespace)")]
             ++ ((fun m => LMask m (negb (dw_lstat D m.1))) <$> l)
      end).

Definition listed_filter (c : Config) : list lline :=
  LText (lit "  seccomp-default: " ++ seccomp_action_name c)
  :: (if seccomp_allow_mode c
      then [LText (lit "  seccomp: " ++ yes_no (use_seccomp c) ++ lit " ALLOW-LIST (" ++ count (allowed_syscalls c) ++ lit " allowed, rest denied)")]
      else [LText (lit "  seccomp: " ++ yes_no (use_seccomp c) ++ lit " DENY-LIST (" ++ count (blocked_syscalls c) ++ lit " blocked)")]
           ++ ((fun n => LText (lit "    block " ++ lit (default "?"%string (syscall_name (dw_nr D) n)) ++ lit " (" ++ print_u n ++ lit ")"))
                 <$> blocked_syscalls c)).

Definition listed_env (c : Config) : lline :=
  LText (if env_allow_mode c then lit "  env: ALLOW-LIST (" ++ count (env_allow c) ++ lit " kept, rest stripped)"
         else lit "  env: DENY-LIST (" ++ count (env_deny c) ++ lit " stripped)").

Definition listed_audit (c : Config) : list lline :=
  if audit c
  then [LAudit (match audit_log_dir c with
                | Some d => d
                | None => default (lit "(none)") (audit_default_dir (dw_audit D) AUDIT_DIR_MAX)
                end)]
  else [].

Definition user_dry_run (c : Config) (command : cstring) : list lline :=
  [LText (lit "compartment-user: DRY RUN — would apply:");
   LText (lit "  profile: " ++ default [] (profile c) ++ lit " (" ++ default (lit "built-in") (profile_source c) ++ lit ")");
   LText (lit "  no_new_privs: " ++ yes_no (use_no_new_privs c));
   LText (lit "  landlock: " ++ yes_no (use_landlock c) ++ lit " (" ++ count (paths c) ++ lit " path rules)")]
  ++ (rule_line <$> paths c) ++ listed_ports c ++ listed_caps_masks c ++ listed_filter c
  ++ [listed_env c] ++ listed_audit c ++ [LText (lit "  command: " ++ command)].

(** *** compartment-root *)

Definition flag_word (flags bit : Z) (word : string) : cstring := if flags &? bit then lit word else [].

Definition listed_mounts (c : Config) : list lline :=
  [LText (lit "  rootdir-flags: nosuid,nodev" ++ flag_word (rootdir_flags c) COMPARTMENT_MS_NOEXEC ",noexec"
          ++ flag_word (rootdir_flags c) COMPARTMENT_MS_RDONLY ",ro")]
  ++ match mount_flags c with
     | [] => []
     | l => [LText (lit "  mount flags: " ++ count l)]
            ++ ((fun m => LText (lit "    " ++ flag_word (mf_flags m) COMPARTMENT_MS_RDONLY "ro "
                   ++ flag_word (mf_flags m) COMPARTMENT_MS_NOSUID "nosuid " ++ flag_word (mf_flags m) COMPARTMENT_MS_NODEV "nodev "
                   ++ flag_word (mf_flags m) COMPARTMENT_MS_NOEXEC "noexec " ++ [SP] ++ mf_path m)) <$> l)
     end.

Definition root_syscalls (c : Config) (builtin : bool) : list lline :=
  [LText (if seccomp_allow_mode c
          then lit "  seccomp: " ++ yes_no (use_seccomp c) ++ lit " ALLOW-LIST (" ++ count (allowed_syscalls c) ++ lit " allowed)"
          else lit "  seccomp: " ++ yes_no (use_seccomp c) ++ lit " DENY-LIST (" ++ count (blocked_syscalls c) ++ lit " blocked"
               ++ (if builtin then lit ", built-in default" else []) ++ lit ")");
   LText (lit "  seccomp-default: " ++ seccomp_action_name c)].

Definition root_env (c : Config) : list lline :=
  LText (lit "  env-sanitize: " ++ yes_no (use_env_sanitize c))
  :: (if env_allow_mode c then [LText (lit "  env: ALLOW-LIST (" ++ count (env_allow c) ++ lit " kept)")]
      else match env_deny c with [] => [] | l => [LText (lit "  env: DENY-LIST (" ++ count l ++ lit " stripped)")] end).

(** The masks the container gets. *)
Definition masked_line (s : string) : lline := LText (lit "    " ++ lit s).
Definition policy_mask_line (p : cstring) : lline := LText (lit "    " ++ p ++ lit " (from policy)").

Definition root_builtin (c : Config) : list lline :=
  [LText (lit "  ── built-in, always applied ──");
   LText (lit "  container root: recursive bind of " ++ default [] (rootdir c) ++ lit ", remounted nosuid,nodev");
   LText (lit "  /dev/pts: private devpts instance, /dev/ptmx bound to it");
   LText (lit "  /dev/shm: tmpfs 64m (nosuid,nodev,noexec,mode=1777)");
   LText (lit "  /proc: fresh procfs (nosuid,noexec,nodev)");
   LText (lit "  /sys: read-only sysfs (+ /sys/firmware masked), or an empty tmpfs if the kernel refuses");
   LText (lit "  /dev: tmpfs with bind-mounted"
          ++ mjoin (imap (fun i n => (if Nat.eqb i 0 then [] else lit ",") ++ lit " /dev/" ++ lit n) default_dev_nodes));
   LText (lit "  masked paths (" ++ count default_proc_masks ++ lit ", skipped when absent):")]
  ++ (masked_line <$> default_proc_masks) ++ (policy_mask_line <$> mount_masks c)
  ++ [LText (lit "  init: PID 1 reaper, forwards SIGTERM/SIGINT/SIGHUP/SIGQUIT, PR_SET_PDEATHSIG=SIGKILL");
      LText (lit "  privilege drop: bounding set emptied, setgid/setuid, PR_SET_DUMPABLE(0)")]
  ++ (if use_seccomp c && negb (seccomp_allow_mode c)
      then [LText (lit "  blocked syscalls (" ++ count (blocked_syscalls c) ++ lit "):")]
           ++ ((fun n => LText (lit "    " ++ lit (default "?"%string (syscall_name (dw_nr D) n)) ++ lit " (" ++ print_u n ++ lit ")"))
                 <$> blocked_syscalls c)
      else []).

Definition id_map_line (name : string) (m : option cstring) : lline :=
  LBare (lit "  " ++ lit name ++ lit " map: " ++ default (lit "0 0 65536 (identity)" ++ [LF]) m).

Definition root_dry_run (c : Config) (drop_uid drop_gid : Z) (builtin : bool) (command : cstring) : list lline :=
  [LText (lit "compartment-root: DRY RUN — would apply:")]
  ++ (match profile c with
      | Some p => [LText (lit "  profile: " ++ p ++ lit " (" ++ default (lit "?") (profile_source c) ++ lit ")")]
      | None => []
      end)
  ++ [LText (lit "  rootdir: " ++ default [] (rootdir c));
      LText (lit "  username: " ++ default [] (username c) ++ lit " (drop to uid=" ++ print_u drop_uid ++ lit " gid=" ++ print_u drop_gid ++ lit ")");
      id_map_line "uid" (uid_map c); id_map_line "gid" (gid_map c);
      LText (lit "  loopback: " ++ yes_no (loopback c))]
  ++ (match netns c with Some n => [LText (lit "  netns: " ++ n)] | None => [] end)
  ++ [LText (lit "  landlock: " ++ yes_no (use_landlock c) ++ lit " (" ++ count (paths c) ++ lit " path rules)")]
  ++ (if use_landlock c then (fun r => LRule r NoNote) <$> paths c else [])
  ++ listed_ports c ++ listed_mounts c
  ++ [LText (lit "  capabilities kept: " ++ count (cap_allowed_names c))]
  ++ ((fun n => LText (lit "    " ++ n)) <$> cap_allowed_names c)
  ++ root_syscalls c builtin ++ root_env c
  ++ [LText (lit "  no-new-privs: yes (cannot be disabled)"); LText (lit "  cgroups: " ++ count (cgroups c));
      LText (lit "  mount-masks: " ++ count (mount_masks c) ++ lit " (+ " ++ count default_proc_masks ++ lit " built-in)")]
  ++ (if audit c
      then let d := match audit_log_dir c with
                    | Some d => d
                    | None => default (lit "(unavailable)") (audit_default_dir (dw_audit D) PATH_MAX)
                    end in
           [LText (lit "  audit: yes (log dir: " ++ d ++ lit ", file: " ++ d ++ lit "/YYYY-MM-DD.log)")]
      else [])
  ++ [LText (lit "  command: " ++ command)]
  ++ (if verbose c then root_builtin c else []).

End Listing.

(** ** The listing and the run *)

Section Honest.
Context (U : uworld) (D : dworld).

(** A path [stat] cannot find cannot be opened either. *)
Definition same_files : Prop := forall q s, dw_stat D q = false -> ll_open (uw_ll U) q <> PathOpened s.

(** The only lines about rules are those of the rules. *)
Lemma user_rule_lines c command r n :
  LRule r n ∈ user_dry_run D c command -> r ∈ paths c /\ rule_line D r = LRule r n.
Proof.
  unfold user_dry_run. rewrite !elem_of_app. intros [H|[H|[H|[H|[H|[H|[H|H]]]]]]].
  - set_solver.
  - apply list_elem_of_fmap in H as (r' & E & H'). unfold rule_line in *. by simplify_eq.
  - unfold listed_ports in H. cbv zeta in H. destruct (_ && _); [by inversion H|].
    rewrite !elem_of_app in H. destruct H as [H|[H|[H|H]]]; [set_solver|..].
    1,2: by apply list_elem_of_fmap in H as (? & ? & _). destruct (net_default_deny c); set_solver.
  - unfold listed_caps_masks in H. apply elem_of_app in H as [H|H].
    + destruct (cap_drop_names c) as [|x l]; [by inversion H|]. apply elem_of_app in H as [H|H]; [set_solver|].
      by apply list_elem_of_fmap in H as (? & ? & _).
    + destruct (masks c) as [|x l]; [by inversion H|]. apply elem_of_app in H as [H|H]; [set_solver|].
      by apply list_elem_of_fmap in H as (? & ? & _).
  - unfold listed_filter in H. apply elem_of_cons in H as [H|H]; [done|]. destruct (seccomp_allow_mode c); [set_solver|].
    apply elem_of_app in H as [H|H]; [set_solver|]. by apply list_elem_of_fmap in H as (? & ? & _).
  - unfold listed_env in H. set_solver.
  - unfold listed_audit in H. destruct (audit c); set_solver.
  - set_solver.
Qed.

Lemma absent_rule_fails r c :
  same_files -> r ∈ paths c -> dw_stat D (path r) = false -> optional r = false -> apply_landlock (uw_ll U) c = None.
Proof.
  intros Hs Hr Hd Ho. destruct (apply_landlock (uw_ll U) c) as [rs|] eqn:E; [exfalso|done]. unfold apply_landlock in E. cbv zeta in E.
  destruct (ll_abi (uw_ll U) <? 0); [done|]. destruct (paths c) as [|x l] eqn:Ep; [by inversion Hr|]. rewrite <- Ep in *.
  destruct (negb _); [done|]. apply bind_Some in E as (ps & E & _).
  destruct (add_all_each _ _ _ r E Hr) as (out & Hout & _). unfold landlock_add_path in Hout.
  specialize (Hs (path r)). destruct (ll_open (uw_ll U) (path r)) as [| |st]; [by rewrite Ho in Hout|done|by destruct (Hs st Hd)].
Qed.

Lemma enforce_landlock c p : use_landlock c = true -> apply_landlock (uw_ll U) c = None -> enforce U c p = None.
Proof.
  intros Hl Ha. unfold enforce. rewrite Hl, Ha. cbn [mbind option_bind].
  destruct (if use_no_new_privs c then _ else _) as [p1|]; cbn; [|done]. destruct (apply_masks U c _) as [p2|]; cbn; [|done].
  destruct (apply_cap_drops U c p2) as [p3|]; cbn; [|done]. by destruct (close_inherited_fds U p3).
Qed.
End Honest.

(** What [--dry-run] announces happens.  For a path rule listed as absent and
    fatal the run does fail; a rule listed as skipped grants nothing in a run
    that goes on; every rule is listed; and the audit directory it names is the
    one the run logs to. *)
Theorem dry_run_honest U D c p command :
  same_files U D -> use_landlock c = true ->
  (forall r, LRule r NoteFails ∈ user_dry_run D c command -> enforce U c p = None)
  /\ (forall r rs, LRule r NoteSkipped ∈ user_dry_run D c command -> apply_landlock (uw_ll U) c = Some rs ->
        forall access rights, landlock_add_path (uw_ll U) r access rights = Some [])
  /\ (forall r, r ∈ paths c -> rule_line D r ∈ user_dry_run D c command)
  /\ (forall realpath d name warn, audit c = true -> audit_log_open (dw_audit D) realpath c = Some (d, name, warn) ->
        LAudit d ∈ user_dry_run D c command).
Proof.
  intros Hs Hl. split; [|split; [|split]].
  - intros r [Hr Hn]%user_rule_lines. unfold rule_line in Hn. destruct (dw_stat D (path r)) eqn:Ed; [done|].
    destruct (optional r) eqn:Eo; [done|]. apply enforce_landlock; [done|]. by eapply absent_rule_fails.
  - intros r rs [Hr Hn]%user_rule_lines Ha access rights. unfold rule_line in Hn. destruct (dw_stat D (path r)) eqn:Ed; [done|].
    destruct (optional r) eqn:Eo; [|done]. unfold apply_landlock in Ha. cbv zeta in Ha.
    destruct (ll_abi (uw_ll U) <? 0); [done|]. destruct (paths c) as [|x l] eqn:Ep; [by inversion Hr|]. rewrite <- Ep in *.
    destruct (negb _); [done|]. apply bind_Some in Ha as (ps & E & _).
    destruct (add_all_each _ _ _ r E Hr) as (out & Hout & _). unfold landlock_add_path in *. specialize (Hs (path r)).
    destruct (ll_open (uw_ll U) (path r)) as [| |st]; [by rewrite Eo|done|by destruct (Hs st Ed)].
  - intros r Hr. unfold user_dry_run. rewrite !elem_of_app. right. left. by apply list_elem_of_fmap_2.
  - intros realpath d name warn Ha Ho. unfold user_dry_run. rewrite !elem_of_app. do 6 right. left. unfold listed_audit. rewrite Ha.
    unfold audit_log_open in Ho. apply bind_Some in Ho as ([d' made] & Hd & Ho). destruct (aw_openat _ _ _); [|done]. simplify_eq.
    unfold audit_log_dir_open in Hd. destruct (audit_log_dir c) as [dir|].
    + apply bind_Some in Hd as (x & Hx%fitting_Some & Hd). subst x. destruct (negb _); [done|]. repeat case_match; simplify_eq. by left.
    + apply bind_Some in Hd as (x & -> & Hd). cbv zeta in Hd. destruct (_ && _); [done|]. destruct (audit_open_private_dir _ _ _); [|done].
      simplify_eq. by left.
Qed.

(** ** A concrete listing *)

Module Missing.
(** A system without [/gone]. *)
Definition landlock : landlock_kernel := {|
  ll_abi := 5; ll_create := fun _ _ => true;
  ll_open := fun q => if streq q (lit "/gone") then PathAbsent else PathOpened (Some {| st_mode := 0x41ED; st_uid := 0 |});
  ll_add_path := fun _ _ => true; ll_add_port := fun _ _ => true; ll_restrict := true |}.

Definition system : uworld :=
  let U := demo_system (demo_world []) in
  UWorld (uw_p U) (uw_arch U) landlock true true true true (fun _ => true) (uw_statfs U) (uw_proc_mounts U) CapOk true
    (uw_lstat U) (uw_mount U) 1000 (uw_capbset_drop U) CapOk true true (Some 0) (fun _ => true) true None 3 (fun _ => true)
    (fun _ => true) (uw_openat U) None true (fun _ => true) true true.

Definition asked : dworld := DWorld (fun q => negb (streq q (lit "/gone"))) (fun _ => true) 5 (fun _ => None) (demo_aworld 1000).

Definition rule (p : cstring) (m : PathMode) : PathRule := {| path := p; mode := m; optional := false; owned := false |}.
Definition policy : Config :=
  set_env_deny [lit "LD_*"] (set_paths [rule (lit "/usr") PATH_RO; rule (lit "/gone") PATH_RW] user_config).

Lemma same : same_files system asked.
Proof. intros q st. unfold asked, system, landlock. cbn. by destruct (streq q (lit "/gone")). Qed.

Example rule_text :
  render_lline (rule_line asked (rule (lit "/gone") PATH_RW)) = lit "    rw /gone   (ABSENT — this run would fail)" ++ [LF].
Proof. vm_compute. reflexivity. Qed.
End Missing.

Lemma dry_run_honest_witness :
  LRule (Missing.rule (lit "/gone") PATH_RW) NoteFails ∈ user_dry_run Missing.asked Missing.policy (lit "sh")
  /\ enforce Missing.system Missing.policy login = None.
Proof.
  assert (H : LRule (Missing.rule (lit "/gone") PATH_RW) NoteFails ∈ user_dry_run Missing.asked Missing.policy (lit "sh")).
  { do 5 right. left. }
  split; [exact H|].
  exact (proj1 (dry_run_honest Missing.system Missing.asked Missing.policy login (lit "sh") Missing.same eq_refl) _ H).
Defined.

(** With [--no-env-sanitize] nothing is stripped, and the listing of
    compartment-user still says how many variables are. *)
Lemma dry_run_env_misreport c p :
  use_env_sanitize c = false -> env_allow_mode c = false ->
  sanitized c p = p
  /\ forall D command, LText (lit "  env: DENY-LIST (" ++ count (env_deny c) ++ lit " stripped)") ∈ user_dry_run D c command.
Proof.
  intros Hs Ha. unfold sanitized. rewrite Hs. split; [done|]. intros D command. unfold user_dry_run.
  rewrite !elem_of_app. do 5 right. left. unfold listed_env. rewrite Ha. by left.
Qed.

(** The verbose listing of compartment-root names exactly the paths the container
    masks: the built-in ones, then those of the policy. *)
Lemma root_masks_listed D c u g builtin command :
  verbose c = true ->
  (forall s, s ∈ default_proc_masks -> masked_line s ∈ root_dry_run D c u g builtin command)
  /\ (forall m, m ∈ mount_masks c -> policy_mask_line m ∈ root_dry_run D c u g builtin command).
Proof.
  intros Hv. unfold root_dry_run. rewrite Hv.
  assert (H : forall x pre, x ∈ root_builtin D c -> x ∈ pre ++ root_builtin D c) by (intros; apply elem_of_app; by right).
  split; intros x Hx; rewrite !app_assoc; apply H; unfold root_builtin; rewrite !elem_of_app; right.
  - left. by apply list_elem_of_fmap_2.
  - right. left. by apply list_elem_of_fmap_2.
Qed.
