(* ===== verification/LoaderRelease.v ===== *)
(** * The memory of the loader's profile

    What the profile parser of [src/compartment-bpf/compartment-bpf.c] allocates
    and releases: actor declarations, their resolved binaries, recorded seals, and
    [profile_state_release].  Any allocation may fail; a block freed twice or an
    entry stored past the room of its array is [None]. *)

From S2P Require Import Prelude Abi Kernel Loader Resources.
From stdpp Require Import gmap fin_sets strings.

#[export] Instance ptr_eq_dec : EqDecision ptr.
Proof. solve_decision. Defined.

(** ** The allocator *)

(** [calloc] and [strdup], when there is memory. *)
Definition alloc (ok : bool) (h : heap) : ptr * heap := if ok then xstrdup h else (Null, h).

(** [None] inside: no memory, and the old block is kept. *)
Definition realloc (ok : bool) (p : ptr) (h : heap) : option (option ptr * heap) :=
  if ok then h1 ← free p h; let '(q, h2) := xstrdup h1 in Some (Some q, h2) else Some (None, h).

(** A block with its capacity and the entries in use. *)
Record vec (A : Type) := Vec { v_block : ptr; v_cap : nat; v_items : list A }.
#[global] Arguments Vec {A}.
#[global] Arguments v_block {A}.
#[global] Arguments v_cap {A}.
#[global] Arguments v_items {A}.

Definition no_vec {A} : vec A := Vec Null 0 [].

Definition grow {A} (first : nat) (ok : bool) (v : vec A) (h : heap) : option (option (vec A) * heap) :=
  if Nat.eqb (length (v_items v)) (v_cap v) then
    '(q, h') ← realloc ok (v_block v) h;
    Some (option_map (fun b => Vec b (if Nat.eqb (v_cap v) 0 then first else v_cap v * 2) (v_items v)) q, h')
  else Some (Some v, h).

Definition store {A} (v : vec A) (x : A) : option (vec A) :=
  if Nat.ltb (length (v_items v)) (v_cap v) then Some (Vec (v_block v) (v_cap v) (v_items v ++ [x])) else None.

(** ** Actor groups and seals *)

Record group_blocks := GroupBlocks { g_self : ptr; g_name : ptr; g_paths : vec ptr; g_bin : ptr; g_launcher : ptr }.

Record profile_blocks := ProfileBlocks { b_actors : vec group_blocks; b_seals : vec ptr }.

Definition no_profile : profile_blocks := ProfileBlocks no_vec no_vec.

(** [actor_group_free]; a group that was not allocated is none. *)
Definition group_ptrs (g : group_blocks) : list ptr :=
  g_name g :: v_items (g_paths g) ++ [v_block (g_paths g); g_bin g; g_launcher g; g_self g].

Definition actor_group_free (g : group_blocks) (h : heap) : option heap :=
  match g_self g with Null => Some h | _ => free_all (group_ptrs g) h end.

Fixpoint free_groups (l : list group_blocks) (h : heap) : option heap :=
  match l with [] => Some h | g :: r => actor_group_free g h ≫= free_groups r end.

Definition profile_state_release (b : profile_blocks) (h : heap) : option (profile_blocks * heap) :=
  h ← free_groups (v_items (b_actors b)) h;
  h ← free (v_block (b_actors b)) h;
  h ← free_all (v_items (b_seals b)) h;
  h ← free (v_block (b_seals b)) h;
  Some (no_profile, h).

(** [true]: recorded. *)
Definition profile_state_add_actor (ok : bool) (b : profile_blocks) (g : group_blocks) (h : heap)
  : option (bool * profile_blocks * heap) :=
  '(v, h1) ← grow 4 ok (b_actors b) h;
  match v with
  | None => Some (false, b, h1)
  | Some v => v' ← store v g; Some (true, ProfileBlocks v' (b_seals b), h1)
  end.

(** A path of a declaration: refused, or accepted with what [realloc] and [strdup]
    answer. *)
Inductive path_token := BadToken | PathToken (room dup : bool).

(** The group, and whether the loop came to its end. *)
Fixpoint add_paths (l : list path_token) (g : group_blocks) (h : heap) : option (bool * group_blocks * heap) :=
  match l with
  | [] => Some (true, g, h)
  | BadToken :: _ => Some (false, g, h)
  | PathToken room dup :: r =>
      if Nat.leb ACTOR_MAX_PATHS (length (v_items (g_paths g))) then Some (false, g, h)
      else
        '(v, h1) ← grow 2 room (g_paths g) h;
        match v with
        | None => Some (false, g, h1)
        | Some v =>
            let g1 := GroupBlocks (g_self g) (g_name g) v (g_bin g) (g_launcher g) in
            match alloc dup h1 with
            | (Null, h2) => Some (false, g1, h2)
            | (p, h2) => v' ← store v p; add_paths r (GroupBlocks (g_self g) (g_name g) v' (g_bin g) (g_launcher g)) h2
            end
        end
  end.

(** The end of both parsers: recorded ([true]), or released. *)
Definition add_or_free (ok room : bool) (b : profile_blocks) (g : group_blocks) (h : heap)
  : option (bool * profile_blocks * heap) :=
  if ok then
    '(added, b', h') ← profile_state_add_actor room b g h;
    if added : bool then Some (true, b', h') else h'' ← actor_group_free g h'; Some (false, b', h'')
  else h' ← actor_group_free g h; Some (false, b, h').

(** [actor NAME = PATH ...], once the name and the equals sign are read. *)
Definition declare_actor (self name : bool) (tokens : list path_token) (room : bool) (b : profile_blocks) (h : heap)
  : option (bool * profile_blocks * heap) :=
  let '(s, h1) := alloc self h in
  if negb self then add_or_free false room b (GroupBlocks Null Null no_vec Null Null) h1 else
  let '(n, h2) := alloc name h1 in
  if negb name then add_or_free false room b (GroupBlocks s Null no_vec Null Null) h2 else
  '(ended, g, h3) ← add_paths tokens (GroupBlocks s n no_vec Null Null) h2;
  add_or_free (ended && negb (Nat.eqb (length (v_items (g_paths g))) 0)) room b g h3.

(** [actor-strict NAME = TARGET launcher=PATH], once the line is read. *)
Definition declare_strict (self name array target launcher room : bool) (b : profile_blocks) (h : heap)
  : option (bool * profile_blocks * heap) :=
  let '(s, h1) := alloc self h in
  if negb self then add_or_free false room b (GroupBlocks Null Null no_vec Null Null) h1 else
  let '(n, h2) := alloc name h1 in
  if negb name then add_or_free false room b (GroupBlocks s Null no_vec Null Null) h2 else
  let '(a, h3) := alloc array h2 in
  if negb array then add_or_free false room b (GroupBlocks s n no_vec Null Null) h3 else
  let '(t, h4) := alloc target h3 in
  if negb target then add_or_free false room b (GroupBlocks s n (Vec a 1 []) Null Null) h4 else
  let '(l, h5) := alloc launcher h4 in
  add_or_free launcher room b (GroupBlocks s n (Vec a 1 [t]) Null l) h5.

(** [actor_resolve_paths]: the binaries are kept only when all resolve. *)
Definition resolve_group (memory resolved : bool) (g : group_blocks) (h : heap) : option (group_blocks * heap) :=
  if Nat.eqb (length (v_items (g_paths g))) 0 then Some (g, h)
  else
    let '(bin, h1) := match g_bin g with Null => alloc memory h | p => (p, h) end in
    match bin with
    | Null => Some (g, h1)
    | _ => if resolved then Some (GroupBlocks (g_self g) (g_name g) (g_paths g) bin (g_launcher g), h1)
           else h2 ← free bin h1; Some (GroupBlocks (g_self g) (g_name g) (g_paths g) Null (g_launcher g), h2)
    end.

(** A declaration that was recorded is resolved at once, unless [parse_only]. *)
Definition resolve_newest (memory resolved parse_only : bool) (r : bool * profile_blocks * heap) : option (profile_blocks * heap) :=
  let '(added, b, h) := r in
  if negb added || parse_only then Some (b, h)
  else
    let n := pred (length (v_items (b_actors b))) in
    match v_items (b_actors b) !! n with
    | None => None
    | Some g =>
        '(g', h') ← resolve_group memory resolved g h;
        Some (ProfileBlocks (Vec (v_block (b_actors b)) (v_cap (b_actors b)) (<[n := g']> (v_items (b_actors b)))) (b_seals b), h')
    end.

(** [profile_state_record_seal]: an entry with the same inode gets the path as
    well, unless it has it; otherwise there is a new entry. *)
Definition record_merge (i : nat) (contained memory : bool) (b : profile_blocks) (h : heap) : option (profile_blocks * heap) :=
  match v_items (b_seals b) !! i with
  | None | Some Null => Some (b, h)
  | Some p =>
      if contained then Some (b, h)
      else '(q, h') ← realloc memory p h;
           Some (match q with
                 | Some q => ProfileBlocks (b_actors b) (Vec (v_block (b_seals b)) (v_cap (b_seals b)) (<[i := q]> (v_items (b_seals b))))
                 | None => b
                 end, h')
  end.

Definition record_new (room dup : bool) (b : profile_blocks) (h : heap) : option (profile_blocks * heap) :=
  '(v, h1) ← grow 8 room (b_seals b) h;
  match v with
  | None => Some (b, h1)
  | Some v => let '(p, h2) := alloc dup h1 in v' ← store v p; Some (ProfileBlocks (b_actors b) v', h2)
  end.

(** ** A load *)

Inductive load_step :=
  | DeclActor (self name : bool) (tokens : list path_token) (room memory resolved parse_only : bool)
  | DeclStrict (self name array target launcher room memory resolved parse_only : bool)
  | SealMerge (i : nat) (contained memory : bool)
  | SealNew (room dup : bool).

Definition run_step (s : load_step) (b : profile_blocks) (h : heap) : option (profile_blocks * heap) :=
  match s with
  | DeclActor self name tokens room memory resolved parse_only =>
      declare_actor self name tokens room b h ≫= resolve_newest memory resolved parse_only
  | DeclStrict self name array target launcher room memory resolved parse_only =>
      declare_strict self name array target launcher room b h ≫= resolve_newest memory resolved parse_only
  | SealMerge i contained memory => record_merge i contained memory b h
  | SealNew room dup => record_new room dup b h
  end.

Fixpoint run_steps (l : list load_step) (b : profile_blocks) (h : heap) : option (profile_blocks * heap) :=
  match l with [] => Some (b, h) | s :: r => '(b', h') ← run_step s b h; run_steps r b' h' end.

(** ** Ownership *)

(** On top of [h0] exactly the blocks of [l] are allocated, each once. *)
Record holds (l : list ptr) (h0 h : heap) : Prop := Holds {
  hold_ours : Borrowed ∉ l; hold_once : NoDup (omap address l);
  hold_apart : list_to_set (omap address l) ## h0; hold_exact : h = list_to_set (omap address l) ∪ h0 }.

#[export] Instance holds_proper : Proper ((≡ₚ) ==> (=) ==> (=) ==> iff) holds.
Proof.
  intros l l' Hl h0 ? <- h ? <-.
  assert (Hs : (list_to_set (omap address l) : heap) = list_to_set (omap address l')).
  { apply list_to_set_perm_L. by rewrite Hl. }
  split; intros [H1 H2 H3 H4]; split; try (by rewrite Hl + rewrite <- Hl); congruence.
Qed.

Lemma holds_owns l h0 h : holds l h0 h -> owns l h.
Proof. intros [H1 H2 _ ->]. split; [done|done|]. apply Forall_forall. intros x Hx. set_solver. Qed.

Lemma holds_nothing h : holds [] h h.
Proof. split; [set_solver|constructor|set_solver|set_solver]. Qed.

Lemma holds_nothing_inv h0 h : holds [] h0 h -> h = h0.
Proof. intros [_ _ _ ->]. set_solver. Qed.

Lemma holds_null l h0 h : holds (Null :: l) h0 h <-> holds l h0 h.
Proof. split; intros [H1 H2 H3 H4]; split; try done; set_solver. Qed.

Lemma holds_new l h0 h : holds l h0 h -> holds (Heap (fresh h) :: l) h0 ({[fresh h]} ∪ h).
Proof.
  intros [H1 H2 H3 H4]. pose proof (is_fresh h) as Hf. set (a := fresh h) in *. clearbody a. split; cbn.
  - set_solver.
  - constructor; [|done]. intros Hin. apply Hf. rewrite H4. apply elem_of_union_l. by apply elem_of_list_to_set.
  - rewrite H4 in Hf. set_solver.
  - rewrite H4. set_solver.
Qed.

Lemma holds_alloc ok l h0 h p h' : alloc ok h = (p, h') -> holds l h0 h -> holds (p :: l) h0 h' /\ (ok = false -> p = Null) /\ (ok = true -> p <> Null).
Proof.
  unfold alloc, xstrdup. intros E H. destruct ok; simplify_eq; [split; [by apply holds_new|done]|].
  split; [by apply holds_null|done].
Qed.

Lemma holds_free p l h0 h : holds (p :: l) h0 h -> exists h', free p h = Some h' /\ holds l h0 h'.
Proof.
  intros H. destruct (owns_free p l h (holds_owns _ _ _ H)) as (h' & Hf & Ho & ->). eexists. split; [done|].
  destruct H as [H1 H2 H3 ->]. destruct Ho as [Ho1 Ho2 _]. split; [done|done| |]; destruct p as [| |a]; cbn in *;
    [set_solver|set_solver|set_solver|set_solver|set_solver|]. apply NoDup_cons in H2 as [Hn _].
  apply set_eq. intros x. rewrite elem_of_difference, !elem_of_union, !elem_of_singleton, elem_of_empty, elem_of_list_to_set.
  set_solver.
Qed.

Lemma holds_free_all l l' h0 h : holds (l ++ l') h0 h -> exists h', free_all l h = Some h' /\ holds l' h0 h'.
Proof.
  revert h. induction l as [|p l IH]; intros h H; cbn [free_all]; [by exists h|].
  destruct (holds_free p (l ++ l') h0 h H) as (h1 & -> & H1). by apply IH.
Qed.

Lemma holds_realloc ok p l h0 h :
  holds (p :: l) h0 h ->
  exists q h', realloc ok p h = Some (q, h') /\ match q with Some q => holds (q :: l) h0 h' /\ q <> Null | None => h' = h end.
Proof.
  intros H. unfold realloc. destruct ok; [|by exists None, h]. destruct (holds_free _ _ _ _ H) as (h1 & -> & H1). cbn.
  eexists (Some _), _. split; [done|]. split; [by apply holds_new|done].
Qed.

(** ** Arrays *)

Definition vec_ok {A} (v : vec A) : Prop := (length (v_items v) <= v_cap v)%nat.

Lemma grow_ok {A} first ok (v : vec A) l h0 h :
  (0 < first)%nat -> vec_ok v -> holds (v_block v :: l) h0 h ->
  exists r h', grow first ok v h = Some (r, h')
  /\ match r with
     | Some v' => holds (v_block v' :: l) h0 h' /\ v_items v' = v_items v /\ (length (v_items v') < v_cap v')%nat
     | None => h' = h
     end.
Proof.
  intros Hf Hok H. unfold grow, vec_ok in *. destruct (Nat.eqb_spec (length (v_items v)) (v_cap v)) as [E|E].
  - destruct (holds_realloc ok _ _ _ _ H) as (q & h' & -> & Hq). cbn. eexists _, h'. split; [done|].
    destruct q as [q|]; cbn; [|done]. destruct Hq as [Hq _]. split; [done|]. split; [done|].
    destruct (Nat.eqb_spec (v_cap v) 0); lia.
  - exists (Some v), h. split; [done|]. split; [done|]. split; [done|lia].
Qed.

Lemma store_ok {A} (v : vec A) x :
  (length (v_items v) < v_cap v)%nat ->
  exists v', store v x = Some v' /\ v_block v' = v_block v /\ v_items v' = v_items v ++ [x] /\ vec_ok v'.
Proof.
  intros H. unfold store. destruct (Nat.ltb_spec (length (v_items v)) (v_cap v)); [|lia]. eexists. split; [done|].
  split; [done|]. split; [done|]. unfold vec_ok. cbn. rewrite length_app. cbn. lia.
Qed.

(** ** Groups *)

Definition group_ok (g : group_blocks) : Prop := g_self g <> Null /\ vec_ok (g_paths g).

Lemma group_free_ok g l h0 h :
  g_self g <> Null -> holds (group_ptrs g ++ l) h0 h -> exists h', actor_group_free g h = Some h' /\ holds l h0 h'.
Proof. intros Hs H. unfold actor_group_free. destruct (g_self g) eqn:E; [done| |]; by apply holds_free_all. Qed.

Lemma free_groups_ok gs l h0 h :
  Forall (fun g => g_self g <> Null) gs -> holds (mjoin (group_ptrs <$> gs) ++ l) h0 h ->
  exists h', free_groups gs h = Some h' /\ holds l h0 h'.
Proof.
  intros Hs. revert h. induction Hs as [|g gs Hg Hs IH]; intros h H; cbn [free_groups]; [by exists h|].
  cbn [fmap list_fmap mjoin list_join] in H. rewrite <- app_assoc in H.
  destruct (group_free_ok _ _ _ _ Hg H) as (h1 & -> & H1). by apply IH.
Qed.

(** The blocks of a profile. *)
Definition blocks (b : profile_blocks) : list ptr :=
  mjoin (group_ptrs <$> v_items (b_actors b)) ++ v_block (b_actors b) :: v_items (b_seals b) ++ [v_block (b_seals b)].

Record balanced (b : profile_blocks) (h0 h : heap) : Prop := Balanced {
  bal_held : holds (blocks b) h0 h;
  bal_groups : Forall group_ok (v_items (b_actors b));
  bal_actors : vec_ok (b_actors b);
  bal_seals : vec_ok (b_seals b) }.

Lemma release_ok b h0 h : balanced b h0 h -> profile_state_release b h = Some (no_profile, h0).
Proof.
  intros [H Hg _ _]. unfold profile_state_release, blocks in *.
  destruct (free_groups_ok (v_items (b_actors b)) (v_block (b_actors b) :: v_items (b_seals b) ++ [v_block (b_seals b)]) h0 h) as (h1 & -> & H1);
    [|done|].
  { eapply Forall_impl; [exact Hg|]. by intros g []. }
  cbn [mbind option_bind]. destruct (holds_free _ _ _ _ H1) as (h2 & -> & H2). cbn [mbind option_bind].
  destruct (holds_free_all _ _ _ _ H2) as (h3 & -> & H3). cbn [mbind option_bind].
  destruct (holds_free _ _ _ _ H3) as (h4 & -> & H4). cbn [mbind option_bind]. by apply holds_nothing_inv in H4 as ->.
Qed.

(** ** The steps *)

Lemma blocks_add b g v' :
  v_items v' = v_items (b_actors b) ++ [g] ->
  blocks (ProfileBlocks v' (b_seals b)) ≡ₚ v_block v' :: (group_ptrs g ++ mjoin (group_ptrs <$> v_items (b_actors b)) ++ v_items (b_seals b) ++ [v_block (b_seals b)]).
Proof.
  intros Hi. unfold blocks. cbn [b_actors b_seals]. rewrite Hi, fmap_app, join_app. cbn [fmap list_fmap mjoin list_join].
  rewrite app_nil_r. rewrite <- Permutation_middle. constructor. rewrite <- app_assoc. apply Permutation_app_swap_app.
Qed.

Lemma blocks_array b : blocks b ≡ₚ v_block (b_actors b) :: mjoin (group_ptrs <$> v_items (b_actors b)) ++ v_items (b_seals b) ++ [v_block (b_seals b)].
Proof. unfold blocks. by rewrite <- Permutation_middle. Qed.

(** What both parsers end with, from a state in which the group is held too. *)
Lemma add_or_free_ok ok room b g h0 h :
  g_self g <> Null -> vec_ok (g_paths g) -> holds (group_ptrs g ++ blocks b) h0 h ->
  Forall group_ok (v_items (b_actors b)) -> vec_ok (b_actors b) -> vec_ok (b_seals b) ->
  exists added b' h', add_or_free ok room b g h = Some (added, b', h') /\ balanced b' h0 h'
    /\ (added = true -> v_items (b_actors b') = v_items (b_actors b) ++ [g]).
Proof.
  intros Hs Hv H Hg Ha Hse. unfold add_or_free.
  assert (Hf : forall h, holds (group_ptrs g ++ blocks b) h0 h -> exists h', actor_group_free g h = Some h' /\ balanced b h0 h').
  { intros h1 H1. destruct (group_free_ok _ _ _ _ Hs H1) as (h2 & -> & H2). by exists h2. }
  destruct ok.
  - unfold profile_state_add_actor. pose proof H as H'. rewrite blocks_array, <- Permutation_middle in H'.
    destruct (grow_ok 4 room _ _ _ _ ltac:(lia) Ha H') as (r & h1 & -> & Hr). cbn [mbind option_bind].
    destruct r as [v|]; [|subst h1; cbn [mbind option_bind]; destruct (Hf h H) as (h2 & -> & ?); cbn; by eexists false, b, h2].
    destruct Hr as (Hr & Hi & Hlt). destruct (store_ok v g Hlt) as (v' & -> & Hb & Hi' & Hok). cbn [mbind option_bind].
    eexists true, _, h1. split; [done|]. rewrite Hi in Hi'. split; [|by intros _].
    split; cbn [b_actors b_seals]; [| |done|done].
    + by rewrite (blocks_add b g v' Hi'), Hb.
    + rewrite Hi'. apply Forall_app. split; [done|]. by repeat constructor.
  - destruct (Hf h H) as (h' & -> & ?). by eexists false, b, h'.
Qed.

Lemma group_array g l :
  group_ptrs g ++ l ≡ₚ v_block (g_paths g) :: g_name g :: v_items (g_paths g) ++ [g_bin g; g_launcher g; g_self g] ++ l.
Proof. unfold group_ptrs. cbn [app]. rewrite <- app_assoc. cbn [app]. rewrite <- Permutation_middle. apply Permutation_swap. Qed.

(** The group with the new path at the end of its array. *)
Lemma group_array_snoc g (v v' : vec ptr) p l :
  v_block v' = v_block v -> v_items v' = v_items (g_paths g) ++ [p] ->
  group_ptrs (GroupBlocks (g_self g) (g_name g) v' (g_bin g) (g_launcher g)) ++ l
  ≡ₚ p :: v_block v :: g_name g :: v_items (g_paths g) ++ [g_bin g; g_launcher g; g_self g] ++ l.
Proof.
  intros Hb Hi. rewrite group_array. cbn [g_self g_name g_paths g_bin g_launcher]. rewrite Hb, Hi, <- app_assoc.
  rewrite <- (Permutation_swap p). constructor. rewrite <- (Permutation_swap p). constructor. symmetry. apply Permutation_middle.
Qed.

Lemma add_paths_ok toks g l h0 h :
  g_self g <> Null -> vec_ok (g_paths g) -> holds (group_ptrs g ++ l) h0 h ->
  exists ended g' h', add_paths toks g h = Some (ended, g', h') /\ g_self g' <> Null /\ vec_ok (g_paths g') /\ holds (group_ptrs g' ++ l) h0 h'.
Proof.
  revert g h. induction toks as [|[|room dup] toks IH]; intros g h Hs Hv H; cbn [add_paths]; [by eexists _, _, _|by eexists _, _, _|].
  destruct (Nat.leb _ _); [by eexists _, _, _|].
  pose proof H as H'. rewrite group_array in H'. destruct (grow_ok 2 room _ _ _ _ ltac:(lia) Hv H') as (r & h1 & -> & Hr). cbn [mbind option_bind].
  destruct r as [v|]; [|subst h1; by eexists _, _, _]. destruct Hr as (Hr & Hi & Hlt). cbv zeta.
  destruct (alloc dup h1) as [p h2] eqn:Ea. destruct (holds_alloc _ _ _ _ _ _ Ea Hr) as (Hn & _ & _).
  assert (Hnull : p = Null -> exists ended g' h', Some (false, GroupBlocks (g_self g) (g_name g) v (g_bin g) (g_launcher g), h2) = Some (ended, g', h')
    /\ g_self g' <> Null /\ vec_ok (g_paths g') /\ holds (group_ptrs g' ++ l) h0 h').
  { intros ->. eexists _, _, _. split; [done|]. cbn [g_self g_paths]. split; [done|]. split; [unfold vec_ok; lia|].
    rewrite holds_null in Hn. rewrite group_array. cbn [g_self g_name g_paths g_bin g_launcher]. by rewrite Hi. }
  destruct (store_ok v p Hlt) as (v' & Hst & Hb & Hi' & Hok).
  assert (Hgo : exists ended g' h', (v'' ← store v p; add_paths toks (GroupBlocks (g_self g) (g_name g) v'' (g_bin g) (g_launcher g)) h2) = Some (ended, g', h')
    /\ g_self g' <> Null /\ vec_ok (g_paths g') /\ holds (group_ptrs g' ++ l) h0 h').
  { rewrite Hst. cbn [mbind option_bind]. apply IH; [done|done|]. rewrite Hi in Hi'. by rewrite (group_array_snoc g v v' p l Hb Hi'). }
  destruct p; [by apply Hnull|exact Hgo|exact Hgo].
Qed.

(** A group whose array and other blocks are as given. *)
Lemma group_held s n v l b h0 h :
  holds (l :: v_items v ++ v_block v :: n :: s :: blocks b) h0 h ->
  holds (group_ptrs (GroupBlocks s n v Null l) ++ blocks b) h0 h.
Proof.
  intros H. rewrite group_array. cbn [g_self g_name g_paths g_bin g_launcher app].
  rewrite <- holds_null in H. revert H. apply holds_proper; [|done|done].
  change ([v_block v; n] ++ v_items v ++ [Null; l] ++ (s :: blocks b) ≡ₚ [Null; l] ++ v_items v ++ [v_block v; n] ++ (s :: blocks b)).
  rewrite (Permutation_app_swap_app [v_block v; n] (v_items v)), (Permutation_app_swap_app [Null; l] (v_items v)).
  apply Permutation_app_head, (Permutation_app_swap_app [v_block v; n] [Null; l]).
Qed.

(** A declaration leaves a balanced profile, longer by one group when it was recorded. *)
Definition declared (b : profile_blocks) (h0 : heap) (r : option (bool * profile_blocks * heap)) : Prop :=
  exists added b' h', r = Some (added, b', h') /\ balanced b' h0 h'
    /\ (added = true -> exists g, v_items (b_actors b') = v_items (b_actors b) ++ [g]).

Lemma finish_ok ok room g b h0 h h1 :
  balanced b h0 h -> g_self g <> Null -> vec_ok (g_paths g) -> holds (group_ptrs g ++ blocks b) h0 h1 ->
  declared b h0 (add_or_free ok room b g h1).
Proof.
  intros [_ Hg Ha Hs] Hself Hv H1. destruct (add_or_free_ok ok room b g h0 h1) as (a & b' & h' & -> & Hb & Hi); try done.
  eexists _, _, _. split; [done|]. split; [done|]. eauto.
Qed.

Lemma declare_actor_ok self name toks room b h0 h : balanced b h0 h -> declared b h0 (declare_actor self name toks room b h).
Proof.
  intros Hb. pose proof (bal_held _ _ _ Hb) as H. unfold declare_actor. destruct (alloc self h) as [s h1] eqn:E1.
  destruct (holds_alloc _ _ _ _ _ _ E1 H) as (H1 & _ & Hs1). destruct self; cbn [negb]; [|inversion E1; subst; by eexists false, b, h1].
  specialize (Hs1 eq_refl). destruct (alloc name h1) as [n h2] eqn:E2. destruct (holds_alloc _ _ _ _ _ _ E2 H1) as (H2 & Hn & _).
  assert (Hgr : holds (group_ptrs (GroupBlocks s n no_vec Null Null) ++ blocks b) h0 h2).
  { apply group_held. cbn. by rewrite !holds_null. }
  assert (Hv : @vec_ok ptr no_vec) by (unfold vec_ok; cbn; lia).
  destruct name; cbn [negb]; [|rewrite (Hn eq_refl) in Hgr; by eapply finish_ok].
  destruct (add_paths_ok toks (GroupBlocks s n no_vec Null Null) _ _ _ Hs1 Hv Hgr) as (e & g & h3 & -> & Hs3 & Hv3 & H3).
  cbn [mbind option_bind]. by eapply finish_ok.
Qed.

(** The allocation [Hnull] is about has failed: the parts of the group are released. *)
Ltac no_memory Hnull H :=
  rewrite (Hnull eq_refl) in H; eapply finish_ok; [done|done|unfold vec_ok; cbn; lia|apply group_held; cbn; by rewrite !holds_null in *].

Lemma declare_strict_ok self name array target launcher room b h0 h :
  balanced b h0 h -> declared b h0 (declare_strict self name array target launcher room b h).
Proof.
  intros Hb. pose proof (bal_held _ _ _ Hb) as H. unfold declare_strict. destruct (alloc self h) as [s h1] eqn:E1.
  destruct (holds_alloc _ _ _ _ _ _ E1 H) as (H1 & _ & Hs1). destruct self; cbn [negb]; [|inversion E1; subst; by eexists false, b, h1].
  specialize (Hs1 eq_refl). destruct (alloc name h1) as [n h2] eqn:E2. destruct (holds_alloc _ _ _ _ _ _ E2 H1) as (H2 & Hn & _).
  destruct name; cbn [negb].
  2: no_memory Hn H2.
  destruct (alloc array h2) as [a h3] eqn:E3. destruct (holds_alloc _ _ _ _ _ _ E3 H2) as (H3 & Ha & _). destruct array; cbn [negb].
  2: no_memory Ha H3.
  destruct (alloc target h3) as [t h4] eqn:E4. destruct (holds_alloc _ _ _ _ _ _ E4 H3) as (H4 & Ht & _). destruct target; cbn [negb].
  2: no_memory Ht H4.
  destruct (alloc launcher h4) as [l h5] eqn:E5. destruct (holds_alloc _ _ _ _ _ _ E5 H4) as (H5 & _ & _).
  eapply finish_ok; [done|done|unfold vec_ok; cbn; lia|]. by apply group_held.
Qed.

(** *** Resolved binaries *)

Lemma group_bin g x l :
  group_ptrs (GroupBlocks (g_self g) (g_name g) (g_paths g) x (g_launcher g)) ++ l
  ≡ₚ x :: g_name g :: v_items (g_paths g) ++ [v_block (g_paths g); g_launcher g; g_self g] ++ l.
Proof.
  unfold group_ptrs. cbn [g_self g_name g_paths g_bin g_launcher app]. rewrite <- app_assoc. cbn [app].
  rewrite <- (Permutation_swap x (g_name g)). constructor.
  rewrite (Permutation_swap x (v_block (g_paths g))). symmetry. apply Permutation_middle.
Qed.

Lemma resolve_group_ok memory resolved g l h0 h :
  group_ok g -> holds (group_ptrs g ++ l) h0 h ->
  exists g' h', resolve_group memory resolved g h = Some (g', h') /\ group_ok g' /\ holds (group_ptrs g' ++ l) h0 h'.
Proof.
  intros Hg H. unfold resolve_group. destruct (Nat.eqb _ 0); [by exists g, h|].
  assert (Eg : g = GroupBlocks (g_self g) (g_name g) (g_paths g) (g_bin g) (g_launcher g)) by (by destruct g).
  pose proof H as H'. rewrite Eg, group_bin in H'.
  set (rest := g_name g :: v_items (g_paths g) ++ [v_block (g_paths g); g_launcher g; g_self g] ++ l) in *.
  assert (Hbin : exists bin h1, match g_bin g with Null => alloc memory h | p => (p, h) end = (bin, h1)
                 /\ holds (bin :: rest) h0 h1 /\ (bin = Null -> g_bin g = Null)).
  { destruct (g_bin g) as [| |a]; [|by eexists _, _..]. destruct (alloc memory h) as [p h1] eqn:E. rewrite holds_null in H'.
    destruct (holds_alloc _ _ _ _ _ _ E H') as (? & _ & _). by eexists _, _. }
  destruct Hbin as (bin & h1 & -> & H1 & Hn). destruct (decide (bin = Null)) as [->|Hne].
  - exists g, h1. split; [done|]. split; [done|]. rewrite Eg, group_bin. by rewrite (Hn eq_refl).
  - destruct (holds_free _ _ _ _ H1) as (h2 & Hf & H2). destruct resolved.
    + exists (GroupBlocks (g_self g) (g_name g) (g_paths g) bin (g_launcher g)), h1. split; [by destruct bin|].
      split; [done|]. by rewrite group_bin.
    + exists (GroupBlocks (g_self g) (g_name g) (g_paths g) Null (g_launcher g)), h2. split; [destruct bin; [done|..]; by rewrite Hf|].
      split; [done|]. rewrite group_bin. by apply holds_null.
Qed.

Lemma resolve_newest_ok memory resolved parse_only b h0 r :
  declared b h0 r -> exists b' h', r ≫= resolve_newest memory resolved parse_only = Some (b', h') /\ balanced b' h0 h'.
Proof.
  intros (added & b1 & h1 & -> & Hb & Hi). cbn [mbind option_bind resolve_newest]. destruct added; cbn [negb orb]; [|by eexists _, _].
  destruct parse_only; [by eexists _, _|]. destruct (Hi eq_refl) as [g Hg]. destruct Hb as [H Hgr Ha Hs].
  set (xs := v_items (b_actors b)) in *. rewrite Hg, length_app. cbn [length]. rewrite Nat.add_1_r. cbn [pred].
  rewrite list_lookup_middle by done. rewrite Hg in Hgr. apply Forall_app in Hgr as [Hxs Hgo]. decompose_Forall_hyps.
  assert (Hp : forall g', blocks (ProfileBlocks (Vec (v_block (b_actors b1)) (v_cap (b_actors b1)) (xs ++ [g'])) (b_seals b1))
    ≡ₚ group_ptrs g' ++ (mjoin (group_ptrs <$> xs) ++ v_block (b_actors b1) :: v_items (b_seals b1) ++ [v_block (b_seals b1)])).
  { intros g'. unfold blocks. cbn [b_actors b_seals v_items v_block]. rewrite fmap_app, join_app. cbn [fmap list_fmap mjoin list_join].
    rewrite app_nil_r, <- app_assoc. apply Permutation_app_swap_app. }
  assert (Eb : b1 = ProfileBlocks (Vec (v_block (b_actors b1)) (v_cap (b_actors b1)) (xs ++ [g])) (b_seals b1)).
  { destruct b1 as [[] ?]. cbn in *. by subst. }
  rewrite Eb, Hp in H. destruct (resolve_group_ok memory resolved _ _ _ _ ltac:(done) H) as (g' & h' & -> & Hg' & H').
  cbn [mbind option_bind]. eexists _, _. split; [done|]. rewrite insert_app_r_alt, Nat.sub_diag by done. cbn [insert list_insert].
  split; cbn [b_actors b_seals v_items]; [by rewrite Hp|apply Forall_app; split; [done|by apply Forall_singleton]| |done].
  unfold vec_ok in *. rewrite Hg in Ha. cbn [v_items v_cap]. rewrite !length_app in *. exact Ha.
Qed.

(** *** Seals *)

Lemma record_merge_ok i contained memory b h0 h :
  balanced b h0 h -> exists b' h', record_merge i contained memory b h = Some (b', h') /\ balanced b' h0 h'.
Proof.
  intros Hb. unfold record_merge. destruct (v_items (b_seals b) !! i) as [p|] eqn:Ei; [|by eexists _, _].
  assert (Hgo : exists b' h', ('(q, h') ← realloc memory p h;
           Some (match q with
                 | Some q => ProfileBlocks (b_actors b) (Vec (v_block (b_seals b)) (v_cap (b_seals b)) (<[i := q]> (v_items (b_seals b))))
                 | None => b
                 end, h')) = Some (b', h') /\ balanced b' h0 h').
  { pose proof Hb as [H Hg Ha Hs].
    assert (Hi : i < length (v_items (b_seals b))) by (by eapply lookup_lt_Some).
    set (rest := mjoin (group_ptrs <$> v_items (b_actors b)) ++ v_block (b_actors b) :: take i (v_items (b_seals b)) ++ drop (S i) (v_items (b_seals b)) ++ [v_block (b_seals b)]).
    assert (Hp : forall q, blocks (ProfileBlocks (b_actors b) (Vec (v_block (b_seals b)) (v_cap (b_seals b)) (<[i := q]> (v_items (b_seals b))))) ≡ₚ q :: rest).
    { intros q. unfold blocks, rest. cbn [b_actors b_seals v_items v_block]. rewrite insert_take_drop, <- app_assoc by done. cbn [app].
      by rewrite <- (Permutation_middle (take i _) _ q), (Permutation_swap q), <- (Permutation_middle (mjoin _) _ q). }
    assert (Eb : b = ProfileBlocks (b_actors b) (Vec (v_block (b_seals b)) (v_cap (b_seals b)) (<[i := p]> (v_items (b_seals b))))).
    { rewrite list_insert_id by done. by destruct b as [? []]. }
    pose proof H as H'. rewrite Eb, Hp in H'. destruct (holds_realloc memory _ _ _ _ H') as (q & h1 & -> & Hq). cbn [mbind option_bind].
    destruct q as [q|]; [|subst h1; by eexists _, _]. destruct Hq as [Hq _]. eexists _, _. split; [done|].
    split; cbn [b_actors b_seals]; [by rewrite Hp|done|done|]. unfold vec_ok in *. cbn. by rewrite length_insert. }
  destruct p; [by eexists _, _|destruct contained; [by eexists _, _|exact Hgo]..].
Qed.

Lemma record_new_ok room dup b h0 h :
  balanced b h0 h -> exists b' h', record_new room dup b h = Some (b', h') /\ balanced b' h0 h'.
Proof.
  intros Hb. pose proof Hb as [H Hg Ha Hs]. unfold record_new.
  set (rest := mjoin (group_ptrs <$> v_items (b_actors b)) ++ v_block (b_actors b) :: v_items (b_seals b)).
  assert (Hp : forall c, mjoin (group_ptrs <$> v_items (b_actors b)) ++ v_block (b_actors b) :: v_items (b_seals b) ++ c ≡ₚ c ++ rest).
  { intros c. unfold rest. rewrite app_comm_cons, app_assoc. apply Permutation_app_comm. }
  pose proof H as H'. unfold blocks in H'. rewrite Hp in H'. cbn [app] in H'.
  destruct (grow_ok 8 room _ _ _ _ ltac:(lia) Hs H') as (r & h1 & -> & Hr). cbn [mbind option_bind].
  destruct r as [v|]; [|subst h1; by eexists _, _]. destruct Hr as (Hr & Hi & Hlt).
  destruct (alloc dup h1) as [p h2] eqn:Ea. destruct (holds_alloc _ _ _ _ _ _ Ea Hr) as (Hn & _ & _).
  destruct (store_ok v p Hlt) as (v' & -> & Hb' & Hi' & Hok). cbn [mbind option_bind]. eexists _, _. split; [done|].
  split; cbn [b_actors b_seals]; [|done|done|done]. unfold blocks. cbn [b_actors b_seals].
  rewrite Hi', Hi, Hb', <- app_assoc, Hp. done.
Qed.

Lemma run_step_ok s b h0 h : balanced b h0 h -> exists b' h', run_step s b h = Some (b', h') /\ balanced b' h0 h'.
Proof.
  intros Hb. destruct s; cbn [run_step].
  - by eapply resolve_newest_ok, declare_actor_ok.
  - by eapply resolve_newest_ok, declare_strict_ok.
  - by apply record_merge_ok.
  - by apply record_new_ok.
Qed.

Lemma no_profile_balanced h : balanced no_profile h h.
Proof. split; [|constructor|unfold vec_ok; cbn; lia|unfold vec_ok; cbn; lia]. cbn. rewrite !holds_null. apply holds_nothing. Qed.

(** C39: the loader's profile is released exactly.  Whatever a profile declares and
    whichever allocations fail on the way, no block is freed twice, no entry is
    stored past the room of its array, and after [profile_state_release] the heap
    is the one from before the load: nothing leaks and nothing else is freed. *)
Theorem profile_release_exact steps h0 :
  exists b h, run_steps steps no_profile h0 = Some (b, h) /\ profile_state_release b h = Some (no_profile, h0).
Proof.
  assert (Hgo : forall b h, balanced b h0 h -> exists b' h', run_steps steps b h = Some (b', h') /\ balanced b' h0 h').
  { induction steps as [|s steps IH]; intros b h Hb; cbn [run_steps]; [by eexists _, _|].
    destruct (run_step_ok s b h0 h Hb) as (b1 & h1 & -> & H1). by apply IH. }
  destruct (Hgo no_profile h0 (no_profile_balanced h0)) as (b & h & Hr & Hb). exists b, h. split; [done|]. by apply release_ok.
Qed.
