(* ===== verification/Diagnostics.v ===== *)
(** * What the tools report

    The reports that look something up before they print:
    [profile_print_search_path] of [src/compartment.h], and
    [ed11_emit_unpin_auth_fail], [warn_if_enforcement_without_pins],
    [actor_log_inode_collisions] and the hard-link warning of
    [src/compartment-bpf/compartment-bpf.c]; and that they say what is so. *)

From S2P Require Import Prelude Abi Kernel CLib Config Profile EnvAudit Loader AbiWire AuditLine.
From Stdlib Require Import Ascii Sorted.
From stdpp Require Import strings.

#[local] Open Scope Z_scope.

(** ** Where a profile was looked for *)

(** The files the report names, for the directory it prints as a tilde. *)
Definition announced (home : cstring) (flags : Z) (name : cstring) : list cstring :=
  if strchr name "/"%char then [name]
  else etc_path name :: (if hasbit flags PROFILE_SEARCH_USER then [user_path home name] else []).

Definition conf_hint (name : cstring) : cstring :=
  if Nat.ltb 5 (length name) && streq (drop (length name - 5) name) (lit ".conf")
  then lit "  '" ++ name ++ lit "' has no '/', so it was treated as a profile name and '.conf' was appended." ++ [LF]
       ++ lit "  To load a file in the current directory, write ./" ++ name ++ [LF]
  else [].

Definition profile_print_search_path (name : cstring) (flags : Z) : cstring :=
  if strchr name "/"%char then lit "  looked for the file: " ++ name ++ [LF]
  else conf_hint name ++ lit "  searched: " ++ etc_path name
       ++ (if hasbit flags PROFILE_SEARCH_USER then lit ", " ++ user_path (lit "~") name
           else if negb (hasbit flags PROFILE_OWNER_ROOT) then lit "  (pass --user-profiles to also search ~/.config/compartment/)"
           else [])
       ++ [LF].

Lemma load_lines_found w flags inherit l c : (load_lines w flags inherit l c).1 <> PROFILE_NOT_FOUND.
Proof. revert c. induction l as [|[line eof] l IH]; intros c; cbn; [done|]. destruct (load_line _ _ _ _ _ _); [apply IH|done]. Qed.

Lemma not_found_absent n w flags c p : (load_profile_into n w flags c p).1 = PROFILE_NOT_FOUND -> w_open w p = OpenAbsent.
Proof.
  assert (Hf : profile_fopen_trusted w p flags = inl PROFILE_NOT_FOUND -> w_open w p = OpenAbsent).
  { unfold profile_fopen_trusted. by repeat case_match. }
  destruct n; cbn; destruct (profile_fopen_trusted w p flags) as [rc|s] eqn:E; cbn; intros H; try (subst rc; by apply Hf);
    by destruct (load_lines_found _ _ _ _ _ H).
Qed.

Lemma load_file_rc load flags c p : (load_file_with load flags c p).1 = (load flags c p).1.
Proof. unfold load_file_with. by destruct (load flags c p) as [[] ?]. Qed.

Lemma note_source_rc p r : (note_source p r).1 = r.1.
Proof. by destruct r as [[] ?]. Qed.

(** The report names them. *)
Lemma search_path_complete name flags p :
  p ∈ announced (lit "~") flags name -> exists a b, profile_print_search_path name flags = a ++ p ++ b.
Proof.
  unfold announced, profile_print_search_path. destruct (strchr name "/"%char).
  - intros ->%list_elem_of_singleton. eauto.
  - rewrite elem_of_cons. intros [->|H]; [exists (conf_hint name ++ lit "  searched: "); eexists; rewrite <- !app_assoc; reflexivity|].
    destruct (hasbit flags PROFILE_SEARCH_USER); [|by apply elem_of_nil in H]. apply list_elem_of_singleton in H as ->.
    exists (conf_hint name ++ lit "  searched: " ++ etc_path name ++ lit ", "). eexists. rewrite <- !app_assoc. reflexivity.
Qed.

(** When no profile is found, none of the files the report names exists. *)
Lemma search_path_honest depth w flags c name home :
  (resolve_and_load_profile depth w flags c name).1 = PROFILE_NOT_FOUND ->
  w_home w = Some ("/"%char :: home) ->
  Forall (fun p => (length p < PATH_MAX)%nat) (announced ("/"%char :: home) flags name) ->
  Forall (fun p => w_open w p = OpenAbsent) (announced ("/"%char :: home) flags name).
Proof.
  unfold resolve_and_load_profile, resolve_with, announced. intros H Hh Hl. destruct (strchr name "/"%char).
  - rewrite note_source_rc, load_file_rc in H. apply Forall_singleton. by eapply not_found_absent.
  - apply Forall_cons in Hl as [He Hu]. apply Nat.ltb_lt in He. rewrite He in H. cbv zeta in H.
    set (etc := load_file_with _ _ _ _) in H.
    assert (Hetc : etc.1 = PROFILE_NOT_FOUND).
    { destruct etc.1 eqn:E; rewrite ?note_source_rc in H; congruence. }
    rewrite Hetc in H. constructor; [unfold etc in Hetc; rewrite load_file_rc in Hetc; by eapply not_found_absent|].
    unfold resolve_user_with in H. destruct (hasbit flags PROFILE_SEARCH_USER); [|done]. rewrite Hh in H.
    rewrite Forall_singleton in Hu. apply Nat.ltb_lt in Hu. rewrite Hu, note_source_rc, load_file_rc in H.
    apply Forall_singleton. by eapply not_found_absent.
Qed.

(** ** A refused --unpin *)

(** [/proc/self/comm] as it is read: at most fifteen bytes, without the newlines and
    terminators at its end; as printed, up to the first terminator. *)
Fixpoint strip_end (s : cstring) : cstring :=
  match s with
  | [] => []
  | c :: r => match strip_end r with [] => if Ascii.eqb c LF || Ascii.eqb c NUL then [] else [c] | t => c :: t end
  end.

Definition self_comm (file : option cstring) : cstring :=
  match file with None => [] | Some data => until_nul (strip_end (take 15 data)) end.

Definition ed11_emit_unpin_auth_fail (ts pid ppid uid : Z) (comm : option cstring) (dev ino : Z) : cstring :=
  lit "[audit] " ++ lit (action_name ACTION_DENY_UNPIN_AUTH_FAIL) ++ lit " ts=" ++ print_u ts
  ++ lit " pid=" ++ print_u pid ++ lit " ppid=" ++ print_u ppid ++ lit " uid=" ++ print_u uid
  ++ lit " comm=" ++ self_comm comm ++ lit " dev=" ++ print_u dev ++ lit " ino=" ++ print_u ino ++ [LF].

(** The record of the same refusal. *)
Definition auth_fail_event (ts pid ppid uid : Z) (comm : cstring) (dev ino : Z) : audit_event :=
  AuditEvent COMPARTMENT_ABI_VERSION 0 ts pid ppid uid ACTION_DENY_UNPIN_AUTH_FAIL dev ino 0 0 (cval <$> comm) [].

Lemma safe_name_id s : Forall printable s -> safe_name (cval <$> s) = s.
Proof.
  induction 1 as [|c s Hc Hs IH]; [done|]. cbn [fmap list_fmap safe_name]. rewrite IH. unfold printable in Hc.
  destruct (Z.eqb_spec (cval c) 0); [lia|]. destruct (Z.leb_spec 0x20 (cval c)); [|lia]. destruct (Z.leb_spec (cval c) 0x7e); [|lia].
  cbn [andb]. f_equal. unfold cval, chr. rewrite Nat2Z.id. apply ascii_nat_embedding.
Qed.

(** For a printable name it is the line the audit printer would print. *)
Lemma auth_fail_as_audit ts pid ppid uid comm dev ino :
  Forall printable (self_comm comm) ->
  ed11_emit_unpin_auth_fail ts pid ppid uid comm dev ino = audit_line (auth_fail_event ts pid ppid uid (self_comm comm) dev ino).
Proof. intros H. unfold audit_line, auth_fail_event. cbn [ev_comm ev_action ev_ts_ns ev_pid ev_ppid ev_uid ev_dev ev_ino ev_caller_dev ev_caller_ino]. by rewrite safe_name_id. Qed.

(** Unlike the audit printer, it does not replace control characters: the name of
    the caller can end the line and begin another. *)
Lemma auth_fail_forged :
  exists a b, ed11_emit_unpin_auth_fail 1 2 3 0 (Some (lit "x" ++ [LF] ++ lit "[audit] ALLOW" ++ [LF])) 4 5 = a ++ [LF] ++ lit "[audit] ALLOW" ++ b.
Proof.
  exists (lit "[audit] DENY_UNPIN_AUTH_FAIL ts=1 pid=2 ppid=3 uid=0 comm=x"), (lit " dev=4 ino=5" ++ [LF]). vm_compute. reflexivity.
Qed.

(** ** Programs without pins *)

Section Programs.
(** The loaded programs, by ascending id, with their name where the process may ask
    for it. *)
Context (progs : list (Z * option cstring)).

Definition next_id (id : Z) : option (Z * option cstring) := List.find (fun p => id <? p.1) progs.

Definition ours (p : Z * option cstring) : bool := match p.2 with Some n => has_prefix (lit "comp_") n | None => false end.

(** [None]: out of fuel. *)
Fixpoint live_loop (fuel : nat) (id : Z) (live : nat) : option nat :=
  match fuel with
  | O => None
  | S f => match next_id id with
           | None => Some live
           | Some p => live_loop f p.1 (if ours p then S live else live)
           end
  end.

(** Whether the warning is printed. *)
Definition warn_if_enforcement_without_pins : option bool :=
  live ← live_loop (S (length progs)) 0 0; Some (negb (Nat.eqb live 0)).
End Programs.

Lemma next_id_skip l r id : Forall (fun p => p.1 <= id) l -> next_id (l ++ r) id = next_id r id.
Proof. induction 1 as [|p l Hp Hl IH]; [done|]. cbn. destruct (Z.ltb_spec id p.1); [lia|done]. Qed.

Lemma live_loop_exact l r fuel id live :
  Forall (fun p => p.1 <= id) l -> StronglySorted Z.lt (id :: r.*1) -> (length r < fuel)%nat ->
  live_loop (l ++ r) fuel id live = Some (live + length (List.filter ours r))%nat.
Proof.
  revert l fuel id live. induction r as [|p r IH]; intros l fuel id live Hl Hs Hf; destruct fuel as [|fuel]; try (cbn in Hf; lia); cbn [live_loop].
  - rewrite next_id_skip by done. cbn. f_equal. lia.
  - rewrite next_id_skip by done. cbn [fmap list_fmap] in Hs. apply StronglySorted_inv in Hs as [Hs Hi]. apply Forall_cons in Hi as [Hp _].
    cbn [next_id List.find]. destruct (Z.ltb_spec id p.1); [|lia].
    assert (E : l ++ p :: r = (l ++ [p]) ++ r) by (by rewrite <- app_assoc). rewrite E, IH; [|..|cbn in Hf; lia].
    + cbn [List.filter]. destruct (ours p); cbn [length]; f_equal; lia.
    + apply Forall_app. split; [eapply Forall_impl; [exact Hl|]; intros q Hq; cbn in Hq; lia|by apply Forall_singleton].
    + done.
Qed.

(** The scan ends, and the warning is printed exactly when a program of this tool is
    among those the process can see. *)
Lemma live_programs_reported progs :
  StronglySorted Z.lt (0 :: progs.*1) -> warn_if_enforcement_without_pins progs = Some (existsb ours progs).
Proof.
  intros Hs. unfold warn_if_enforcement_without_pins. rewrite (live_loop_exact [] progs) by (try done; lia). cbn [mbind option_bind Nat.add].
  f_equal. induction progs as [|p progs IH]; [done|]. cbn [List.filter existsb]. destruct (ours p); [done|]. cbn [orb]. apply IH.
  cbn [fmap list_fmap] in Hs. apply StronglySorted_inv in Hs as [Hs Hi]. apply StronglySorted_inv in Hs as [Hs _].
  apply Forall_cons in Hi as [_ Hi]. by constructor.
Qed.

(** ** Hard links to actor binaries *)

Inductive hardlink_report := HardlinksFine | HardlinksOpen | HardlinksUnknown.

(** What opening [/proc/sys/fs/protected_hardlinks] gives, and then reading it. *)
Definition hardlink_warning (file : option (option cstring)) : hardlink_report :=
  match file with
  | None => HardlinksUnknown
  | Some (Some (c :: _)) => if Ascii.eqb c "0"%char then HardlinksOpen else HardlinksFine
  | Some _ => HardlinksFine
  end.

(** A file that opens but cannot be read is taken for a safe setting. *)
Lemma hardlink_read_silent : hardlink_warning (Some None) = HardlinksFine /\ hardlink_warning None = HardlinksUnknown.
Proof. done. Qed.

(** ** Binaries of more than one actor *)

(** The lines for one binary of [a] and a later group. *)
Definition shared_with (a : actor_group) (k : actor_id) (b : actor_group) : list (cstring * cstring * actor_id) :=
  match ag_bin b with
  | None => []
  | Some l => (fun m => (ag_name a, ag_name b, k))
              <$> List.filter (fun m => (actor_dev k =? actor_dev m) && (actor_ino k =? actor_ino m)) l
  end.

Fixpoint actor_log_inode_collisions (l : list actor_group) : list (cstring * cstring * actor_id) :=
  match l with
  | [] => []
  | a :: rest =>
      match ag_bin a with
      | None => []
      | Some bins => mjoin ((fun k => mjoin (shared_with a k <$> rest)) <$> bins)
      end ++ actor_log_inode_collisions rest
  end.

Definition bins_of (g : actor_group) : list actor_id := default [] (ag_bin g).

Lemma shared_with_spec a k b x : x ∈ shared_with a k b <-> x = (ag_name a, ag_name b, k) /\ k ∈ bins_of b.
Proof.
  unfold shared_with, bins_of. destruct (ag_bin b) as [l|]; cbn [default]; [|set_solver].
  rewrite list_elem_of_fmap. split.
  - intros (m & -> & Hm). split; [done|]. apply list_elem_of_In, filter_In in Hm as [Hm [H1 H2]%andb_true_iff].
    apply Z.eqb_eq in H1, H2. apply list_elem_of_In. destruct k, m. cbn in *. by subst.
  - intros [-> Hk]. exists k. split; [done|]. apply list_elem_of_In, filter_In. split; [by apply list_elem_of_In|].
    by rewrite !Z.eqb_refl.
Qed.

(** A line is printed exactly for a binary of one group that is also one of a later
    group. *)
Lemma collision_reported l n n' k :
  (n, n', k) ∈ actor_log_inode_collisions l <->
  exists i j a b, (i < j)%nat /\ l !! i = Some a /\ l !! j = Some b /\ ag_name a = n /\ ag_name b = n' /\ k ∈ bins_of a /\ k ∈ bins_of b.
Proof.
  induction l as [|a l IH]; cbn [actor_log_inode_collisions]; [set_solver|]. rewrite elem_of_app, IH.
  assert (Ha : (n, n', k) ∈ match ag_bin a with None => [] | Some bins => mjoin ((fun k => mjoin (shared_with a k <$> l)) <$> bins) end
    <-> exists j b, l !! j = Some b /\ ag_name a = n /\ ag_name b = n' /\ k ∈ bins_of a /\ k ∈ bins_of b).
  { unfold bins_of at 1. destruct (ag_bin a) as [bins|]; cbn [default]; [|split; [by intros ?%elem_of_nil|by intros (j & b & _ & _ & _ & ?%elem_of_nil & _)]].
    rewrite list_elem_of_join. split.
    - intros (x & Hx & (k' & -> & Hk')%list_elem_of_fmap). apply list_elem_of_join in Hx as (y & Hy & (b & -> & Hb)%list_elem_of_fmap).
      apply shared_with_spec in Hy as [[= -> -> ->] Hk]. apply list_elem_of_lookup in Hb as [j Hj]. eauto 10.
    - intros (j & b & Hj & <- & <- & Hk & Hk'). exists (mjoin (shared_with a k <$> l)). split.
      + apply list_elem_of_join. exists (shared_with a k b). split; [by apply shared_with_spec|].
        apply list_elem_of_fmap. exists b. split; [done|]. by eapply list_elem_of_lookup_2.
      + apply list_elem_of_fmap. eauto. }
  rewrite Ha. split.
  - intros [(j & b & Hj & H)|(i & j & a' & b & Hij & Hi & Hj & H)].
    + exists 0%nat, (S j), a, b. naive_solver lia.
    + exists (S i), (S j), a', b. naive_solver lia.
  - intros (i & j & a' & b & Hij & Hi & Hj & H). destruct j as [|j]; [lia|]. destruct i as [|i]; cbn in Hi, Hj.
    + left. simplify_eq. eauto 10.
    + right. exists i, j, a', b. naive_solver lia.
Qed.
